(** * Rated-capacity tab: data normalisation and aggregation

    A shallow embedding of the helper functions of the rated-capacity
    dashboard tab (month keys, date keys, CSV ingestion of the daily
    series, rated-capacity aggregation, year-over-year growth and the
    chart-axis domain), with the properties the specification states
    about them; and of the code around them (the month pickers and the
    month selection, the stored daily map, day arithmetic on date keys,
    the daily chart, the capacity CSV and the capacity history), with
    further properties read off the code.

    Conventions of the embedding.

    - A JavaScript string is a [string]: one [ascii] per UTF-16 code
      unit, which covers the code units below 256.
    - A JavaScript number is a [number]: a rational that stands for a
      binary64 value, or one of NaN, +Infinity, -Infinity.  Addition,
      subtraction, multiplication and division round their exact result
      to the nearest binary64 value, ties to even, with gradual
      underflow and overflow to an infinity ([JsNum.round64]); their
      operands are meant to be binary64 values ([binary64 q]), and a
      decimal literal of the source that is not one is written
      [JsNum.lit q].  Comparisons, [Math.min], [Math.max], [Math.abs]
      and [Math.round] are exact.  [Number(s)] keeps the exact value of
      the literal it reads, with the finiteness test of binary64.  The
      sign of zero is not represented.
    - [undefined] and [null] are [None] of an option type, or the
      constructor [Undefined] of [jsval] where the source converts an
      arbitrary value.
    - [Map<string, number>] and objects used as records are
      [gmap string number]. *)

From Stdlib Require Import ZArith QArith Qabs Qround Qcanon Qminmax Qpower Lia Lqa.
From Stdlib Require Import Strings.String Strings.Ascii.
From Stdlib Require Import Sorting.Sorted Sorting.Permutation.
From stdpp Require Import base list strings gmap.

(* ===================================================================== *)
(** ** Numbers *)
(* ===================================================================== *)

Inductive number : Type :=
  | Num (q : Q)
  | NaN
  | PInf
  | NInf.

Module JsNum.

Definition ofZ (z : Z) : number := Num (inject_Z z).

(** [Number.isFinite] *)
Definition isFinite (n : number) : bool :=
  match n with Num _ => true | _ => false end.

(** Sign of a rational: [Lt] negative, [Eq] zero, [Gt] positive. *)
Definition Qsign (q : Q) : comparison := (Qnum q ?= 0)%Z.

(** *** Rounding to binary64 *)

Definition pow2 (e : Z) : Q := (2 ^ e)%Q.

(** The binary exponent of a positive rational [q]: the [e] with
    [2^e <= q < 2^(e+1)]. *)
Definition binade (q : Q) : Z :=
  let e := (Z.log2 (Qnum q) - Z.log2 (Zpos (Qden q)))%Z in
  if Qle_bool (pow2 e) q then e else (e - 1)%Z.

(** The integer nearest to [t], a tie going to the even one. *)
Definition roundEven (t : Q) : Z :=
  let k := Qfloor t in
  match (t - inject_Z k ?= 1 # 2)%Q with
  | Lt => k
  | Gt => (k + 1)%Z
  | Eq => if Z.even k then k else (k + 1)%Z
  end.

(** The spacing of the binary64 values around a positive [a]:
    [2^(e-52)], where [e] is the binary exponent of [a], not below
    -1022. *)
Definition ulp (a : Q) : Q := pow2 (Z.max (binade a) (-1022) - 52).

(** The multiple of the spacing nearest to a positive [a], a tie going
    to the even multiple. *)
Definition nearest (a : Q) : Q := (inject_Z (roundEven (a / ulp a)) * ulp a)%Q.

(** The binary64 value nearest to [q], ties to even; a magnitude that
    rounds to [2^1024] overflows to an infinity. *)
Definition round64 (q : Q) : number :=
  match Qsign q with
  | Eq => Num 0
  | Gt =>
      let v := nearest q in
      if Qle_bool (pow2 1024) v then PInf else Num (Qred v)
  | Lt =>
      let v := nearest (- q) in
      if Qle_bool (pow2 1024) v then NInf else Num (Qred (- v))
  end.

(** A decimal literal of the source. *)
Definition lit (q : Q) : number := round64 q.

Definition neg (a : number) : number :=
  match a with
  | Num x => Num (Qred (- x))
  | NaN => NaN
  | PInf => NInf
  | NInf => PInf
  end.

Definition add (a b : number) : number :=
  match a, b with
  | NaN, _ | _, NaN => NaN
  | Num x, Num y => round64 (x + y)
  | PInf, NInf | NInf, PInf => NaN
  | PInf, _ | _, PInf => PInf
  | NInf, _ | _, NInf => NInf
  end.

Definition sub (a b : number) : number :=
  match a, b with
  | NaN, _ | _, NaN => NaN
  | Num x, Num y => round64 (x - y)
  | PInf, PInf | NInf, NInf => NaN
  | PInf, _ | _, NInf => PInf
  | NInf, _ | _, PInf => NInf
  end.

(** Infinity scaled by a finite factor. *)
Definition scaleInf (pos : bool) (q : Q) : number :=
  match Qsign q with
  | Eq => NaN
  | Gt => if pos then PInf else NInf
  | Lt => if pos then NInf else PInf
  end.

Definition mul (a b : number) : number :=
  match a, b with
  | NaN, _ | _, NaN => NaN
  | Num x, Num y => round64 (x * y)
  | PInf, Num y | Num y, PInf => scaleInf true y
  | NInf, Num y | Num y, NInf => scaleInf false y
  | PInf, PInf | NInf, NInf => PInf
  | PInf, NInf | NInf, PInf => NInf
  end.

Definition div (a b : number) : number :=
  match a, b with
  | NaN, _ | _, NaN => NaN
  | Num x, Num y =>
      match Qsign y with
      | Eq => scaleInf true x
      | _ => round64 (x / y)
      end
  | Num _, _ => Num 0
  | PInf, Num y => match Qsign y with Lt => NInf | _ => PInf end
  | NInf, Num y => match Qsign y with Lt => PInf | _ => NInf end
  | _, _ => NaN
  end.

(** [a < b]; false as soon as one side is NaN. *)
Definition ltb (a b : number) : bool :=
  match a, b with
  | NaN, _ | _, NaN => false
  | Num x, Num y => match (x ?= y)%Q with Lt => true | _ => false end
  | NInf, NInf => false
  | NInf, _ => true
  | _, NInf => false
  | PInf, _ => false
  | _, PInf => true
  end.

(** [a === b] on numbers. *)
Definition eqb (a b : number) : bool :=
  match a, b with
  | Num x, Num y => Qeq_bool x y
  | PInf, PInf | NInf, NInf => true
  | _, _ => false
  end.

(** [a <= b] *)
Definition leb (a b : number) : bool := ltb a b || eqb a b.

(** [Math.abs] *)
Definition abs (a : number) : number :=
  match a with
  | Num x => Num (Qred (Qabs x))
  | NaN => NaN
  | _ => PInf
  end.

(** [Math.max] of two arguments *)
Definition max (a b : number) : number :=
  match a, b with
  | NaN, _ | _, NaN => NaN
  | _, _ => if ltb a b then b else a
  end.

(** [Math.min] of two arguments *)
Definition min (a b : number) : number :=
  match a, b with
  | NaN, _ | _, NaN => NaN
  | _, _ => if ltb b a then b else a
  end.

(** [Math.round]: the nearest integer, halves towards +Infinity. *)
Definition round (a : number) : number :=
  match a with
  | Num x => ofZ (Qfloor (x + (1 # 2)))
  | _ => a
  end.

(** [ToIntegerOrInfinity] of a finite number: truncation towards zero. *)
Definition truncate (q : Q) : Z := Qnum q ÷ Zpos (Qden q).

End JsNum.

(* ===================================================================== *)
(** ** Strings *)
(* ===================================================================== *)

Module Str.

Definition LF : ascii := "010"%char.
Definition CR : ascii := "013"%char.

(** WhiteSpace and LineTerminator code units below 256:
    TAB, LF, VT, FF, CR, SP, NBSP. *)
Definition isWhiteSpace (c : ascii) : bool :=
  let n := nat_of_ascii c in
  ((9 <=? n) && (n <=? 13)) || (n =? 32) || (n =? 160).

(** The class [\d] of a regular expression without the unicode flag. *)
Definition isDigit (c : ascii) : bool :=
  let n := nat_of_ascii c in (48 <=? n) && (n <=? 57).

Definition isEmpty (s : string) : bool :=
  match s with EmptyString => true | _ => false end.

Fixpoint allDigits (s : string) : bool :=
  match s with
  | EmptyString => true
  | String c r => isDigit c && allDigits r
  end.

Fixpoint trimStart (s : string) : string :=
  match s with
  | EmptyString => EmptyString
  | String c r => if isWhiteSpace c then trimStart r else s
  end.

Fixpoint trimEnd (s : string) : string :=
  match s with
  | EmptyString => EmptyString
  | String c r =>
      let r' := trimEnd r in
      if isWhiteSpace c && isEmpty r' then EmptyString else String c r'
  end.

(** [String.prototype.trim] *)
Definition trim (s : string) : string := trimEnd (trimStart s).

(** Push a code unit in front of the first piece of a split. *)
Definition consHead (c : ascii) (l : list string) : list string :=
  match l with
  | h :: t => String c h :: t
  | [] => [String c EmptyString]
  end.

(** [s.split(sep)] for a one-character separator. *)
Fixpoint split (sep : ascii) (s : string) : list string :=
  match s with
  | EmptyString => [EmptyString]
  | String c r =>
      if Ascii.eqb c sep then EmptyString :: split sep r
      else consHead c (split sep r)
  end.

(** [s.split(/\r?\n/)] *)
Fixpoint splitLines (s : string) : list string :=
  match s with
  | EmptyString => [EmptyString]
  | String c r =>
      if Ascii.eqb c LF then EmptyString :: splitLines r
      else
        match r with
        | String d r' =>
            if Ascii.eqb c CR && Ascii.eqb d LF
            then EmptyString :: splitLines r'
            else consHead c (splitLines r)
        | EmptyString => consHead c (splitLines r)
        end
  end.

(** [lines.join("\n")] *)
Fixpoint joinLines (l : list string) : string :=
  match l with
  | [] => EmptyString
  | [x] => x
  | x :: t => x +:+ String LF (joinLines t)
  end.

Definition lowerChar (c : ascii) : ascii :=
  let n := nat_of_ascii c in
  if ((65 <=? n) && (n <=? 90))
     || ((192 <=? n) && (n <=? 222) && negb (n =? 215))
  then ascii_of_nat (n + 32) else c.

(** [String.prototype.toLowerCase] *)
Fixpoint toLowerCase (s : string) : string :=
  match s with
  | EmptyString => EmptyString
  | String c r => String (lowerChar c) (toLowerCase r)
  end.

(** [s.includes(needle)] *)
Fixpoint includes (needle s : string) : bool :=
  String.prefix needle s
  || match s with
     | EmptyString => false
     | String _ r => includes needle r
     end.

(** [s.replace(/c/g, "")]: drop every occurrence of one code unit. *)
Fixpoint removeAll (c : ascii) (s : string) : string :=
  match s with
  | EmptyString => EmptyString
  | String d r => if Ascii.eqb d c then removeAll c r else String d (removeAll c r)
  end.

(** [s.slice(0, n)] and [s.slice(n)] for a non-negative [n]. *)
Fixpoint take (n : nat) (s : string) : string :=
  match n, s with
  | S n', String c r => String c (take n' r)
  | _, _ => EmptyString
  end.

Fixpoint drop (n : nat) (s : string) : string :=
  match n, s with
  | S n', String _ r => drop n' r
  | _, _ => s
  end.

Fixpoint replicate (n : nat) (c : ascii) : string :=
  match n with
  | O => EmptyString
  | S n' => String c (replicate n' c)
  end.

(** [s.padStart(n, "0")] *)
Definition padStart0 (n : nat) (s : string) : string :=
  replicate (n - String.length s) "0"%char +:+ s.

(** Pieces of the anchored patterns the source tests with. *)
Fixpoint takeDigits (n : nat) (s : string) : option (string * string) :=
  match n with
  | O => Some (EmptyString, s)
  | S n' =>
      match s with
      | String c r =>
          if isDigit c then
            match takeDigits n' r with
            | Some (d, rest) => Some (String c d, rest)
            | None => None
            end
          else None
      | EmptyString => None
      end
  end.

Definition takeChar (c : ascii) (s : string) : option string :=
  match s with
  | String d r => if Ascii.eqb d c then Some r else None
  | EmptyString => None
  end.

Definition atEnd (s : string) : option unit :=
  match s with EmptyString => Some tt | _ => None end.

End Str.

(* ===================================================================== *)
(** ** Conversions between strings and numbers *)
(* ===================================================================== *)

Module Conv.
Import Str.

Definition digitVal (c : ascii) : Z := Z.of_nat (nat_of_ascii c) - 48.

Definition digitChar (d : Z) : ascii := ascii_of_nat (48 + Z.to_nat d).

Fixpoint digitsValue (acc : Z) (s : string) : Z :=
  match s with
  | EmptyString => acc
  | String c r => digitsValue (acc * 10 + digitVal c) r
  end.

(** Longest prefix of decimal digits, and what follows it. *)
Fixpoint spanDigits (s : string) : string * string :=
  match s with
  | String c r =>
      if isDigit c then let '(d, rest) := spanDigits r in (String c d, rest)
      else (EmptyString, s)
  | EmptyString => (EmptyString, EmptyString)
  end.

(** Decimal digits of a non-negative integer, most significant first. *)
Fixpoint natDigits (fuel : nat) (n : Z) (acc : string) : string :=
  match fuel with
  | O => acc
  | S f =>
      let acc' := String (digitChar (n mod 10)) acc in
      if (n <? 10)%Z then acc' else natDigits f (n / 10) acc'
  end.

Definition showNat (n : Z) : string :=
  natDigits (S (Z.to_nat (Z.log2 n))) n EmptyString.

Definition showZ (z : Z) : string :=
  if (z <? 0)%Z then String "-" (showNat (- z)) else showNat z.

(** *** [StringToNumber] *)

(** Magnitudes from [2^1024 - 2^970] on are beyond the largest binary64
    value and convert to an infinity. *)
Definition overflowBound : Q := inject_Z (2 ^ 1024 - 2 ^ 970).

Definition ofRational (q : Q) : number :=
  if Qle_bool overflowBound q then PInf
  else if Qle_bool q (- overflowBound) then NInf
  else Num (Qred q).

(** ExponentPart, optional, up to the end of the literal. *)
Definition parseExponent (s : string) : option Z :=
  match s with
  | EmptyString => Some 0%Z
  | String c r =>
      if Ascii.eqb c "e" || Ascii.eqb c "E" then
        let '(negative, ds) :=
          match r with
          | String "+" r' => (false, r')
          | String "-" r' => (true, r')
          | _ => (false, r)
          end in
        if allDigits ds && negb (isEmpty ds)
        then Some (if negative then - digitsValue 0 ds else digitsValue 0 ds)%Z
        else None
      else None
  end.

(** StrUnsignedDecimalLiteral other than [Infinity]. *)
Definition parseUnsignedDecimal (s : string) : option Q :=
  let '(ip, r1) := spanDigits s in
  let '(fp, r2) :=
    match r1 with
    | String "." r => spanDigits r
    | _ => (EmptyString, r1)
    end in
  if isEmpty ip && isEmpty fp then None
  else
    match parseExponent r2 with
    | Some e =>
        Some (inject_Z (digitsValue 0 (ip +:+ fp))
              * Qpower 10 (e - Z.of_nat (String.length fp)))%Q
    | None => None
    end.

Definition parseUnsigned (s : string) : option number :=
  if String.eqb s "Infinity" then Some PInf
  else option_map ofRational (parseUnsignedDecimal s).

(** StrDecimalLiteral *)
Definition parseDecimal (s : string) : option number :=
  match s with
  | String "+" r => parseUnsigned r
  | String "-" r => option_map JsNum.neg (parseUnsigned r)
  | _ => parseUnsigned s
  end.

Definition radixDigit (radix : Z) (c : ascii) : option Z :=
  let n := Z.of_nat (nat_of_ascii c) in
  let v :=
    if ((48 <=? n) && (n <=? 57))%Z then Some (n - 48)%Z
    else if ((97 <=? n) && (n <=? 102))%Z then Some (n - 87)%Z
    else if ((65 <=? n) && (n <=? 70))%Z then Some (n - 55)%Z
    else None in
  match v with
  | Some d => if (d <? radix)%Z then Some d else None
  | None => None
  end.

Fixpoint radixValue (radix : Z) (acc : Z) (s : string) : option Z :=
  match s with
  | EmptyString => Some acc
  | String c r =>
      match radixDigit radix c with
      | Some d => radixValue radix (acc * radix + d)%Z r
      | None => None
      end
  end.

(** NonDecimalIntegerLiteral: [0x], [0o], [0b] and their capitals. *)
Definition parseNonDecimal (s : string) : option number :=
  match s with
  | String "0" (String p r) =>
      let radix :=
        if Ascii.eqb p "x" || Ascii.eqb p "X" then Some 16%Z
        else if Ascii.eqb p "o" || Ascii.eqb p "O" then Some 8%Z
        else if Ascii.eqb p "b" || Ascii.eqb p "B" then Some 2%Z
        else None in
      match radix with
      | Some b =>
          if isEmpty r then None
          else option_map (fun z => ofRational (inject_Z z)) (radixValue b 0 r)
      | None => None
      end
  | _ => None
  end.

(** [Number(s)] for a string [s]. *)
Definition StringToNumber (s : string) : number :=
  let t := trim s in
  if isEmpty t then Num 0
  else
    match parseNonDecimal t with
    | Some n => n
    | None =>
        match parseDecimal t with
        | Some n => n
        | None => NaN
        end
    end.

End Conv.

Module NumStr.
Import Str Conv.

(** The least [n] with [q < 10^n], for a positive [q]. *)
Definition decimalExponent (q : Q) : Z :=
  let da := Z.of_nat (String.length (showNat (Qnum q))) in
  let db := Z.of_nat (String.length (showNat (Zpos (Qden q)))) in
  let m := (da - db)%Z in
  match (q ?= Qpower 10 m)%Q with
  | Lt => m
  | _ => (m + 1)%Z
  end.

(** Seventeen significant digits of a positive [q], the most a binary64
    value prints; exact when [q] has no more. *)
Definition significand17 (q : Q) : Z * Z :=
  let n := decimalExponent q in
  let s := Qfloor (q * Qpower 10 (17 - n) + (1 # 2)) in
  if (s =? 10 ^ 17)%Z then ((n + 1)%Z, (10 ^ 16)%Z) else (n, s).

Fixpoint stripZeros (fuel : nat) (s : Z) : Z :=
  match fuel with
  | O => s
  | S f => if ((s mod 10 =? 0) && (10 <=? s))%Z then stripZeros f (s / 10) else s
  end.

(** Steps 5 to 10 of Number::toString for radix 10, on a positive [q]. *)
Definition showPositive (q : Q) : string :=
  let '(n, s17) := significand17 q in
  let digits := showNat (stripZeros 17 s17) in
  let k := Z.of_nat (String.length digits) in
  if ((k <=? n) && (n <=? 21))%Z then
    digits +:+ replicate (Z.to_nat (n - k)) "0"%char
  else if ((0 <? n) && (n <=? 21))%Z then
    take (Z.to_nat n) digits +:+ String "." (drop (Z.to_nat n) digits)
  else if ((-6 <? n) && (n <=? 0))%Z then
    "0." +:+ replicate (Z.to_nat (- n)) "0"%char +:+ digits
  else
    let e := (n - 1)%Z in
    let es := (if (e <? 0)%Z then "-" else "+") +:+ showNat (Z.abs e) in
    if (k =? 1)%Z then digits +:+ String "e" es
    else take 1 digits +:+ String "." (drop 1 digits) +:+ String "e" es.

(** [String(n)], also the conversion inside a template literal. *)
Definition numberToString (n : number) : string :=
  match n with
  | NaN => "NaN"
  | PInf => "Infinity"
  | NInf => "-Infinity"
  | Num q =>
      let r := Qred q in
      match JsNum.Qsign r with
      | Eq => "0"
      | Gt => showPositive r
      | Lt => String "-" (showPositive (Qred (- r)))
      end
  end.

End NumStr.

(* ===================================================================== *)
(** ** Dates *)
(* ===================================================================== *)

(** What [Date.parse] does with a day of the month that is at most 31 but
    past the end of its month, as in [2024-02-31]: V8 carries the excess
    days into the next month ([RollOver]); SpiderMonkey answers NaN
    ([Reject]).  Every other part of the date model is common to both. *)
Inductive dayOverflow : Type := RollOver | Reject.

Module JsDate.
Import Str Conv.
Local Open Scope Z_scope.

(** Time values are milliseconds since the epoch; the day arithmetic is
    that of ECMA-262. *)
Definition msPerDay : Z := 86400000.

Definition DayFromYear (y : Z) : Z :=
  365 * (y - 1970) + (y - 1969) / 4 - (y - 1901) / 100 + (y - 1601) / 400.

Definition InLeapYear (y : Z) : Z :=
  if negb (y mod 4 =? 0) then 0
  else if negb (y mod 100 =? 0) then 1
  else if negb (y mod 400 =? 0) then 0
  else 1.

Definition DaysInYear (y : Z) : Z := 365 + InLeapYear y.

(** The largest year whose first day is not after day [d]. *)
Definition YearFromDay (d : Z) : Z :=
  let y0 := 1970 + (d * 400) / 146097 in
  if d <? DayFromYear y0 then y0 - 1
  else if DayFromYear (y0 + 1) <=? d then y0 + 1
  else y0.

Definition Day (t : Z) : Z := t / msPerDay.

Definition YearFromTime (t : Z) : Z := YearFromDay (Day t).

Definition DayWithinYear (t : Z) : Z := Day t - DayFromYear (YearFromTime t).

(** Day within the year on which month [m] (0 to 11) starts. *)
Definition monthStart (m leap : Z) : Z :=
  match m with
  | 0 => 0
  | 1 => 31
  | 2 => 59 + leap
  | 3 => 90 + leap
  | 4 => 120 + leap
  | 5 => 151 + leap
  | 6 => 181 + leap
  | 7 => 212 + leap
  | 8 => 243 + leap
  | 9 => 273 + leap
  | 10 => 304 + leap
  | _ => 334 + leap
  end.

Definition MonthFromTime (t : Z) : Z :=
  let d := DayWithinYear t in
  let leap := InLeapYear (YearFromTime t) in
  if d <? 31 then 0
  else if d <? 59 + leap then 1
  else if d <? 90 + leap then 2
  else if d <? 120 + leap then 3
  else if d <? 151 + leap then 4
  else if d <? 181 + leap then 5
  else if d <? 212 + leap then 6
  else if d <? 243 + leap then 7
  else if d <? 273 + leap then 8
  else if d <? 304 + leap then 9
  else if d <? 334 + leap then 10
  else 11.

Definition DateFromTime (t : Z) : Z :=
  DayWithinYear t - monthStart (MonthFromTime t) (InLeapYear (YearFromTime t)) + 1.

(** [MakeDay] on integral arguments. *)
Definition MakeDay (year month date : Z) : Z :=
  let ym := year + month / 12 in
  let mn := month mod 12 in
  DayFromYear ym + monthStart mn (InLeapYear ym) + date - 1.

(** [TimeClip]; [None] is NaN, the time value of an invalid date. *)
Definition TimeClip (t : Z) : option Z :=
  if Z.abs t <=? 8640000000000000 then Some t else None.

(** [Date.UTC(year, month, date)]: years 0 to 99 stand for 1900 to 1999. *)
Definition UTC (year month date : number) : option Z :=
  match year, month, date with
  | Num y, Num m, Num d =>
      let yi := JsNum.truncate y in
      let yr := if (0 <=? yi) && (yi <=? 99) then 1900 + yi else yi in
      TimeClip (MakeDay yr (JsNum.truncate m) (JsNum.truncate d) * msPerDay)
  | _, _, _ => None
  end.

Definition getUTCFullYear (t : option Z) : number :=
  match t with Some t => JsNum.ofZ (YearFromTime t) | None => NaN end.

Definition getUTCMonth (t : option Z) : number :=
  match t with Some t => JsNum.ofZ (MonthFromTime t) | None => NaN end.

Definition getUTCDate (t : option Z) : number :=
  match t with Some t => JsNum.ofZ (DateFromTime t) | None => NaN end.

(** The date-time strings the source builds: [YYYY-MM-DD] followed by
    [T00:00:00Z].  Month 01 to 12 and day 01 to 31 are the bounds of the
    Date Time String Format; a string of another form is not one the
    source passes and is left unparsed. *)
Definition parseDateTime (ov : dayOverflow) (s : string) : option Z :=
  '(y, r) ← takeDigits 4 s;
  r ← takeChar "-" r;
  '(m, r) ← takeDigits 2 r;
  r ← takeChar "-" r;
  '(d, r) ← takeDigits 2 r;
  if String.eqb r "T00:00:00Z" then
    let yv := digitsValue 0 y in
    let mv := digitsValue 0 m in
    let dv := digitsValue 0 d in
    if (1 <=? mv) && (mv <=? 12) && (1 <=? dv) && (dv <=? 31) then
      let lastDay := MakeDay yv mv 1 - MakeDay yv (mv - 1) 1 in
      match ov with
      | Reject => if dv <=? lastDay then TimeClip (MakeDay yv (mv - 1) dv * msPerDay) else None
      | RollOver => TimeClip (MakeDay yv (mv - 1) dv * msPerDay)
      end
    else None
  else None.

(** [d.setUTCDate(date)] on a valid date. *)
Definition setUTCDate (t : Z) (date : Z) : option Z :=
  TimeClip (MakeDay (YearFromTime t) (MonthFromTime t) date * msPerDay + t mod msPerDay).

Definition pad (n : nat) (z : Z) : string := padStart0 n (showNat z).

(** [d.toISOString()] on a valid date; years outside 0 to 9999 take the
    expanded form with a sign and six digits. *)
Definition toISOString (t : Z) : string :=
  let y := YearFromTime t in
  let ms := t mod msPerDay in
  let ys :=
    if (0 <=? y) && (y <=? 9999) then pad 4 y
    else String (if y <? 0 then "-"%char else "+"%char) (pad 6 (Z.abs y)) in
  ys +:+ "-" +:+ pad 2 (MonthFromTime t + 1) +:+ "-" +:+ pad 2 (DateFromTime t)
  +:+ "T" +:+ pad 2 (ms / 3600000) +:+ ":" +:+ pad 2 (ms / 60000 mod 60)
  +:+ ":" +:+ pad 2 (ms / 1000 mod 60) +:+ "." +:+ pad 3 (ms mod 1000) +:+ "Z".

End JsDate.

(* ===================================================================== *)
(** ** Values, arrays and objects *)
(* ===================================================================== *)

(** The values the helpers convert with [Number(x)]. *)
Inductive jsval : Type :=
  | Undefined
  | VNum (n : number)
  | VStr (s : string).

(** [Number(x)] *)
Definition ToNumber (x : jsval) : number :=
  match x with
  | Undefined => NaN
  | VNum n => n
  | VStr s => Conv.StringToNumber s
  end.

(** [obj[k]] on an object that holds numbers. *)
Definition prop (obj : gmap string number) (k : string) : jsval :=
  match obj !! k with
  | Some n => VNum n
  | None => Undefined
  end.

(** Whether a match, a date or a lookup yielded something. *)
Definition isSome {A : Type} (o : option A) : bool :=
  match o with Some _ => true | None => false end.

(** A number or [undefined], used as an operand. *)
Definition operand (o : option number) : number :=
  match o with Some n => n | None => NaN end.

(** [a !== b] where each side is a number or [undefined]. *)
Definition strictNe (a b : option number) : bool :=
  match a, b with
  | Some x, Some y => negb (JsNum.eqb x y)
  | None, None => false
  | _, _ => true
  end.

Module JsArray.

Section Sort.
Context {A : Type}.
Variable comparefn : A -> A -> number.

(** [SortCompare]: a NaN from the comparator counts as zero. *)
Definition before (x y : A) : bool := JsNum.ltb (comparefn x y) (Num 0).

Fixpoint insert (x : A) (l : list A) : list A :=
  match l with
  | [] => [x]
  | y :: l' => if before x y then x :: l else y :: insert x l'
  end.

(** [arr.slice().sort(comparefn)]: a stable sort.  With a comparator
    that is a consistent ordering every stable sort yields this list. *)
Definition sort (l : list A) : list A :=
  foldl (fun acc x => insert x acc) [] l.
End Sort.

End JsArray.

(* ===================================================================== *)
(** ** Generic helpers *)
(* ===================================================================== *)

Definition SOURCES : list string :=
  ["Coal"; "Oil & Gas"; "Nuclear"; "Hydro"; "Solar"; "Wind"; "Small-Hydro";
   "Bio Power"].

Definition round2 (n : number) : number :=
  JsNum.div (JsNum.round (JsNum.mul n (Num 100))) (Num 100).

Definition safeNum (x : jsval) : number :=
  let n := ToNumber x in
  if JsNum.isFinite n then n else Num 0.

Definition sumSources (obj : gmap string number) (keys : list string) : number :=
  foldl (fun acc k => JsNum.add acc (safeNum (prop obj k))) (Num 0) keys.

(* ===================================================================== *)
(** ** Month keys *)
(* ===================================================================== *)

Definition compareMonthKey (a b : string) : number :=
  let pa := map Conv.StringToNumber (Str.split "/" a) in
  let pb := map Conv.StringToNumber (Str.split "/" b) in
  let am := pa !! 0%nat in
  let ay := pa !! 1%nat in
  let bm := pb !! 0%nat in
  let by' := pb !! 1%nat in
  if strictNe ay by' then JsNum.sub (operand ay) (operand by')
  else JsNum.sub (operand am) (operand bm).

(** The descending scan of [clampMonthKeyToOptions]: index [n - 1] first. *)
Fixpoint clampScan (sorted : list string) (target : string) (n : nat)
  : option string :=
  match n with
  | O => None
  | S i =>
      match sorted !! i with
      | Some x =>
          if JsNum.leb (compareMonthKey x target) (Num 0) then Some x
          else clampScan sorted target i
      | None => clampScan sorted target i
      end
  end.

Definition clampMonthKeyToOptions (target : string) (options : list string)
  : string :=
  if Nat.eqb (length options) 0 then target
  else if existsb (String.eqb target) options then target
  else
    let sorted := JsArray.sort compareMonthKey options in
    match clampScan sorted target (length sorted) with
    | Some x => x
    | None => default target (sorted !! 0%nat)
    end.

(** The tail [\/(\d{4})$] of the month pattern, after the month digits. *)
Definition monthTail (mm r : string) : option (string * string) :=
  r ← Str.takeChar "/" r;
  '(yyyy, r) ← Str.takeDigits 4 r;
  _ ← Str.atEnd r;
  Some (mm, yyyy).

(** The pattern [^(\d{1,2})\/(\d{4})$] with its two groups: two month
    digits are tried first, one digit when that fails. *)
Definition matchMonthYear (t : string) : option (string * string) :=
  match Str.takeDigits 2 t with
  | Some (mm, r) =>
      match monthTail mm r with
      | Some g => Some g
      | None => '(mm, r) ← Str.takeDigits 1 t; monthTail mm r
      end
  | None => '(mm, r) ← Str.takeDigits 1 t; monthTail mm r
  end.

(** The patterns [^(\d{2})S(\d{2})S(\d{4})$] for a separator [S]. *)
Definition matchDMY (sep : ascii) (t : string) : option (string * string * string) :=
  '(dd, r) ← Str.takeDigits 2 t;
  r ← Str.takeChar sep r;
  '(mm, r) ← Str.takeDigits 2 r;
  r ← Str.takeChar sep r;
  '(yyyy, r) ← Str.takeDigits 4 r;
  _ ← Str.atEnd r;
  Some (dd, mm, yyyy).

(** The pattern [^(\d{4})-(\d{2})-(\d{2})$]. *)
Definition matchISO (t : string) : option (string * string * string) :=
  '(yyyy, r) ← Str.takeDigits 4 t;
  r ← Str.takeChar "-" r;
  '(mm, r) ← Str.takeDigits 2 r;
  r ← Str.takeChar "-" r;
  '(dd, r) ← Str.takeDigits 2 r;
  _ ← Str.atEnd r;
  Some (yyyy, mm, dd).

Definition normalizeMonth (raw : string) : option string :=
  let t := Str.trim raw in
  if Str.isEmpty t then None
  else
    match matchMonthYear t with
    | Some (g1, g2) =>
        let mm := Str.padStart0 2 (NumStr.numberToString (Conv.StringToNumber g1)) in
        Some (mm +:+ "/" +:+ g2)
    | None =>
        match matchDMY "/" t with
        | Some (_, mm, yyyy) => Some (mm +:+ "/" +:+ yyyy)
        | None =>
            match matchDMY "-" t with
            | Some (_, mm, yyyy) => Some (mm +:+ "/" +:+ yyyy)
            | None =>
                match matchISO t with
                | Some (yyyy, mm, _) => Some (mm +:+ "/" +:+ yyyy)
                | None => None
                end
            end
        end
    end.

(* ===================================================================== *)
(** ** Daily card helpers *)
(* ===================================================================== *)

Section Engine.

(** The one point on which the engines differ, see [dayOverflow]. *)
Variable ov : dayOverflow.

(** The key is kept when the [Date] built from it is valid. *)
Definition parseISOKey (s : string) : option string :=
  if negb (isSome (matchISO s)) then None
  else
    match JsDate.parseDateTime ov (s +:+ "T00:00:00Z") with
    | None => None
    | Some _ => Some s
    end.

(** The two day-first branches of [parseInputDate], for a separator: the
    date is rebuilt with [Date.UTC] and compared, field by field, with what
    was read.  The pattern tested before guarantees the three pieces. *)
Definition parseDayFirst (sep : ascii) (t : string) : option string :=
  match map Conv.StringToNumber (Str.split sep t) with
  | dd :: mm :: yyyy :: _ =>
      let d := JsDate.UTC yyyy (JsNum.sub mm (Num 1)) dd in
      if negb (isSome d) then None
      else if negb (JsNum.eqb (JsDate.getUTCFullYear d) yyyy)
              || negb (JsNum.eqb (JsDate.getUTCMonth d) (JsNum.sub mm (Num 1)))
              || negb (JsNum.eqb (JsDate.getUTCDate d) dd)
      then None
      else Some (NumStr.numberToString yyyy
                 +:+ "-" +:+ Str.padStart0 2 (NumStr.numberToString mm)
                 +:+ "-" +:+ Str.padStart0 2 (NumStr.numberToString dd))
  | _ => None
  end.

Definition parseInputDate (s : string) : option string :=
  let t := Str.trim s in
  if isSome (matchDMY "/" t) then parseDayFirst "/" t
  else if isSome (matchDMY "-" t) then parseDayFirst "-" t
  else if isSome (matchISO t) then parseISOKey t
  else None.

End Engine.

(** The placeholder is an em dash, written here as its UTF-8 bytes. *)
Definition formatDDMMYYYY (iso : string) : string :=
  if Str.isEmpty iso || negb (isSome (matchISO iso)) then "—"
  else
    match Str.split "-" iso with
    | y :: m :: d :: _ => d +:+ "-" +:+ m +:+ "-" +:+ y
    | _ => "—"
    end.

(** The date cell of the export. *)
Definition formatDDMMYYYYForCSV (iso : string) : string :=
  if Str.isEmpty iso || negb (isSome (matchISO iso)) then "—"
  else
    match Str.split "-" iso with
    | y :: m :: d :: _ => d +:+ "/" +:+ m +:+ "/" +:+ y
    | _ => "—"
    end.

(** [isoMinusDays] and [isoPlusDays]; [None] where [toISOString] throws
    on an invalid date. *)
Definition isoShiftDays (ov : dayOverflow) (iso : string) (delta : Z) : option string :=
  match JsDate.parseDateTime ov (iso +:+ "T00:00:00Z") with
  | Some t =>
      match JsDate.setUTCDate t (JsDate.DateFromTime t + delta) with
      | Some t' => Some (Str.take 10 (JsDate.toISOString t'))
      | None => None
      end
  | None => None
  end.

Definition isoMinusDays (ov : dayOverflow) (iso : string) (days : Z) : option string :=
  isoShiftDays ov iso (- days).

Definition isoPlusDays (ov : dayOverflow) (iso : string) (days : Z) : option string :=
  isoShiftDays ov iso days.

Definition safeDiv (n : number) (d : option number) : option number :=
  match d with
  | None => None
  | Some d' => if JsNum.eqb d' (Num 0) then None else Some (JsNum.div n d')
  end.

Definition growthPct (curr prev : number) : option number :=
  match safeDiv (JsNum.sub curr prev) (Some prev) with
  | None => None
  | Some r => Some (JsNum.mul r (Num 100))
  end.

(** [a < b] on strings: code units compared in order. *)
Definition sortISO (a b : string) : number :=
  if String.ltb a b then Num (-1) else if String.ltb b a then Num 1 else Num 0.

(** [Math.min(...nums)] and [Math.max(...nums)] *)
Definition minOf (nums : list number) : number := foldl JsNum.min PInf nums.
Definition maxOf (nums : list number) : number := foldl JsNum.max NInf nums.

(** The filter of [computeDomain]: numbers that are finite. *)
Definition finiteValues (values : list (option number)) : list number :=
  omap (fun v => match v with
                 | Some n => if JsNum.isFinite n then Some n else None
                 | None => None
                 end) values.

Definition computeDomain (values : list (option number)) (padPct minAbsPad : number)
  : option (number * number) :=
  let nums := finiteValues values in
  if Nat.eqb (length nums) 0 then None
  else
    let min := minOf nums in
    let max := maxOf nums in
    if JsNum.eqb min max then
      let pad := JsNum.max minAbsPad (JsNum.mul (JsNum.abs min) padPct) in
      Some (JsNum.sub min pad, JsNum.add max pad)
    else
      let range := JsNum.sub max min in
      let pad := JsNum.max minAbsPad (JsNum.mul range padPct) in
      Some (JsNum.sub min pad, JsNum.add max pad).

(* ===================================================================== *)
(** ** CSV ingestion of the daily series *)
(* ===================================================================== *)

Record dailyRecord : Type := { date : string; value : number }.

(** Lines of the text: split, trimmed, blank ones dropped. *)
Definition csvLines (text : string) : list string :=
  List.filter (fun l => negb (Str.isEmpty l)) (map Str.trim (Str.splitLines text)).

Definition csvCells (line : string) : list string :=
  map Str.trim (Str.split "," line).

(** Rows pushed by the first loop: those with at least two cells. *)
Definition csvKeptRows (lines : list string) : list (list string) :=
  List.filter (fun cols => 2 <=? length cols) (map csvCells lines).

(** The optional header: dropped when its first cell contains "date". *)
Definition dropHeader (rows : list (list string)) : list (list string) :=
  match rows with
  | r0 :: rest =>
      if Str.includes "date" (Str.toLowerCase (default "" (r0 !! 0%nat)))
      then rest else rows
  | [] => []
  end.

(** A destructured cell inside a template literal or [String(...)]. *)
Definition cellText (c : option string) : string := default "undefined" c.

(** [!date] for a string or null. *)
Definition noDate (d : option string) : bool :=
  match d with
  | None => true
  | Some s => Str.isEmpty s
  end.

Definition rowLabel (i : nat) : string :=
  NumStr.numberToString (JsNum.add (JsNum.ofZ (Z.of_nat i)) (Num 1)).

Definition dateError (i : nat) (dRaw : option string) : string :=
  "Row " +:+ rowLabel i +:+ ": invalid date '" +:+ cellText dRaw
  +:+ "' (expected DD/MM/YYYY)".

Definition valueError (i : nat) (vRaw : option string) : string :=
  "Row " +:+ rowLabel i +:+ ": invalid value '" +:+ cellText vRaw +:+ "'".

Section Daily.

Variable ov : dayOverflow.

Definition cellDate (dRaw : option string) : option string :=
  match dRaw with
  | Some s => parseInputDate ov s
  | None => None
  end.

Definition cellValue (vRaw : option string) : number :=
  Conv.StringToNumber (Str.removeAll "," (cellText vRaw)).

(** The second loop of [csvParseDaily], from index [i] on, with the two
    arrays it pushes to. *)
Fixpoint parseRows (i : nat) (rows : list (list string))
    (parsed : list dailyRecord) (errors : list string)
  : list dailyRecord * list string :=
  match rows with
  | [] => (parsed, errors)
  | row :: rest =>
      let dRaw := row !! 0%nat in
      let vRaw := row !! 1%nat in
      let d := cellDate dRaw in
      let v := cellValue vRaw in
      if noDate d then
        parseRows (S i) rest parsed (errors ++ [dateError i dRaw])
      else if negb (JsNum.isFinite v) then
        parseRows (S i) rest parsed (errors ++ [valueError i vRaw])
      else
        parseRows (S i) rest
          (parsed ++ [{| date := default "" d; value := v |}]) errors
  end.

Definition csvRows (text : string) : list (list string) :=
  dropHeader (csvKeptRows (csvLines text)).

Definition csvParseDaily (text : string) : list dailyRecord * list string :=
  parseRows 0 (csvRows text) [] [].

End Daily.

Definition mergeRecords (existingMap : gmap string number)
    (incoming : list dailyRecord) : gmap string number :=
  foldl (fun next r => <[date r := value r]> next) existingMap incoming.

(** The [try] block of [importDailyCSV], from the text of the file on:
    the map and the error lines it leaves behind. *)
Definition importDailyCSV (ov : dayOverflow) (prev : gmap string number)
    (text : string) : gmap string number * list string :=
  let '(parsed, errors) := csvParseDaily ov text in
  let shown := firstn 12 errors in
  if Nat.eqb (length parsed) 0 then
    (prev, if Nat.eqb (length shown) 0 then ["No valid rows found in CSV."] else shown)
  else (mergeRecords prev parsed, shown).

(** What the file input hands to [importDailyCSV]: no file, a file whose
    [text()] is rejected, or a file and its text. *)
Inductive csvFile : Type :=
  | NoFile
  | Unreadable
  | Readable (text : string).

(** The daily state after [importDailyCSV]. *)
Record importOutcome : Type := {
  dailyMapAfter : gmap string number;
  dailyErrors : list string;
  dailyMsg : option string
}.

(** The message of a successful import. *)
Definition importedMessage (parsed errors : nat) : string :=
  "Imported " +:+ NumStr.numberToString (JsNum.ofZ (Z.of_nat parsed)) +:+ " rows"
  +:+ (if Nat.eqb errors 0 then EmptyString
       else " (with " +:+ NumStr.numberToString (JsNum.ofZ (Z.of_nat errors)) +:+ " issues)")
  +:+ ".".

(** [importDailyCSV] as a whole: the message and the errors are cleared
    first; without a file nothing else happens; a file that cannot be
    read leaves the one error of the [catch] block. *)
Definition importDailyFile (ov : dayOverflow) (prev : gmap string number)
    (file : csvFile) : importOutcome :=
  match file with
  | NoFile => {| dailyMapAfter := prev; dailyErrors := []; dailyMsg := None |}
  | Unreadable =>
      {| dailyMapAfter := prev; dailyErrors := ["Could not read CSV."]; dailyMsg := None |}
  | Readable text =>
      let '(parsed, errors) := csvParseDaily ov text in
      {| dailyMapAfter := fst (importDailyCSV ov prev text);
         dailyErrors := snd (importDailyCSV ov prev text);
         dailyMsg := if Nat.eqb (length parsed) 0 then None
                     else Some (importedMessage (length parsed) (length errors)) |}
  end.

Definition DAILY_VALUE_COL : string := "RatedCapacity_GW".

Definition dailySorted (dailyMap : gmap string number) : list dailyRecord :=
  JsArray.sort (fun a b => sortISO (date a) (date b))
    (map (fun '(k, v) => {| date := k; value := v |}) (map_to_list dailyMap)).

(** The text [exportDailyCSV] hands to the download. *)
Definition exportDailyCSV (dailyMap : gmap string number) : string :=
  let header := "date," +:+ DAILY_VALUE_COL in
  let lines :=
    map (fun d => formatDDMMYYYYForCSV (date d) +:+ "," +:+ NumStr.numberToString (value d))
      (dailySorted dailyMap) in
  Str.joinLines (header :: lines).

(** The sample import of the specification. *)
Definition sampleText : string :=
  Str.joinLines ["date,V"; "18/12/2025,261.72"; "bad,oops"; "20/13/2025,5"].

(* ===================================================================== *)
(** ** Rated capacity and the daily chart *)
(* ===================================================================== *)

(** The value the loop of [ratedBySource] stores for one source. *)
Definition ratedOf (installed plf : gmap string number) (s : string) : number :=
  round2 (JsNum.mul (safeNum (prop installed s))
                    (JsNum.div (safeNum (prop plf s)) (Num 100))).

Definition ratedBySource (installed plf : gmap string number) : gmap string number :=
  foldl (fun out s => <[s := ratedOf installed plf s]> out) ∅ SOURCES.

Definition ratedTotal (installed plf : gmap string number) : number :=
  sumSources (ratedBySource installed plf) SOURCES.

Record chartPoint : Type := {
  label : string;
  units : number;
  prev_year_units : option number;
  yoy_pct : option number
}.

(** The key [py] of the chart loop: the year of [cur] less one, then the
    rest of [cur] from its fifth code unit on. *)
Definition prevYearKey (cur : string) : string :=
  NumStr.numberToString (JsNum.sub (Conv.StringToNumber (Str.take 4 cur)) (Num 1))
  +:+ Str.drop 4 cur.

(** The body of the loop of [dailyChart] for the day [cur]: a point is
    pushed when the day has a record. *)
Definition chartPointAt (dailyLookup : gmap string number) (cur : string)
  : option chartPoint :=
  match dailyLookup !! cur with
  | Some v =>
      let pyVal := dailyLookup !! prevYearKey cur in
      Some {| label := formatDDMMYYYY cur;
              units := v;
              prev_year_units := pyVal;
              yoy_pct := match pyVal with
                         | Some p => growthPct v p
                         | None => None
                         end |}
  | None => None
  end.

(* ===================================================================== *)
(** ** Month selection *)
(* ===================================================================== *)

(** [String(v)] for a value that is a number or [undefined]. *)
Definition showValue (v : option number) : string :=
  match v with
  | Some n => NumStr.numberToString n
  | None => "undefined"
  end.

(** The loop of [minusMonths], run [n] times on the month and the year,
    each a number or [undefined] as the destructuring left it. *)
Fixpoint minusMonthsLoop (n : nat) (m y : option number)
  : option number * option number :=
  match n with
  | O => (m, y)
  | S n' =>
      let m1 := JsNum.sub (operand m) (Num 1) in
      if JsNum.leb m1 (Num 0) then
        minusMonthsLoop n' (Some (Num 12)) (Some (JsNum.sub (operand y) (Num 1)))
      else minusMonthsLoop n' (Some m1) y
  end.

(** [minusMonths(monthKey, monthsBack)] for a whole number of months: the
    loop counts [left] down by one while it is positive, so it runs
    [monthsBack] times, and not at all for a negative count. *)
Definition minusMonths (monthKey : string) (monthsBack : Z) : string :=
  let parts := map Conv.StringToNumber (Str.split "/" monthKey) in
  let '(m, y) :=
    minusMonthsLoop (Z.to_nat monthsBack) (parts !! 0%nat) (parts !! 1%nat) in
  Str.padStart0 2 (showValue m) +:+ "/" +:+ showValue y.

(** The pattern [^\d{2}\/\d{4}$]. *)
Definition matchMonthKey (mk : string) : option (string * string) :=
  '(mm, r) ← Str.takeDigits 2 mk;
  r ← Str.takeChar "/" r;
  '(yyyy, r) ← Str.takeDigits 4 r;
  _ ← Str.atEnd r;
  Some (mm, yyyy).

(** The pattern [^\d{4}-\d{2}$]. *)
Definition matchInputMonth (v : string) : option (string * string) :=
  '(yyyy, r) ← Str.takeDigits 4 v;
  r ← Str.takeChar "-" r;
  '(mm, r) ← Str.takeDigits 2 r;
  _ ← Str.atEnd r;
  Some (yyyy, mm).

Definition monthKeyToInputValue (mk : string) : string :=
  if Str.isEmpty mk || negb (isSome (matchMonthKey mk)) then ""
  else
    let parts := Str.split "/" mk in
    cellText (parts !! 1%nat) +:+ "-" +:+ cellText (parts !! 0%nat).

Definition inputValueToMonthKey (v : string) : string :=
  if Str.isEmpty v || negb (isSome (matchInputMonth v)) then ""
  else
    let parts := Str.split "-" v in
    cellText (parts !! 1%nat) +:+ "/" +:+ cellText (parts !! 0%nat).

(** A value of type [string | null | undefined], as the month states and
    the memoised months are; [None] stands for [null] and [undefined],
    which the code never tells apart. *)
Definition truthy (o : option string) : bool :=
  match o with
  | Some s => negb (Str.isEmpty s)
  | None => false
  end.

(** [a || b] *)
Definition orElse (a b : option string) : option string :=
  if truthy a then a else b.

Definition latestMonth (monthOptions : list string) : option string :=
  if (length monthOptions =? 0)%nat then None
  else monthOptions !! (length monthOptions - 1)%nat.

Definition defaultStartMonth (monthOptions : list string) : option string :=
  match latestMonth monthOptions with
  | Some l =>
      if Str.isEmpty l then None
      else Some (clampMonthKeyToOptions (minusMonths l 12) monthOptions)
  | None => None
  end.

(** The functional update [prev => prev ? clampMonthKeyToOptions(prev, monthOptions) : fallback]. *)
Definition keepOrDefault (monthOptions : list string) (fallback prev : option string)
  : option string :=
  match prev with
  | Some p =>
      if Str.isEmpty p then fallback else Some (clampMonthKeyToOptions p monthOptions)
  | None => fallback
  end.

(** The effect that runs when the month options change: the pair of the
    start and the end month it leaves. *)
Definition syncMonths (monthOptions : list string) (startMonth endMonth : option string)
  : option string * option string :=
  if (length monthOptions =? 0)%nat then (startMonth, endMonth)
  else
    let end_ :=
      orElse (latestMonth monthOptions)
             (monthOptions !! (length monthOptions - 1)%nat) in
    let start :=
      orElse (orElse (defaultStartMonth monthOptions)
                     (monthOptions !! (length monthOptions - 13)%nat))
             (monthOptions !! 0%nat) in
    (keepOrDefault monthOptions start startMonth,
     keepOrDefault monthOptions end_ endMonth).

(** The effect that keeps the start month from following the end month:
    the start month it leaves. *)
Definition orderMonths (startMonth endMonth : option string) : option string :=
  match startMonth, endMonth with
  | Some s, Some e =>
      if Str.isEmpty s || Str.isEmpty e then startMonth
      else if JsNum.ltb (Num 0) (compareMonthKey s e) then endMonth
      else startMonth
  | _, _ => startMonth
  end.

(** The [onChange] of the two month pickers: the month that becomes the
    selection, [prev] when the handler returns early. *)
Definition pickMonth (monthOptions : list string) (prev : option string) (v : string)
  : option string :=
  let mk := inputValueToMonthKey v in
  if Str.isEmpty mk then prev else Some (clampMonthKeyToOptions mk monthOptions).

(* ===================================================================== *)
(** ** The stored daily map *)
(* ===================================================================== *)

(** The initial daily map, from the entries of the object parsed out of
    local storage.  The values of that object are whatever the stored
    text held, so the model takes their type and their [Number(v)] as
    given. *)
Section Stored.
Context {V : Type}.
Variable toNumber : V -> number.
Variable ov : dayOverflow.

Definition loadDaily (entries : list (string * V)) : gmap string number :=
  foldl
    (fun (m : gmap string number) '(k, v) =>
       let d := parseISOKey ov k in
       let n := toNumber v in
       if negb (noDate d) && JsNum.isFinite n then <[default "" d := n]> m else m)
    ∅ entries.

End Stored.

(** [upsertDaily]: the daily map and the errors shown after a click on
    the save button, from the two text fields and the map before. *)
Definition upsertDaily (ov : dayOverflow) (dailyDateText dailyValueText : string)
    (prev : gmap string number) : gmap string number * list string :=
  let iso := parseInputDate ov dailyDateText in
  if noDate iso then
    (prev, ["Please enter a valid date (DD-MM-YYYY or DD/MM/YYYY)."])
  else
    let v := Conv.StringToNumber (Str.removeAll "," dailyValueText) in
    if negb (JsNum.isFinite v) then (prev, ["Please enter a valid number."])
    else (<[default "" iso := v]> prev, []).

Definition removeDaily (isoDate : string) (prev : gmap string number)
  : gmap string number :=
  delete isoDate prev.

(** [clearDaily], from the answer to the confirmation dialog. *)
Definition clearDaily (confirmed : bool) (prev : gmap string number)
  : gmap string number :=
  if negb confirmed then prev else ∅.

Definition formatDDMMYY (iso : string) : string :=
  if Str.isEmpty iso || negb (isSome (matchISO iso)) then "—"
  else
    match Str.split "-" iso with
    | y :: m :: d :: _ => d +:+ "/" +:+ m +:+ "/" +:+ Str.drop 2 y
    | _ => "—"
    end.

(* ===================================================================== *)
(** ** The daily chart *)
(* ===================================================================== *)

(** The loop of [dailyChart], from the day [cur] to the day [t].  Each
    turn takes one unit of [fuel]; the result is [None] when the fuel
    runs out or when [isoPlusDays] fails on an invalid date, where the
    code throws. *)
Fixpoint dailyChartLoop (ov : dayOverflow) (dailyLookup : gmap string number)
    (t : string) (fuel : nat) (cur : string) (out : list chartPoint)
  : option (list chartPoint) :=
  match fuel with
  | O => None
  | S fuel' =>
      if (cur <=? t)%string then
        let out' :=
          match chartPointAt dailyLookup cur with
          | Some p => out ++ [p]
          | None => out
          end in
        match isoPlusDays ov cur 1 with
        | Some next =>
            if (5000 <? length out')%nat then Some out'
            else dailyChartLoop ov dailyLookup t fuel' next out'
        | None => None
        end
      else Some out
  end.

(** [clamp(n, min, max)] *)
Definition clamp (n min max : number) : number :=
  JsNum.min max (JsNum.max min n).

(** [clamp(rangeDays, 7, 3650)] for a whole number of days. *)
Definition clampDays (rangeDays : Z) : Z :=
  match clamp (Num (inject_Z rangeDays)) (Num 7) (Num 3650) with
  | Num q => JsNum.truncate q
  | _ => 0%Z
  end.

(** [dailyChart], for a whole number [rangeDays]; [dailyLookup] holds
    the entries of [dailySorted], which are those of the daily map. *)
Definition dailyChart (ov : dayOverflow) (dailyMap : gmap string number)
    (fromIso toIso : string) (rangeDays : Z) (fuel : nat)
  : option (list chartPoint) :=
  let sorted := dailySorted dailyMap in
  match sorted !! (length sorted - 1)%nat with
  | None => Some []
  | Some lastRecord =>
      let lastIso := date lastRecord in
      let effectiveTo := if Str.isEmpty toIso then lastIso else toIso in
      match (if Str.isEmpty fromIso then isoMinusDays ov lastIso (clampDays rangeDays)
             else Some fromIso) with
      | Some effectiveFrom =>
          let f := if (effectiveFrom <=? effectiveTo)%string
                   then effectiveFrom else effectiveTo in
          let t := if (effectiveFrom <=? effectiveTo)%string
                   then effectiveTo else effectiveFrom in
          dailyChartLoop ov dailyMap t fuel f []
      | None => None
      end
  end.

(* ===================================================================== *)
(** ** The capacity CSV *)
(* ===================================================================== *)

(** The double quote. *)
Definition DQ : ascii := "034"%char.

(** The scan of [parseLine] over the rest of a line, with the cell under
    construction [cur], the flag [inQuotes] and the cells [out] found so
    far.  A quote inside quotes that is followed by a quote stands for
    one quote and both are consumed. *)
Fixpoint parseLineFrom (line cur : string) (inQuotes : bool) (out : list string)
  : list string :=
  match line with
  | EmptyString => out ++ [Str.trim cur]
  | String ch rest =>
      match rest with
      | String next rest' =>
          if (ch =? DQ)%char && inQuotes && (next =? DQ)%char then
            parseLineFrom rest' (cur +:+ String DQ "") inQuotes out
          else if (ch =? DQ)%char then parseLineFrom rest cur (negb inQuotes) out
          else if (ch =? ",")%char && negb inQuotes then
            parseLineFrom rest "" inQuotes (out ++ [Str.trim cur])
          else parseLineFrom rest (cur +:+ String ch "") inQuotes out
      | EmptyString =>
          if (ch =? DQ)%char then parseLineFrom rest cur (negb inQuotes) out
          else if (ch =? ",")%char && negb inQuotes then
            parseLineFrom rest "" inQuotes (out ++ [Str.trim cur])
          else parseLineFrom rest (cur +:+ String ch "") inQuotes out
      end
  end.

Definition parseLine (line : string) : list string :=
  parseLineFrom line "" false [].

(** [parseCSVSimple]: the header and the rows. *)
Definition parseCSVSimple (text : string) : list string * list (list string) :=
  match csvLines text with
  | [] => ([], [])
  | l :: ls => (parseLine l, map parseLine ls)
  end.

(** [/\s+/g] replaced by one space: [inRun] tells that the character
    before was white space. *)
Fixpoint replaceSpaceRuns (inRun : bool) (s : string) : string :=
  match s with
  | EmptyString => EmptyString
  | String c r =>
      if Str.isWhiteSpace c then
        if inRun then replaceSpaceRuns true r
        else String " " (replaceSpaceRuns true r)
      else String c (replaceSpaceRuns false r)
  end.

(** [normalizeHeader].  The en dash and the em dash that it replaces by
    a hyphen are code units above 255, which the strings of this model
    do not hold. *)
Definition normalizeHeader (h : string) : string :=
  replaceSpaceRuns false (Str.toLowerCase (Str.trim h)).

(** [Array.prototype.findIndex], [None] for the answer -1. *)
Fixpoint findIndex {A : Type} (p : A -> bool) (l : list A) : option nat :=
  match l with
  | [] => None
  | x :: r => if p x then Some O else option_map S (findIndex p r)
  end.

Record monthRow := { month : string; values : gmap string number }.

(** A cell of a row read by its index: a string, or [undefined] past the
    end of the row. *)
Definition cellAt (row : list string) (idx : nat) : jsval :=
  match row !! idx with
  | Some s => VStr s
  | None => Undefined
  end.

(** The [values] of a history row. *)
Definition rowValues (sourceIdx : string -> option nat) (row : list string)
  : gmap string number :=
  foldl
    (fun (vals : gmap string number) (s : string) =>
       <[s := match sourceIdx s with
              | Some idx => safeNum (cellAt row idx)
              | None => Num 0
              end]> vals)
    ∅ SOURCES.

(** The loop of [loadHistory] over the rows. *)
Definition historyRows (monthIdx : nat) (sourceIdx : string -> option nat)
    (rows : list (list string)) : list monthRow :=
  omap
    (fun row =>
       match normalizeMonth (default "" (row !! monthIdx)) with
       | Some mk =>
           if Str.isEmpty mk then None
           else Some {| month := mk; values := rowValues sourceIdx row |}
       | None => None
       end)
    rows.

(** What [loadHistory] leaves in [historyError]; the wording of the two
    messages is not modelled. *)
Inductive historyError := NoError | NoValidMonths | NotLoaded.

(** [loadHistory], from the text of the fetched file: the new [history]
    and [historyError]. *)
Definition loadHistory (text : string) : list monthRow * historyError :=
  let '(header, rows) := parseCSVSimple text in
  if (length header =? 0)%nat || (length rows =? 0)%nat then ([], NotLoaded)
  else
    let normHeaders := map normalizeHeader header in
    match findIndex (fun h => String.eqb h "month") normHeaders with
    | None => ([], NotLoaded)
    | Some monthIdx =>
        let sourceIdx (s : string) :=
          findIndex (fun h => String.eqb h (normalizeHeader s)) normHeaders in
        let parsed :=
          JsArray.sort (fun a b => compareMonthKey (month a) (month b))
                       (historyRows monthIdx sourceIdx rows) in
        (parsed, if (length parsed =? 0)%nat then NoValidMonths else NoError)
    end.

Definition monthOptions (history : list monthRow) : list string :=
  JsArray.sort compareMonthKey
    (List.filter (fun s => negb (Str.isEmpty s)) (map month history)).

(** [startRow] and [endRow]: the first row of the selected month. *)
Definition selectedRow (history : list monthRow) (selected : string)
  : option monthRow :=
  if Str.isEmpty selected then None
  else List.find (fun r => String.eqb (month r) selected) history.

(** [startTotals] and [endTotals]: the values of the row and their sum. *)
Definition totalsOf (row : option monthRow) : option (gmap string number * number) :=
  match row with
  | Some r => Some (values r, sumSources (values r) SOURCES)
  | None => None
  end.

(** [netAdditions]: the addition per source and the total addition. *)
Definition netAdditions (startTotals endTotals : option (gmap string number * number))
  : gmap string number * number :=
  let per :=
    foldl
      (fun (out : gmap string number) (s : string) =>
         let a := startTotals ≫= fun t => fst t !! s in
         let b := endTotals ≫= fun t => fst t !! s in
         <[s := match a, b with
                | Some a', Some b' => round2 (JsNum.sub b' a')
                | _, _ => Num 0
                end]> out)
      ∅ SOURCES in
  let total :=
    match startTotals, endTotals with
    | Some st, Some et => round2 (JsNum.sub (snd et) (snd st))
    | _, _ => Num 0
    end in
  (per, total).

(** The object [map] of [loadCapacitySingleRow]: the cell of the first
    row under each header cell, the empty string past the end of the
    row. *)
Definition capacityCells (header row : list string) : gmap string string :=
  foldl
    (fun (m : gmap string string) '(i, h) => <[h := default "" (row !! i)]> m)
    ∅ (imap (fun i h => (i, h)) header).

(** [loadCapacitySingleRow], from the text of the fetched file and the
    installed capacities: the installed capacities it leaves, or [None]
    when it throws and the message of the missing file is shown. *)
Definition loadCapacitySingleRow (text : string) (installed : gmap string number)
  : option (gmap string number) :=
  let '(header, rows) := parseCSVSimple text in
  if (length header =? 0)%nat || (length rows =? 0)%nat then None
  else
    let row := default [] (rows !! 0%nat) in
    let cells := capacityCells header row in
    let '(next, any) :=
      foldl
        (fun '(next, any) (s : string) =>
           let v := safeNum (match cells !! s with
                             | Some x => VStr x
                             | None => Undefined
                             end) in
           if JsNum.isFinite v then (<[s := v]> next, true) else (next, any))
        (installed, false) SOURCES in
    Some (if any then next else installed).

(** [leftAxisDomain]: the domain of the values and the previous-year
    values of the chart points. *)
Definition leftAxisDomain (dailyChart : list chartPoint) : option (number * number) :=
  computeDomain
    (flat_map (fun p => [Some (units p); prev_year_units p]) dailyChart)
    (JsNum.lit (1 # 20)) (Num (1 # 2)).

(** [rightAxisDomain]: the domain of the year-over-year percentages. *)
Definition rightAxisDomain (dailyChart : list chartPoint) : option (number * number) :=
  computeDomain (map yoy_pct dailyChart) (JsNum.lit (1 # 20)) (Num 1).

(* ===================================================================== *)
(** ** Vocabulary of the specification *)
(* ===================================================================== *)

(** [q] is a binary64 value: rounding leaves it alone. *)
Definition binary64 (q : Q) : Prop := JsNum.round64 q = Num q.

(** Rounding to two decimals as the specification words it:
    [round(x * 100) / 100], halves rounded up. *)
Definition round2_spec (x : Q) : Q :=
  (inject_Z (Qfloor (x * 100 + (1 # 2))) / 100)%Q.

(** The other total: a single rounding of the unrounded sum. *)
Definition roundedSumOfUnrounded (installed plf : gmap string number) : number :=
  round2 (foldl (fun acc s =>
                   JsNum.add acc (JsNum.mul (safeNum (prop installed s))
                                            (JsNum.div (safeNum (prop plf s)) (Num 100))))
                (Num 0) SOURCES).

(** Every entry is a finite number. *)
Definition allFinite (nums : list number) : Prop :=
  forall x, In x nums -> exists q, x = Num q.

(** A string of [n] digits. *)
Definition digits (n : nat) (s : string) : Prop :=
  Str.allDigits s = true /\ String.length s = n.

(** The shapes the specification names, written out: first [YYYY-MM-DD]. *)
Definition shapeISO (t yyyy mm dd : string) : Prop :=
  t = yyyy +:+ String "-" (mm +:+ String "-" dd)
  /\ digits 4 yyyy /\ digits 2 mm /\ digits 2 dd.

(** [DD/MM/YYYY] and [DD-MM-YYYY], by their separator. *)
Definition shapeDMY (sep : ascii) (t dd mm yyyy : string) : Prop :=
  t = dd +:+ String sep (mm +:+ String sep yyyy)
  /\ digits 2 dd /\ digits 2 mm /\ digits 4 yyyy.

(** [M/YYYY] and [MM/YYYY]. *)
Definition shapeMonthYear (t mm yyyy : string) : Prop :=
  t = mm +:+ String "/" yyyy
  /\ (digits 1 mm \/ digits 2 mm) /\ digits 4 yyyy.

(** [String(y)] is the decimal numeral of the integer [y]. *)
Definition showsInteger (y : Z) : bool :=
  String.eqb (NumStr.numberToString (Num (inject_Z y))) (Conv.showZ y).

(** The numeral of [z] has four digits and denotes [z]. *)
Definition fourDigits (z : Z) : bool :=
  Str.allDigits (Conv.showZ z)
  && Nat.eqb (String.length (Conv.showZ z)) 4
  && Z.eqb (Conv.digitsValue 0 (Conv.showZ z)) z.

(** What one kept row contributes, read off the specification: a record
    when its date cell parses and its value cell is a finite number, and
    otherwise one error naming the row and the offending cell. *)
Definition rowRecord (ov : dayOverflow) (row : list string) : option dailyRecord :=
  match row with
  | dRaw :: vRaw :: _ =>
      match parseInputDate ov dRaw with
      | Some d =>
          let v := Conv.StringToNumber (Str.removeAll "," vRaw) in
          if JsNum.isFinite v then Some {| date := d; value := v |} else None
      | None => None
      end
  | _ => None
  end.

(** The error of the row at index [i] among the kept rows, if any. *)
Definition rowError (ov : dayOverflow) (i : nat) (row : list string) : option string :=
  match row with
  | dRaw :: vRaw :: _ =>
      match parseInputDate ov dRaw with
      | None =>
          Some ("Row " +:+ rowLabel i +:+ ": invalid date '" +:+ dRaw
                +:+ "' (expected DD/MM/YYYY)")
      | Some _ =>
          if JsNum.isFinite (Conv.StringToNumber (Str.removeAll "," vRaw)) then None
          else Some ("Row " +:+ rowLabel i +:+ ": invalid value '" +:+ vRaw +:+ "'")
      end
  | _ => None
  end.

(** Rows of at least two cells. *)
Definition wideRows (rows : list (list string)) : Prop :=
  Forall (fun r => 2 <= length r) rows.

(** Whether the code unit [c] occurs in [s]. *)
Fixpoint hasChar (c : ascii) (s : string) : bool :=
  match s with
  | EmptyString => false
  | String d r => Ascii.eqb d c || hasChar c r
  end.

(** A line of a text: a string without a line feed. *)
Definition isLine (s : string) : Prop := hasChar Str.LF s = false.

(** The filter [Boolean] on a trimmed line. *)
Definition nonBlank (l : string) : bool := negb (Str.isEmpty l).

(** [x] ranks no higher than [y]. *)
Definition rankLe {A : Type} (rank : A -> Z) (x y : A) : Prop :=
  (rank x <= rank y)%Z.

(** A month key in its canonical shape [MM/YYYY]: two digits, a slash,
    four digits. *)
Definition shapeMonthKey (s mm yyyy : string) : Prop :=
  s = mm +:+ String "/" yyyy /\ digits 2 mm /\ digits 4 yyyy.

(** A string that is a month key. *)
Definition isMonthKey (s : string) : Prop :=
  exists mm yyyy, shapeMonthKey s mm yyyy.

(** Year first, then month: the rank of a month key. *)
Definition monthRank (s : string) : Z :=
  (Conv.digitsValue 0 (Str.drop 3 s) * 100 + Conv.digitsValue 0 (Str.take 2 s))%Z.

(** [a <= b] in the order of [compareMonthKey]. *)
Definition keyLe (a b : string) : Prop :=
  JsNum.leb (compareMonthKey a b) (Num 0) = true.

(** The five shapes of the specification, on the trimmed input, with the
    month and year fields each one carries. *)
Definition monthShape (t mm yyyy : string) : Prop :=
  (exists m, shapeMonthYear t m yyyy /\ mm = Str.padStart0 2 m)
  \/ (exists dd, shapeDMY "/" t dd mm yyyy)
  \/ (exists dd, shapeDMY "-" t dd mm yyyy)
  \/ (exists dd, shapeISO t yyyy mm dd).

(** The Gregorian leap years. *)
Definition leapYear (y : Z) : bool :=
  ((y mod 4 =? 0) && (negb (y mod 100 =? 0) || (y mod 400 =? 0)))%Z.

(** Days of month [m] (1 to 12) of year [y]. *)
Definition daysInMonth (y m : Z) : Z :=
  match m with
  | 1 | 3 | 5 | 7 | 8 | 10 | 12 => 31
  | 4 | 6 | 9 | 11 => 30
  | 2 => if leapYear y then 29 else 28
  | _ => 0
  end%Z.

(** A real calendar date: a month of the year and a day of that month. *)
Definition realDate (y m d : Z) : Prop :=
  (1 <= m <= 12 /\ 1 <= d <= daysInMonth y m)%Z.

(* ===================================================================== *)
(** ** Vocabulary of the further properties *)
(* ===================================================================== *)

(** The value of a month picker, [YYYY-MM]. *)
Definition shapeInputMonth (v yyyy mm : string) : Prop :=
  v = yyyy +:+ String "-" mm /\ digits 4 yyyy /\ digits 2 mm.

Definition isInputMonth (v : string) : Prop :=
  exists yyyy mm, shapeInputMonth v yyyy mm.

(** A month key whose month is one of the twelve. *)
Definition calendarMonth (s : string) : Prop :=
  isMonthKey s /\ (1 <= Conv.digitsValue 0 (Str.take 2 s) <= 12)%Z.

(** The number of months from January of year 0 to a month key. *)
Definition monthIndex (s : string) : Z :=
  (Conv.digitsValue 0 (Str.drop 3 s) * 12 + Conv.digitsValue 0 (Str.take 2 s) - 1)%Z.

(** A month state that holds one of the options. *)
Definition selectedFrom (monthOptions : list string) (o : option string) : Prop :=
  exists s, o = Some s /\ In s monthOptions.

(** Two digits that print a number below one hundred. *)
Definition twoDigits (z : Z) : bool :=
  let s := Str.padStart0 2 (Conv.showZ z) in
  Str.allDigits s && (String.length s =? 2)%nat && (Conv.digitsValue 0 s =? z)%Z.

(** A daily map that holds finite numbers only. *)
Definition finiteMap (m : gmap string number) : Prop :=
  map_Forall (fun _ v => JsNum.isFinite v = true) m.

(** A key [YYYY-MM-DD] that names the existing calendar day [d] of month
    [m] of year [y]. *)
Definition isoDate (k : string) (y m d : Z) : Prop :=
  exists yyyy mm dd,
    shapeISO k yyyy mm dd
    /\ Conv.digitsValue 0 yyyy = y
    /\ Conv.digitsValue 0 mm = m
    /\ Conv.digitsValue 0 dd = d
    /\ realDate y m d.

(** The calendar day after a given one. *)
Definition nextDate (y m d : Z) : Z * Z * Z :=
  if (d <? daysInMonth y m)%Z then (y, m, d + 1)%Z
  else if (m <? 12)%Z then (y, m + 1, 1)%Z
  else (y + 1, 1, 1)%Z.

(** Four digits that print a year from 0 to 9999. *)
Definition fourPadded (z : Z) : bool :=
  let s := JsDate.pad 4 z in
  Str.allDigits s && (String.length s =? 4)%nat && (Conv.digitsValue 0 s =? z)%Z.

(** One calendar date before another. *)
Definition dateBefore (y m d y' m' d' : Z) : Prop :=
  (y < y')%Z \/ (y = y' /\ ((m < m')%Z \/ (m = m' /\ (d < d')%Z))).

(** The keys of [n] days in a row, from the day of [k] on. *)
Definition daysFrom (ov : dayOverflow) (k : string) (n : nat) : list string :=
  omap (fun i => isoPlusDays ov k (Z.of_nat i)) (seq 0 n).

(** A cell written between quotes, its own quotes doubled. *)
Fixpoint doubleQuotes (s : string) : string :=
  match s with
  | EmptyString => EmptyString
  | String c r =>
      if (c =? DQ)%char then String DQ (String DQ (doubleQuotes r))
      else String c (doubleQuotes r)
  end.

Definition quoted (s : string) : string :=
  String DQ (doubleQuotes s +:+ String DQ "").

(** Cells joined by commas. *)
Fixpoint joinCells (cells : list string) : string :=
  match cells with
  | [] => EmptyString
  | [c] => c
  | c :: rest => c +:+ String "," (joinCells rest)
  end.

(** The text of a capacity file with three months, out of order, one of
    them unreadable. *)
Definition capacityText : string :=
  Str.joinLines
    ["Month, coal ,SOLAR,Wind";
     "03/2024,210.5,80,45";
     "2024-01-31,205,n/a,44";
     "soon,1,2,3";
     "2/2024,207,75"].

(** A value field that holds nothing but white space and commas. *)
Fixpoint blankValue (s : string) : bool :=
  match s with
  | EmptyString => true
  | String c r => (Str.isWhiteSpace c || (c =? ",")%char) && blankValue r
  end.

(** The numbers of a chart point are binary64 values. *)
Definition binary64Number (n : number) : Prop :=
  match n with Num q => binary64 q | _ => True end.

Definition binary64Point (p : chartPoint) : Prop :=
  binary64Number (units p)
  /\ (forall v, prev_year_units p = Some v -> binary64Number v)
  /\ (forall v, yoy_pct p = Some v -> binary64Number v).

(* ===================================================================== *)
(** * Properties *)
(* ===================================================================== *)

(** ** The model on concrete inputs *)

Example round_half_up : JsNum.round (Num (5 # 2)) = Num 3.
Proof. reflexivity. Qed.

Example round_neg_half : JsNum.round (Num (- 5 # 2)) = Num (-2).
Proof. reflexivity. Qed.

Example split_three : Str.split "/" "18/12/2025" = ["18"; "12"; "2025"].
Proof. reflexivity. Qed.

Example splitLines_crlf :
  Str.splitLines ("a" +:+ String Str.CR (String Str.LF "b") +:+ String Str.LF "")
  = ["a"; "b"; ""].
Proof. reflexivity. Qed.

Example trim_both : Str.trim "  12/2024 " = "12/2024".
Proof. reflexivity. Qed.

Example number_decimal : Conv.StringToNumber "261.72" = Num (6543 # 25).
Proof. reflexivity. Qed.

Example number_word : Conv.StringToNumber "oops" = NaN.
Proof. reflexivity. Qed.

Example number_exponent : Conv.StringToNumber " -1.5e3 " = Num (- 1500).
Proof. reflexivity. Qed.

Example number_hex : Conv.StringToNumber "0x1F" = Num 31.
Proof. reflexivity. Qed.

Example number_too_large : Conv.StringToNumber "1e400" = PInf.
Proof. vm_compute. reflexivity. Qed.

Example number_blank : Conv.StringToNumber "  " = Num 0.
Proof. reflexivity. Qed.

Example number_two_dots : Conv.StringToNumber "1.2.3" = NaN.
Proof. reflexivity. Qed.

Example show_int : NumStr.numberToString (Num 2025) = "2025".
Proof. vm_compute. reflexivity. Qed.

Example show_neg : NumStr.numberToString (Num (- 1)) = "-1".
Proof. vm_compute. reflexivity. Qed.

Example show_decimal : NumStr.numberToString (Num (6543 # 25)) = "261.72".
Proof. vm_compute. reflexivity. Qed.

Example show_small : NumStr.numberToString (Num (1 # 10000000)) = "1e-7".
Proof. vm_compute. reflexivity. Qed.

Example show_micro : NumStr.numberToString (Num (1 # 1000000)) = "0.000001".
Proof. vm_compute. reflexivity. Qed.

Example show_large :
  NumStr.numberToString (Num (inject_Z (10 ^ 21))) = "1e+21".
Proof. vm_compute. reflexivity. Qed.

Example show_large_plain :
  NumStr.numberToString (Num (inject_Z (12 * 10 ^ 19))) = "120000000000000000000".
Proof. vm_compute. reflexivity. Qed.

Example show_exp_frac :
  NumStr.numberToString (Num (inject_Z (125 * 10 ^ 20))) = "1.25e+22".
Proof. vm_compute. reflexivity. Qed.

Example show_half : NumStr.numberToString (Num (- 1 # 2)) = "-0.5".
Proof. vm_compute. reflexivity. Qed.

Example utc_epoch : JsDate.UTC (Num 1970) (Num 0) (Num 1) = Some 0%Z.
Proof. reflexivity. Qed.

Example utc_two_digit_year :
  JsDate.getUTCFullYear (JsDate.UTC (Num 50) (Num 0) (Num 1)) = Num 1950.
Proof. reflexivity. Qed.

Example utc_feb_31 :
  let d := JsDate.UTC (Num 2024) (Num 1) (Num 31) in
  (JsDate.getUTCFullYear d, JsDate.getUTCMonth d, JsDate.getUTCDate d)
  = (Num 2024, Num 2, Num 2).
Proof. reflexivity. Qed.

Example iso_string_of_day :
  JsDate.toISOString (20441 * JsDate.msPerDay) = "2025-12-19T00:00:00.000Z".
Proof. vm_compute. reflexivity. Qed.

Example compare_later_year :
  JsNum.ltb (Num 0) (compareMonthKey "01/2024" "12/2023") = true.
Proof. vm_compute. reflexivity. Qed.

Example compare_same : compareMonthKey "05/2024" "05/2024" = Num 0.
Proof. vm_compute. reflexivity. Qed.

Example normalize_short : normalizeMonth " 3/2024" = Some "03/2024".
Proof. vm_compute. reflexivity. Qed.

Example normalize_iso : normalizeMonth "2024-03-17" = Some "03/2024".
Proof. vm_compute. reflexivity. Qed.

Example normalize_junk : normalizeMonth "March 2024" = None.
Proof. vm_compute. reflexivity. Qed.

Example parse_slash : parseInputDate RollOver "18/12/2025" = Some "2025-12-18".
Proof. vm_compute. reflexivity. Qed.

Example parse_dash_feb31 : forall ov, parseInputDate ov "31-02-2024" = None.
Proof. intros []; vm_compute; reflexivity. Qed.

Example parse_month13 : forall ov, parseInputDate ov "20/13/2025" = None.
Proof. intros []; vm_compute; reflexivity. Qed.

Example parse_iso : forall ov, parseInputDate ov " 2024-02-29 " = Some "2024-02-29".
Proof. intros []; vm_compute; reflexivity. Qed.

Example format_csv : formatDDMMYYYYForCSV "2025-12-18" = "18/12/2025".
Proof. vm_compute. reflexivity. Qed.

Example minus_365 : forall ov, isoMinusDays ov "2024-12-20" 365 = Some "2023-12-21".
Proof. intros []; vm_compute; reflexivity. Qed.

Example plus_1 : forall ov, isoPlusDays ov "2024-02-28" 1 = Some "2024-02-29".
Proof. intros []; vm_compute; reflexivity. Qed.

(** 0.1 + 0.2 is 0.30000000000000004. *)
Example add_tenths :
  JsNum.add (JsNum.lit (1 # 10)) (JsNum.lit (2 # 10))
  = JsNum.lit (30000000000000004 # 100000000000000000).
Proof. vm_compute. reflexivity. Qed.

Example add_tenths_value :
  JsNum.lit (30000000000000004 # 100000000000000000)
  = Num (1351079888211149 # 4503599627370496).
Proof. vm_compute. reflexivity. Qed.

(** 1e308 + 1e308 overflows. *)
Example add_overflow :
  JsNum.add (JsNum.lit (inject_Z (10 ^ 308))) (JsNum.lit (inject_Z (10 ^ 308))) = PInf.
Proof. vm_compute. reflexivity. Qed.

(** 1e17 - 1 is 1e17: the neighbours of 1e17 are 16 apart. *)
Example sub_absorbed :
  JsNum.sub (Num (inject_Z (10 ^ 17))) (Num 1) = Num (inject_Z (10 ^ 17)).
Proof. vm_compute. reflexivity. Qed.

(** 2^53 + 1 is half way between two values and goes to the even one. *)
Example lit_tie : JsNum.lit (inject_Z (2 ^ 53 + 1)) = Num (inject_Z (2 ^ 53)).
Proof. vm_compute. reflexivity. Qed.

(** 5e-324 is the least positive value, 2e-324 is 0. *)
Example lit_least :
  JsNum.lit (5 # 10 ^ 324) = Num (Qred (JsNum.pow2 (-1074)))
  /\ JsNum.lit (2 # 10 ^ 324) = Num 0.
Proof. split; vm_compute; reflexivity. Qed.

(** 1.5 * (35 / 100) * 100 is 52.49999999999999. *)
Example mul_below_half :
  JsNum.mul (JsNum.mul (Num (3 # 2)) (JsNum.div (Num 35) (Num 100))) (Num 100)
  = JsNum.lit (5249999999999999 # 100000000000000).
Proof. vm_compute. reflexivity. Qed.

(** (260.95 - 250) / 250 * 100 is 4.3799999999999955. *)
Example growth_example :
  growthPct (JsNum.lit (26095 # 100)) (Num 250)
  = Some (JsNum.lit (43799999999999955 # 10000000000000000)).
Proof. vm_compute. reflexivity. Qed.

Example domain_single :
  computeDomain [Some (Num 50)] (JsNum.lit (5 # 100)) (Num 1)
  = Some (Num (95 # 2), Num (105 # 2)).
Proof. vm_compute. reflexivity. Qed.

(** Without a relative padding the domain of the single value 1e17 has
    no width: 1e17 - 1 and 1e17 + 1 are both 1e17. *)
Example domain_absorbed :
  computeDomain [Some (Num (inject_Z (10 ^ 17)))] (Num 0) (Num 1)
  = Some (Num (inject_Z (10 ^ 17)), Num (inject_Z (10 ^ 17))).
Proof. vm_compute. reflexivity. Qed.

Example csv_sample : forall ov,
  csvParseDaily ov sampleText
  = ([{| date := "2025-12-18"; value := Num (6543 # 25) |}],
     ["Row 2: invalid date 'bad' (expected DD/MM/YYYY)";
      "Row 3: invalid date '20/13/2025' (expected DD/MM/YYYY)"]).
Proof. intros []; vm_compute; reflexivity. Qed.

Example export_two :
  exportDailyCSV (<["2025-12-19" := Num 5]> (<["2025-12-18" := Num (6543 # 25)]> ∅))
  = Str.joinLines ["date,RatedCapacity_GW"; "18/12/2025,261.72"; "19/12/2025,5"].
Proof. vm_compute. reflexivity. Qed.

Example prev_year_key : prevYearKey "2025-12-20" = "2024-12-20".
Proof. vm_compute. reflexivity. Qed.

Example rated_simple :
  ratedOf (<["Coal" := Num 100]> ∅) (<["Coal" := Num 80]> ∅) "Coal" = Num 80.
Proof. vm_compute. reflexivity. Qed.

(** ** Arithmetic on finite numbers *)

Lemma Qred_of_eq (p q : Q) : (p == q)%Q -> Qred p = Qred q.
Proof. apply Qred_complete. Qed.

Lemma Qred_inject_Z (z : Z) : Qred (inject_Z z) = inject_Z z.
Proof. apply Qred_identity. simpl. apply Z.gcd_1_r. Qed.

Lemma Qred_to_Z (q : Q) (z : Z) : (q == inject_Z z)%Q -> Qred q = inject_Z z.
Proof. intros H. rewrite (Qred_complete _ _ H). apply Qred_inject_Z. Qed.

Lemma Qsign_Eq (q : Q) : JsNum.Qsign q = Eq <-> (q == 0)%Q.
Proof.
  unfold JsNum.Qsign, Qeq. destruct q as [n d]; simpl.
  rewrite Z.compare_eq_iff. lia.
Qed.

Lemma Qsign_Gt (q : Q) : JsNum.Qsign q = Gt <-> (0 < q)%Q.
Proof.
  unfold JsNum.Qsign, Qlt. destruct q as [n d]; simpl.
  rewrite Z.compare_gt_iff. lia.
Qed.

Lemma Qsign_Lt (q : Q) : JsNum.Qsign q = Lt <-> (q < 0)%Q.
Proof.
  unfold JsNum.Qsign, Qlt. destruct q as [n d]; simpl.
  rewrite Z.compare_lt_iff. lia.
Qed.

Lemma ltb_Num (x y : Q) : JsNum.ltb (Num x) (Num y) = true <-> (x < y)%Q.
Proof.
  simpl. rewrite Qlt_alt. destruct (x ?= y)%Q; split; congruence.
Qed.

Lemma ltb_Num_false (x y : Q) : JsNum.ltb (Num x) (Num y) = false <-> (y <= x)%Q.
Proof.
  rewrite <- Bool.not_true_iff_false, ltb_Num. split; [apply Qnot_lt_le | apply Qle_not_lt].
Qed.

Lemma eqb_Num (x y : Q) : JsNum.eqb (Num x) (Num y) = true <-> (x == y)%Q.
Proof. simpl. apply Qeq_bool_iff. Qed.

Lemma leb_Num (x y : Q) : JsNum.leb (Num x) (Num y) = true <-> (x <= y)%Q.
Proof.
  unfold JsNum.leb. rewrite Bool.orb_true_iff, ltb_Num, eqb_Num.
  rewrite Qle_lteq. tauto.
Qed.

(** ** Rounding to binary64 *)

(** Integers injected into the rationals, as opaque rationals for the
    linear arithmetic. *)
Ltac hide_inject :=
  repeat match goal with
         | |- context [inject_Z ?z] =>
             let G := fresh "G" in set (G := inject_Z z) in *; clearbody G
         | H : context [inject_Z ?z] |- _ =>
             let G := fresh "G" in set (G := inject_Z z) in *; clearbody G
         end.

Lemma pow2_pos (e : Z) : (0 < JsNum.pow2 e)%Q.
Proof. apply Qpower_0_lt. reflexivity. Qed.

Lemma pow2_add (a b : Z) : (JsNum.pow2 (a + b) == JsNum.pow2 a * JsNum.pow2 b)%Q.
Proof. apply Qpower_plus. discriminate. Qed.

Lemma pow2_le (a b : Z) : (a <= b)%Z -> (JsNum.pow2 a <= JsNum.pow2 b)%Q.
Proof. intros H. apply Qpower_le_compat_l; [exact H | discriminate]. Qed.

Lemma pow2_lt (a b : Z) : (a < b)%Z -> (JsNum.pow2 a < JsNum.pow2 b)%Q.
Proof. intros H. apply Qpower_lt_compat_l; [exact H | reflexivity]. Qed.

Lemma pow2_lt_inv (a b : Z) : (JsNum.pow2 a < JsNum.pow2 b)%Q -> (a < b)%Z.
Proof. intros H. apply (Qpower_lt_compat_l_inv 2); [exact H | reflexivity]. Qed.

Lemma pow2_Z (e : Z) : (0 <= e)%Z -> (JsNum.pow2 e == inject_Z (2 ^ e))%Q.
Proof. intros H. unfold JsNum.pow2. rewrite Zpower_Qpower by exact H. reflexivity. Qed.

Lemma pow2_succ (e : Z) : (JsNum.pow2 (e + 1) == 2 * JsNum.pow2 e)%Q.
Proof. rewrite pow2_add. change (JsNum.pow2 1) with 2%Q. ring. Qed.

Lemma binade_spec (q : Q) :
  (0 < q)%Q ->
  (JsNum.pow2 (JsNum.binade q) <= q)%Q /\ (q < JsNum.pow2 (JsNum.binade q + 1))%Q.
Proof.
  intros Hq. destruct q as [n d].
  assert (Hn : (0 < n)%Z).
  { unfold Qlt in Hq. simpl in Hq. lia. }
  pose proof (Z.log2_spec n Hn) as [Hn1 Hn2].
  pose proof (Z.log2_spec (Zpos d) ltac:(lia)) as [Hd1 Hd2].
  pose proof (Z.log2_nonneg n) as Ln0.
  pose proof (Z.log2_nonneg (Zpos d)) as Ld0.
  set (Ln := Z.log2 n) in *. set (Ld := Z.log2 (Zpos d)) in *.
  assert (EN : ((n # d) * inject_Z (Zpos d) == inject_Z n)%Q).
  { rewrite Qmult_inject_Z_r. apply Qreduce_den_inject_Z_r. }
  rewrite Zle_Qle, <- pow2_Z in Hn1, Hd1 by assumption.
  rewrite Zlt_Qlt, <- Z.add_1_r, <- pow2_Z in Hn2, Hd2 by lia.
  assert (Hlow : (JsNum.pow2 (Ln - Ld - 1) < n # d)%Q).
  { pose proof (pow2_add (Ln - Ld - 1) (Ld + 1)) as E.
    replace (Ln - Ld - 1 + (Ld + 1))%Z with Ln in E by lia.
    pose proof (pow2_pos (Ln - Ld - 1)). pose proof (pow2_pos (Ld + 1)).
    nra. }
  assert (Hhigh : (n # d < JsNum.pow2 (Ln - Ld + 1))%Q).
  { pose proof (pow2_add (Ln - Ld + 1) Ld) as E.
    replace (Ln - Ld + 1 + Ld)%Z with (Ln + 1)%Z in E by lia.
    pose proof (pow2_pos (Ln - Ld + 1)). pose proof (pow2_pos Ld).
    nra. }
  unfold JsNum.binade. cbn [Qnum Qden]. fold Ln Ld.
  destruct (Qle_bool (JsNum.pow2 (Ln - Ld)) (n # d)) eqn:E.
  - apply Qle_bool_iff in E. split; [exact E | exact Hhigh].
  - assert (E' : ~ (JsNum.pow2 (Ln - Ld) <= n # d)%Q).
    { intros H. apply Qle_bool_iff in H. congruence. }
    split.
    + apply Qlt_le_weak. exact Hlow.
    + replace (Ln - Ld - 1 + 1)%Z with (Ln - Ld)%Z by lia.
      apply Qnot_le_lt. exact E'.
Qed.

Lemma binade_unique (q : Q) (e : Z) :
  (JsNum.pow2 e <= q)%Q -> (q < JsNum.pow2 (e + 1))%Q -> JsNum.binade q = e.
Proof.
  intros H1 H2.
  assert (Hq : (0 < q)%Q) by (pose proof (pow2_pos e); lra).
  destruct (binade_spec q Hq) as [B1 B2].
  assert ((JsNum.binade q < e + 1)%Z) by (apply pow2_lt_inv; lra).
  assert ((e < JsNum.binade q + 1)%Z) by (apply pow2_lt_inv; lra).
  lia.
Qed.

Lemma binade_comp (q q' : Q) : (0 < q)%Q -> (q == q')%Q -> JsNum.binade q = JsNum.binade q'.
Proof.
  intros Hq E. symmetry. destruct (binade_spec q Hq) as [B1 B2].
  apply binade_unique; rewrite <- E; assumption.
Qed.

Lemma binade_mono (a b : Q) :
  (0 < a)%Q -> (a <= b)%Q -> (JsNum.binade a <= JsNum.binade b)%Z.
Proof.
  intros Ha Hab.
  destruct (binade_spec a Ha) as [A1 _].
  destruct (binade_spec b ltac:(lra)) as [_ B2].
  assert ((JsNum.binade a < JsNum.binade b + 1)%Z) by (apply pow2_lt_inv; lra).
  lia.
Qed.

(** *** The nearest integer *)

Lemma roundEven_bounds (t : Q) :
  (Qfloor t <= JsNum.roundEven t <= Qfloor t + 1)%Z.
Proof.
  unfold JsNum.roundEven.
  destruct (t - inject_Z (Qfloor t) ?= 1 # 2)%Q; [destruct (Z.even _)| |]; lia.
Qed.

Lemma roundEven_Z (t : Q) (g : Z) : (t == inject_Z g)%Q -> JsNum.roundEven t = g.
Proof.
  intros E. unfold JsNum.roundEven.
  rewrite (Qfloor_comp _ _ E), Qfloor_Z.
  assert (H : (t - inject_Z g ?= 1 # 2)%Q = Lt).
  { apply (proj1 (Qlt_alt _ _)). rewrite E. hide_inject. lra. }
  rewrite H. reflexivity.
Qed.

Lemma roundEven_le (t : Q) (g : Z) : (t <= inject_Z g)%Q -> (JsNum.roundEven t <= g)%Z.
Proof.
  intros H.
  pose proof (Qfloor_le t) as F1. pose proof (Qlt_floor t) as F2.
  assert (Hk : (Qfloor t <= g)%Z) by (rewrite Zle_Qle; hide_inject; lra).
  destruct (Z.eq_dec (Qfloor t) g) as [E|N].
  - unfold JsNum.roundEven. rewrite E in *.
    assert (Hc : (t - inject_Z g ?= 1 # 2)%Q = Lt) by (apply (proj1 (Qlt_alt _ _)); hide_inject; lra).
    rewrite Hc. lia.
  - pose proof (roundEven_bounds t). lia.
Qed.

Lemma roundEven_ge (t : Q) (g : Z) : (inject_Z g <= t)%Q -> (g <= JsNum.roundEven t)%Z.
Proof.
  intros H.
  pose proof (Qlt_floor t) as F2.
  assert (Hk : (g < Qfloor t + 1)%Z) by (rewrite Zlt_Qlt; rewrite inject_Z_plus in *; hide_inject; lra).
  pose proof (roundEven_bounds t). lia.
Qed.

Lemma roundEven_comp (t t' : Q) : (t == t')%Q -> JsNum.roundEven t = JsNum.roundEven t'.
Proof.
  intros E. unfold JsNum.roundEven. rewrite (Qfloor_comp _ _ E).
  assert (H : (t - inject_Z (Qfloor t') ?= 1 # 2)%Q = (t' - inject_Z (Qfloor t') ?= 1 # 2)%Q).
  { apply Qcompare_comp; [rewrite E; reflexivity | reflexivity]. }
  rewrite H. reflexivity.
Qed.

(** *** The nearest binary64 value *)

Lemma ulp_pos (a : Q) : (0 < JsNum.ulp a)%Q.
Proof. apply pow2_pos. Qed.

Lemma ulp_comp (a a' : Q) : (0 < a)%Q -> (a == a')%Q -> JsNum.ulp a = JsNum.ulp a'.
Proof. intros Ha E. unfold JsNum.ulp. rewrite (binade_comp a a' Ha E). reflexivity. Qed.

Lemma nearest_comp (a a' : Q) :
  (0 < a)%Q -> (a == a')%Q -> (JsNum.nearest a == JsNum.nearest a')%Q.
Proof.
  intros Ha E. unfold JsNum.nearest. rewrite (ulp_comp a a' Ha E).
  rewrite (roundEven_comp (a / JsNum.ulp a') (a' / JsNum.ulp a')); [reflexivity|].
  rewrite E. reflexivity.
Qed.

Lemma nearest_nonneg (a : Q) : (0 < a)%Q -> (0 <= JsNum.nearest a)%Q.
Proof.
  intros Ha. unfold JsNum.nearest. pose proof (ulp_pos a) as Hu.
  assert (H : (0 <= JsNum.roundEven (a / JsNum.ulp a))%Z).
  { apply roundEven_ge. apply Qle_shift_div_l; [exact Hu|]. change (inject_Z 0) with 0%Q. lra. }
  rewrite Zle_Qle in H. apply Qmult_le_0_compat; [exact H | lra].
Qed.

Lemma round64_comp (q q' : Q) : (q == q')%Q -> JsNum.round64 q = JsNum.round64 q'.
Proof.
  intros E. unfold JsNum.round64.
  destruct (JsNum.Qsign q) eqn:S.
  - apply Qsign_Eq in S. rewrite E in S. apply Qsign_Eq in S. rewrite S. reflexivity.
  - apply Qsign_Lt in S.
    assert (S' : JsNum.Qsign q' = Lt) by (apply Qsign_Lt; rewrite <- E; exact S).
    rewrite S'. cbv zeta.
    assert (En : (JsNum.nearest (- q) == JsNum.nearest (- q'))%Q).
    { apply nearest_comp; [lra | rewrite E; reflexivity]. }
    rewrite (Qleb_comp _ _ (Qeq_refl _) _ _ En).
    destruct (Qle_bool _ _); [reflexivity|].
    f_equal. apply Qred_complete. rewrite En. reflexivity.
  - apply Qsign_Gt in S.
    assert (S' : JsNum.Qsign q' = Gt) by (apply Qsign_Gt; rewrite <- E; exact S).
    rewrite S'. cbv zeta.
    assert (En : (JsNum.nearest q == JsNum.nearest q')%Q).
    { apply nearest_comp; [exact S | exact E]. }
    rewrite (Qleb_comp _ _ (Qeq_refl _) _ _ En).
    destruct (Qle_bool _ _); [reflexivity|].
    f_equal. apply Qred_complete. exact En.
Qed.

Lemma round64_pos (q : Q) :
  (0 < q)%Q ->
  JsNum.round64 q
  = if Qle_bool (JsNum.pow2 1024) (JsNum.nearest q) then PInf
    else Num (Qred (JsNum.nearest q)).
Proof. intros H. unfold JsNum.round64. apply Qsign_Gt in H. rewrite H. reflexivity. Qed.

Lemma round64_neg (q : Q) :
  (q < 0)%Q ->
  JsNum.round64 q
  = if Qle_bool (JsNum.pow2 1024) (JsNum.nearest (- q)) then NInf
    else Num (Qred (- JsNum.nearest (- q))).
Proof. intros H. unfold JsNum.round64. apply Qsign_Lt in H. rewrite H. reflexivity. Qed.

Lemma round64_zero (q : Q) : (q == 0)%Q -> JsNum.round64 q = Num 0.
Proof. intros H. unfold JsNum.round64. apply Qsign_Eq in H. rewrite H. reflexivity. Qed.

Lemma round64_opp (q : Q) : JsNum.round64 (- q) = JsNum.neg (JsNum.round64 q).
Proof.
  destruct (Q_dec q 0) as [[H|H]|H].
  - rewrite (round64_neg q H), (round64_pos (- q)) by lra.
    destruct (Qle_bool _ _); [reflexivity|].
    cbn [JsNum.neg]. f_equal. apply Qred_complete. rewrite Qred_correct. ring.
  - rewrite (round64_pos q H), (round64_neg (- q)) by lra.
    assert (En : (JsNum.nearest (- - q) == JsNum.nearest q)%Q).
    { apply nearest_comp; [lra | ring]. }
    rewrite (Qleb_comp _ _ (Qeq_refl _) _ _ En).
    destruct (Qle_bool _ _); [reflexivity|].
    cbn [JsNum.neg]. f_equal. apply Qred_complete. rewrite Qred_correct, En. reflexivity.
  - rewrite (round64_zero q H), (round64_zero (- q)) by lra. reflexivity.
Qed.

(** A positive value that rounding leaves alone is a multiple of its
    spacing, below [2^1024]. *)
Lemma fixed_nearest (d : Q) :
  (0 < d)%Q -> JsNum.round64 d = Num d ->
  (JsNum.nearest d == d)%Q /\ (d < JsNum.pow2 1024)%Q.
Proof.
  intros Hd H. rewrite (round64_pos d Hd) in H.
  destruct (Qle_bool (JsNum.pow2 1024) (JsNum.nearest d)) eqn:E; [discriminate|].
  injection H as H.
  assert (En : (JsNum.nearest d == d)%Q) by (rewrite <- H at 2; rewrite Qred_correct; reflexivity).
  split; [exact En|].
  apply Qnot_le_lt. intros Hle. rewrite <- En in Hle.
  apply Qle_bool_iff in Hle. congruence.
Qed.

Lemma ulp_le (a d : Q) :
  (0 < a)%Q -> (a <= d)%Q ->
  exists j, (0 <= j)%Z /\ (JsNum.ulp d == inject_Z (2 ^ j) * JsNum.ulp a)%Q
            /\ (j = 0%Z -> JsNum.ulp d = JsNum.ulp a)
            /\ (0 < j -> JsNum.binade a < Z.max (JsNum.binade d) (-1022)
                         /\ Z.max (JsNum.binade d) (-1022) = JsNum.binade d)%Z.
Proof.
  intros Ha Hle. pose proof (binade_mono a d Ha Hle) as Hb.
  exists (Z.max (JsNum.binade d) (-1022) - Z.max (JsNum.binade a) (-1022))%Z.
  split; [lia|]. split; [|split].
  - unfold JsNum.ulp. rewrite <- pow2_Z by lia. rewrite <- pow2_add.
    replace (Z.max (JsNum.binade d) (-1022) - Z.max (JsNum.binade a) (-1022)
             + (Z.max (JsNum.binade a) (-1022) - 52))%Z
      with (Z.max (JsNum.binade d) (-1022) - 52)%Z by lia.
    reflexivity.
  - intros E. unfold JsNum.ulp. f_equal. lia.
  - lia.
Qed.

(** Rounding does not cross a value it leaves alone. *)
Lemma nearest_le (a d : Q) :
  (0 < a)%Q -> (a <= d)%Q -> (JsNum.nearest d == d)%Q -> (JsNum.nearest a <= d)%Q.
Proof.
  intros Ha Hle Hd.
  destruct (ulp_le a d Ha Hle) as (j & Hj & Eu & _).
  pose proof (ulp_pos a) as Hu.
  set (Kd := JsNum.roundEven (d / JsNum.ulp d)) in *.
  assert (Ed : (d == inject_Z (Kd * 2 ^ j) * JsNum.ulp a)%Q).
  { rewrite <- Hd at 1. unfold JsNum.nearest. fold Kd. rewrite Eu, inject_Z_mult. ring. }
  assert (Hk : (JsNum.roundEven (a / JsNum.ulp a) <= Kd * 2 ^ j)%Z).
  { apply roundEven_le. apply Qle_shift_div_r; [exact Hu|]. rewrite <- Ed. exact Hle. }
  unfold JsNum.nearest. rewrite Ed. apply Qmult_le_compat_r; [|lra].
  rewrite <- Zle_Qle. exact Hk.
Qed.

Lemma nearest_ge (a d : Q) :
  (0 < d)%Q -> (d <= a)%Q -> (JsNum.nearest d == d)%Q -> (d <= JsNum.nearest a)%Q.
Proof.
  intros Hd0 Hle Hd.
  assert (Ha : (0 < a)%Q) by lra.
  destruct (ulp_le d a Hd0 Hle) as (j & Hj & Eu & E0 & Epos).
  pose proof (ulp_pos a) as Hu.
  destruct (Z.eq_dec j 0%Z) as [->|Hnz].
  - specialize (E0 eq_refl).
    set (Kd := JsNum.roundEven (d / JsNum.ulp d)) in *.
    assert (Ed : (d == inject_Z Kd * JsNum.ulp a)%Q).
    { rewrite <- Hd at 1. unfold JsNum.nearest. fold Kd. rewrite E0. reflexivity. }
    assert (Hk : (Kd <= JsNum.roundEven (a / JsNum.ulp a))%Z).
    { apply roundEven_ge. apply Qle_shift_div_l; [exact Hu|]. rewrite <- Ed. exact Hle. }
    unfold JsNum.nearest. rewrite Ed. apply Qmult_le_compat_r; [|lra].
    rewrite <- Zle_Qle. exact Hk.
  - destruct (Epos ltac:(lia)) as [Hlt Emax].
    destruct (binade_spec a Ha) as [A1 _].
    destruct (binade_spec d Hd0) as [_ D2].
    assert (Eua : (JsNum.pow2 52 * JsNum.ulp a == JsNum.pow2 (JsNum.binade a))%Q).
    { unfold JsNum.ulp. rewrite Emax, <- pow2_add.
      replace (52 + (JsNum.binade a - 52))%Z with (JsNum.binade a) by lia. reflexivity. }
    assert (Hk : (2 ^ 52 <= JsNum.roundEven (a / JsNum.ulp a))%Z).
    { apply roundEven_ge. apply Qle_shift_div_l; [exact Hu|].
      rewrite <- pow2_Z by lia. rewrite Eua. exact A1. }
    rewrite Zle_Qle, <- pow2_Z in Hk by lia.
    assert (Hn : (JsNum.pow2 (JsNum.binade a) <= JsNum.nearest a)%Q).
    { rewrite <- Eua. unfold JsNum.nearest. apply Qmult_le_compat_r; [exact Hk | lra]. }
    pose proof (pow2_le (JsNum.binade d + 1) (JsNum.binade a) ltac:(lia)). lra.
Qed.

Lemma fixed_nearest_neg (d : Q) :
  (d < 0)%Q -> JsNum.round64 d = Num d ->
  (JsNum.nearest (- d) == - d)%Q /\ (- d < JsNum.pow2 1024)%Q.
Proof.
  intros Hd H. rewrite (round64_neg d Hd) in H.
  destruct (Qle_bool (JsNum.pow2 1024) (JsNum.nearest (- d))) eqn:E; [discriminate|].
  injection H as H.
  assert (En : (JsNum.nearest (- d) == - d)%Q).
  { rewrite <- H at 2. rewrite Qred_correct. ring. }
  split; [exact En|].
  apply Qnot_le_lt. intros Hle. rewrite <- En in Hle.
  apply Qle_bool_iff in Hle. congruence.
Qed.

Lemma leb_NInf (n : number) : n <> NaN -> JsNum.leb NInf n = true.
Proof. destruct n; try reflexivity. congruence. Qed.

Lemma leb_PInf (n : number) : n <> NaN -> JsNum.leb n PInf = true.
Proof. destruct n; try reflexivity. congruence. Qed.

(** Rounding does not cross a binary64 value. *)
Lemma round64_le (q d : Q) :
  JsNum.round64 d = Num d -> (q <= d)%Q -> JsNum.leb (JsNum.round64 q) (Num d) = true.
Proof.
  intros Hd Hle. destruct (Q_dec q 0) as [[H|H]|H].
  - rewrite (round64_neg q H).
    destruct (Qle_bool _ _) eqn:E; [reflexivity|]. apply leb_Num. rewrite Qred_correct.
    pose proof (nearest_nonneg (- q) ltac:(lra)) as Hn.
    destruct (Qlt_le_dec d 0) as [Hd0|Hd0]; [|lra].
    destruct (fixed_nearest_neg d Hd0 Hd) as [Hf _].
    pose proof (nearest_ge (- q) (- d) ltac:(lra) ltac:(lra) Hf). lra.
  - destruct (fixed_nearest d ltac:(lra) Hd) as [Hf Hb].
    pose proof (nearest_le q d H Hle Hf) as Hn.
    rewrite (round64_pos q H).
    destruct (Qle_bool _ _) eqn:E.
    + apply Qle_bool_iff in E. lra.
    + apply leb_Num. rewrite Qred_correct. exact Hn.
  - rewrite (round64_zero q H). apply leb_Num. lra.
Qed.

Lemma round64_ge (q d : Q) :
  JsNum.round64 d = Num d -> (d <= q)%Q -> JsNum.leb (Num d) (JsNum.round64 q) = true.
Proof.
  intros Hd Hle. destruct (Q_dec q 0) as [[H|H]|H].
  - destruct (fixed_nearest_neg d ltac:(lra) Hd) as [Hf Hb].
    pose proof (nearest_le (- q) (- d) ltac:(lra) ltac:(lra) Hf) as Hn.
    rewrite (round64_neg q H).
    destruct (Qle_bool _ _) eqn:E.
    + apply Qle_bool_iff in E. lra.
    + apply leb_Num. rewrite Qred_correct. lra.
  - rewrite (round64_pos q H).
    destruct (Qle_bool _ _) eqn:E; [reflexivity|]. apply leb_Num. rewrite Qred_correct.
    pose proof (nearest_nonneg q H) as Hn.
    destruct (Qlt_le_dec 0 d) as [Hd0|Hd0]; [|lra].
    destruct (fixed_nearest d Hd0 Hd) as [Hf _].
    apply (nearest_ge q d Hd0 Hle Hf).
  - rewrite (round64_zero q H). apply leb_Num. lra.
Qed.

(** *** Values that are binary64 *)

Lemma log2_le_53 (k : Z) : (0 < k <= 2 ^ 53)%Z -> (0 <= Z.log2 k <= 53)%Z.
Proof.
  intros Hk. split; [apply Z.log2_nonneg|].
  change 53%Z with (Z.log2 (2 ^ 53)). apply Z.log2_le_mono. lia.
Qed.

Lemma binade_scaled (k s : Z) :
  (0 < k)%Z -> JsNum.binade (inject_Z k * JsNum.pow2 s) = (Z.log2 k + s)%Z.
Proof.
  intros Hk. destruct (Z.log2_spec k Hk) as [L1 L2].
  pose proof (Z.log2_nonneg k) as L0. pose proof (pow2_pos s) as Hs.
  rewrite Zle_Qle, <- pow2_Z in L1 by lia.
  rewrite Zlt_Qlt, <- Z.add_1_r, <- pow2_Z in L2 by lia.
  apply binade_unique.
  - rewrite pow2_add. apply Qmult_le_compat_r; [exact L1 | lra].
  - replace (Z.log2 k + s + 1)%Z with (Z.log2 k + 1 + s)%Z by lia.
    rewrite pow2_add. apply Qmult_lt_compat_r; [exact Hs | exact L2].
Qed.

(** [k * 2^s], for a [k] of at most 53 bits and [s] from -1074 on, is a
    multiple of its own spacing. *)
Lemma nearest_scaled (k s : Z) :
  (0 < k <= 2 ^ 53)%Z -> (-1074 <= s)%Z ->
  (JsNum.nearest (inject_Z k * JsNum.pow2 s) == inject_Z k * JsNum.pow2 s)%Q.
Proof.
  intros Hk Hs. pose proof (log2_le_53 k Hk) as HL.
  unfold JsNum.nearest, JsNum.ulp. rewrite (binade_scaled k s) by lia.
  set (e := Z.max (Z.log2 k + s) (-1022)).
  pose proof (pow2_pos (e - 52)) as Hu.
  destruct (Z_le_gt_dec (e - 52) s) as [Hx|Hx].
  - assert (Es : (JsNum.pow2 s == inject_Z (2 ^ (s - (e - 52))) * JsNum.pow2 (e - 52))%Q).
    { rewrite <- pow2_Z by lia. rewrite <- pow2_add.
      replace (s - (e - 52) + (e - 52))%Z with s by lia. reflexivity. }
    rewrite (roundEven_Z _ (k * 2 ^ (s - (e - 52)))).
    + rewrite Es, inject_Z_mult. ring.
    + rewrite Es, inject_Z_mult. field. lra.
  - assert (EL : Z.log2 k = 53%Z) by lia.
    assert (Ek : k = (2 ^ 53)%Z).
    { destruct (Z.log2_spec k ltac:(lia)) as [L1 _]. rewrite EL in L1. lia. }
    assert (Ee : (e - 52 = s + 1)%Z) by lia.
    rewrite Ee in *.
    assert (Es : (inject_Z k * JsNum.pow2 s == inject_Z (2 ^ 52) * JsNum.pow2 (s + 1))%Q).
    { rewrite pow2_succ, Ek. change (2 ^ 53)%Z with (2 ^ 52 * 2)%Z.
      rewrite inject_Z_mult. change (inject_Z 2) with 2%Q. ring. }
    rewrite (roundEven_Z _ (2 ^ 52)).
    + rewrite Es. reflexivity.
    + rewrite Es. field. lra.
Qed.

Lemma round64_scaled (k s : Z) :
  (0 <= k <= 2 ^ 53)%Z -> (-1074 <= s)%Z ->
  (inject_Z k * JsNum.pow2 s < JsNum.pow2 1024)%Q ->
  JsNum.round64 (inject_Z k * JsNum.pow2 s) = Num (Qred (inject_Z k * JsNum.pow2 s)).
Proof.
  intros Hk Hs Hb. destruct (Z.eq_dec k 0%Z) as [->|Hnz].
  - rewrite round64_zero by (change (inject_Z 0) with 0%Q; ring).
    reflexivity.
  - pose proof (pow2_pos s) as Hp.
    assert (Hpos : (0 < inject_Z k * JsNum.pow2 s)%Q).
    { apply Qmult_lt_0_compat; [|exact Hp]. change 0%Q with (inject_Z 0).
      rewrite <- Zlt_Qlt. lia. }
    pose proof (nearest_scaled k s ltac:(lia) Hs) as Hn.
    rewrite (round64_pos _ Hpos).
    destruct (Qle_bool _ _) eqn:E.
    + apply Qle_bool_iff in E. lra.
    + f_equal. apply Qred_complete. exact Hn.
Qed.

(** Integers of at most 53 bits are binary64 values. *)
Lemma round64_Z (z : Z) :
  (Z.abs z <= 2 ^ 53)%Z -> JsNum.round64 (inject_Z z) = Num (inject_Z z).
Proof.
  intros Hz.
  assert (Hnat : forall k, (0 <= k <= 2 ^ 53)%Z -> JsNum.round64 (inject_Z k) = Num (inject_Z k)).
  { intros k Hk.
    rewrite (round64_comp _ (inject_Z k * JsNum.pow2 0)) by (change (JsNum.pow2 0) with 1%Q; ring).
    rewrite round64_scaled; [| exact Hk | lia |].
    - f_equal. apply Qred_to_Z. change (JsNum.pow2 0) with 1%Q. ring.
    - change (JsNum.pow2 0) with 1%Q. rewrite Qmult_1_r.
      rewrite pow2_Z by lia. rewrite <- Zlt_Qlt.
      assert ((2 ^ 53 < 2 ^ 1024)%Z) by (apply Z.pow_lt_mono_r; lia). lia. }
  destruct (Z_le_gt_dec 0%Z z) as [Hs|Hs].
  - apply Hnat. lia.
  - replace z with (- - z)%Z by lia. rewrite (inject_Z_opp (- z)), round64_opp.
    rewrite Hnat by lia. cbn [JsNum.neg]. f_equal.
    rewrite <- inject_Z_opp. apply Qred_inject_Z.
Qed.

Lemma binary64_canon (x : Q) : binary64 x -> Qred x = x.
Proof.
  unfold binary64, JsNum.round64. intros H.
  destruct (JsNum.Qsign x) eqn:S.
  - injection H as <-. reflexivity.
  - destruct (Qle_bool _ _); [discriminate|]. injection H as <-. apply Qred_involutive.
  - destruct (Qle_bool _ _); [discriminate|]. injection H as <-. apply Qred_involutive.
Qed.

Lemma binary64_opp (x : Q) : binary64 x -> binary64 (- x).
Proof.
  intros H. unfold binary64. rewrite round64_opp, H. cbn [JsNum.neg].
  rewrite Qred_opp, (binary64_canon x H). reflexivity.
Qed.

Lemma binary64_Qred (y : Q) : JsNum.round64 y = Num (Qred y) -> binary64 (Qred y).
Proof.
  intros H. unfold binary64. rewrite (round64_comp (Qred y) y) by apply Qred_correct.
  exact H.
Qed.

Lemma binary64_Z (z : Z) : (Z.abs z <= 2 ^ 53)%Z -> binary64 (inject_Z z).
Proof. apply round64_Z. Qed.

(** A positive binary64 value is [k] times its spacing for a positive
    [k] below [2^53]. *)
Lemma binary64_multiple (x : Q) :
  (0 < x)%Q -> binary64 x ->
  exists k, (0 < k < 2 ^ 53)%Z /\ (x == inject_Z k * JsNum.ulp x)%Q
            /\ (-1022 <= Z.max (JsNum.binade x) (-1022) <= 1023)%Z.
Proof.
  intros Hx Hb. destruct (fixed_nearest x Hx Hb) as [Hf Hlt].
  pose proof (ulp_pos x) as Hu. destruct (binade_spec x Hx) as [B1 B2].
  set (k := JsNum.roundEven (x / JsNum.ulp x)).
  assert (Ex : (x == inject_Z k * JsNum.ulp x)%Q).
  { rewrite <- Hf at 1. reflexivity. }
  set (e := Z.max (JsNum.binade x) (-1022)).
  assert (Ee : (JsNum.pow2 (e + 1) == inject_Z (2 ^ 53) * JsNum.ulp x)%Q).
  { unfold JsNum.ulp. fold e. rewrite <- pow2_Z by lia. rewrite <- pow2_add.
    replace (53 + (e - 52))%Z with (e + 1)%Z by lia. reflexivity. }
  assert (He : (JsNum.binade x < 1024)%Z) by (apply pow2_lt_inv; lra).
  exists k. split; [|split; [exact Ex | lia]]. split.
  - rewrite Zlt_Qlt. apply (Qmult_lt_r _ _ _ Hu). rewrite <- Ex.
    change (inject_Z 0) with 0%Q. lra.
  - rewrite Zlt_Qlt. apply (Qmult_lt_r _ _ _ Hu). rewrite <- Ex, <- Ee.
    pose proof (pow2_le (JsNum.binade x + 1) (e + 1) ltac:(lia)). lra.
Qed.

(** The binary64 value next below a positive one is one spacing away. *)
Lemma binary64_below (x : Q) :
  (0 < x)%Q -> binary64 x ->
  exists d, binary64 d /\ (d == x - JsNum.ulp x)%Q.
Proof.
  intros Hx Hb. destruct (binary64_multiple x Hx Hb) as (k & Hk & Ex & He).
  destruct (fixed_nearest x Hx Hb) as [_ Hlt]. pose proof (ulp_pos x) as Hu.
  set (s := (Z.max (JsNum.binade x) (-1022) - 52)%Z).
  assert (Ed : (inject_Z (k - 1) * JsNum.pow2 s == x - JsNum.ulp x)%Q).
  { assert (Ek : inject_Z (k - 1) = (inject_Z k + -1)%Q) by apply inject_Z_plus.
    rewrite Ek. change (JsNum.pow2 s) with (JsNum.ulp x).
    generalize dependent (JsNum.ulp x). intros u Ex _. rewrite Ex. ring. }
  exists (Qred (inject_Z (k - 1) * JsNum.pow2 s)). split.
  - apply binary64_Qred. apply round64_scaled; [lia | unfold s; lia |].
    rewrite Ed. lra.
  - rewrite Qred_correct. exact Ed.
Qed.

Lemma ulp_binary64 (x : Q) :
  (0 < x)%Q -> binary64 x -> exists g, binary64 g /\ (g == JsNum.ulp x)%Q.
Proof.
  intros Hx Hb. destruct (binary64_multiple x Hx Hb) as (k & Hk & Ex & He).
  set (s := (Z.max (JsNum.binade x) (-1022) - 52)%Z).
  assert (Eg : (inject_Z 1 * JsNum.pow2 s == JsNum.ulp x)%Q).
  { change (inject_Z 1) with 1%Q. change (JsNum.pow2 s) with (JsNum.ulp x). ring. }
  exists (Qred (inject_Z 1 * JsNum.pow2 s)). split.
  - apply binary64_Qred. apply round64_scaled; [lia | unfold s; lia |].
    change (inject_Z 1) with 1%Q. rewrite Qmult_1_l. apply pow2_lt. unfold s. lia.
  - rewrite Qred_correct. exact Eg.
Qed.

(** The spacing around a positive [x] is at most [x / 2^52], or is the
    least spacing [2^-1074]. *)
Lemma ulp_small (x : Q) :
  (0 < x)%Q ->
  (JsNum.ulp x <= x * (1 # 2 ^ 52))%Q \/ JsNum.ulp x = JsNum.pow2 (-1074).
Proof.
  intros Hx. destruct (binade_spec x Hx) as [B1 _]. unfold JsNum.ulp.
  destruct (Z_le_gt_dec (-1022) (JsNum.binade x)) as [H|H].
  - left. rewrite Z.max_l by lia.
    pose proof (pow2_add 52 (JsNum.binade x - 52)) as E.
    replace (52 + (JsNum.binade x - 52))%Z with (JsNum.binade x) in E by lia.
    rewrite (pow2_Z 52) in E by lia.
    change (inject_Z (2 ^ 52)) with (4503599627370496 # 1)%Q in E.
    change (1 # 2 ^ 52)%Q with (1 # 4503599627370496)%Q.
    pose proof (pow2_pos (JsNum.binade x - 52)). lra.
  - right. rewrite Z.max_r by lia. reflexivity.
Qed.

Lemma binary64_least (m : Q) : (0 < m)%Q -> binary64 m -> (JsNum.pow2 (-1074) <= m)%Q.
Proof.
  intros Hm Hb. destruct (binary64_multiple m Hm Hb) as (k & Hk & Ex & He).
  pose proof (pow2_le (-1074) (Z.max (JsNum.binade m) (-1022) - 52) ltac:(lia)) as Hp.
  fold (JsNum.ulp m) in Hp. pose proof (pow2_pos (-1074)) as H0.
  assert (H1 : (1 <= inject_Z k)%Q) by (change 1%Q with (inject_Z 1); rewrite <- Zle_Qle; lia).
  rewrite Ex. generalize dependent (inject_Z k). intros G _ HG.
  generalize dependent (JsNum.ulp m). intros u Hu. nra.
Qed.

(** ** Arithmetic of the helpers *)

Lemma round2_Num (n : number) (w : Q) :
  JsNum.mul n (Num 100) = Num w ->
  round2 n = JsNum.round64 (inject_Z (Qfloor (w + (1 # 2))) / 100).
Proof. intros H. unfold round2. rewrite H. reflexivity. Qed.

Lemma round64_not_NaN (q : Q) : JsNum.round64 q <> NaN.
Proof.
  unfold JsNum.round64.
  destruct (JsNum.Qsign q); [discriminate| |]; destruct (Qle_bool _ _); discriminate.
Qed.

(** Sums and differences of integers of at most 53 bits are exact. *)
Lemma sub_inject (a b : Z) :
  (Z.abs (a - b) <= 2 ^ 53)%Z ->
  JsNum.sub (Num (inject_Z a)) (Num (inject_Z b)) = Num (inject_Z (a - b)).
Proof.
  intros H. cbn [JsNum.sub].
  rewrite (round64_comp _ (inject_Z (a - b))); [apply round64_Z; exact H|].
  unfold Z.sub. rewrite inject_Z_plus, inject_Z_opp. reflexivity.
Qed.

Lemma add_inject (a b : Z) :
  (Z.abs (a + b) <= 2 ^ 53)%Z ->
  JsNum.add (Num (inject_Z a)) (Num (inject_Z b)) = Num (inject_Z (a + b)).
Proof.
  intros H. cbn [JsNum.add].
  rewrite (round64_comp _ (inject_Z (a + b))); [apply round64_Z; exact H|].
  rewrite inject_Z_plus. reflexivity.
Qed.

Lemma sub_one (y : Z) :
  (Z.abs (y - 1) <= 2 ^ 53)%Z ->
  JsNum.sub (Num (inject_Z y)) (Num 1) = Num (inject_Z (y - 1)).
Proof. apply (sub_inject y 1). Qed.

Lemma sub_self (q : Q) : JsNum.sub (Num q) (Num q) = Num 0.
Proof. cbn [JsNum.sub]. apply round64_zero. ring. Qed.

Lemma safeNum_finite (x : jsval) : JsNum.isFinite (safeNum x) = true.
Proof. unfold safeNum. destruct (JsNum.isFinite (ToNumber x)) eqn:E; [exact E | reflexivity]. Qed.

Lemma safeNum_Num (q : Q) : safeNum (VNum (Num q)) = Num q.
Proof. reflexivity. Qed.

Lemma isFinite_Num (n : number) : JsNum.isFinite n = true <-> exists q, n = Num q.
Proof.
  destruct n; simpl; split; try discriminate; eauto; intros [q Hq]; discriminate.
Qed.

(** ** Merging imported records *)

Lemma mergeRecords_snoc (m : gmap string number) (l : list dailyRecord) (r : dailyRecord) :
  mergeRecords m (l ++ [r]) = <[date r := value r]> (mergeRecords m l).
Proof. unfold mergeRecords. rewrite foldl_app. reflexivity. Qed.

Lemma mergeRecords_other (m : gmap string number) (incoming : list dailyRecord) (k : string) :
  ~ In k (map date incoming) -> mergeRecords m incoming !! k = m !! k.
Proof.
  revert m. induction incoming as [|r rest IH]; intros m Hk; [reflexivity|].
  simpl in *. unfold mergeRecords in *. simpl. rewrite IH by tauto.
  apply lookup_insert_ne. intros E. apply Hk. left. exact E.
Qed.

Lemma mergeRecords_last (m : gmap string number) (l1 l2 : list dailyRecord) (r : dailyRecord) :
  ~ In (date r) (map date l2) ->
  mergeRecords m (l1 ++ r :: l2) !! date r = Some (value r).
Proof.
  intros Hk. unfold mergeRecords. rewrite foldl_app. simpl.
  fold (mergeRecords (<[date r := value r]> (foldl (fun next r0 => <[date r0 := value r0]> next) m l1)) l2).
  rewrite mergeRecords_other by exact Hk. apply lookup_insert_eq.
Qed.

Lemma mergeRecords_keeps (m : gmap string number) (incoming : list dailyRecord) (k : string) :
  is_Some (m !! k) -> is_Some (mergeRecords m incoming !! k).
Proof.
  revert m. induction incoming as [|r rest IH]; intros m Hk; [exact Hk|].
  unfold mergeRecords in *. simpl. apply IH.
  destruct (decide (date r = k)) as [->|Hne].
  - rewrite lookup_insert_eq. eauto.
  - rewrite lookup_insert_ne by exact Hne. exact Hk.
Qed.

Lemma mergeRecords_written (m : gmap string number) (incoming : list dailyRecord)
    (k : string) (v : number) :
  mergeRecords m incoming !! k = Some v ->
  m !! k = Some v \/ In {| date := k; value := v |} incoming.
Proof.
  revert m. induction incoming as [|r rest IH] using rev_ind; intros m H.
  - left. exact H.
  - rewrite mergeRecords_snoc in H.
    destruct (decide (date r = k)) as [E|Hne].
    + subst k. rewrite lookup_insert_eq in H. injection H as <-.
      right. apply in_or_app. right. left. destruct r; reflexivity.
    + rewrite lookup_insert_ne in H by exact Hne.
      destruct (IH m H) as [Hm|Hin]; [left; exact Hm|].
      right. apply in_or_app. left. exact Hin.
Qed.

(** C10.  Merging an import into the daily map leaves every entry whose
    date is not among the imported records as it was; a date that occurs
    in the import holds the value of its last occurrence; nothing is
    written that is neither an old entry nor an imported record; and no
    entry is removed, by [mergeRecords] or by [importDailyCSV]. *)
Theorem C10_merge_frame (existingMap : gmap string number) (incoming : list dailyRecord) :
  (forall k, ~ In k (map date incoming) ->
             mergeRecords existingMap incoming !! k = existingMap !! k)
  /\ (forall l1 r l2, incoming = l1 ++ r :: l2 -> ~ In (date r) (map date l2) ->
                      mergeRecords existingMap incoming !! date r = Some (value r))
  /\ (forall k v, mergeRecords existingMap incoming !! k = Some v ->
                  existingMap !! k = Some v \/ In {| date := k; value := v |} incoming)
  /\ (forall k, is_Some (existingMap !! k) ->
                is_Some (mergeRecords existingMap incoming !! k))
  /\ (forall ov text k,
        is_Some (existingMap !! k) ->
        is_Some ((importDailyCSV ov existingMap text).1 !! k))
  /\ (forall ov text k,
        ~ In k (map date (csvParseDaily ov text).1) ->
        (importDailyCSV ov existingMap text).1 !! k = existingMap !! k).
Proof.
  repeat split.
  - intros k Hk. apply mergeRecords_other. exact Hk.
  - intros l1 r l2 -> Hk. apply mergeRecords_last. exact Hk.
  - intros k v. apply mergeRecords_written.
  - intros k. apply mergeRecords_keeps.
  - intros ov text k Hk. unfold importDailyCSV.
    destruct (csvParseDaily ov text) as [parsed errors].
    destruct (Nat.eqb (length parsed) 0); simpl; [exact Hk|].
    apply mergeRecords_keeps. exact Hk.
  - intros ov text k Hk. unfold importDailyCSV.
    destruct (csvParseDaily ov text) as [parsed errors]. simpl in Hk.
    destruct (Nat.eqb (length parsed) 0); simpl; [reflexivity|].
    apply mergeRecords_other. exact Hk.
Qed.

(** A concrete import: one date overwritten twice, one added, one kept. *)
Lemma C10_merge_frame_witness :
  let m : gmap string number :=
    <["2025-12-18" := Num 1]> (<["2025-12-17" := Num 7]> ∅) in
  let inc := [ {| date := "2025-12-18"; value := Num 2 |};
               {| date := "2025-12-19"; value := Num 3 |};
               {| date := "2025-12-18"; value := Num 4 |} ] in
  mergeRecords m inc !! "2025-12-17" = Some (Num 7)
  /\ mergeRecords m inc !! "2025-12-18" = Some (Num 4).
Proof.
  intros m inc.
  destruct (C10_merge_frame m inc) as (Hother & Hlast & _).
  split.
  - rewrite Hother; [reflexivity|]. vm_compute. intros [H|[H|[H|[]]]]; discriminate H.
  - apply (Hlast [ {| date := "2025-12-18"; value := Num 2 |};
                   {| date := "2025-12-19"; value := Num 3 |} ]
                 {| date := "2025-12-18"; value := Num 4 |} []); [reflexivity|].
    simpl. tauto.
Defined.

(** ** Rated capacity *)

Lemma foldl_insert_other {V} (f : string -> V) (l : list string) (m : gmap string V) (s : string) :
  ~ In s l -> foldl (fun out k => <[k := f k]> out) m l !! s = m !! s.
Proof.
  revert m. induction l as [|x l IH]; intros m Hs; [reflexivity|].
  simpl in *. rewrite IH by tauto. apply lookup_insert_ne. tauto.
Qed.

Lemma foldl_insert_lookup {V} (f : string -> V) (l : list string) (m : gmap string V) (s : string) :
  In s l -> foldl (fun out k => <[k := f k]> out) m l !! s = Some (f s).
Proof.
  revert m. induction l as [|x l IH]; intros m Hs; [destruct Hs|].
  simpl. destruct (in_dec string_dec s l) as [Hin|Hnot].
  - apply IH. exact Hin.
  - destruct Hs as [->|Hin]; [|contradiction].
    rewrite foldl_insert_other by exact Hnot. apply lookup_insert_eq.
Qed.

Lemma ratedBySource_lookup (installed plf : gmap string number) (s : string) :
  In s SOURCES -> ratedBySource installed plf !! s = Some (ratedOf installed plf s).
Proof. apply foldl_insert_lookup. Qed.

Lemma sumSources_rated (installed plf : gmap string number) (keys : list string) (acc : number) :
  (forall k, In k keys -> In k SOURCES) ->
  foldl (fun acc k => JsNum.add acc (safeNum (prop (ratedBySource installed plf) k))) acc keys
  = foldl (fun acc k => JsNum.add acc (safeNum (VNum (ratedOf installed plf k)))) acc keys.
Proof.
  revert acc. induction keys as [|k keys IH]; intros acc Hsub; [reflexivity|].
  simpl. rewrite IH by (intros; apply Hsub; right; assumption).
  f_equal. f_equal. unfold prop.
  rewrite ratedBySource_lookup by (apply Hsub; left; reflexivity). reflexivity.
Qed.

(** C1, as amended.  For every source the stored rated capacity is
    [round2(safeNum(installed) * (safeNum(plf) / 100))], evaluated in
    binary64 in that order, where [round2(x)] is [Math.round(x * 100)]
    divided by 100.  The total is the left-to-right sum, from 0, of
    [safeNum] of these rounded per-source values.  Installed 1.5 at a
    load factor of 35 gives 0.52, where the two-decimal rounding of
    [installed * plf / 100] is 0.53; two sources of 0.5 at a load factor
    of 1 total 0.02, where rounding the unrounded sum gives 0.01; a rated
    value that overflows to Infinity counts as 0 in the total. *)
Theorem C1_rated_capacity :
  (forall installed plf s, In s SOURCES ->
     ratedBySource installed plf !! s
     = Some (round2 (JsNum.mul (safeNum (prop installed s))
                               (JsNum.div (safeNum (prop plf s)) (Num 100)))))
  /\ (forall installed plf,
        ratedTotal installed plf
        = foldl (fun acc s =>
                   JsNum.add acc
                     (safeNum (VNum
                        (round2 (JsNum.mul (safeNum (prop installed s))
                                           (JsNum.div (safeNum (prop plf s)) (Num 100)))))))
                (Num 0) SOURCES)
  /\ (forall n w, JsNum.mul n (Num 100) = Num w ->
        round2 n = JsNum.round64 (inject_Z (Qfloor (w + (1 # 2))) / 100))
  /\ (ratedBySource (<["Coal" := Num (3 # 2)]> ∅) (<["Coal" := Num 35]> ∅) !! "Coal"
      = Some (JsNum.lit (52 # 100))
      /\ round2_spec ((3 # 2) * 35 / 100) = (53 # 100)%Q
      /\ JsNum.lit (52 # 100) <> JsNum.lit (53 # 100))
  /\ (let installed : gmap string number :=
        <["Coal" := Num (1 # 2)]> (<["Oil & Gas" := Num (1 # 2)]> ∅) in
      let plf : gmap string number :=
        <["Coal" := Num 1]> (<["Oil & Gas" := Num 1]> ∅) in
      ratedTotal installed plf = JsNum.lit (2 # 100)
      /\ roundedSumOfUnrounded installed plf = JsNum.lit (1 # 100))
  /\ (let installed : gmap string number :=
        <["Coal" := JsNum.lit (inject_Z (10 ^ 308))]> (<["Solar" := Num 10]> ∅) in
      let plf : gmap string number :=
        <["Coal" := Num 100]> (<["Solar" := Num 20]> ∅) in
      ratedBySource installed plf !! "Coal" = Some PInf
      /\ ratedTotal installed plf = Num 2)
  /\ length SOURCES = 8 /\ NoDup SOURCES.
Proof.
  split; [|split; [|split; [|split; [|split; [|split; [|split]]]]]].
  - intros installed plf s Hs. apply ratedBySource_lookup. exact Hs.
  - intros installed plf. unfold ratedTotal, sumSources.
    apply sumSources_rated. auto.
  - apply round2_Num.
  - split; [vm_compute; reflexivity|]. split; [vm_compute; reflexivity|].
    vm_compute. discriminate.
  - split; vm_compute; reflexivity.
  - split; vm_compute; reflexivity.
  - reflexivity.
  - apply (bool_decide_unpack (NoDup SOURCES)). vm_compute. exact I.
Qed.

(** Installed 100 at a load factor of 80 gives a rated capacity of 80. *)
Lemma C1_rated_capacity_witness :
  ratedBySource (<["Coal" := Num 100]> ∅) (<["Coal" := Num 80]> ∅) !! "Coal"
  = Some (Num 80).
Proof.
  destruct C1_rated_capacity as (H & _).
  rewrite (H (<["Coal" := Num 100]> ∅) (<["Coal" := Num 80]> ∅) "Coal").
  - vm_compute. reflexivity.
  - simpl. left. reflexivity.
Defined.

(** The rated capacity is not the two-decimal rounding of
    [installed * plf / 100], neither rounded from the exact quotient nor
    evaluated as written, from left to right, in binary64: installed 1.5
    at a load factor of 35 gives 0.52, both readings give 0.53. *)
Lemma C1_rated_capacity_counterexample :
  ~ (forall (installed plf : gmap string number) (s : string) (a p : Q),
       In s SOURCES -> binary64 a -> binary64 p ->
       installed !! s = Some (Num a) -> plf !! s = Some (Num p) ->
       ratedBySource installed plf !! s = Some (JsNum.lit (round2_spec (a * p / 100)))
       \/ ratedBySource installed plf !! s
          = Some (round2 (JsNum.div (JsNum.mul (Num a) (Num p)) (Num 100)))).
Proof.
  intros H.
  specialize (H (<["Coal" := Num (3 # 2)]> ∅) (<["Coal" := Num 35]> ∅) "Coal" (3 # 2) 35%Q).
  destruct H as [H|H];
    [left; reflexivity | vm_compute; reflexivity | vm_compute; reflexivity
     | reflexivity | reflexivity | |];
    vm_compute in H; discriminate H.
Qed.

(** ** The chart-axis domain *)

Lemma finiteValues_In (values : list (option number)) (x : number) :
  In x (finiteValues values) <-> In (Some x) values /\ JsNum.isFinite x = true.
Proof.
  unfold finiteValues. induction values as [|v values IH]; simpl.
  - tauto.
  - destruct v as [n|].
    + destruct (JsNum.isFinite n) eqn:E; simpl; rewrite IH.
      * split.
        -- intros [->|[H1 H2]]; auto.
        -- intros [[H|H] H2]; [left; congruence | right; auto].
      * split.
        -- intros [H1 H2]; auto.
        -- intros [[H|H] H2]; [injection H as ->; congruence | auto].
    + rewrite IH. split.
      * intros [H1 H2]; auto.
      * intros [[H|H] H2]; [discriminate | auto].
Qed.

Lemma finiteValues_allFinite (values : list (option number)) :
  allFinite (finiteValues values).
Proof.
  intros x Hx. apply finiteValues_In in Hx. apply isFinite_Num. tauto.
Qed.

Lemma min_Num (a x : Q) :
  exists r, JsNum.min (Num a) (Num x) = Num r
            /\ (r <= a)%Q /\ (r <= x)%Q /\ (r = a \/ r = x).
Proof.
  unfold JsNum.min. destruct (JsNum.ltb (Num x) (Num a)) eqn:E.
  - apply ltb_Num in E. exists x. repeat split; auto; lra.
  - apply ltb_Num_false in E. exists a. repeat split; auto; lra.
Qed.

Lemma max_Num (a x : Q) :
  exists r, JsNum.max (Num a) (Num x) = Num r
            /\ (a <= r)%Q /\ (x <= r)%Q /\ (r = a \/ r = x).
Proof.
  unfold JsNum.max. destruct (JsNum.ltb (Num a) (Num x)) eqn:E.
  - apply ltb_Num in E. exists x. repeat split; auto; lra.
  - apply ltb_Num_false in E. exists a. repeat split; auto; lra.
Qed.

Lemma foldl_min_Num (nums : list number) (a : Q) :
  allFinite nums ->
  exists r, foldl JsNum.min (Num a) nums = Num r
            /\ (r <= a)%Q
            /\ (forall x, In (Num x) nums -> (r <= x)%Q)
            /\ (r = a \/ In (Num r) nums).
Proof.
  revert a. induction nums as [|n nums IH]; intros a Hfin.
  - exists a. simpl. repeat split; auto; [lra | tauto].
  - destruct (Hfin n (or_introl eq_refl)) as [x ->]. cbn [foldl].
    destruct (min_Num a x) as (m & Hm & Hma & Hmx & Hsel). rewrite Hm.
    destruct (IH m) as (r & Hr & Hrm & Hall & Hin).
    { intros y Hy. apply Hfin. right. exact Hy. }
    exists r. split; [exact Hr|]. split; [lra|]. split.
    + intros y [Hy|Hy]; [injection Hy as <-; lra | auto].
    + destruct Hin as [->|Hin]; [|right; right; exact Hin].
      destruct Hsel as [->| ->]; [left; reflexivity | right; left; reflexivity].
Qed.

Lemma foldl_max_Num (nums : list number) (a : Q) :
  allFinite nums ->
  exists r, foldl JsNum.max (Num a) nums = Num r
            /\ (a <= r)%Q
            /\ (forall x, In (Num x) nums -> (x <= r)%Q)
            /\ (r = a \/ In (Num r) nums).
Proof.
  revert a. induction nums as [|n nums IH]; intros a Hfin.
  - exists a. simpl. repeat split; auto; [lra | tauto].
  - destruct (Hfin n (or_introl eq_refl)) as [x ->]. cbn [foldl].
    destruct (max_Num a x) as (m & Hm & Hma & Hmx & Hsel). rewrite Hm.
    destruct (IH m) as (r & Hr & Hrm & Hall & Hin).
    { intros y Hy. apply Hfin. right. exact Hy. }
    exists r. split; [exact Hr|]. split; [lra|]. split.
    + intros y [Hy|Hy]; [injection Hy as <-; lra | auto].
    + destruct Hin as [->|Hin]; [|right; right; exact Hin].
      destruct Hsel as [->| ->]; [left; reflexivity | right; left; reflexivity].
Qed.

Lemma minOf_spec (nums : list number) :
  allFinite nums -> nums <> [] ->
  exists mn, minOf nums = Num mn /\ In (Num mn) nums
             /\ forall x, In (Num x) nums -> (mn <= x)%Q.
Proof.
  intros Hfin Hne. destruct nums as [|n nums]; [congruence|].
  destruct (Hfin n (or_introl eq_refl)) as [x ->].
  unfold minOf. cbn [foldl]. change (JsNum.min PInf (Num x)) with (Num x).
  destruct (foldl_min_Num nums x) as (r & Hr & Hrx & Hall & Hin).
  { intros y Hy. apply Hfin. right. exact Hy. }
  exists r. split; [exact Hr|]. split.
  - destruct Hin as [->|Hin]; [left; reflexivity | right; exact Hin].
  - intros y [Hy|Hy]; [injection Hy as <-; exact Hrx | auto].
Qed.

Lemma maxOf_spec (nums : list number) :
  allFinite nums -> nums <> [] ->
  exists mx, maxOf nums = Num mx /\ In (Num mx) nums
             /\ forall x, In (Num x) nums -> (x <= mx)%Q.
Proof.
  intros Hfin Hne. destruct nums as [|n nums]; [congruence|].
  destruct (Hfin n (or_introl eq_refl)) as [x ->].
  unfold maxOf. cbn [foldl]. change (JsNum.max NInf (Num x)) with (Num x).
  destruct (foldl_max_Num nums x) as (r & Hr & Hrx & Hall & Hin).
  { intros y Hy. apply Hfin. right. exact Hy. }
  exists r. split; [exact Hr|]. split.
  - destruct Hin as [->|Hin]; [left; reflexivity | right; exact Hin].
  - intros y [Hy|Hy]; [injection Hy as <-; exact Hrx | auto].
Qed.

(** *** The padded interval in binary64 *)

Lemma ltb_between (a b : number) (d1 d2 : Q) :
  JsNum.leb a (Num d1) = true -> (d1 < d2)%Q -> JsNum.leb (Num d2) b = true ->
  JsNum.ltb a b = true.
Proof.
  intros Ha Hd Hb.
  destruct a as [x| | |]; try discriminate Ha;
    destruct b as [y| | |]; try discriminate Hb; try reflexivity.
  apply leb_Num in Ha. apply leb_Num in Hb. apply ltb_Num. lra.
Qed.

Lemma leb_Num_inv (d : Q) (n : number) (r : Q) :
  JsNum.leb (Num d) n = true -> n = Num r -> (d <= r)%Q.
Proof. intros H ->. apply leb_Num. exact H. Qed.

(** [Math.max] of a finite [m] and a product that is finite or
    +Infinity. *)
Lemma max_pad (m : Q) (t : number) :
  t = PInf \/ (exists r, t = Num r) ->
  JsNum.max (Num m) t = PInf
  \/ exists p, JsNum.max (Num m) t = Num p /\ (m <= p)%Q
               /\ forall r, t = Num r -> (r <= p)%Q.
Proof.
  intros [->|[r ->]]; [left; reflexivity|]. right.
  unfold JsNum.max. destruct (JsNum.ltb (Num m) (Num r)) eqn:E.
  - apply ltb_Num in E. exists r. split; [reflexivity|]. split; [lra|].
    intros r' H. injection H as <-. lra.
  - apply ltb_Num_false in E. exists m. split; [reflexivity|]. split; [lra|].
    intros r' H. injection H as <-. exact E.
Qed.

Lemma round64_finite_or_PInf (q : Q) :
  (0 <= q)%Q -> JsNum.round64 q = PInf \/ exists r, JsNum.round64 q = Num r.
Proof.
  intros Hq. destruct (Qlt_le_dec 0 q) as [H|H].
  - rewrite (round64_pos q H). destruct (Qle_bool _ _); eauto.
  - right. exists 0%Q. apply round64_zero. lra.
Qed.

(** Padding moves the lower end down and the upper end up, or leaves
    them where they are. *)
Lemma padded_outwards (x y p : Q) :
  binary64 x -> binary64 y -> (0 <= p)%Q ->
  JsNum.leb (JsNum.sub (Num x) (Num p)) (Num x) = true
  /\ JsNum.leb (Num y) (JsNum.add (Num y) (Num p)) = true.
Proof.
  intros Hx Hy Hp. split.
  - apply round64_le; [exact Hx | lra].
  - apply round64_ge; [exact Hy | lra].
Qed.

(** The spacing around [|x|] is no more than a padding that is at least
    a positive binary64 value and at least [|x|] times a factor of
    [2^-52] or more, rounded. *)
Lemma ulp_le_pad (x m c p : Q) :
  (0 < x)%Q -> binary64 x -> binary64 m -> (0 < m)%Q -> (1 # 2 ^ 52 <= c)%Q ->
  (m <= p)%Q -> (forall r, JsNum.round64 (x * c) = Num r -> (r <= p)%Q) ->
  JsNum.round64 (x * c) <> PInf ->
  (JsNum.ulp x <= p)%Q.
Proof.
  intros Hx Bx Bm Hm Hc Hmp Hr Hfin.
  destruct (ulp_small x Hx) as [Hs|Hs].
  - destruct (ulp_binary64 x Hx Bx) as (g & Bg & Eg).
    assert (Hge : (g <= x * c)%Q).
    { rewrite Eg. change (1 # 2 ^ 52)%Q with (1 # 4503599627370496)%Q in *. nra. }
    pose proof (round64_ge (x * c) g Bg Hge) as Hl.
    destruct (round64_finite_or_PInf (x * c)) as [F|[r F]].
    { change (1 # 2 ^ 52)%Q with (1 # 4503599627370496)%Q in *. nra. }
    + contradiction.
    + pose proof (leb_Num_inv g _ r Hl F). specialize (Hr r F). rewrite <- Eg. lra.
  - rewrite Hs. pose proof (binary64_least m Hm Bm). lra.
Qed.

Lemma padded_single_pos (x p : Q) :
  (0 < x)%Q -> binary64 x -> (JsNum.ulp x <= p)%Q ->
  JsNum.ltb (JsNum.sub (Num x) (Num p)) (JsNum.add (Num x) (Num p)) = true.
Proof.
  intros Hx Bx Hp. pose proof (ulp_pos x) as Hu.
  destruct (binary64_below x Hx Bx) as (d & Bd & Ed).
  apply (ltb_between _ _ d x).
  - apply round64_le; [exact Bd | lra].
  - lra.
  - apply round64_ge; [exact Bx | lra].
Qed.

Lemma padded_single_neg (x p : Q) :
  (x < 0)%Q -> binary64 x -> (JsNum.ulp (- x) <= p)%Q ->
  JsNum.ltb (JsNum.sub (Num x) (Num p)) (JsNum.add (Num x) (Num p)) = true.
Proof.
  intros Hx Bx Hp. pose proof (ulp_pos (- x)) as Hu.
  destruct (binary64_below (- x) ltac:(lra) (binary64_opp x Bx)) as (d & Bd & Ed).
  apply (ltb_between _ _ x (- d)).
  - apply round64_le; [exact Bx | lra].
  - lra.
  - apply round64_ge; [apply binary64_opp; exact Bd | lra].
Qed.

Lemma padded_single_zero (x m p : Q) :
  (x == 0)%Q -> binary64 m -> (0 < m)%Q -> (m <= p)%Q ->
  JsNum.ltb (JsNum.sub (Num x) (Num p)) (JsNum.add (Num x) (Num p)) = true.
Proof.
  intros Hx Bm Hm Hp.
  apply (ltb_between _ _ (- m) m).
  - apply round64_le; [apply binary64_opp; exact Bm | lra].
  - lra.
  - apply round64_ge; [exact Bm | lra].
Qed.

(** The interval around a single value has positive width. *)
Lemma padded_single (x m c : Q) :
  binary64 x -> binary64 m -> (0 < m)%Q -> (1 # 2 ^ 52 <= c)%Q ->
  let pad := JsNum.max (Num m) (JsNum.mul (JsNum.abs (Num x)) (Num c)) in
  JsNum.ltb (JsNum.sub (Num x) pad) (JsNum.add (Num x) pad) = true.
Proof.
  intros Bx Bm Hm Hc pad. subst pad. cbn [JsNum.abs JsNum.mul].
  assert (Hc0 : (0 < c)%Q).
  { change (1 # 2 ^ 52)%Q with (1 # 4503599627370496)%Q in Hc. lra. }
  assert (Ha : (0 <= Qred (Qabs x) * c)%Q).
  { rewrite Qred_correct. pose proof (Qabs_nonneg x). nra. }
  destruct (max_pad m (JsNum.round64 (Qred (Qabs x) * c)) (round64_finite_or_PInf _ Ha))
    as [E|(p & E & Hmp & Hr)]; rewrite E; [reflexivity|].
  destruct (Q_dec x 0) as [[H|H]|H].
  - apply padded_single_neg; [exact H | exact Bx |].
    assert (Eq : (Qred (Qabs x) * c == - x * c)%Q).
    { rewrite Qred_correct, Qabs_neg by lra. reflexivity. }
    rewrite (round64_comp _ _ Eq) in Hr, E.
    apply (ulp_le_pad (- x) m c p); try assumption; [lra | apply binary64_opp; exact Bx |].
    intros F. rewrite F in E. discriminate E.
  - apply padded_single_pos; [exact H | exact Bx |].
    assert (Eq : (Qred (Qabs x) * c == x * c)%Q).
    { rewrite Qred_correct, Qabs_pos by lra. reflexivity. }
    rewrite (round64_comp _ _ Eq) in Hr, E.
    apply (ulp_le_pad x m c p); try assumption.
    intros F. rewrite F in E. discriminate E.
  - apply (padded_single_zero x m p); assumption.
Qed.

(** The interval around two different values has positive width. *)
Lemma padded_range (x y m c : Q) :
  binary64 x -> binary64 y -> (x < y)%Q -> (0 < m)%Q -> (0 < c)%Q ->
  let pad := JsNum.max (Num m) (JsNum.mul (JsNum.sub (Num y) (Num x)) (Num c)) in
  JsNum.ltb (JsNum.sub (Num x) pad) (JsNum.add (Num y) pad) = true.
Proof.
  intros Bx By Hxy Hm Hc pad. subst pad. cbn [JsNum.sub].
  assert (Ht : JsNum.mul (JsNum.round64 (y - x)) (Num c) = PInf
               \/ exists r, JsNum.mul (JsNum.round64 (y - x)) (Num c) = Num r).
  { destruct (round64_finite_or_PInf (y - x) ltac:(lra)) as [E|[r E]]; rewrite E.
    - left. cbn [JsNum.mul]. unfold JsNum.scaleInf.
      apply Qsign_Gt in Hc. rewrite Hc. reflexivity.
    - cbn [JsNum.mul]. apply round64_finite_or_PInf.
      assert (Hr : (0 <= r)%Q).
      { pose proof (round64_ge (y - x) 0 eq_refl ltac:(lra)) as Hl.
        apply (leb_Num_inv 0 _ r Hl E). }
      nra. }
  destruct (max_pad m _ Ht) as [E|(p & E & Hmp & _)]; rewrite E; [reflexivity|].
  destruct (padded_outwards x y p Bx By ltac:(lra)) as [Hlo Hhi].
  apply (ltb_between _ _ x y); assumption.
Qed.

(** What [computeDomain] answers, and the width of the answer. *)
Lemma computeDomain_described (values : list (option number)) (padPct minAbsPad : Q) :
  match computeDomain values (Num padPct) (Num minAbsPad) with
  | None => finiteValues values = []
  | Some (lo, hi) =>
      exists mn mx : Q,
        In (Num mn) (finiteValues values)
        /\ In (Num mx) (finiteValues values)
        /\ (forall x, In (Num x) (finiteValues values) -> (mn <= x <= mx)%Q)
        /\ (let pad :=
              JsNum.max (Num minAbsPad)
                (if Qeq_bool mn mx
                 then JsNum.mul (JsNum.abs (Num mn)) (Num padPct)
                 else JsNum.mul (JsNum.sub (Num mx) (Num mn)) (Num padPct)) in
            lo = JsNum.sub (Num mn) pad /\ hi = JsNum.add (Num mx) pad)
        /\ ((forall q, In (Some (Num q)) values -> binary64 q) ->
            binary64 minAbsPad -> (0 < minAbsPad)%Q -> (1 # 2 ^ 52 <= padPct)%Q ->
            JsNum.ltb lo hi = true)
  end.
Proof.
  unfold computeDomain.
  destruct (finiteValues values) as [|n nums] eqn:Enums; [reflexivity|].
  cbn [length Nat.eqb].
  assert (Hfin : allFinite (n :: nums)).
  { rewrite <- Enums. apply finiteValues_allFinite. }
  destruct (minOf_spec (n :: nums) Hfin ltac:(discriminate)) as (mn & Hmn & Hmin_in & Hmin).
  destruct (maxOf_spec (n :: nums) Hfin ltac:(discriminate)) as (mx & Hmx & Hmax_in & Hmax).
  rewrite Hmn, Hmx.
  change (JsNum.eqb (Num mn) (Num mx)) with (Qeq_bool mn mx).
  assert (Hle : (mn <= mx)%Q) by (apply Hmin; exact Hmax_in).
  assert (Hb : (forall q, In (Some (Num q)) values -> binary64 q) ->
               binary64 mn /\ binary64 mx).
  { intros Hv. rewrite <- Enums in Hmin_in, Hmax_in.
    apply finiteValues_In in Hmin_in. apply finiteValues_In in Hmax_in.
    split; apply Hv; tauto. }
  destruct (Qeq_bool mn mx) eqn:Eeq.
  - exists mn, mx. rewrite Eeq.
    split; [exact Hmin_in|]. split; [exact Hmax_in|]. split; [auto|].
    split; [split; reflexivity|].
    intros Hv Bm Hm Hc. destruct (Hb Hv) as [Bmn Bmx].
    apply Qeq_bool_iff in Eeq.
    assert (E : mx = mn).
    { rewrite <- (binary64_canon mx Bmx), <- (binary64_canon mn Bmn).
      apply Qred_complete. symmetry. exact Eeq. }
    rewrite E. apply padded_single; assumption.
  - exists mn, mx. rewrite Eeq.
    split; [exact Hmin_in|]. split; [exact Hmax_in|]. split; [auto|].
    split; [split; reflexivity|].
    intros Hv Bm Hm Hc. destruct (Hb Hv) as [Bmn Bmx].
    apply padded_range; try assumption.
    + apply Qeq_bool_neq in Eeq. lra.
    + change (1 # 2 ^ 52)%Q with (1 # 4503599627370496)%Q in Hc. lra.
Qed.

(** The padding factor 0.05 of every call, as a binary64 value. *)
Lemma lit_twentieth : JsNum.lit (1 # 20) = Num (3602879701896397 # 72057594037927936).
Proof. vm_compute. reflexivity. Qed.

(** C8.  [computeDomain] keeps the entries that are finite numbers and
    answers undefined exactly when none is left; otherwise it answers
    [[min - pad, max + pad]] with
    [pad = max(minAbsPad, (max - min) * padPct)], and
    [pad = max(minAbsPad, |min| * padPct)] when [min] equals [max], all
    in binary64.  For binary64 values, a positive binary64 [minAbsPad]
    and a [padPct] of [2^-52] or more the interval has strictly positive
    width; so it has with [padPct = 0.05] and [minAbsPad] 0.5 or 1, the
    arguments of every call and the default ones.  The single value 50
    with [padPct = 0.05] and [minAbsPad = 1] gives [[47.5, 52.5]]. *)
Theorem C8_computeDomain (values : list (option number)) (padPct minAbsPad : Q) :
  (forall x, In x (finiteValues values) <-> In (Some x) values /\ JsNum.isFinite x = true)
  /\ match computeDomain values (Num padPct) (Num minAbsPad) with
     | None => finiteValues values = []
     | Some (lo, hi) =>
         exists mn mx : Q,
           In (Num mn) (finiteValues values)
           /\ In (Num mx) (finiteValues values)
           /\ (forall x, In (Num x) (finiteValues values) -> (mn <= x <= mx)%Q)
           /\ (let pad :=
                 JsNum.max (Num minAbsPad)
                   (if Qeq_bool mn mx
                    then JsNum.mul (JsNum.abs (Num mn)) (Num padPct)
                    else JsNum.mul (JsNum.sub (Num mx) (Num mn)) (Num padPct)) in
               lo = JsNum.sub (Num mn) pad /\ hi = JsNum.add (Num mx) pad)
           /\ ((forall q, In (Some (Num q)) values -> binary64 q) ->
               binary64 minAbsPad -> (0 < minAbsPad)%Q -> (1 # 2 ^ 52 <= padPct)%Q ->
               JsNum.ltb lo hi = true)
     end
  /\ (forall m lo hi,
        (forall q, In (Some (Num q)) values -> binary64 q) ->
        m = (1 # 2)%Q \/ m = 1%Q ->
        computeDomain values (JsNum.lit (1 # 20)) (Num m) = Some (lo, hi) ->
        JsNum.ltb lo hi = true)
  /\ computeDomain [Some (Num 50)] (JsNum.lit (1 # 20)) (Num 1)
     = Some (Num (95 # 2), Num (105 # 2)).
Proof.
  split; [apply finiteValues_In|]. split; [apply computeDomain_described|].
  split; [|vm_compute; reflexivity].
  intros m lo hi Hv Hm H. rewrite lit_twentieth in H.
  pose proof (computeDomain_described values (3602879701896397 # 72057594037927936) m) as D.
  rewrite H in D. destruct D as (mn & mx & _ & _ & _ & _ & Hpos).
  apply Hpos; [exact Hv | | | vm_compute; discriminate];
    destruct Hm as [-> | ->]; vm_compute; reflexivity.
Qed.

(** The domain of the constant series 50, 50 at the padding of the left
    axis, 0.05 and 0.5. *)
Lemma C8_computeDomain_witness :
  computeDomain [Some (Num 50); None; Some (Num 50)] (JsNum.lit (1 # 20)) (Num (1 # 2))
  = Some (Num (95 # 2), Num (105 # 2))
  /\ JsNum.ltb (Num (95 # 2)) (Num (105 # 2)) = true.
Proof.
  split; [vm_compute; reflexivity|].
  pose proof (C8_computeDomain [Some (Num 50); None; Some (Num 50)] (1 # 20) (1 # 2))
    as (_ & _ & H & _).
  apply (H (1 # 2)%Q).
  - intros q [E|[E|[E|[]]]]; try discriminate E;
      injection E as <-; vm_compute; reflexivity.
  - left. reflexivity.
  - vm_compute. reflexivity.
Defined.

(** With [padPct] and [minAbsPad] both zero, which no call passes, the
    domain of a single value has no width. *)
Lemma computeDomain_no_padding :
  computeDomain [Some (Num 5)] (Num 0) (Num 0) = Some (Num 5, Num 5).
Proof. reflexivity. Qed.

(** ** Digit strings *)

Lemma isDigit_code (c : ascii) :
  Str.isDigit c = true <-> 48 <= nat_of_ascii c <= 57.
Proof.
  unfold Str.isDigit. rewrite Bool.andb_true_iff, !Nat.leb_le. tauto.
Qed.

Lemma digit_not (c d : ascii) :
  Str.isDigit c = true -> Str.isDigit d = false -> Ascii.eqb c d = false.
Proof.
  intros Hc Hd. apply Ascii.eqb_neq. intros ->. congruence.
Qed.

Lemma digit_not_space (c : ascii) :
  Str.isDigit c = true -> Str.isWhiteSpace c = false.
Proof.
  rewrite isDigit_code. intros H. unfold Str.isWhiteSpace.
  repeat (apply Bool.orb_false_iff; split).
  - apply Bool.andb_false_iff. right. apply Nat.leb_gt. lia.
  - apply Nat.eqb_neq. lia.
  - apply Nat.eqb_neq. lia.
Qed.

Lemma digitVal_range (c : ascii) :
  Str.isDigit c = true -> (0 <= Conv.digitVal c <= 9)%Z.
Proof. rewrite isDigit_code. unfold Conv.digitVal. lia. Qed.

Lemma trimStart_digits (s : string) : Str.allDigits s = true -> Str.trimStart s = s.
Proof.
  destruct s as [|c r]; [reflexivity|]. cbn [Str.allDigits Str.trimStart]. intros H.
  apply Bool.andb_true_iff in H as [Hc _]. rewrite (digit_not_space c Hc). reflexivity.
Qed.

Lemma trimEnd_digits (s : string) : Str.allDigits s = true -> Str.trimEnd s = s.
Proof.
  induction s as [|c r IH]; [reflexivity|]. cbn [Str.allDigits Str.trimEnd]. intros H.
  apply Bool.andb_true_iff in H as [Hc Hr].
  rewrite (digit_not_space c Hc), IH by exact Hr. reflexivity.
Qed.

Lemma trim_digits (s : string) : Str.allDigits s = true -> Str.trim s = s.
Proof.
  intros H. unfold Str.trim. rewrite trimStart_digits by exact H.
  apply trimEnd_digits. exact H.
Qed.

Lemma spanDigits_all (s : string) :
  Str.allDigits s = true -> Conv.spanDigits s = (s, EmptyString).
Proof.
  induction s as [|c r IH]; [reflexivity|]. cbn [Str.allDigits Conv.spanDigits]. intros H.
  apply Bool.andb_true_iff in H as [Hc Hr]. rewrite Hc, IH by exact Hr. reflexivity.
Qed.

Lemma digitsValue_bounds (s : string) (acc : Z) :
  Str.allDigits s = true -> (0 <= acc)%Z ->
  (0 <= Conv.digitsValue acc s < (acc + 1) * 10 ^ Z.of_nat (String.length s))%Z.
Proof.
  revert acc. induction s as [|c r IH]; intros acc H Hacc.
  - simpl. lia.
  - cbn [Str.allDigits] in H. apply Bool.andb_true_iff in H as [Hc Hr].
    pose proof (digitVal_range c Hc) as Hd.
    cbn [Conv.digitsValue String.length].
    specialize (IH (acc * 10 + Conv.digitVal c)%Z Hr ltac:(lia)).
    rewrite Nat2Z.inj_succ, Z.pow_succ_r by lia.
    split; [lia|].
    eapply Z.lt_le_trans; [apply IH|].
    assert (0 < 10 ^ Z.of_nat (String.length r))%Z by (apply Z.pow_pos_nonneg; lia).
    nia.
Qed.

Lemma app_cons (c : ascii) (r s : string) : String c r +:+ s = String c (r +:+ s).
Proof. reflexivity. Qed.

Lemma app_nil_l (s : string) : EmptyString +:+ s = s.
Proof. reflexivity. Qed.

Lemma string_app_empty (s : string) : s +:+ EmptyString = s.
Proof. induction s as [|c r IH]; [reflexivity|]. rewrite app_cons, IH. reflexivity. Qed.

Lemma parseDecimal_digit (c : ascii) (r : string) :
  Str.isDigit c = true ->
  Conv.parseDecimal (String c r) = Conv.parseUnsigned (String c r).
Proof.
  intros H. destruct c as [[] [] [] [] [] [] [] []]; try discriminate H; reflexivity.
Qed.

Lemma parseNonDecimal_digits (s : string) :
  Str.allDigits s = true -> Conv.parseNonDecimal s = None.
Proof.
  destruct s as [|c [|p r]]; [reflexivity| |].
  { intros _. destruct c as [[] [] [] [] [] [] [] []]; reflexivity. }
  intros H.
  cbn [Str.allDigits] in H. apply Bool.andb_true_iff in H as [Hc H].
  apply Bool.andb_true_iff in H as [Hp _].
  unfold Conv.parseNonDecimal.
  rewrite !(digit_not p _ Hp) by reflexivity. simpl.
  destruct c as [[] [] [] [] [] [] [] []]; reflexivity.
Qed.

Lemma eqb_Infinity_digit (c : ascii) (r : string) :
  Str.isDigit c = true -> String.eqb (String c r) "Infinity" = false.
Proof.
  intros H. apply String.eqb_neq. intros E. injection E as -> _. discriminate H.
Qed.

Lemma ofRational_small (z : Z) :
  (0 <= z < 10 ^ 300)%Z -> Conv.ofRational (inject_Z z * Qpower 10 0) = Num (inject_Z z).
Proof.
  intros Hz. unfold Conv.ofRational.
  assert (E : (inject_Z z * Qpower 10 0 == inject_Z z)%Q) by (simpl; ring).
  assert (Hlt : (10 ^ 300 < 2 ^ 1024 - 2 ^ 970)%Z) by (vm_compute; reflexivity).
  destruct (Qle_bool Conv.overflowBound (inject_Z z * Qpower 10 0)) eqn:E1.
  { apply Qle_bool_iff in E1. rewrite E in E1. unfold Conv.overflowBound in E1.
    rewrite <- Zle_Qle in E1. lia. }
  destruct (Qle_bool (inject_Z z * Qpower 10 0) (- Conv.overflowBound)) eqn:E2.
  { apply Qle_bool_iff in E2. rewrite E in E2. unfold Conv.overflowBound in E2.
    rewrite <- inject_Z_opp, <- Zle_Qle in E2. lia. }
  f_equal. apply Qred_to_Z. exact E.
Qed.

(** [Number(s)] on a string of decimal digits is the integer they write. *)
Lemma StringToNumber_digits (s : string) :
  Str.allDigits s = true -> s <> EmptyString -> (String.length s <= 300)%nat ->
  Conv.StringToNumber s = Num (inject_Z (Conv.digitsValue 0 s)).
Proof.
  intros Hd Hne Hlen. unfold Conv.StringToNumber.
  rewrite trim_digits by exact Hd.
  destruct s as [|c r]; [congruence|]. cbn [Str.isEmpty].
  rewrite parseNonDecimal_digits by exact Hd.
  assert (Hc : Str.isDigit c = true).
  { cbn [Str.allDigits] in Hd. apply Bool.andb_true_iff in Hd. tauto. }
  rewrite parseDecimal_digit by exact Hc.
  unfold Conv.parseUnsigned. rewrite eqb_Infinity_digit by exact Hc.
  unfold Conv.parseUnsignedDecimal. rewrite spanDigits_all by exact Hd.
  cbn [Str.isEmpty andb Conv.parseExponent String.length Z.of_nat Z.sub option_map].
  rewrite string_app_empty.
  f_equal.
  change (0 - 0)%Z with 0%Z.
  pose proof (digitsValue_bounds (String c r) 0 Hd ltac:(lia)) as Hb.
  apply ofRational_small. split; [lia|].
  eapply Z.lt_le_trans; [apply Hb|]. rewrite Z.mul_1_l.
  apply Z.pow_le_mono_r; lia.
Qed.

(** ** The anchored patterns *)

Lemma app_assoc_str (a b c : string) : (a +:+ b) +:+ c = a +:+ (b +:+ c).
Proof.
  induction a as [|x a IH]; [reflexivity|]. rewrite !app_cons, IH. reflexivity.
Qed.

Lemma length_app_str (a b : string) :
  String.length (a +:+ b) = String.length a + String.length b.
Proof.
  induction a as [|x a IH]; [reflexivity|]. rewrite app_cons. simpl. rewrite IH. reflexivity.
Qed.

Lemma allDigits_app (a b : string) :
  Str.allDigits (a +:+ b) = Str.allDigits a && Str.allDigits b.
Proof.
  induction a as [|x a IH]; [reflexivity|]. rewrite app_cons.
  cbn [Str.allDigits]. rewrite IH, Bool.andb_assoc. reflexivity.
Qed.

Lemma takeDigits_sound (n : nat) (s d r : string) :
  Str.takeDigits n s = Some (d, r) ->
  s = d +:+ r /\ Str.allDigits d = true /\ String.length d = n.
Proof.
  revert s d r. induction n as [|n IH]; intros s d r H.
  - injection H as <- <-. auto.
  - cbn [Str.takeDigits] in H. destruct s as [|c s]; [discriminate|].
    destruct (Str.isDigit c) eqn:Hc; [|discriminate].
    destruct (Str.takeDigits n s) as [[d' r']|] eqn:E; [|discriminate].
    injection H as <- <-. destruct (IH _ _ _ E) as (-> & Hd & Hl).
    rewrite app_cons. cbn [Str.allDigits String.length]. rewrite Hc, Hd, Hl. auto.
Qed.

Lemma takeDigits_complete (d r : string) :
  Str.allDigits d = true -> Str.takeDigits (String.length d) (d +:+ r) = Some (d, r).
Proof.
  induction d as [|c d IH]; intros H; [reflexivity|].
  cbn [Str.allDigits] in H. apply Bool.andb_true_iff in H as [Hc Hd].
  rewrite app_cons. cbn [String.length Str.takeDigits]. rewrite Hc, IH by exact Hd.
  reflexivity.
Qed.

Lemma takeDigits_exact (n : nat) (d r : string) :
  Str.allDigits d = true -> String.length d = n ->
  Str.takeDigits n (d +:+ r) = Some (d, r).
Proof. intros H <-. apply takeDigits_complete. exact H. Qed.

Lemma takeChar_sound (c : ascii) (s r : string) :
  Str.takeChar c s = Some r -> s = String c r.
Proof.
  destruct s as [|d s]; [discriminate|]. cbn [Str.takeChar].
  destruct (Ascii.eqb d c) eqn:E; [|discriminate].
  apply Ascii.eqb_eq in E. intros H. injection H as <-. subst d. reflexivity.
Qed.

Lemma takeChar_complete (c : ascii) (r : string) : Str.takeChar c (String c r) = Some r.
Proof. cbn [Str.takeChar]. rewrite Ascii.eqb_refl. reflexivity. Qed.

Lemma atEnd_sound (s : string) (u : unit) : Str.atEnd s = Some u -> s = EmptyString.
Proof. destruct s; [reflexivity | discriminate]. Qed.

Local Opaque Str.takeDigits Str.takeChar Str.atEnd.

Lemma matchISO_iff (t yyyy mm dd : string) :
  matchISO t = Some (yyyy, mm, dd) <-> shapeISO t yyyy mm dd.
Proof.
  unfold matchISO, shapeISO, digits. split.
  - intros H.
    destruct (Str.takeDigits 4 t) as [[y r1]|] eqn:E1; [|discriminate]. cbn in H.
    destruct (Str.takeChar "-" r1) as [r2|] eqn:E2; [|discriminate]. cbn in H.
    destruct (Str.takeDigits 2 r2) as [[m r3]|] eqn:E3; [|discriminate]. cbn in H.
    destruct (Str.takeChar "-" r3) as [r4|] eqn:E4; [|discriminate]. cbn in H.
    destruct (Str.takeDigits 2 r4) as [[d r5]|] eqn:E5; [|discriminate]. cbn in H.
    destruct (Str.atEnd r5) as [u|] eqn:E6; [|discriminate]. cbn in H.
    injection H as <- <- <-.
    apply takeDigits_sound in E1 as (-> & ? & ?).
    apply takeChar_sound in E2 as ->.
    apply takeDigits_sound in E3 as (-> & ? & ?).
    apply takeChar_sound in E4 as ->.
    apply takeDigits_sound in E5 as (-> & ? & ?).
    apply atEnd_sound in E6 as ->. rewrite string_app_empty. auto 10.
  - intros (-> & [Hy Ly] & [Hm Lm] & [Hd Ld]).
    rewrite (takeDigits_exact 4 yyyy _ Hy Ly). cbn.
    rewrite takeChar_complete. cbn.
    rewrite (takeDigits_exact 2 mm _ Hm Lm). cbn.
    rewrite takeChar_complete. cbn.
    rewrite <- (string_app_empty dd) at 1.
    rewrite (takeDigits_exact 2 dd _ Hd Ld). reflexivity.
Qed.

Lemma matchDMY_iff (sep : ascii) (t dd mm yyyy : string) :
  matchDMY sep t = Some (dd, mm, yyyy) <-> shapeDMY sep t dd mm yyyy.
Proof.
  unfold matchDMY, shapeDMY, digits. split.
  - intros H.
    destruct (Str.takeDigits 2 t) as [[d r1]|] eqn:E1; [|discriminate]. cbn in H.
    destruct (Str.takeChar sep r1) as [r2|] eqn:E2; [|discriminate]. cbn in H.
    destruct (Str.takeDigits 2 r2) as [[m r3]|] eqn:E3; [|discriminate]. cbn in H.
    destruct (Str.takeChar sep r3) as [r4|] eqn:E4; [|discriminate]. cbn in H.
    destruct (Str.takeDigits 4 r4) as [[y r5]|] eqn:E5; [|discriminate]. cbn in H.
    destruct (Str.atEnd r5) as [u|] eqn:E6; [|discriminate]. cbn in H.
    injection H as <- <- <-.
    apply takeDigits_sound in E1 as (-> & ? & ?).
    apply takeChar_sound in E2 as ->.
    apply takeDigits_sound in E3 as (-> & ? & ?).
    apply takeChar_sound in E4 as ->.
    apply takeDigits_sound in E5 as (-> & ? & ?).
    apply atEnd_sound in E6 as ->. rewrite string_app_empty. auto 10.
  - intros (-> & [Hd Ld] & [Hm Lm] & [Hy Ly]).
    rewrite (takeDigits_exact 2 dd _ Hd Ld). cbn.
    rewrite takeChar_complete. cbn.
    rewrite (takeDigits_exact 2 mm _ Hm Lm). cbn.
    rewrite takeChar_complete. cbn.
    rewrite <- (string_app_empty yyyy) at 1.
    rewrite (takeDigits_exact 4 yyyy _ Hy Ly). reflexivity.
Qed.

Lemma monthTail_iff (mm r g1 g2 : string) :
  monthTail mm r = Some (g1, g2)
  <-> g1 = mm /\ r = String "/" g2 /\ digits 4 g2.
Proof.
  unfold monthTail, digits. split.
  - intros H.
    destruct (Str.takeChar "/" r) as [r2|] eqn:E2; [|discriminate]. cbn in H.
    destruct (Str.takeDigits 4 r2) as [[y r3]|] eqn:E3; [|discriminate]. cbn in H.
    destruct (Str.atEnd r3) as [u|] eqn:E4; [|discriminate]. cbn in H.
    injection H as <- <-.
    apply takeChar_sound in E2 as ->.
    apply takeDigits_sound in E3 as (-> & ? & ?).
    apply atEnd_sound in E4 as ->. rewrite string_app_empty. auto.
  - intros (-> & -> & [Hy Ly]).
    rewrite takeChar_complete. cbn.
    rewrite <- (string_app_empty g2) at 1.
    rewrite (takeDigits_exact 4 g2 _ Hy Ly). reflexivity.
Qed.

Local Transparent Str.takeDigits Str.takeChar Str.atEnd.

Lemma takeDigits_1_of_2 (t d r : string) :
  Str.takeDigits 2 t = Some (d, r) ->
  exists c1 c2, d = String c1 (String c2 EmptyString)
                /\ Str.isDigit c2 = true
                /\ Str.takeDigits 1 t = Some (String c1 EmptyString, String c2 r).
Proof.
  intros H. destruct t as [|c1 [|c2 t]]; cbn in H.
  - discriminate.
  - destruct (Str.isDigit c1); discriminate.
  - cbn. destruct (Str.isDigit c1); [|discriminate].
    destruct (Str.isDigit c2) eqn:E2; [|discriminate].
    injection H as <- <-. eauto.
Qed.

Local Opaque Str.takeDigits Str.takeChar Str.atEnd.

Lemma matchMonthYear_iff (t g1 g2 : string) :
  matchMonthYear t = Some (g1, g2) <-> shapeMonthYear t g1 g2.
Proof.
  unfold matchMonthYear, shapeMonthYear. split.
  - intros H.
    destruct (Str.takeDigits 2 t) as [[mm r]|] eqn:E2.
    + destruct (monthTail mm r) as [g|] eqn:Et.
      * injection H as ->. apply monthTail_iff in Et as (-> & -> & Hy).
        apply takeDigits_sound in E2 as (-> & Hm & Lm).
        split; [reflexivity|]. split; [right; split; assumption | exact Hy].
      * destruct (takeDigits_1_of_2 _ _ _ E2) as (c1 & c2 & -> & Hc2 & E1).
        rewrite E1 in H. cbn in H.
        apply monthTail_iff in H as (_ & Habs & _).
        injection Habs as -> _. discriminate Hc2.
    + destruct (Str.takeDigits 1 t) as [[mm r]|] eqn:E1; [|discriminate]. cbn in H.
      apply monthTail_iff in H as (-> & -> & Hy).
      apply takeDigits_sound in E1 as (-> & Hm & Lm).
      split; [reflexivity|]. split; [left; split; assumption | exact Hy].
  - intros (-> & [[Hm Lm]|[Hm Lm]] & Hy).
    + destruct (Str.takeDigits 2 (g1 +:+ String "/" g2)) as [[mm r]|] eqn:E2.
      * exfalso. apply takeDigits_sound in E2 as (E & Hd & Ld).
        destruct g1 as [|c1 [|c g1]]; try discriminate Lm.
        destruct mm as [|m1 [|m2 [|m3 mm]]]; try discriminate Ld.
        rewrite !app_cons in E. injection E as _ E _.
        cbn [Str.allDigits] in Hd. rewrite <- E in Hd.
        rewrite Bool.andb_true_iff in Hd. destruct Hd as [_ Hd]. discriminate Hd.
      * rewrite (takeDigits_exact 1 g1 _ Hm Lm). cbn.
        apply monthTail_iff. auto.
    + rewrite (takeDigits_exact 2 g1 _ Hm Lm).
      assert (Et : monthTail g1 (String "/" g2) = Some (g1, g2)) by (apply monthTail_iff; auto).
      rewrite Et. reflexivity.
Qed.

Local Transparent Str.takeDigits Str.takeChar Str.atEnd.

(** ** Year-over-year growth *)

Lemma take_app_str (a b : string) : Str.take (String.length a) (a +:+ b) = a.
Proof.
  induction a as [|x a IH]; [destruct b; reflexivity|].
  rewrite app_cons. cbn [String.length Str.take]. rewrite IH. reflexivity.
Qed.

Lemma drop_app_str (a b : string) : Str.drop (String.length a) (a +:+ b) = b.
Proof.
  induction a as [|x a IH]; [destruct b; reflexivity|].
  rewrite app_cons. cbn [String.length Str.drop]. exact IH.
Qed.

Lemma showsInteger_range : forallb showsInteger (seqZ (-1) 10001) = true.
Proof. vm_compute. reflexivity. Qed.

(** Printing an integer between -1 and 9999. *)
Lemma numberToString_small (y : Z) :
  (-1 <= y <= 9999)%Z -> NumStr.numberToString (Num (inject_Z y)) = Conv.showZ y.
Proof.
  intros Hy. apply String.eqb_eq.
  pose proof showsInteger_range as H. rewrite forallb_forall in H.
  apply (H y). apply list_elem_of_In. apply elem_of_seqZ. lia.
Qed.

Lemma digits2_pred (mm : string) :
  digits 2 mm -> (Z.abs (Conv.digitsValue 0 mm - 1) <= 2 ^ 53)%Z.
Proof.
  intros [Hm Lm]. pose proof (digitsValue_bounds mm 0 Hm ltac:(lia)) as B.
  rewrite Lm in B. change (10 ^ Z.of_nat 2)%Z with 100%Z in B. lia.
Qed.

Lemma fourDigits_range : forallb fourDigits (seqZ 1000 9000) = true.
Proof. vm_compute. reflexivity. Qed.

Lemma showZ_four (z : Z) :
  (1000 <= z <= 9999)%Z ->
  digits 4 (Conv.showZ z) /\ Conv.digitsValue 0 (Conv.showZ z) = z.
Proof.
  intros Hz. pose proof fourDigits_range as H. rewrite forallb_forall in H.
  specialize (H z). unfold fourDigits in H.
  rewrite !Bool.andb_true_iff, Nat.eqb_eq, Z.eqb_eq in H.
  unfold digits. apply H.
  apply list_elem_of_In. apply elem_of_seqZ. lia.
Qed.

Lemma prevYearKey_shape (D yyyy mm dd : string) :
  shapeISO D yyyy mm dd ->
  prevYearKey D
  = Conv.showZ (Conv.digitsValue 0 yyyy - 1) +:+ String "-" (mm +:+ String "-" dd).
Proof.
  intros (-> & [Hy Ly] & _). unfold prevYearKey.
  pose proof (digitsValue_bounds yyyy 0 Hy ltac:(lia)) as Hb. rewrite Ly in Hb.
  change (10 ^ Z.of_nat 4)%Z with 10000%Z in Hb.
  rewrite <- Ly, take_app_str, drop_app_str.
  rewrite StringToNumber_digits; [|exact Hy|intros ->; discriminate Ly|lia].
  rewrite sub_one by lia.
  rewrite numberToString_small by lia.
  reflexivity.
Qed.

Lemma shortYear_range :
  forallb (fun z => Nat.leb (String.length (Conv.showZ z)) 3) (seqZ (-1) 1001) = true.
Proof. vm_compute. reflexivity. Qed.

Lemma showZ_short (z : Z) : (-1 <= z <= 999)%Z -> String.length (Conv.showZ z) <= 3.
Proof.
  intros Hz. pose proof shortYear_range as H. rewrite forallb_forall in H.
  apply Nat.leb_le. apply H. apply list_elem_of_In. apply elem_of_seqZ. lia.
Qed.

Lemma shapeISO_length (t yyyy mm dd : string) :
  shapeISO t yyyy mm dd -> String.length t = 10.
Proof.
  intros (-> & [_ Ly] & [_ Lm] & [_ Ld]).
  rewrite length_app_str. cbn [String.length]. rewrite length_app_str.
  cbn [String.length]. lia.
Qed.

Lemma growthPct_zero (curr prev : number) :
  JsNum.eqb prev (Num 0) = true -> growthPct curr prev = None.
Proof. intros H. unfold growthPct, safeDiv. rewrite H. reflexivity. Qed.

Lemma growthPct_nonzero (curr prev : number) :
  JsNum.eqb prev (Num 0) = false ->
  growthPct curr prev
  = Some (JsNum.mul (JsNum.div (JsNum.sub curr prev) prev) (Num 100)).
Proof. intros H. unfold growthPct, safeDiv. rewrite H. reflexivity. Qed.

(** C4.  The chart point of a day [D] that has a record compares it with
    the record stored under the key made of the year of [D] less one,
    printed as a plain number, and the rest of [D] unchanged; the growth
    is undefined when no record is stored under that key or when its
    value is 0, and otherwise is [(curr - prev) / prev * 100] in
    binary64.  The key is not the day 365 days earlier.  For years from
    1001 on the key is the date key of the same month and day one year
    before.  For the year 1000 and before it is no date key at all,
    because the year is not padded to four digits: a record stored at
    [0999-06-15] is not found from [1000-06-15]. *)
Theorem C4_year_over_year :
  (forall (dailyLookup : gmap string number) (D : string) (v : number),
     dailyLookup !! D = Some v ->
     exists p,
       chartPointAt dailyLookup D = Some p
       /\ units p = v
       /\ prev_year_units p = dailyLookup !! prevYearKey D
       /\ (dailyLookup !! prevYearKey D = None -> yoy_pct p = None)
       /\ (forall prev, dailyLookup !! prevYearKey D = Some prev ->
                        JsNum.eqb prev (Num 0) = true -> yoy_pct p = None)
       /\ (forall prev, dailyLookup !! prevYearKey D = Some prev ->
                        JsNum.eqb prev (Num 0) = false ->
                        yoy_pct p
                        = Some (JsNum.mul (JsNum.div (JsNum.sub v prev) prev) (Num 100))))
  /\ (forall D yyyy mm dd,
        shapeISO D yyyy mm dd ->
        prevYearKey D
        = Conv.showZ (Conv.digitsValue 0 yyyy - 1) +:+ String "-" (mm +:+ String "-" dd)
        /\ ((1001 <= Conv.digitsValue 0 yyyy)%Z ->
            exists py, shapeISO (prevYearKey D) py mm dd
                       /\ Conv.digitsValue 0 py = (Conv.digitsValue 0 yyyy - 1)%Z)
        /\ ((Conv.digitsValue 0 yyyy <= 1000)%Z ->
            forall py pm pd, ~ shapeISO (prevYearKey D) py pm pd))
  /\ (let m : gmap string number :=
        <["1000-06-15" := Num 110]> (<["0999-06-15" := Num 100]> ∅) in
      prevYearKey "1000-06-15" = "999-06-15"
      /\ chartPointAt m "1000-06-15"
         = Some {| label := "15-06-1000"; units := Num 110;
                   prev_year_units := None; yoy_pct := None |}
      /\ growthPct (Num 110) (Num 100) = Some (Num 10))
  /\ (forall ov,
        prevYearKey "2024-12-20" = "2023-12-20"
        /\ isoMinusDays ov "2024-12-20" 365 = Some "2023-12-21")
  /\ growthPct (JsNum.lit (26095 # 100)) (Num 250)
     = Some (JsNum.lit (43799999999999955 # 10000000000000000)).
Proof.
  split; [|split; [|split; [|split]]].
  - intros dailyLookup D v Hv. unfold chartPointAt. rewrite Hv.
    eexists. split; [reflexivity|]. cbn [units prev_year_units yoy_pct].
    split; [reflexivity|]. split; [reflexivity|].
    split; [intros ->; reflexivity|].
    split; [intros prev -> Hz; apply growthPct_zero; exact Hz|].
    intros prev -> Hz. apply growthPct_nonzero. exact Hz.
  - intros D yyyy mm dd HD. split; [apply prevYearKey_shape; exact HD|].
    rewrite (prevYearKey_shape _ _ _ _ HD).
    destruct HD as (_ & [Hd Ld] & Hm & Hdd).
    pose proof (digitsValue_bounds yyyy 0 Hd ltac:(lia)) as Hb. rewrite Ld in Hb.
    change (10 ^ Z.of_nat 4)%Z with 10000%Z in Hb.
    split.
    + intros Hy.
      destruct (showZ_four (Conv.digitsValue 0 yyyy - 1) ltac:(lia)) as [H4 Hv].
      exists (Conv.showZ (Conv.digitsValue 0 yyyy - 1)).
      split; [|exact Hv]. unfold shapeISO. auto.
    + intros Hy py pm pd Hs. apply shapeISO_length in Hs.
      pose proof (showZ_short (Conv.digitsValue 0 yyyy - 1) ltac:(lia)) as Hl.
      destruct Hm as [_ Lm]. destruct Hdd as [_ Ldd].
      rewrite length_app_str in Hs. cbn [String.length] in Hs.
      rewrite length_app_str in Hs. cbn [String.length] in Hs. lia.
  - cbv zeta. split; [vm_compute; reflexivity|]. split; vm_compute; reflexivity.
  - intros ov. split; [vm_compute; reflexivity|].
    destruct ov; vm_compute; reflexivity.
  - vm_compute. reflexivity.
Qed.

(** The specification's example, 260.95 against 250.00 one year before,
    gives 4.3799999999999955; a day with no record a year before has no
    growth. *)
Lemma C4_year_over_year_witness :
  let m : gmap string number :=
    <["2025-12-20" := JsNum.lit (26095 # 100)]> (<["2024-12-20" := Num 250]> ∅) in
  exists p, chartPointAt m "2025-12-20" = Some p
            /\ yoy_pct p = Some (JsNum.lit (43799999999999955 # 10000000000000000))
            /\ chartPointAt (<["2025-12-20" := Num 1]> ∅) "2025-12-20"
               = Some {| label := "20-12-2025"; units := Num 1;
                         prev_year_units := None; yoy_pct := None |}.
Proof.
  intros m.
  destruct C4_year_over_year as (H & _).
  destruct (H m "2025-12-20" (JsNum.lit (26095 # 100)) ltac:(vm_compute; reflexivity))
    as (p & Hp & _ & _ & _ & _ & Hnz).
  exists p. split; [exact Hp|]. split.
  - rewrite (Hnz (Num 250)); [vm_compute; reflexivity | vm_compute; reflexivity | reflexivity].
  - vm_compute. reflexivity.
Defined.

(** ** CSV ingestion *)

Lemma app_nonempty_r (a b : string) : b <> EmptyString -> a +:+ b <> EmptyString.
Proof.
  intros Hb. destruct a as [|c a]; [exact Hb|]. rewrite app_cons. discriminate.
Qed.

Lemma parseDayFirst_nonempty (sep : ascii) (t k : string) :
  parseDayFirst sep t = Some k -> k <> EmptyString.
Proof.
  unfold parseDayFirst.
  destruct (map Conv.StringToNumber (Str.split sep t)) as [|dd [|mm [|yyyy l]]];
    try discriminate.
  destruct (negb (isSome _)); [discriminate|].
  destruct (_ || _); [discriminate|].
  intros H. injection H as <-. apply app_nonempty_r. discriminate.
Qed.

Lemma parseISOKey_nonempty (ov : dayOverflow) (t k : string) :
  parseISOKey ov t = Some k -> k <> EmptyString.
Proof.
  unfold parseISOKey. destruct (matchISO t) as [[[y m] d]|] eqn:E; [|discriminate].
  cbn [isSome negb]. destruct (JsDate.parseDateTime ov _); [|discriminate].
  intros H. injection H as <-. apply matchISO_iff in E as (-> & _).
  apply app_nonempty_r. discriminate.
Qed.

Lemma parseInputDate_nonempty (ov : dayOverflow) (s k : string) :
  parseInputDate ov s = Some k -> k <> EmptyString.
Proof.
  unfold parseInputDate.
  destruct (isSome (matchDMY "/" (Str.trim s))); [apply parseDayFirst_nonempty|].
  destruct (isSome (matchDMY "-" (Str.trim s))); [apply parseDayFirst_nonempty|].
  destruct (isSome (matchISO (Str.trim s))); [apply parseISOKey_nonempty|].
  discriminate.
Qed.

Lemma noDate_cellDate (ov : dayOverflow) (dRaw : string) :
  noDate (cellDate ov (Some dRaw)) = negb (isSome (parseInputDate ov dRaw)).
Proof.
  cbn [cellDate]. destruct (parseInputDate ov dRaw) as [k|] eqn:E; [|reflexivity].
  cbn [noDate isSome negb]. apply parseInputDate_nonempty in E.
  destruct k; [congruence | reflexivity].
Qed.

Lemma parseRows_spec (ov : dayOverflow) (rows : list (list string)) :
  wideRows rows ->
  forall i parsed errors,
    parseRows ov i rows parsed errors
    = (parsed ++ omap (rowRecord ov) rows,
       errors ++ omap id (imap (fun j => rowError ov (i + j)) rows)).
Proof.
  induction 1 as [|row rows Hrow Hrows IH]; intros i parsed errors.
  - cbn. rewrite !app_nil_r. reflexivity.
  - destruct row as [|dRaw [|vRaw cols]]; cbn [length] in Hrow; try lia.
    cbn [parseRows lookup list_lookup]. rewrite noDate_cellDate.
    cbn [omap list_omap imap rowRecord rowError].
    rewrite Nat.add_0_r.
    assert (Eimap : imap ((fun j => rowError ov (i + j)) ∘ S) rows
                    = imap (fun j => rowError ov (S i + j)) rows).
    { apply imap_ext. intros j x _. cbn. f_equal. lia. }
    rewrite Eimap.
    change (cellValue (Some vRaw))
      with (Conv.StringToNumber (Str.removeAll "," vRaw)).
    change (dateError i (Some dRaw))
      with ("Row " +:+ rowLabel i +:+ ": invalid date '" +:+ dRaw
            +:+ "' (expected DD/MM/YYYY)").
    change (valueError i (Some vRaw))
      with ("Row " +:+ rowLabel i +:+ ": invalid value '" +:+ vRaw +:+ "'").
    change (cellDate ov (Some dRaw)) with (parseInputDate ov dRaw).
    destruct (parseInputDate ov dRaw) as [d|] eqn:Ed; cbn [isSome negb].
    + destruct (JsNum.isFinite (Conv.StringToNumber (Str.removeAll "," vRaw))) eqn:Ef;
        cbn [negb]; rewrite IH; cbn [id]; rewrite <- app_assoc; reflexivity.
    + rewrite IH. cbn [id]. rewrite <- app_assoc. reflexivity.
Qed.

Lemma csvKeptRows_wide (lines : list string) : wideRows (csvKeptRows lines).
Proof.
  unfold wideRows, csvKeptRows. apply List.Forall_forall. intros r Hr.
  apply List.filter_In in Hr as [_ Hr]. apply Nat.leb_le in Hr. exact Hr.
Qed.

Lemma dropHeader_wide (rows : list (list string)) : wideRows rows -> wideRows (dropHeader rows).
Proof.
  intros H. destruct rows as [|r0 rest]; [constructor|]. cbn [dropHeader].
  destruct (Str.includes _ _); [inversion H; assumption | exact H].
Qed.

Lemma csvRows_wide (text : string) : wideRows (csvRows text).
Proof. apply dropHeader_wide, csvKeptRows_wide. Qed.

Lemma csvParseDaily_spec (ov : dayOverflow) (text : string) :
  csvParseDaily ov text
  = (omap (rowRecord ov) (csvRows text),
     omap id (imap (rowError ov) (csvRows text))).
Proof.
  unfold csvParseDaily. rewrite parseRows_spec by apply csvRows_wide. reflexivity.
Qed.

Lemma row_one_outcome (ov : dayOverflow) (i : nat) (row : list string) :
  2 <= length row ->
  (is_Some (rowRecord ov row) /\ rowError ov i row = None)
  \/ (rowRecord ov row = None /\ is_Some (rowError ov i row)).
Proof.
  intros H. destruct row as [|dRaw [|vRaw cols]]; cbn [length] in H; try lia.
  cbn [rowRecord rowError].
  destruct (parseInputDate ov dRaw); [|right; eauto].
  destruct (JsNum.isFinite _); [left | right]; eauto.
Qed.

Lemma outcomes_length {A B C} (f : nat -> A -> option C) (g : A -> option B) (l : list A) :
  (forall i x, l !! i = Some x ->
               (is_Some (g x) /\ f i x = None) \/ (g x = None /\ is_Some (f i x))) ->
  length (omap g l) + length (omap id (imap f l)) = length l.
Proof.
  revert f. induction l as [|x l IH]; intros f H; [reflexivity|].
  cbn [omap list_omap imap length].
  specialize (IH (f ∘ S) (fun i y Hy => H (S i) y Hy)).
  destruct (H 0 x eq_refl) as [[[b Hb] Hf]|[Hg [b Hb]]].
  - rewrite Hb, Hf. cbn [length id]. lia.
  - rewrite Hg, Hb. cbn [length id]. lia.
Qed.

Lemma rowLabel_small (i : nat) :
  (Z.of_nat i < 9999)%Z -> rowLabel i = Conv.showZ (Z.of_nat i + 1).
Proof.
  intros Hi. unfold rowLabel, JsNum.ofZ.
  change (Num 1) with (Num (inject_Z 1)).
  rewrite (add_inject (Z.of_nat i) 1) by lia.
  apply numberToString_small. lia.
Qed.

(** C3.  [csvParseDaily] succeeds row by row.  Of the kept rows (at least
    two cells, header dropped), each one whose date cell parses and whose
    value cell is a finite number yields a record, in order; each other
    row yields no record and exactly one error, which carries the
    1-based index of the row among the kept rows and the raw cell that
    failed (the date cell when both fail).  The sample text yields the one
    record 2025-12-18 -> 261.72 (the fraction 6543/25) and two errors, for
    rows 2 and 3. *)
Theorem C3_partial_success (ov : dayOverflow) (text : string) :
  Forall (fun r => 2 <= length r) (csvRows text)
  /\ (csvParseDaily ov text).1 = omap (rowRecord ov) (csvRows text)
  /\ (csvParseDaily ov text).2 = omap id (imap (rowError ov) (csvRows text))
  /\ (forall i row, csvRows text !! i = Some row ->
        (is_Some (rowRecord ov row) /\ rowError ov i row = None)
        \/ (rowRecord ov row = None /\ is_Some (rowError ov i row)))
  /\ length (csvParseDaily ov text).1 + length (csvParseDaily ov text).2
     = length (csvRows text)
  /\ (forall i, (Z.of_nat i < 9999)%Z -> rowLabel i = Conv.showZ (Z.of_nat i + 1))
  /\ csvParseDaily ov
       (Str.joinLines ["date,V"; "18/12/2025,261.72"; "bad,oops"; "20/13/2025,5"])
     = ([{| date := "2025-12-18"; value := Num (6543 # 25) |}],
        ["Row 2: invalid date 'bad' (expected DD/MM/YYYY)";
         "Row 3: invalid date '20/13/2025' (expected DD/MM/YYYY)"]).
Proof.
  assert (Hone : forall i row, csvRows text !! i = Some row ->
            (is_Some (rowRecord ov row) /\ rowError ov i row = None)
            \/ (rowRecord ov row = None /\ is_Some (rowError ov i row))).
  { intros i row Hrow. apply row_one_outcome.
    pose proof (csvRows_wide text) as Hw. unfold wideRows in Hw.
    rewrite List.Forall_forall in Hw. apply Hw.
    apply list_elem_of_In. eapply list_elem_of_lookup_2. exact Hrow. }
  split; [apply csvRows_wide|].
  split; [rewrite csvParseDaily_spec; reflexivity|].
  split; [rewrite csvParseDaily_spec; reflexivity|].
  split; [exact Hone|].
  split; [rewrite csvParseDaily_spec; apply outcomes_length; exact Hone|].
  split; [apply rowLabel_small|].
  destruct ov; vm_compute; reflexivity.
Qed.

(** A row with a date that parses and a value that is no number. *)
Lemma C3_partial_success_witness :
  (csvParseDaily RollOver (Str.joinLines ["18/12/2025,abc"; "19/12/2025,7"])).1
  = [{| date := "2025-12-19"; value := Num 7 |}]
  /\ (csvParseDaily RollOver (Str.joinLines ["18/12/2025,abc"; "19/12/2025,7"])).2
     = ["Row 1: invalid value 'abc'"].
Proof.
  destruct (C3_partial_success RollOver
              (Str.joinLines ["18/12/2025,abc"; "19/12/2025,7"]))
    as (_ & Hp & He & _).
  split.
  - rewrite Hp. vm_compute. reflexivity.
  - rewrite He. vm_compute. reflexivity.
Defined.

(** ** Lines that are not rows *)

Lemma trimEnd_snoc_CR (x : string) :
  Str.trimEnd (x +:+ String Str.CR EmptyString) = Str.trimEnd x.
Proof.
  induction x as [|c x IH]; [reflexivity|].
  rewrite app_cons. cbn [Str.trimEnd]. rewrite IH. reflexivity.
Qed.

Lemma trimStart_snoc_CR (x : string) :
  Str.trimStart (x +:+ String Str.CR EmptyString) = Str.trimStart x +:+ String Str.CR EmptyString
  \/ (Str.trimStart (x +:+ String Str.CR EmptyString) = EmptyString
      /\ Str.trimStart x = EmptyString).
Proof.
  induction x as [|c x IH]; [right; split; reflexivity|].
  rewrite app_cons. cbn [Str.trimStart].
  destruct (Str.isWhiteSpace c); [exact IH|]. left. rewrite app_cons. reflexivity.
Qed.

Lemma trim_snoc_CR (x : string) :
  Str.trim (x +:+ String Str.CR EmptyString) = Str.trim x.
Proof.
  unfold Str.trim. destruct (trimStart_snoc_CR x) as [E|[E1 E2]].
  - rewrite E. apply trimEnd_snoc_CR.
  - rewrite E1, E2. reflexivity.
Qed.

Lemma splitLines_cons (c : ascii) (r : string) :
  Ascii.eqb c Str.LF = false ->
  (forall r', r = String Str.LF r' -> Ascii.eqb c Str.CR = false) ->
  Str.splitLines (String c r) = Str.consHead c (Str.splitLines r).
Proof.
  intros Hc Hr. cbn [Str.splitLines]. rewrite Hc.
  destruct r as [|d r']; [reflexivity|].
  destruct (Ascii.eqb c Str.CR) eqn:Ecr; [|reflexivity].
  destruct (Ascii.eqb d Str.LF) eqn:Ed; [|reflexivity].
  apply Ascii.eqb_eq in Ed. subst d. specialize (Hr r' eq_refl). discriminate Hr.
Qed.

Lemma splitLines_line (a b : string) :
  isLine a ->
  exists a', Str.splitLines (a +:+ String Str.LF b) = a' :: Str.splitLines b
             /\ (a' = a \/ a = a' +:+ String Str.CR EmptyString).
Proof.
  unfold isLine. induction a as [|c a IH]; intros Ha.
  - exists EmptyString. split; [reflexivity | left; reflexivity].
  - cbn [hasChar] in Ha. apply Bool.orb_false_iff in Ha as [Hc Ha].
    destruct (IH Ha) as (a' & Hs & Hrel).
    rewrite app_cons.
    destruct a as [|d a].
    + (* the last code unit of the line *)
      rewrite app_nil_l. cbn [Str.splitLines]. rewrite Hc.
      rewrite Ascii.eqb_refl, Bool.andb_true_r.
      destruct (Ascii.eqb c Str.CR) eqn:Ecr.
      * apply Ascii.eqb_eq in Ecr. subst c.
        exists EmptyString. split; [reflexivity | right; reflexivity].
      * exists (String c EmptyString). split; [reflexivity | left; reflexivity].
    + rewrite splitLines_cons.
      * rewrite Hs. cbn [Str.consHead]. exists (String c a'). split; [reflexivity|].
        destruct Hrel as [-> | ->]; [left; reflexivity | right; reflexivity].
      * exact Hc.
      * intros r' Hr'. rewrite app_cons in Hr'. injection Hr' as -> _.
        cbn [hasChar] in Ha. rewrite Ascii.eqb_refl in Ha. discriminate Ha.
Qed.

Lemma splitLines_last (a : string) : isLine a -> Str.splitLines a = [a].
Proof.
  unfold isLine. induction a as [|c a IH]; intros Ha; [reflexivity|].
  cbn [hasChar] in Ha. apply Bool.orb_false_iff in Ha as [Hc Ha].
  rewrite splitLines_cons.
  - rewrite IH by exact Ha. reflexivity.
  - exact Hc.
  - intros r' ->. cbn [hasChar] in Ha. rewrite Ascii.eqb_refl in Ha. discriminate Ha.
Qed.

Lemma csvLines_joinLines (ls : list string) :
  Forall isLine ls ->
  csvLines (Str.joinLines ls) = List.filter nonBlank (map Str.trim ls).
Proof.
  unfold csvLines. fold nonBlank.
  induction 1 as [|x ls Hx Hls IH]; [reflexivity|].
  destruct ls as [|y ls].
  - cbn [Str.joinLines]. rewrite splitLines_last by exact Hx. reflexivity.
  - change (Str.joinLines (x :: y :: ls)) with (x +:+ String Str.LF (Str.joinLines (y :: ls))).
    destruct (splitLines_line x (Str.joinLines (y :: ls)) Hx) as (x' & Hs & Hrel).
    rewrite Hs. cbn [map List.filter]. rewrite IH.
    assert (E : Str.trim x' = Str.trim x).
    { destruct Hrel as [-> | ->]; [reflexivity | symmetry; apply trim_snoc_CR]. }
    rewrite E. reflexivity.
Qed.

Lemma keptRows_without (l1 l2 : list string) (x : string) :
  length (csvCells (Str.trim x)) < 2 ->
  csvKeptRows (List.filter nonBlank (map Str.trim (l1 ++ x :: l2)))
  = csvKeptRows (List.filter nonBlank (map Str.trim (l1 ++ l2))).
Proof.
  intros Hx. unfold csvKeptRows.
  rewrite !map_app, !List.filter_app, !map_app, !List.filter_app.
  f_equal. cbn [map List.filter].
  destruct (nonBlank (Str.trim x)); [|reflexivity].
  cbn [map List.filter].
  destruct (2 <=? length (csvCells (Str.trim x))) eqn:E; [|reflexivity].
  apply Nat.leb_le in E. lia.
Qed.

Lemma error_origin (ov : dayOverflow) (rows : list (list string)) (e : string) :
  In e (omap id (imap (rowError ov) rows)) ->
  exists i row, rows !! i = Some row /\ rowError ov i row = Some e.
Proof.
  intros H. apply list_elem_of_In in H. apply list_elem_of_omap in H as (o & Ho & Hid).
  cbn in Hid. subst o. apply elem_of_lookup_imap in Ho as (i & row & He & Hrow).
  exists i, row. split; [exact Hrow | symmetry; exact He].
Qed.

(** C9.  A line that splits into fewer than two comma-separated cells
    leaves no trace: the result is the one obtained without the line.
    Every error names the position of its row among the kept rows (at
    least two cells, after the header is dropped), which need not be the
    position of the line in the text: below, the fourth line of the text
    is reported as row 2. *)
Theorem C9_short_lines_dropped :
  (forall ov (before after : list string) (line : string),
     Forall isLine (before ++ line :: after) ->
     length (csvCells (Str.trim line)) < 2 ->
     csvParseDaily ov (Str.joinLines (before ++ line :: after))
     = csvParseDaily ov (Str.joinLines (before ++ after)))
  /\ (forall ov text e,
        In e (csvParseDaily ov text).2 ->
        exists i dRaw vRaw cols,
          csvRows text !! i = Some (dRaw :: vRaw :: cols)
          /\ (e = "Row " +:+ rowLabel i +:+ ": invalid date '" +:+ dRaw
                  +:+ "' (expected DD/MM/YYYY)"
              \/ e = "Row " +:+ rowLabel i +:+ ": invalid value '" +:+ vRaw +:+ "'"))
  /\ (forall ov,
        csvParseDaily ov
          (Str.joinLines ["date,V"; "no cells here"; "18/12/2025,1"; "bad,2"])
        = ([{| date := "2025-12-18"; value := Num 1 |}],
           ["Row 2: invalid date 'bad' (expected DD/MM/YYYY)"])).
Proof.
  split; [|split].
  - intros ov before after line Hlines Hshort.
    unfold csvParseDaily, csvRows. f_equal. f_equal.
    rewrite !csvLines_joinLines.
    + apply keptRows_without. exact Hshort.
    + apply Forall_app in Hlines as [H1 H2]. apply Forall_app. split; [exact H1|].
      inversion H2; assumption.
    + exact Hlines.
  - intros ov text e He. rewrite csvParseDaily_spec in He. cbn [snd] in He.
    destruct (error_origin ov _ e He) as (i & row & Hrow & Herr).
    destruct row as [|dRaw [|vRaw cols]]; try discriminate Herr.
    exists i, dRaw, vRaw, cols. split; [exact Hrow|].
    cbn [rowError] in Herr.
    destruct (parseInputDate ov dRaw).
    + destruct (JsNum.isFinite _); [discriminate|]. injection Herr as <-. right. reflexivity.
    + injection Herr as <-. left. reflexivity.
  - intros []; vm_compute; reflexivity.
Qed.

(** A blank-free text with one stray line between two rows. *)
Lemma C9_short_lines_dropped_witness :
  csvParseDaily Reject (Str.joinLines (["bad,1"] ++ "stray" :: ["worse,2"]))
  = csvParseDaily Reject (Str.joinLines (["bad,1"] ++ ["worse,2"])).
Proof.
  destruct C9_short_lines_dropped as (H & _).
  apply (H Reject ["bad,1"] ["worse,2"] "stray").
  - repeat constructor.
  - vm_compute. lia.
Defined.

(** ** Sorting with a comparator that follows a rank *)

Section SortByRank.
Context {A : Type}.
Variable comparefn : A -> A -> number.
Variable rank : A -> Z.
Variable dom : A -> Prop.
Hypothesis before_rank :
  forall x y, dom x -> dom y ->
              JsArray.before comparefn x y = (rank x <? rank y)%Z.

Lemma insert_perm (x : A) (l : list A) :
  Permutation (JsArray.insert comparefn x l) (x :: l).
Proof.
  induction l as [|y l IH]; [reflexivity|]. cbn [JsArray.insert].
  destruct (JsArray.before comparefn x y); [reflexivity|].
  rewrite IH. apply perm_swap.
Qed.

Lemma sort_perm_acc (l acc : list A) :
  Permutation (foldl (fun acc x => JsArray.insert comparefn x acc) acc l) (acc ++ l).
Proof.
  revert acc. induction l as [|x l IH]; intros acc.
  - cbn. rewrite app_nil_r. reflexivity.
  - cbn [foldl]. rewrite IH, insert_perm.
    change (x :: acc) with ([x] ++ acc).
    rewrite (Permutation_app_comm [x] acc), <- app_assoc. reflexivity.
Qed.

Lemma sort_perm (l : list A) : Permutation (JsArray.sort comparefn l) l.
Proof. unfold JsArray.sort. apply (sort_perm_acc l []). Qed.

Lemma insert_sorted (x : A) (l : list A) :
  dom x -> Forall dom l ->
  StronglySorted (rankLe rank) l -> StronglySorted (rankLe rank) (JsArray.insert comparefn x l).
Proof.
  intros Hx Hl Hs. induction Hs as [|y l Hs IH Hy].
  - cbn. constructor; constructor.
  - inversion Hl as [|? ? Hdy Hdl]; subst. cbn [JsArray.insert].
    rewrite before_rank by assumption.
    destruct (Z.ltb_spec (rank x) (rank y)) as [Hlt|Hge].
    + constructor; [constructor; assumption|].
      constructor; [unfold rankLe; lia|].
      eapply List.Forall_impl; [|exact Hy]. unfold rankLe. intros; lia.
    + constructor; [apply IH; assumption|].
      eapply Permutation_Forall; [symmetry; apply insert_perm|].
      constructor; [unfold rankLe; lia | exact Hy].
Qed.

Lemma sort_sorted_acc (l acc : list A) :
  Forall dom l -> Forall dom acc -> StronglySorted (rankLe rank) acc ->
  StronglySorted (rankLe rank) (foldl (fun acc x => JsArray.insert comparefn x acc) acc l).
Proof.
  revert acc. induction l as [|x l IH]; intros acc Hl Hacc Hs; [exact Hs|].
  inversion Hl; subst. cbn [foldl]. apply IH; [assumption| |].
  - eapply Permutation_Forall; [symmetry; apply insert_perm|]. constructor; assumption.
  - apply insert_sorted; assumption.
Qed.

Lemma sort_sorted (l : list A) :
  Forall dom l -> StronglySorted (rankLe rank) (JsArray.sort comparefn l).
Proof.
  intros Hl. apply sort_sorted_acc; [exact Hl | constructor | constructor].
Qed.

Lemma sorted_lookup (l : list A) (i j : nat) (x y : A) :
  StronglySorted (rankLe rank) l -> i <= j -> l !! i = Some x -> l !! j = Some y ->
  rankLe rank x y.
Proof.
  intros Hs. revert i j. induction Hs as [|z l Hs IH Hz]; intros i j Hij Hi Hj.
  - discriminate.
  - destruct i as [|i], j as [|j]; cbn in Hi, Hj.
    + injection Hi as <-. injection Hj as <-. unfold rankLe. lia.
    + injection Hi as <-. rewrite List.Forall_forall in Hz. apply Hz.
      apply list_elem_of_In. eapply list_elem_of_lookup_2. exact Hj.
    + lia.
    + apply (IH i j); [lia | assumption | assumption].
Qed.
End SortByRank.

(** ** Month keys *)

Lemma split_digits (sep : ascii) (d : string) :
  Str.isDigit sep = false -> Str.allDigits d = true -> Str.split sep d = [d].
Proof.
  intros Hsep. induction d as [|c d IH]; intros H; [reflexivity|].
  cbn [Str.allDigits] in H. apply Bool.andb_true_iff in H as [Hc Hd].
  cbn [Str.split]. rewrite (digit_not c sep Hc Hsep), IH by exact Hd. reflexivity.
Qed.

Lemma split_digits_sep (sep : ascii) (d r : string) :
  Str.isDigit sep = false -> Str.allDigits d = true ->
  Str.split sep (d +:+ String sep r) = d :: Str.split sep r.
Proof.
  intros Hsep. induction d as [|c d IH]; intros H.
  - rewrite app_nil_l. cbn [Str.split]. rewrite Ascii.eqb_refl. reflexivity.
  - cbn [Str.allDigits] in H. apply Bool.andb_true_iff in H as [Hc Hd].
    rewrite app_cons. cbn [Str.split].
    rewrite (digit_not c sep Hc Hsep), IH by exact Hd. reflexivity.
Qed.

Lemma monthKey_parts (s mm yyyy : string) :
  shapeMonthKey s mm yyyy ->
  map Conv.StringToNumber (Str.split "/" s)
  = [Num (inject_Z (Conv.digitsValue 0 mm)); Num (inject_Z (Conv.digitsValue 0 yyyy))]
  /\ monthRank s = (Conv.digitsValue 0 yyyy * 100 + Conv.digitsValue 0 mm)%Z
  /\ (0 <= Conv.digitsValue 0 mm < 100)%Z
  /\ (0 <= Conv.digitsValue 0 yyyy < 10000)%Z.
Proof.
  intros (-> & [Hm Lm] & [Hy Ly]).
  pose proof (digitsValue_bounds mm 0 Hm ltac:(lia)) as Bm. rewrite Lm in Bm.
  pose proof (digitsValue_bounds yyyy 0 Hy ltac:(lia)) as By. rewrite Ly in By.
  change (10 ^ Z.of_nat 2)%Z with 100%Z in Bm.
  change (10 ^ Z.of_nat 4)%Z with 10000%Z in By.
  split; [|split; [|split; lia]].
  - rewrite split_digits_sep by (reflexivity || exact Hm).
    rewrite split_digits by (reflexivity || exact Hy).
    cbn [map].
    rewrite !StringToNumber_digits; try assumption; try lia; try reflexivity.
    + intros ->; discriminate Ly.
    + intros ->; discriminate Lm.
  - unfold monthRank.
    replace (Str.take 2 (mm +:+ String "/" yyyy)) with mm
      by (rewrite <- Lm at 1; symmetry; apply take_app_str).
    replace (Str.drop 3 (mm +:+ String "/" yyyy)) with yyyy; [reflexivity|].
    destruct mm as [|c1 [|c2 [|c3 mm]]]; try discriminate Lm. reflexivity.
Qed.

Lemma ltb_inject_0 (k : Z) :
  JsNum.ltb (Num (inject_Z k)) (Num 0) = (k <? 0)%Z.
Proof.
  apply eq_true_iff_eq. rewrite ltb_Num, Z.ltb_lt.
  change 0%Q with (inject_Z 0). rewrite <- Zlt_Qlt. reflexivity.
Qed.

Lemma leb_inject_0 (k : Z) :
  JsNum.leb (Num (inject_Z k)) (Num 0) = (k <=? 0)%Z.
Proof.
  apply eq_true_iff_eq. rewrite leb_Num, Z.leb_le.
  change 0%Q with (inject_Z 0). rewrite <- Zle_Qle. reflexivity.
Qed.

Lemma compareMonthKey_rank (a b : string) :
  isMonthKey a -> isMonthKey b ->
  exists k : Z,
    compareMonthKey a b = Num (inject_Z k)
    /\ ((k < 0)%Z <-> (monthRank a < monthRank b)%Z)
    /\ ((k <= 0)%Z <-> (monthRank a <= monthRank b)%Z).
Proof.
  intros (ma & ya & Ha) (mb & yb & Hb).
  destruct (monthKey_parts _ _ _ Ha) as (Pa & Ra & Bma & Bya).
  destruct (monthKey_parts _ _ _ Hb) as (Pb & Rb & Bmb & Byb).
  unfold compareMonthKey. rewrite Pa, Pb, Ra, Rb.
  cbn [lookup list_lookup strictNe operand JsNum.eqb].
  destruct (Qeq_bool (inject_Z (Conv.digitsValue 0 ya)) (inject_Z (Conv.digitsValue 0 yb)))
    eqn:E; cbn [negb]; rewrite sub_inject by lia; eexists; (split; [reflexivity|]).
  - apply Qeq_bool_iff in E. rewrite inject_Z_injective in E. lia.
  - apply Qeq_bool_neq in E. rewrite inject_Z_injective in E. lia.
Qed.

Lemma before_monthRank (a b : string) :
  isMonthKey a -> isMonthKey b ->
  JsArray.before compareMonthKey a b = (monthRank a <? monthRank b)%Z.
Proof.
  intros Ha Hb. destruct (compareMonthKey_rank a b Ha Hb) as (k & E & Hlt & _).
  unfold JsArray.before. rewrite E, ltb_inject_0.
  apply eq_true_iff_eq. rewrite !Z.ltb_lt. exact Hlt.
Qed.

Lemma keyLe_monthRank (a b : string) :
  isMonthKey a -> isMonthKey b ->
  keyLe a b <-> (monthRank a <= monthRank b)%Z.
Proof.
  intros Ha Hb. destruct (compareMonthKey_rank a b Ha Hb) as (k & E & _ & Hle).
  unfold keyLe. rewrite E, leb_inject_0, Z.leb_le. exact Hle.
Qed.

Lemma clampScan_Some (sorted : list string) (target : string) (n : nat) (x : string) :
  clampScan sorted target n = Some x ->
  exists i, i < n /\ sorted !! i = Some x /\ keyLe x target
            /\ forall j y, i < j < n -> sorted !! j = Some y -> ~ keyLe y target.
Proof.
  induction n as [|n IH]; [discriminate|]. cbn [clampScan]. intros H.
  destruct (sorted !! n) as [z|] eqn:Ez.
  - destruct (JsNum.leb (compareMonthKey z target) (Num 0)) eqn:El.
    + injection H as <-. exists n. repeat split; [lia | exact Ez | exact El |].
      intros j y Hj. lia.
    + destruct (IH H) as (i & Hi & Hx & Hle & Hafter).
      exists i. repeat split; [lia | exact Hx | exact Hle |].
      intros j y Hj Hy. destruct (decide (j = n)) as [->|Hne].
      * rewrite Ez in Hy. injection Hy as <-. unfold keyLe. rewrite El. discriminate.
      * apply (Hafter j y); [lia | exact Hy].
  - destruct (IH H) as (i & Hi & Hx & Hle & Hafter).
    exists i. repeat split; [lia | exact Hx | exact Hle |].
    intros j y Hj Hy. destruct (decide (j = n)) as [->|Hne].
    + rewrite Ez in Hy. discriminate.
    + apply (Hafter j y); [lia | exact Hy].
Qed.

Lemma clampScan_None (sorted : list string) (target : string) (n : nat) :
  clampScan sorted target n = None ->
  forall j y, j < n -> sorted !! j = Some y -> ~ keyLe y target.
Proof.
  induction n as [|n IH]; [intros _ j y Hj; lia|]. cbn [clampScan]. intros H j y Hj Hy.
  destruct (sorted !! n) as [z|] eqn:Ez.
  - destruct (JsNum.leb (compareMonthKey z target) (Num 0)) eqn:El; [discriminate|].
    destruct (decide (j = n)) as [->|Hne].
    + rewrite Ez in Hy. injection Hy as <-. unfold keyLe. rewrite El. discriminate.
    + apply (IH H j y); [lia | exact Hy].
  - destruct (decide (j = n)) as [->|Hne].
    + rewrite Ez in Hy. discriminate.
    + apply (IH H j y); [lia | exact Hy].
Qed.

Lemma includes_In (target : string) (options : list string) :
  existsb (String.eqb target) options = true <-> In target options.
Proof.
  rewrite List.existsb_exists. split.
  - intros (x & Hx & E). apply String.eqb_eq in E. subst x. exact Hx.
  - intros H. exists target. split; [exact H | apply String.eqb_refl].
Qed.

(** C6.  For a month key [target] and a non-empty list of month keys,
    [clampMonthKeyToOptions] answers [target] itself when it is among the
    options; otherwise the latest option that is at most [target] in the
    order of [compareMonthKey] (year first, then month); and the earliest
    option when no option is at most [target]. *)
Theorem C6_clamp_month_key (target : string) (options : list string) :
  isMonthKey target -> Forall isMonthKey options -> options <> [] ->
  (In target options -> clampMonthKeyToOptions target options = target)
  /\ (~ In target options ->
      (exists o, In o options /\ keyLe o target) ->
      In (clampMonthKeyToOptions target options) options
      /\ keyLe (clampMonthKeyToOptions target options) target
      /\ forall o, In o options -> keyLe o target ->
                   keyLe o (clampMonthKeyToOptions target options))
  /\ (~ In target options ->
      (forall o, In o options -> ~ keyLe o target) ->
      In (clampMonthKeyToOptions target options) options
      /\ forall o, In o options -> keyLe (clampMonthKeyToOptions target options) o)
  /\ (forall a b, isMonthKey a -> isMonthKey b ->
                  (keyLe a b <-> (monthRank a <= monthRank b)%Z))
  /\ clampMonthKeyToOptions "06/2024" ["01/2024"; "04/2024"; "09/2024"] = "04/2024"
  /\ clampMonthKeyToOptions "12/2020" ["01/2024"] = "01/2024".
Proof.
  intros Ht Hopts Hne.
  split; [|split; [|split; [|split; [|split]]]];
    [| | | apply keyLe_monthRank | vm_compute; reflexivity | vm_compute; reflexivity].
  - intros Hin. unfold clampMonthKeyToOptions.
    destruct options as [|o options]; [congruence|]. cbn [length Nat.eqb].
    apply includes_In in Hin. rewrite Hin. reflexivity.
  - intros Hnot (o & Ho & Hle). unfold clampMonthKeyToOptions.
    destruct (Nat.eqb (length options) 0) eqn:El.
    { apply Nat.eqb_eq in El. destruct options; [congruence | discriminate El]. }
    destruct (existsb (String.eqb target) options) eqn:Ein.
    { apply includes_In in Ein. contradiction. }
    set (sorted := JsArray.sort compareMonthKey options).
    pose proof (sort_perm compareMonthKey options) as Hperm. fold sorted in Hperm.
    pose proof (sort_sorted compareMonthKey monthRank isMonthKey before_monthRank
                  options Hopts) as Hsorted. fold sorted in Hsorted.
    assert (Hdom : forall y, In y sorted -> isMonthKey y).
    { intros y Hy. rewrite List.Forall_forall in Hopts. apply Hopts.
      eapply Permutation_in; [exact Hperm | exact Hy]. }
    destruct (clampScan sorted target (length sorted)) as [x|] eqn:Escan.
    + destruct (clampScan_Some _ _ _ _ Escan) as (i & Hi & Hx & Hxle & Hafter).
      assert (Hxin : In x sorted).
      { apply list_elem_of_In. eapply list_elem_of_lookup_2. exact Hx. }
      split; [eapply Permutation_in; [exact Hperm | exact Hxin]|].
      split; [exact Hxle|].
      intros o' Ho' Hle'.
      assert (Hs' : In o' sorted).
      { eapply Permutation_in; [symmetry; exact Hperm | exact Ho']. }
      apply list_elem_of_In, list_elem_of_lookup_1 in Hs' as [j Hj].
      apply keyLe_monthRank; [apply Hdom; apply list_elem_of_In;
                              eapply list_elem_of_lookup_2; exact Hj
                             | apply Hdom; exact Hxin |].
      destruct (le_lt_dec j i) as [Hji|Hij].
      * apply (sorted_lookup monthRank sorted j i o' x Hsorted Hji Hj Hx).
      * exfalso. apply (Hafter j o'); [|exact Hj|exact Hle'].
        split; [exact Hij|]. apply lookup_lt_Some in Hj. exact Hj.
    + exfalso.
      assert (Hs : In o sorted).
      { eapply Permutation_in; [symmetry; exact Hperm | exact Ho]. }
      apply list_elem_of_In, list_elem_of_lookup_1 in Hs as [j Hj].
      apply (clampScan_None _ _ _ Escan j o); [|exact Hj|exact Hle].
      apply lookup_lt_Some in Hj. exact Hj.
  - intros Hnot Hnone. unfold clampMonthKeyToOptions.
    destruct (Nat.eqb (length options) 0) eqn:El.
    { apply Nat.eqb_eq in El. destruct options; [congruence | discriminate El]. }
    destruct (existsb (String.eqb target) options) eqn:Ein.
    { apply includes_In in Ein. contradiction. }
    set (sorted := JsArray.sort compareMonthKey options).
    pose proof (sort_perm compareMonthKey options) as Hperm. fold sorted in Hperm.
    pose proof (sort_sorted compareMonthKey monthRank isMonthKey before_monthRank
                  options Hopts) as Hsorted. fold sorted in Hsorted.
    assert (Hdom : forall y, In y sorted -> isMonthKey y).
    { intros y Hy. rewrite List.Forall_forall in Hopts. apply Hopts.
      eapply Permutation_in; [exact Hperm | exact Hy]. }
    destruct (clampScan sorted target (length sorted)) as [x|] eqn:Escan.
    + exfalso. destruct (clampScan_Some _ _ _ _ Escan) as (i & Hi & Hx & Hxle & _).
      apply (Hnone x); [|exact Hxle].
      eapply Permutation_in; [exact Hperm|].
      apply list_elem_of_In. eapply list_elem_of_lookup_2. exact Hx.
    + destruct sorted as [|s0 sorted'] eqn:Es.
      { apply Permutation_nil in Hperm. congruence. }
      cbn [lookup list_lookup default].
      change (default target (Some s0)) with s0.
      split; [eapply Permutation_in; [exact Hperm | left; reflexivity]|].
      intros o Ho.
      assert (Hs : In o (s0 :: sorted')).
      { eapply Permutation_in; [symmetry; exact Hperm | exact Ho]. }
      apply list_elem_of_In, list_elem_of_lookup_1 in Hs as [j Hj].
      apply keyLe_monthRank; [apply Hdom; left; reflexivity
                             | apply Hdom; apply list_elem_of_In;
                               eapply list_elem_of_lookup_2; exact Hj |].
      apply (sorted_lookup monthRank (s0 :: sorted') 0 j s0 o Hsorted); [lia|reflexivity|exact Hj].
Qed.

(** The specification's first example, with its hypotheses discharged. *)
Lemma C6_clamp_month_key_witness :
  In (clampMonthKeyToOptions "06/2024" ["01/2024"; "04/2024"; "09/2024"])
     ["01/2024"; "04/2024"; "09/2024"]
  /\ keyLe (clampMonthKeyToOptions "06/2024" ["01/2024"; "04/2024"; "09/2024"]) "06/2024".
Proof.
  assert (K : forall mm yyyy, Str.allDigits mm = true -> String.length mm = 2 ->
                Str.allDigits yyyy = true -> String.length yyyy = 4 ->
                isMonthKey (mm +:+ String "/" yyyy)).
  { intros mm yyyy H1 H2 H3 H4. exists mm, yyyy. repeat split; assumption. }
  destruct (C6_clamp_month_key "06/2024" ["01/2024"; "04/2024"; "09/2024"])
    as (_ & H & _).
  - apply (K "06" "2024"); reflexivity.
  - repeat constructor;
      [apply (K "01" "2024") | apply (K "04" "2024") | apply (K "09" "2024")];
      reflexivity.
  - discriminate.
  - destruct H as (H1 & H2 & _).
    + simpl. intros [E|[E|[E|[]]]]; discriminate E.
    + exists "01/2024". split; [left; reflexivity | vm_compute; reflexivity].
    + split; [exact H1 | exact H2].
Defined.

(** ** Month normalisation *)

Lemma isDigit_cases (c : ascii) :
  Str.isDigit c = true ->
  In c ["0"; "1"; "2"; "3"; "4"; "5"; "6"; "7"; "8"; "9"]%char.
Proof.
  destruct c as [[] [] [] [] [] [] [] []]; intros H;
    try discriminate H; cbn [In]; tauto.
Qed.

Lemma digits_1_cases (s : string) :
  digits 1 s -> exists c, s = String c EmptyString
                          /\ In c ["0"; "1"; "2"; "3"; "4"; "5"; "6"; "7"; "8"; "9"]%char.
Proof.
  intros [H L]. destruct s as [|c [|d s]]; try discriminate L.
  exists c. split; [reflexivity|]. apply isDigit_cases.
  cbn [Str.allDigits] in H. apply Bool.andb_true_iff in H. tauto.
Qed.

Lemma digits_2_cases (s : string) :
  digits 2 s -> exists c d, s = String c (String d EmptyString)
                            /\ In c ["0"; "1"; "2"; "3"; "4"; "5"; "6"; "7"; "8"; "9"]%char
                            /\ In d ["0"; "1"; "2"; "3"; "4"; "5"; "6"; "7"; "8"; "9"]%char.
Proof.
  intros [H L]. destruct s as [|c [|d [|e s]]]; try discriminate L.
  exists c, d. split; [reflexivity|].
  cbn [Str.allDigits] in H. rewrite !Bool.andb_true_iff in H.
  split; apply isDigit_cases; tauto.
Qed.

(** The month group of the first pattern, through [Number], [String] and
    [padStart], is the group itself padded to two digits. *)
Lemma pad_month (g1 : string) :
  digits 1 g1 \/ digits 2 g1 ->
  Str.padStart0 2 (NumStr.numberToString (Conv.StringToNumber g1)) = Str.padStart0 2 g1
  /\ digits 2 (Str.padStart0 2 g1).
Proof.
  intros [H|H].
  - destruct (digits_1_cases g1 H) as (c & -> & Hc).
    cbn [In] in Hc.
    repeat (destruct Hc as [<-|Hc]; [split; [vm_compute; reflexivity | split; reflexivity]|]).
    destruct Hc.
  - destruct (digits_2_cases g1 H) as (c & d & -> & Hc & Hd).
    cbn [In] in Hc, Hd.
    repeat (destruct Hc as [<-|Hc];
            [repeat (destruct Hd as [<-|Hd];
                     [split; [vm_compute; reflexivity | split; reflexivity]|]);
             destruct Hd|]).
    destruct Hc.
Qed.

Lemma no_match_no_shape (t : string) :
  matchMonthYear t = None -> matchDMY "/" t = None ->
  matchDMY "-" t = None -> matchISO t = None ->
  forall mm yyyy, ~ monthShape t mm yyyy.
Proof.
  intros H1 H2 H3 H4 mm yyyy [(m & S & _)|[(dd & S)|[(dd & S)|(dd & S)]]].
  - apply matchMonthYear_iff in S. congruence.
  - apply matchDMY_iff in S. congruence.
  - apply matchDMY_iff in S. congruence.
  - apply matchISO_iff in S. congruence.
Qed.

(** C2, as amended.  A non-null result of [normalizeMonth] has the form
    [MM/YYYY], two digits, a slash and four digits, and comes from one of
    the five shapes matched on the trimmed input: its year is the year
    field and its month is the month field, padded to two digits for the
    shape [M/YYYY] and not checked against a range.  When the trimmed
    input has none of the five shapes the result is null. *)
Theorem C2_normalizeMonth (raw : string) :
  (forall r, normalizeMonth raw = Some r ->
             exists mm yyyy, shapeMonthKey r mm yyyy
                             /\ monthShape (Str.trim raw) mm yyyy)
  /\ ((forall mm yyyy, ~ monthShape (Str.trim raw) mm yyyy) ->
      normalizeMonth raw = None)
  /\ (normalizeMonth raw = None ->
      forall mm yyyy, ~ monthShape (Str.trim raw) mm yyyy).
Proof.
  unfold normalizeMonth. set (t := Str.trim raw).
  destruct (matchMonthYear t) as [[g1 g2]|] eqn:E1.
  { assert (Hne : Str.isEmpty t = false).
    { apply matchMonthYear_iff in E1 as (-> & [[_ L]|[_ L]] & _);
        destruct g1; try discriminate L; reflexivity. }
    rewrite Hne.
    pose proof E1 as S1. apply matchMonthYear_iff in S1.
    destruct S1 as (Et & Hm & Hy).
    destruct (pad_month g1 Hm) as [Epad Hpad].
    assert (Hshape : monthShape t (Str.padStart0 2 g1) g2).
    { left. exists g1. split; [|reflexivity]. exact (conj Et (conj Hm Hy)). }
    split; [|split].
    - intros r Hr. injection Hr as <-. rewrite Epad.
      exists (Str.padStart0 2 g1), g2. split; [|exact Hshape].
      repeat split; [apply Hpad | apply Hpad | apply Hy | apply Hy].
    - intros Hno. exfalso. exact (Hno _ _ Hshape).
    - discriminate. }
  destruct (matchDMY "/" t) as [[[dd mm] yyyy]|] eqn:E2.
  { pose proof E2 as S2. apply matchDMY_iff in S2.
    assert (Hne : Str.isEmpty t = false).
    { destruct S2 as (-> & [_ L] & _). destruct dd; [discriminate L | reflexivity]. }
    rewrite Hne.
    assert (Hshape : monthShape t mm yyyy) by (right; left; exists dd; exact S2).
    destruct S2 as (_ & _ & Hm & Hy).
    split; [|split].
    - intros r Hr. injection Hr as <-. exists mm, yyyy. split; [|exact Hshape].
      repeat split; [apply Hm | apply Hm | apply Hy | apply Hy].
    - intros Hno. exfalso. exact (Hno _ _ Hshape).
    - discriminate. }
  destruct (matchDMY "-" t) as [[[dd mm] yyyy]|] eqn:E3.
  { pose proof E3 as S3. apply matchDMY_iff in S3.
    assert (Hne : Str.isEmpty t = false).
    { destruct S3 as (-> & [_ L] & _). destruct dd; [discriminate L | reflexivity]. }
    rewrite Hne.
    assert (Hshape : monthShape t mm yyyy) by (right; right; left; exists dd; exact S3).
    destruct S3 as (_ & _ & Hm & Hy).
    split; [|split].
    - intros r Hr. injection Hr as <-. exists mm, yyyy. split; [|exact Hshape].
      repeat split; [apply Hm | apply Hm | apply Hy | apply Hy].
    - intros Hno. exfalso. exact (Hno _ _ Hshape).
    - discriminate. }
  destruct (matchISO t) as [[[yyyy mm] dd]|] eqn:E4.
  { pose proof E4 as S4. apply matchISO_iff in S4.
    assert (Hne : Str.isEmpty t = false).
    { destruct S4 as (-> & [_ L] & _). destruct yyyy; [discriminate L | reflexivity]. }
    rewrite Hne.
    assert (Hshape : monthShape t mm yyyy) by (right; right; right; exists dd; exact S4).
    destruct S4 as (_ & Hy & Hm & _).
    split; [|split].
    - intros r Hr. injection Hr as <-. exists mm, yyyy. split; [|exact Hshape].
      repeat split; [apply Hm | apply Hm | apply Hy | apply Hy].
    - intros Hno. exfalso. exact (Hno _ _ Hshape).
    - discriminate. }
  assert (Hnone : (if Str.isEmpty t then None else @None string) = None)
    by (destruct (Str.isEmpty t); reflexivity).
  rewrite Hnone.
  split; [discriminate|]. split; [reflexivity|].
  intros _. apply no_match_no_shape; assumption.
Qed.

(** The input [" 3/2024"] has the shape [M/YYYY] once trimmed. *)
Lemma C2_normalizeMonth_witness :
  exists mm yyyy, shapeMonthKey "03/2024" mm yyyy
                  /\ monthShape (Str.trim " 3/2024") mm yyyy.
Proof.
  destruct (C2_normalizeMonth " 3/2024") as (H & _).
  apply (H "03/2024"). vm_compute. reflexivity.
Defined.

(** The month of a result need not lie between 01 and 12. *)
Lemma C2_normalizeMonth_counterexample :
  ~ (forall raw r, normalizeMonth raw = Some r ->
       exists mm yyyy, shapeMonthKey r mm yyyy
                       /\ (1 <= Conv.digitsValue 0 mm <= 12)%Z).
Proof.
  intros H.
  destruct (H "13/2024" "13/2024") as (mm & yyyy & (E & [_ L] & _) & Hrange).
  { vm_compute. reflexivity. }
  destruct mm as [|c1 [|c2 [|c3 mm]]]; try discriminate L.
  rewrite !app_cons in E. injection E as <- <- _.
  vm_compute in Hrange. destruct Hrange as [_ Hle]. apply Hle. reflexivity.
Qed.

(** ** The calendar *)

Section Calendar.
Import JsDate.
Local Open Scope Z_scope.

Lemma InLeapYear_leapYear (y : Z) :
  InLeapYear y = if leapYear y then 1 else 0.
Proof.
  unfold InLeapYear, leapYear.
  destruct (y mod 4 =? 0), (y mod 100 =? 0), (y mod 400 =? 0); reflexivity.
Qed.

Lemma YearFromDay_spec (d : Z) :
  DayFromYear (YearFromDay d) <= d < DayFromYear (YearFromDay d + 1).
Proof.
  unfold YearFromDay.
  set (y0 := 1970 + d * 400 / 146097).
  assert (H0 : 146097 * (y0 - 1970) <= d * 400 < 146097 * (y0 - 1970) + 146097).
  { unfold y0. pose proof (Z.div_mod (d * 400) 146097 ltac:(lia)).
    pose proof (Z.mod_pos_bound (d * 400) 146097 ltac:(lia)). lia. }
  clearbody y0.
  destruct (Z.ltb_spec d (DayFromYear y0));
    [|destruct (Z.leb_spec (DayFromYear (y0 + 1)) d)];
    unfold DayFromYear in *; Z.div_mod_to_equations; lia.
Qed.

Lemma DayFromYear_succ (y : Z) :
  DayFromYear (y + 1) = DayFromYear y + 365 + InLeapYear y.
Proof.
  unfold DayFromYear, InLeapYear.
  destruct (Z.eqb_spec (y mod 4) 0), (Z.eqb_spec (y mod 100) 0),
    (Z.eqb_spec (y mod 400) 0); cbn [negb]; Z.div_mod_to_equations; lia.
Qed.

Lemma DayWithinYear_range (t : Z) :
  0 <= DayWithinYear t < 365 + InLeapYear (YearFromTime t).
Proof.
  unfold DayWithinYear, YearFromTime.
  pose proof (YearFromDay_spec (Day t)) as H.
  rewrite DayFromYear_succ in H. lia.
Qed.

(** Whatever the time value, the date read back from it is real. *)
Lemma decoded_date_real (t : Z) :
  realDate (YearFromTime t) (MonthFromTime t + 1) (DateFromTime t).
Proof.
  pose proof (DayWithinYear_range t) as Hd.
  unfold realDate, DateFromTime, MonthFromTime, daysInMonth.
  rewrite InLeapYear_leapYear in *.
  set (d := DayWithinYear t) in *. clearbody d.
  destruct (leapYear (YearFromTime t));
    repeat (match goal with
            | |- context [Z.ltb ?a ?b] => destruct (Z.ltb_spec a b)
            end); simpl in *; lia.
Qed.
End Calendar.

(** ** Date parsing *)

Lemma truncate_inject (z : Z) : JsNum.truncate (inject_Z z) = z.
Proof. unfold JsNum.truncate. simpl. apply Z.quot_1_r. Qed.

Lemma eqb_inject (a b : Z) :
  JsNum.eqb (Num (inject_Z a)) (Num (inject_Z b)) = true -> a = b.
Proof.
  intros H. apply eqb_Num in H. rewrite inject_Z_injective in H. exact H.
Qed.

Lemma dayFirst_parts (sep : ascii) (t dd mm yyyy : string) :
  Str.isDigit sep = false -> shapeDMY sep t dd mm yyyy ->
  map Conv.StringToNumber (Str.split sep t)
  = [Num (inject_Z (Conv.digitsValue 0 dd));
     Num (inject_Z (Conv.digitsValue 0 mm));
     Num (inject_Z (Conv.digitsValue 0 yyyy))].
Proof.
  intros Hsep (-> & [Hd Ld] & [Hm Lm] & [Hy Ly]).
  rewrite split_digits_sep by assumption.
  rewrite split_digits_sep by assumption.
  rewrite split_digits by assumption.
  cbn [map].
  rewrite !StringToNumber_digits; try assumption; try lia; try reflexivity.
  - intros ->; discriminate Ly.
  - intros ->; discriminate Lm.
  - intros ->; discriminate Ld.
Qed.

(** The day-first branches accept real calendar dates only. *)
Lemma parseDayFirst_real (sep : ascii) (t dd mm yyyy k : string) :
  Str.isDigit sep = false -> shapeDMY sep t dd mm yyyy ->
  parseDayFirst sep t = Some k ->
  realDate (Conv.digitsValue 0 yyyy) (Conv.digitsValue 0 mm) (Conv.digitsValue 0 dd).
Proof.
  intros Hsep Hshape. unfold parseDayFirst.
  rewrite (dayFirst_parts sep t dd mm yyyy Hsep Hshape).
  set (vd := Conv.digitsValue 0 dd). set (vm := Conv.digitsValue 0 mm).
  set (vy := Conv.digitsValue 0 yyyy).
  rewrite sub_one by (apply digits2_pred; apply Hshape).
  unfold JsDate.UTC. rewrite !truncate_inject.
  set (yr := if ((0 <=? vy) && (vy <=? 99))%Z then (1900 + vy)%Z else vy).
  set (tv := (JsDate.MakeDay yr (vm - 1) vd * JsDate.msPerDay)%Z).
  destruct (JsDate.TimeClip tv) as [t'|] eqn:Eclip; [|discriminate].
  assert (t' = tv) as ->.
  { unfold JsDate.TimeClip in Eclip.
    destruct (Z.abs tv <=? 8640000000000000)%Z; [|discriminate Eclip].
    injection Eclip as <-. reflexivity. }
  cbn [isSome negb JsDate.getUTCFullYear JsDate.getUTCMonth JsDate.getUTCDate].
  unfold JsNum.ofZ.
  destruct (JsNum.eqb (Num (inject_Z (JsDate.YearFromTime tv))) (Num (inject_Z vy))) eqn:E1;
    [|discriminate].
  destruct (JsNum.eqb (Num (inject_Z (JsDate.MonthFromTime tv))) (Num (inject_Z (vm - 1)))) eqn:E2;
    [|discriminate].
  destruct (JsNum.eqb (Num (inject_Z (JsDate.DateFromTime tv))) (Num (inject_Z vd))) eqn:E3;
    [|discriminate].
  intros _. apply eqb_inject in E1, E2, E3.
  pose proof (decoded_date_real tv) as Hreal.
  rewrite E1, E2, E3 in Hreal.
  replace (vm - 1 + 1)%Z with vm in Hreal by lia. exact Hreal.
Qed.

Lemma app_inv_length (a b x y : string) :
  a +:+ x = b +:+ y -> String.length a = String.length b -> a = b /\ x = y.
Proof.
  revert b. induction a as [|c a IH]; intros [|d b] E L; try discriminate L.
  - split; [reflexivity | exact E].
  - rewrite !app_cons in E. injection E as -> E. injection L as L.
    destruct (IH b E L) as [-> ->]. split; reflexivity.
Qed.

Lemma shapeDMY_sep (s1 s2 : ascii) (t d1 m1 y1 d2 m2 y2 : string) :
  shapeDMY s1 t d1 m1 y1 -> shapeDMY s2 t d2 m2 y2 -> s1 = s2.
Proof.
  intros (E1 & [_ L1] & _) (E2 & [_ L2] & _). rewrite E1 in E2.
  apply app_inv_length in E2 as [_ E]; [|congruence]. injection E as ->. reflexivity.
Qed.

Lemma makeDay_month_length (y m : Z) :
  (1 <= m <= 12)%Z ->
  (JsDate.MakeDay y m 1 - JsDate.MakeDay y (m - 1) 1)%Z = daysInMonth y m.
Proof.
  intros Hm. unfold JsDate.MakeDay.
  replace ((m - 1) / 12)%Z with 0%Z by (Z.div_mod_to_equations; lia).
  replace ((m - 1) mod 12)%Z with (m - 1)%Z by (Z.div_mod_to_equations; lia).
  rewrite Z.add_0_r.
  destruct (Z.eq_dec m 12%Z) as [->|Hne].
  - change (12 / 12)%Z with 1%Z. change (12 mod 12)%Z with 0%Z.
    rewrite DayFromYear_succ. unfold daysInMonth. simpl. lia.
  - replace (m / 12)%Z with 0%Z by (Z.div_mod_to_equations; lia).
    replace (m mod 12)%Z with m by (Z.div_mod_to_equations; lia).
    rewrite Z.add_0_r, InLeapYear_leapYear. unfold daysInMonth.
    assert (Hcases : (m = 1 \/ m = 2 \/ m = 3 \/ m = 4 \/ m = 5 \/ m = 6 \/ m = 7
                      \/ m = 8 \/ m = 9 \/ m = 10 \/ m = 11)%Z) by lia.
    repeat (destruct Hcases as [-> | Hcases]; [simpl; destruct (leapYear y); lia|]).
    subst m. simpl. destruct (leapYear y); lia.
Qed.

Lemma parseDateTime_shape (ov : dayOverflow) (t yyyy mm dd : string) :
  shapeISO t yyyy mm dd ->
  JsDate.parseDateTime ov (t +:+ "T00:00:00Z")
  = let yv := Conv.digitsValue 0 yyyy in
    let mv := Conv.digitsValue 0 mm in
    let dv := Conv.digitsValue 0 dd in
    if ((1 <=? mv) && (mv <=? 12) && (1 <=? dv) && (dv <=? 31))%Z then
      match ov with
      | Reject =>
          if (dv <=? JsDate.MakeDay yv mv 1 - JsDate.MakeDay yv (mv - 1) 1)%Z
          then JsDate.TimeClip (JsDate.MakeDay yv (mv - 1) dv * JsDate.msPerDay)
          else None
      | RollOver => JsDate.TimeClip (JsDate.MakeDay yv (mv - 1) dv * JsDate.msPerDay)
      end
    else None.
Proof.
  intros (-> & [Hy Ly] & [Hm Lm] & [Hd Ld]). unfold JsDate.parseDateTime.
  rewrite app_assoc_str, app_cons, app_assoc_str, app_cons.
  rewrite (takeDigits_exact 4 yyyy _ Hy Ly). cbn [mbind option_bind].
  rewrite takeChar_complete. cbn [mbind option_bind].
  rewrite (takeDigits_exact 2 mm _ Hm Lm). cbn [mbind option_bind].
  rewrite takeChar_complete. cbn [mbind option_bind].
  rewrite (takeDigits_exact 2 dd _ Hd Ld). cbn [mbind option_bind].
  reflexivity.
Qed.

(** On an engine that rejects a day past the end of its month, the ISO
    branch accepts real calendar dates only. *)
Lemma parseISOKey_real (t yyyy mm dd k : string) :
  shapeISO t yyyy mm dd -> parseISOKey Reject t = Some k ->
  realDate (Conv.digitsValue 0 yyyy) (Conv.digitsValue 0 mm) (Conv.digitsValue 0 dd).
Proof.
  intros Hshape. unfold parseISOKey.
  destruct (negb (isSome (matchISO t))); [discriminate|].
  rewrite (parseDateTime_shape Reject t yyyy mm dd Hshape). cbv zeta.
  set (vy := Conv.digitsValue 0 yyyy). set (vm := Conv.digitsValue 0 mm).
  set (vd := Conv.digitsValue 0 dd).
  destruct ((1 <=? vm) && (vm <=? 12) && (1 <=? vd) && (vd <=? 31))%Z eqn:Eb;
    [|discriminate].
  rewrite !Bool.andb_true_iff, !Z.leb_le in Eb.
  rewrite makeDay_month_length by lia.
  destruct (Z.leb_spec vd (daysInMonth vy vm)); [|discriminate].
  intros _. unfold realDate. lia.
Qed.

Lemma parseISOKey_self (ov : dayOverflow) (t k : string) :
  parseISOKey ov t = Some k -> k = t.
Proof.
  unfold parseISOKey. destruct (negb (isSome (matchISO t))); [discriminate|].
  destruct (JsDate.parseDateTime ov _); [|discriminate]. congruence.
Qed.

Lemma isSome_true {A} (o : option A) : isSome o = true -> exists x, o = Some x.
Proof. destruct o; [eauto | discriminate]. Qed.

(** C5.  Whatever [parseInputDate] accepts has, once trimmed, one of the
    three shapes; in the two day-first shapes it is a real calendar date;
    in the shape [YYYY-MM-DD] the trimmed input is returned as it is, and
    is a real calendar date on an engine whose [Date] rejects a day past
    the end of its month.  On an engine whose [Date] rolls such a day
    over, [2024-02-31] is accepted: the ISO branch relies on the [Date]
    constructor alone and has no round-trip check. *)
Theorem C5_parseInputDate_rejects :
  (forall ov s k,
     parseInputDate ov s = Some k ->
     (exists dd mm yyyy,
        (shapeDMY "/" (Str.trim s) dd mm yyyy \/ shapeDMY "-" (Str.trim s) dd mm yyyy)
        /\ realDate (Conv.digitsValue 0 yyyy) (Conv.digitsValue 0 mm)
                    (Conv.digitsValue 0 dd))
     \/ (exists yyyy mm dd,
           shapeISO (Str.trim s) yyyy mm dd /\ k = Str.trim s
           /\ (ov = Reject ->
               realDate (Conv.digitsValue 0 yyyy) (Conv.digitsValue 0 mm)
                        (Conv.digitsValue 0 dd))))
  /\ parseInputDate RollOver "2024-02-31" = Some "2024-02-31"
  /\ ~ realDate 2024 2 31
  /\ parseInputDate Reject "2024-02-31" = None
  /\ (forall ov, parseInputDate ov "31-02-2024" = None
                 /\ parseInputDate ov "31/02/2024" = None).
Proof.
  split; [|split; [|split; [|split]]].
  - intros ov s k. unfold parseInputDate. set (t := Str.trim s).
    destruct (isSome (matchDMY "/" t)) eqn:E1.
    { apply isSome_true in E1 as [[[dd mm] yyyy] E1]. apply matchDMY_iff in E1.
      intros H. left. exists dd, mm, yyyy. split; [left; exact E1|].
      apply (parseDayFirst_real "/" t dd mm yyyy k); [reflexivity | exact E1 | exact H]. }
    destruct (isSome (matchDMY "-" t)) eqn:E2.
    { apply isSome_true in E2 as [[[dd mm] yyyy] E2]. apply matchDMY_iff in E2.
      intros H. left. exists dd, mm, yyyy. split; [right; exact E2|].
      apply (parseDayFirst_real "-" t dd mm yyyy k); [reflexivity | exact E2 | exact H]. }
    destruct (isSome (matchISO t)) eqn:E3; [|discriminate].
    apply isSome_true in E3 as [[[yyyy mm] dd] E3]. apply matchISO_iff in E3.
    intros H. right. exists yyyy, mm, dd. split; [exact E3|].
    split; [eapply parseISOKey_self; exact H|].
    intros ->. eapply parseISOKey_real; [exact E3 | exact H].
  - vm_compute. reflexivity.
  - unfold realDate. vm_compute. intros [_ [_ H]]. apply H. reflexivity.
  - vm_compute. reflexivity.
  - intros []; split; vm_compute; reflexivity.
Qed.

(** An accepted day-first input, and the date it denotes. *)
Lemma C5_parseInputDate_rejects_witness :
  (exists dd mm yyyy,
     (shapeDMY "/" (Str.trim "29/02/2024") dd mm yyyy
      \/ shapeDMY "-" (Str.trim "29/02/2024") dd mm yyyy)
     /\ realDate (Conv.digitsValue 0 yyyy) (Conv.digitsValue 0 mm)
                 (Conv.digitsValue 0 dd))
  \/ (exists yyyy mm dd,
        shapeISO (Str.trim "29/02/2024") yyyy mm dd /\ "2024-02-29" = Str.trim "29/02/2024"
        /\ (RollOver = Reject ->
            realDate (Conv.digitsValue 0 yyyy) (Conv.digitsValue 0 mm)
                     (Conv.digitsValue 0 dd))).
Proof.
  destruct C5_parseInputDate_rejects as (H & _).
  apply (H RollOver "29/02/2024" "2024-02-29"). vm_compute. reflexivity.
Defined.

(** ** Date keys that survive the export *)

Section Encode.
Import JsDate.
Local Open Scope Z_scope.

Lemma DayFromYear_mono (a b : Z) : a <= b -> DayFromYear a <= DayFromYear b.
Proof. intros H. unfold DayFromYear. Z.div_mod_to_equations. lia. Qed.

Lemma YearFromDay_unique (y d : Z) :
  DayFromYear y <= d < DayFromYear (y + 1) -> YearFromDay d = y.
Proof.
  intros H. pose proof (YearFromDay_spec d) as S.
  destruct (Z.lt_trichotomy (YearFromDay d) y) as [Hlt|[E|Hgt]]; [|exact E|].
  - pose proof (DayFromYear_mono (YearFromDay d + 1) y ltac:(lia)). lia.
  - pose proof (DayFromYear_mono (y + 1) (YearFromDay d) ltac:(lia)). lia.
Qed.

Lemma Day_of_days (x : Z) : Day (x * msPerDay) = x.
Proof. unfold Day, msPerDay. apply Z.div_mul. discriminate. Qed.

Lemma monthStart_range (y m d : Z) :
  realDate y m d ->
  0 <= monthStart (m - 1) (InLeapYear y) + d - 1 < 365 + InLeapYear y.
Proof.
  intros [Hm Hd]. rewrite InLeapYear_leapYear. unfold daysInMonth in Hd.
  assert (Hcases : (m = 1 \/ m = 2 \/ m = 3 \/ m = 4 \/ m = 5 \/ m = 6 \/ m = 7
                    \/ m = 8 \/ m = 9 \/ m = 10 \/ m = 11 \/ m = 12)) by lia.
  repeat (destruct Hcases as [-> | Hcases];
          [simpl in *; destruct (leapYear y); lia|]).
  subst m. simpl in *. destruct (leapYear y); lia.
Qed.

(** A real calendar date is read back from its time value. *)
Lemma encoded_date_decodes (y m d : Z) :
  realDate y m d ->
  let t := MakeDay y (m - 1) d * msPerDay in
  YearFromTime t = y /\ MonthFromTime t = m - 1 /\ DateFromTime t = d.
Proof.
  intros Hreal t. pose proof (monthStart_range y m d Hreal) as Hr.
  destruct Hreal as [Hm Hd].
  assert (Hday : Day t = DayFromYear y + monthStart (m - 1) (InLeapYear y) + d - 1).
  { unfold t. rewrite Day_of_days. unfold MakeDay.
    replace ((m - 1) / 12) with 0 by (Z.div_mod_to_equations; lia).
    replace ((m - 1) mod 12) with (m - 1) by (Z.div_mod_to_equations; lia).
    rewrite Z.add_0_r. reflexivity. }
  assert (Hy : YearFromTime t = y).
  { unfold YearFromTime. apply YearFromDay_unique.
    rewrite Hday, DayFromYear_succ. lia. }
  assert (Hw : DayWithinYear t = monthStart (m - 1) (InLeapYear y) + d - 1).
  { unfold DayWithinYear. rewrite Hy, Hday. lia. }
  split; [exact Hy|].
  unfold DateFromTime, MonthFromTime. rewrite Hw, Hy.
  rewrite InLeapYear_leapYear in *. unfold daysInMonth in Hd.
  assert (Hcases : (m = 1 \/ m = 2 \/ m = 3 \/ m = 4 \/ m = 5 \/ m = 6 \/ m = 7
                    \/ m = 8 \/ m = 9 \/ m = 10 \/ m = 11 \/ m = 12)) by lia.
  repeat (destruct Hcases as [-> | Hcases];
          [simpl in *; destruct (leapYear y);
           repeat (match goal with
                   | |- context [Z.ltb ?a ?b] => destruct (Z.ltb_spec a b)
                   end); simpl; lia|]).
  subst m. simpl in *. destruct (leapYear y);
    repeat (match goal with
            | |- context [Z.ltb ?a ?b] => destruct (Z.ltb_spec a b)
            end); simpl; lia.
Qed.

Lemma TimeClip_in_range (y m d : Z) :
  0 <= y <= 9999 -> realDate y m d ->
  TimeClip (MakeDay y (m - 1) d * msPerDay) = Some (MakeDay y (m - 1) d * msPerDay).
Proof.
  intros Hy Hreal. pose proof (monthStart_range y m d Hreal) as Hr.
  destruct Hreal as [Hm Hd]. unfold TimeClip, MakeDay.
  replace ((m - 1) / 12) with 0 by (Z.div_mod_to_equations; lia).
  replace ((m - 1) mod 12) with (m - 1) by (Z.div_mod_to_equations; lia).
  rewrite Z.add_0_r.
  assert (Hl : InLeapYear y = 0 \/ InLeapYear y = 1).
  { rewrite InLeapYear_leapYear. destruct (leapYear y); auto. }
  destruct (Z.leb_spec (Z.abs ((DayFromYear y + monthStart (m - 1) (InLeapYear y) + d - 1)
                               * msPerDay)) 8640000000000000) as [_|Hbig];
    [reflexivity|].
  exfalso. unfold DayFromYear, msPerDay in Hbig. Z.div_mod_to_equations. lia.
Qed.
End Encode.

Lemma digitVal_inj (c d : ascii) :
  Str.isDigit c = true -> Str.isDigit d = true ->
  Conv.digitVal c = Conv.digitVal d -> c = d.
Proof.
  intros Hc Hd E. apply isDigit_code in Hc, Hd. unfold Conv.digitVal in E.
  rewrite <- (ascii_nat_embedding c), <- (ascii_nat_embedding d). f_equal. lia.
Qed.

Lemma digitsValue_acc (s : string) (acc : Z) :
  Conv.digitsValue acc s
  = (acc * 10 ^ Z.of_nat (String.length s) + Conv.digitsValue 0 s)%Z.
Proof.
  revert acc. induction s as [|c s IH]; intros acc.
  - simpl. lia.
  - cbn [Conv.digitsValue String.length]. rewrite IH, (IH (0 * 10 + Conv.digitVal c)%Z).
    rewrite Nat2Z.inj_succ, Z.pow_succ_r by lia. ring.
Qed.

Lemma digitsValue_inj (a b : string) :
  Str.allDigits a = true -> Str.allDigits b = true ->
  String.length a = String.length b ->
  Conv.digitsValue 0 a = Conv.digitsValue 0 b -> a = b.
Proof.
  revert b. induction a as [|c a IH]; intros [|d b] Ha Hb L E; try discriminate L.
  - reflexivity.
  - cbn [Str.allDigits] in Ha, Hb.
    apply Bool.andb_true_iff in Ha as [Hc Ha]. apply Bool.andb_true_iff in Hb as [Hd Hb].
    injection L as L. cbn [Conv.digitsValue] in E.
    rewrite (digitsValue_acc a), (digitsValue_acc b), <- L in E.
    pose proof (digitsValue_bounds a 0 Ha ltac:(lia)) as Ba.
    pose proof (digitsValue_bounds b 0 Hb ltac:(lia)) as Bb. rewrite <- L in Bb.
    pose proof (digitVal_range c Hc). pose proof (digitVal_range d Hd).
    set (P := (10 ^ Z.of_nat (String.length a))%Z) in *.
    assert (HP : (0 < P)%Z) by (apply Z.pow_pos_nonneg; lia).
    assert (Ecd : Conv.digitVal c = Conv.digitVal d) by nia.
    rewrite (digitVal_inj c d Hc Hd Ecd). f_equal.
    apply IH; [assumption | assumption | exact L | nia].
Qed.

Lemma showZ_year (yyyy : string) :
  digits 4 yyyy -> (1000 <= Conv.digitsValue 0 yyyy)%Z ->
  Conv.showZ (Conv.digitsValue 0 yyyy) = yyyy.
Proof.
  intros [Hy Ly] Hv.
  pose proof (digitsValue_bounds yyyy 0 Hy ltac:(lia)) as Hb. rewrite Ly in Hb.
  change (10 ^ Z.of_nat 4)%Z with 10000%Z in Hb.
  destruct (showZ_four (Conv.digitsValue 0 yyyy) ltac:(lia)) as [[Hs Ls] Es].
  apply digitsValue_inj; [exact Hs | exact Hy | congruence | exact Es].
Qed.

Lemma trimEnd_app_kept (a b : string) :
  Str.trimEnd b = b -> b <> EmptyString -> Str.trimEnd (a +:+ b) = a +:+ b.
Proof.
  intros Hb Hne. induction a as [|c a IH]; [exact Hb|].
  rewrite app_cons. cbn [Str.trimEnd]. rewrite IH.
  destruct (a +:+ b) eqn:E.
  - exfalso. destruct a; [rewrite app_nil_l in E; contradiction | discriminate E].
  - cbn [Str.isEmpty]. rewrite Bool.andb_false_r. reflexivity.
Qed.

Lemma pad2_number (mm : string) :
  digits 2 mm ->
  Str.padStart0 2 (NumStr.numberToString (Num (inject_Z (Conv.digitsValue 0 mm)))) = mm.
Proof.
  intros H. destruct (pad_month mm (or_intror H)) as [E _].
  destruct H as [Hm Lm].
  rewrite StringToNumber_digits in E; [|exact Hm|intros ->; discriminate Lm|lia].
  rewrite E. unfold Str.padStart0. rewrite Lm. reflexivity.
Qed.

(** The date cell that [exportDailyCSV] writes for a key of a real
    calendar date from the year 1000 on is read back as that key. *)
Lemma exported_date_reads_back (ov : dayOverflow) (k yyyy mm dd : string) :
  shapeISO k yyyy mm dd ->
  realDate (Conv.digitsValue 0 yyyy) (Conv.digitsValue 0 mm) (Conv.digitsValue 0 dd) ->
  (1000 <= Conv.digitsValue 0 yyyy)%Z ->
  parseInputDate ov (formatDDMMYYYYForCSV k) = Some k.
Proof.
  intros Hk Hreal Hy. pose proof Hk as (Ek & [Hdy Ly] & [Hdm Lm] & [Hdd Ld]).
  assert (Efmt : formatDDMMYYYYForCSV k = dd +:+ String "/" (mm +:+ String "/" yyyy)).
  { unfold formatDDMMYYYYForCSV.
    assert (Em : matchISO k = Some (yyyy, mm, dd)) by (apply matchISO_iff; exact Hk).
    rewrite Em. cbn [isSome negb].
    assert (Ene : Str.isEmpty k = false).
    { rewrite Ek. destruct yyyy; [discriminate Ly | reflexivity]. }
    rewrite Ene. cbn [orb]. rewrite Ek.
    rewrite split_digits_sep by (reflexivity || assumption).
    rewrite split_digits_sep by (reflexivity || assumption).
    rewrite split_digits by (reflexivity || assumption).
    cbn [map]. rewrite !app_cons, !app_nil_l. reflexivity. }
  rewrite Efmt. set (t := dd +:+ String "/" (mm +:+ String "/" yyyy)).
  assert (Hshape : shapeDMY "/" t dd mm yyyy) by (repeat split; assumption).
  assert (Etrim : Str.trim t = t).
  { unfold Str.trim, t.
    destruct dd as [|c dd']; [discriminate Ld|].
    cbn [Str.allDigits] in Hdd. apply Bool.andb_true_iff in Hdd as [Hc _].
    rewrite app_cons. cbn [Str.trimStart]. rewrite (digit_not_space c Hc).
    rewrite <- app_cons.
    replace (String c dd' +:+ String "/" (mm +:+ String "/" yyyy))
      with ((String c dd' +:+ String "/" (mm +:+ "/")) +:+ yyyy).
    - apply trimEnd_app_kept; [apply trimEnd_digits; exact Hdy|].
      intros ->; discriminate Ly.
    - rewrite !app_assoc_str, !app_cons, app_assoc_str, app_cons, app_nil_l. reflexivity. }
  unfold parseInputDate. rewrite Etrim.
  assert (Em : matchDMY "/" t = Some (dd, mm, yyyy)) by (apply matchDMY_iff; exact Hshape).
  rewrite Em. cbn [isSome].
  unfold parseDayFirst. rewrite (dayFirst_parts "/" t dd mm yyyy eq_refl Hshape).
  set (vd := Conv.digitsValue 0 dd) in *. set (vm := Conv.digitsValue 0 mm) in *.
  set (vy := Conv.digitsValue 0 yyyy) in *.
  pose proof (digitsValue_bounds yyyy 0 Hdy ltac:(lia)) as By. rewrite Ly in By.
  change (10 ^ Z.of_nat 4)%Z with 10000%Z in By. fold vy in By.
  rewrite sub_one by (apply digits2_pred; apply Hshape).
  unfold JsDate.UTC. rewrite !truncate_inject.
  replace ((0 <=? vy) && (vy <=? 99))%Z with false
    by (symmetry; apply Bool.andb_false_iff; right; apply Z.leb_gt; lia).
  rewrite TimeClip_in_range by (lia || exact Hreal).
  destruct (encoded_date_decodes vy vm vd Hreal) as (E1 & E2 & E3).
  cbn [isSome negb JsDate.getUTCFullYear JsDate.getUTCMonth JsDate.getUTCDate].
  rewrite E1, E2, E3. unfold JsNum.ofZ.
  assert (Hrefl : forall z, JsNum.eqb (Num (inject_Z z)) (Num (inject_Z z)) = true).
  { intros z. apply eqb_Num. reflexivity. }
  rewrite !Hrefl. cbn [negb orb].
  rewrite numberToString_small by lia.
  unfold vy. rewrite showZ_year by (first [split; assumption | exact Hy]).
  unfold vm, vd. rewrite !pad2_number by (split; assumption).
  rewrite Ek. reflexivity.
Qed.

(** ** Export and re-import *)

(** C7.  The date cell written by [exportDailyCSV] reads back as the key
    it came from when the key is a real calendar date from the year 1000
    on, and a map of recent dates survives the round trip through
    [exportDailyCSV] and [csvParseDaily].  Not every map of valid date
    keys does: the day-first branch of [parseInputDate] writes the year
    without padding it to four digits, so the key [0999-06-15] comes back
    as [999-06-15]; and [Date.UTC] reads a year below 100 as 19xx, so the
    key [0050-01-01] does not come back at all. *)
Theorem C7_round_trip_breaks :
  (forall ov k yyyy mm dd,
     shapeISO k yyyy mm dd ->
     realDate (Conv.digitsValue 0 yyyy) (Conv.digitsValue 0 mm) (Conv.digitsValue 0 dd) ->
     (1000 <= Conv.digitsValue 0 yyyy)%Z ->
     parseInputDate ov (formatDDMMYYYYForCSV k) = Some k)
  /\ (forall ov,
        let recent : gmap string number :=
          <["2025-12-19" := Num 5]> (<["2025-12-18" := Num (6543 # 25)]> ∅) in
        let old : gmap string number := <["0999-06-15" := Num 5]> ∅ in
        let ancient : gmap string number := <["0050-01-01" := Num 1]> ∅ in
        mergeRecords ∅ (csvParseDaily ov (exportDailyCSV recent)).1 = recent
        /\ parseInputDate ov "0999-06-15" = Some "0999-06-15"
        /\ exportDailyCSV old = Str.joinLines ["date,RatedCapacity_GW"; "15/06/0999,5"]
        /\ csvParseDaily ov (exportDailyCSV old)
           = ([{| date := "999-06-15"; value := Num 5 |}], [])
        /\ mergeRecords ∅ (csvParseDaily ov (exportDailyCSV old)).1 !! "0999-06-15" = None
        /\ mergeRecords ∅ (csvParseDaily ov (exportDailyCSV old)).1 <> old
        /\ parseInputDate ov "0050-01-01" = Some "0050-01-01"
        /\ csvParseDaily ov (exportDailyCSV ancient)
           = ([], ["Row 1: invalid date '01/01/0050' (expected DD/MM/YYYY)"])).
Proof.
  split; [apply exported_date_reads_back|].
  intros ov recent old ancient.
  assert (Hold : mergeRecords ∅ (csvParseDaily ov (exportDailyCSV old)).1 !! "0999-06-15"
                 = None) by (destruct ov; vm_compute; reflexivity).
  repeat split; try (destruct ov; vm_compute; reflexivity).
  intros E. rewrite E in Hold. discriminate Hold.
Qed.

(** The key of 18 December 2025 through the export and back. *)
Lemma C7_round_trip_breaks_witness :
  parseInputDate Reject (formatDDMMYYYYForCSV "2025-12-18") = Some "2025-12-18".
Proof.
  destruct C7_round_trip_breaks as (H & _).
  apply (H Reject "2025-12-18" "2025" "12" "18").
  - repeat split; reflexivity.
  - unfold realDate. vm_compute. repeat split; discriminate.
  - vm_compute. discriminate.
Defined.

(* ===================================================================== *)
(** * Further properties of the code *)
(* ===================================================================== *)

(** ** Month pickers and the month selection *)

Example minus_months_5 : minusMonths "03/2024" 5 = "10/2023".
Proof. vm_compute. reflexivity. Qed.

Example minus_months_year : minusMonths "01/2024" 12 = "01/2023".
Proof. vm_compute. reflexivity. Qed.

(** Without a year the text of [undefined] shows, and NaN once a year end
    is passed. *)
Example minus_months_no_year :
  minusMonths "05" 2 = "03/undefined" /\ minusMonths "05" 5 = "12/NaN".
Proof. vm_compute. split; reflexivity. Qed.

Example month_to_input : monthKeyToInputValue "03/2024" = "2024-03".
Proof. vm_compute. reflexivity. Qed.

Example input_to_month : inputValueToMonthKey "2024-03" = "03/2024".
Proof. vm_compute. reflexivity. Qed.

Example input_to_month_bad : inputValueToMonthKey "2024-3" = "".
Proof. vm_compute. reflexivity. Qed.

Local Opaque Str.takeDigits Str.takeChar Str.atEnd.

Lemma matchMonthKey_iff (s mm yyyy : string) :
  matchMonthKey s = Some (mm, yyyy) <-> shapeMonthKey s mm yyyy.
Proof.
  unfold matchMonthKey, shapeMonthKey, digits. split.
  - intros H.
    destruct (Str.takeDigits 2 s) as [[m r1]|] eqn:E1; [|discriminate]. cbn in H.
    destruct (Str.takeChar "/" r1) as [r2|] eqn:E2; [|discriminate]. cbn in H.
    destruct (Str.takeDigits 4 r2) as [[y r3]|] eqn:E3; [|discriminate]. cbn in H.
    destruct (Str.atEnd r3) as [u|] eqn:E4; [|discriminate]. cbn in H.
    injection H as <- <-.
    apply takeDigits_sound in E1 as (-> & ? & ?).
    apply takeChar_sound in E2 as ->.
    apply takeDigits_sound in E3 as (-> & ? & ?).
    apply atEnd_sound in E4 as ->. rewrite string_app_empty. auto 10.
  - intros (-> & [Hm Lm] & [Hy Ly]).
    rewrite (takeDigits_exact 2 mm _ Hm Lm). cbn.
    rewrite takeChar_complete. cbn.
    rewrite <- (string_app_empty yyyy) at 1.
    rewrite (takeDigits_exact 4 yyyy _ Hy Ly). reflexivity.
Qed.

Lemma matchInputMonth_iff (v yyyy mm : string) :
  matchInputMonth v = Some (yyyy, mm) <-> shapeInputMonth v yyyy mm.
Proof.
  unfold matchInputMonth, shapeInputMonth, digits. split.
  - intros H.
    destruct (Str.takeDigits 4 v) as [[y r1]|] eqn:E1; [|discriminate]. cbn in H.
    destruct (Str.takeChar "-" r1) as [r2|] eqn:E2; [|discriminate]. cbn in H.
    destruct (Str.takeDigits 2 r2) as [[m r3]|] eqn:E3; [|discriminate]. cbn in H.
    destruct (Str.atEnd r3) as [u|] eqn:E4; [|discriminate]. cbn in H.
    injection H as <- <-.
    apply takeDigits_sound in E1 as (-> & ? & ?).
    apply takeChar_sound in E2 as ->.
    apply takeDigits_sound in E3 as (-> & ? & ?).
    apply atEnd_sound in E4 as ->. rewrite string_app_empty. auto 10.
  - intros (-> & [Hy Ly] & [Hm Lm]).
    rewrite (takeDigits_exact 4 yyyy _ Hy Ly). cbn.
    rewrite takeChar_complete. cbn.
    rewrite <- (string_app_empty mm) at 1.
    rewrite (takeDigits_exact 2 mm _ Hm Lm). reflexivity.
Qed.

Local Transparent Str.takeDigits Str.takeChar Str.atEnd.

Lemma isSome_matchMonthKey (s : string) :
  isSome (matchMonthKey s) = true <-> isMonthKey s.
Proof.
  split.
  - destruct (matchMonthKey s) as [[mm yyyy]|] eqn:E; [|discriminate].
    intros _. exists mm, yyyy. apply matchMonthKey_iff, E.
  - intros (mm & yyyy & H). apply matchMonthKey_iff in H. rewrite H. reflexivity.
Qed.

Lemma isSome_matchInputMonth (v : string) :
  isSome (matchInputMonth v) = true <-> isInputMonth v.
Proof.
  split.
  - destruct (matchInputMonth v) as [[yyyy mm]|] eqn:E; [|discriminate].
    intros _. exists yyyy, mm. apply matchInputMonth_iff, E.
  - intros (yyyy & mm & H). apply matchInputMonth_iff in H. rewrite H. reflexivity.
Qed.

Lemma digits_nonempty (n : nat) (d r : string) :
  digits (S n) d -> Str.isEmpty (d +:+ r) = false.
Proof.
  intros [_ L]. destruct d; [discriminate L|]. rewrite app_cons. reflexivity.
Qed.

Lemma monthKeyToInputValue_shape (mk mm yyyy : string) :
  shapeMonthKey mk mm yyyy -> monthKeyToInputValue mk = yyyy +:+ String "-" mm.
Proof.
  intros H. unfold monthKeyToInputValue.
  assert (Hs : isSome (matchMonthKey mk) = true)
    by (apply isSome_matchMonthKey; exists mm, yyyy; exact H).
  rewrite Hs. destruct H as (-> & Hm & Hy).
  rewrite (digits_nonempty 1 mm _ Hm). cbn [negb orb].
  rewrite split_digits_sep by (reflexivity || apply Hm).
  rewrite split_digits by (reflexivity || apply Hy).
  cbn [lookup list_lookup cellText default].
  rewrite app_cons, app_nil_l. reflexivity.
Qed.

Lemma inputValueToMonthKey_shape (v yyyy mm : string) :
  shapeInputMonth v yyyy mm -> inputValueToMonthKey v = mm +:+ String "/" yyyy.
Proof.
  intros H. unfold inputValueToMonthKey.
  assert (Hs : isSome (matchInputMonth v) = true)
    by (apply isSome_matchInputMonth; exists yyyy, mm; exact H).
  rewrite Hs. destruct H as (-> & Hy & Hm).
  rewrite (digits_nonempty 3 yyyy _ Hy). cbn [negb orb].
  rewrite split_digits_sep by (reflexivity || apply Hy).
  rewrite split_digits by (reflexivity || apply Hm).
  cbn [lookup list_lookup cellText default].
  rewrite app_cons, app_nil_l. reflexivity.
Qed.

(** X1. The two month-picker conversions undo each other: a picker value
    [YYYY-MM] becomes a month key [MM/YYYY] that converts back to the same
    value, and a month key becomes a picker value that converts back to
    the same key. *)
Theorem month_picker_round_trip (v mk : string) :
  isInputMonth v -> isMonthKey mk ->
  (isMonthKey (inputValueToMonthKey v)
   /\ monthKeyToInputValue (inputValueToMonthKey v) = v)
  /\ (isInputMonth (monthKeyToInputValue mk)
      /\ inputValueToMonthKey (monthKeyToInputValue mk) = mk).
Proof.
  intros (yyyy & mm & Hv) (mm' & yyyy' & Hk). split.
  - rewrite (inputValueToMonthKey_shape _ _ _ Hv).
    destruct Hv as (-> & Hy & Hm).
    assert (S : shapeMonthKey (mm +:+ String "/" yyyy) mm yyyy) by (split; auto).
    split; [exists mm, yyyy; exact S|].
    apply (monthKeyToInputValue_shape _ _ _ S).
  - rewrite (monthKeyToInputValue_shape _ _ _ Hk).
    destruct Hk as (-> & Hm & Hy).
    assert (S : shapeInputMonth (yyyy' +:+ String "-" mm') yyyy' mm') by (split; auto).
    split; [exists yyyy', mm'; exact S|].
    apply (inputValueToMonthKey_shape _ _ _ S).
Qed.

Lemma month_picker_round_trip_witness :
  (isMonthKey (inputValueToMonthKey "2024-03")
   /\ monthKeyToInputValue (inputValueToMonthKey "2024-03") = "2024-03")
  /\ (isInputMonth (monthKeyToInputValue "11/2025")
      /\ inputValueToMonthKey (monthKeyToInputValue "11/2025") = "11/2025").
Proof.
  apply (month_picker_round_trip "2024-03" "11/2025").
  - exists "2024", "03". repeat split.
  - exists "11", "2025". repeat split.
Defined.

(** X2. A month-picker conversion answers the empty string exactly when
    its argument does not have the expected pattern: [YYYY-MM] for
    [inputValueToMonthKey], [MM/YYYY] for [monthKeyToInputValue]. *)
Theorem month_picker_rejects (s : string) :
  (inputValueToMonthKey s = "" <-> ~ isInputMonth s)
  /\ (monthKeyToInputValue s = "" <-> ~ isMonthKey s).
Proof.
  split; split.
  - intros E (yyyy & mm & H).
    rewrite (inputValueToMonthKey_shape _ _ _ H) in E.
    destruct H as (_ & _ & [_ L]). destruct mm; [discriminate L|].
    rewrite app_cons in E. discriminate E.
  - intros N. unfold inputValueToMonthKey.
    destruct (isSome (matchInputMonth s)) eqn:E.
    + exfalso. apply N, isSome_matchInputMonth, E.
    + rewrite Bool.orb_true_r. reflexivity.
  - intros E (mm & yyyy & H).
    rewrite (monthKeyToInputValue_shape _ _ _ H) in E.
    destruct H as (_ & _ & [_ L]). destruct yyyy; [discriminate L|].
    rewrite app_cons in E. discriminate E.
  - intros N. unfold monthKeyToInputValue.
    destruct (isSome (matchMonthKey s)) eqn:E.
    + exfalso. apply N, isSome_matchMonthKey, E.
    + rewrite Bool.orb_true_r. reflexivity.
Qed.

Lemma clampMonthKeyToOptions_In (target : string) (options : list string) :
  options <> [] -> In (clampMonthKeyToOptions target options) options.
Proof.
  intros Hne. unfold clampMonthKeyToOptions.
  destruct options as [|o0 rest] eqn:Eo; [congruence|]. rewrite <- Eo in *.
  replace (length options =? 0)%nat with false by (subst options; reflexivity).
  destruct (existsb (String.eqb target) options) eqn:Ein.
  - apply includes_In, Ein.
  - cbv zeta.
    pose proof (sort_perm compareMonthKey options) as P.
    destruct (clampScan _ target _) as [x|] eqn:Es.
    + apply clampScan_Some in Es as (i & _ & Hi & _).
      apply (Permutation_in _ P). apply list_elem_of_In.
      eapply list_elem_of_lookup_2, Hi.
    + destruct (JsArray.sort compareMonthKey options) as [|y l] eqn:El.
      * apply Permutation_nil in P. congruence.
      * cbn. apply (Permutation_in _ P). left. reflexivity.
Qed.

Lemma clampMonthKeyToOptions_fixed (target : string) (options : list string) :
  In target options -> clampMonthKeyToOptions target options = target.
Proof.
  intros H. unfold clampMonthKeyToOptions.
  destruct (length options =? 0)%nat; [reflexivity|].
  apply includes_In in H. rewrite H. reflexivity.
Qed.

(** X4. Clamping is idempotent: clamping a clamped month to the same
    options changes nothing. *)
Theorem clampMonthKeyToOptions_idempotent (target : string) (options : list string) :
  clampMonthKeyToOptions (clampMonthKeyToOptions target options) options
  = clampMonthKeyToOptions target options.
Proof.
  destruct options as [|o rest] eqn:E; [reflexivity|]. rewrite <- E.
  apply clampMonthKeyToOptions_fixed, clampMonthKeyToOptions_In. congruence.
Qed.

Lemma twoDigits_range : forallb twoDigits (seqZ 0 100) = true.
Proof. vm_compute. reflexivity. Qed.

Lemma pad2_small (z : Z) :
  (0 <= z <= 99)%Z ->
  NumStr.numberToString (Num (inject_Z z)) = Conv.showZ z
  /\ digits 2 (Str.padStart0 2 (Conv.showZ z))
  /\ Conv.digitsValue 0 (Str.padStart0 2 (Conv.showZ z)) = z.
Proof.
  intros Hz. split; [apply numberToString_small; lia|].
  pose proof twoDigits_range as H. rewrite forallb_forall in H.
  specialize (H z). unfold twoDigits in H.
  rewrite !Bool.andb_true_iff, Nat.eqb_eq, Z.eqb_eq in H.
  unfold digits. apply H.
  apply list_elem_of_In. apply elem_of_seqZ. lia.
Qed.

Lemma minusMonthsLoop_spec (n : nat) :
  forall m y : Z, (1 <= m <= 12)%Z -> (Z.abs y + Z.of_nat n <= 2 ^ 53)%Z ->
  exists m' y' : Z,
    minusMonthsLoop n (Some (Num (inject_Z m))) (Some (Num (inject_Z y)))
    = (Some (Num (inject_Z m')), Some (Num (inject_Z y')))
    /\ (1 <= m' <= 12)%Z
    /\ (y' * 12 + m' = y * 12 + m - Z.of_nat n)%Z.
Proof.
  induction n as [|n IH]; intros m y Hm Hy.
  - exists m, y. split; [reflexivity|]. lia.
  - cbn [minusMonthsLoop operand]. cbv zeta. rewrite !sub_one by lia.
    rewrite leb_inject_0.
    destruct (Z.leb_spec (m - 1) 0) as [Hle|Hgt].
    + change (Num 12) with (Num (inject_Z 12)).
      destruct (IH 12%Z (y - 1)%Z ltac:(lia) ltac:(lia)) as (m' & y' & E & B & Q).
      exists m', y'. split; [exact E|]. lia.
    + destruct (IH (m - 1)%Z y ltac:(lia) ltac:(lia)) as (m' & y' & E & B & Q).
      exists m', y'. split; [exact E|]. lia.
Qed.

Lemma shapeMonthKey_parts (s mm yyyy : string) :
  shapeMonthKey s mm yyyy -> Str.take 2 s = mm /\ Str.drop 3 s = yyyy.
Proof.
  intros (-> & [Hm Lm] & _). split.
  - rewrite <- Lm at 1. apply take_app_str.
  - destruct mm as [|c1 [|c2 [|c3 mm]]]; try discriminate Lm. reflexivity.
Qed.

Lemma calendarMonth_unique (a b : string) :
  isMonthKey a -> isMonthKey b ->
  (1 <= Conv.digitsValue 0 (Str.take 2 a) <= 12)%Z ->
  (1 <= Conv.digitsValue 0 (Str.take 2 b) <= 12)%Z ->
  monthIndex a = monthIndex b -> a = b.
Proof.
  intros (ma & ya & Ha) (mb & yb & Hb) Ba Bb E. unfold monthIndex in E.
  destruct (shapeMonthKey_parts _ _ _ Ha) as [Ta Da].
  destruct (shapeMonthKey_parts _ _ _ Hb) as [Tb Db].
  rewrite Ta, Da in *. rewrite Tb, Db in *.
  destruct Ha as (-> & [Hma Lma] & [Hya Lya]).
  destruct Hb as (-> & [Hmb Lmb] & [Hyb Lyb]).
  assert (Conv.digitsValue 0 ma = Conv.digitsValue 0 mb
          /\ Conv.digitsValue 0 ya = Conv.digitsValue 0 yb) as [Em Ey] by lia.
  apply digitsValue_inj in Em; [|assumption|assumption|congruence].
  apply digitsValue_inj in Ey; [|assumption|assumption|congruence].
  congruence.
Qed.

Lemma minusMonths_calendar (monthKey : string) (n : Z) :
  calendarMonth monthKey -> (0 <= n)%Z -> (12000 <= monthIndex monthKey - n)%Z ->
  calendarMonth (minusMonths monthKey n)
  /\ monthIndex (minusMonths monthKey n) = (monthIndex monthKey - n)%Z.
Proof.
  intros [(mm & yyyy & S) Bm] Hn Hy.
  destruct (monthKey_parts _ _ _ S) as (Ep & _ & _ & By).
  destruct (shapeMonthKey_parts _ _ _ S) as [Tk Dk].
  unfold monthIndex in Hy. rewrite Tk in Bm. rewrite Tk, Dk in Hy.
  unfold minusMonths. rewrite Ep. cbn [lookup list_lookup].
  destruct (minusMonthsLoop_spec (Z.to_nat n) _ (Conv.digitsValue 0 yyyy) Bm)
    as (m' & y' & -> & B' & Q); [rewrite Z2Nat.id by exact Hn; lia|].
  rewrite Z2Nat.id in Q by exact Hn.
  assert (Hy' : (1000 <= y' <= 9999)%Z) by lia.
  cbn [showValue].
  destruct (pad2_small m' ltac:(lia)) as (-> & D2 & V2).
  rewrite (numberToString_small y') by lia.
  destruct (showZ_four y' Hy') as [D4 V4].
  set (mm' := Str.padStart0 2 (Conv.showZ m')) in *.
  set (yy' := Conv.showZ y') in *.
  assert (S' : shapeMonthKey (mm' +:+ "/" +:+ yy') mm' yy').
  { split; [|split; assumption]. rewrite app_cons, app_nil_l. reflexivity. }
  destruct (shapeMonthKey_parts _ _ _ S') as [T' D'].
  unfold calendarMonth, monthIndex. rewrite T', D', V2, V4, Tk, Dk.
  split; [split; [exists mm', yy'; exact S' | lia] | lia].
Qed.

(** X5. [minusMonths] steps back over year ends: for a month key
    [MM/YYYY] with a month from 01 to 12 and a whole number [n >= 0] of
    months that does not lead before the year 1000, the result is again
    such a month key, and it lies exactly [n] months earlier. *)
Theorem minusMonths_steps_back (monthKey : string) (n : Z) :
  calendarMonth monthKey -> (0 <= n)%Z -> (12000 <= monthIndex monthKey - n)%Z ->
  calendarMonth (minusMonths monthKey n)
  /\ monthIndex (minusMonths monthKey n) = (monthIndex monthKey - n)%Z.
Proof. apply minusMonths_calendar. Qed.

Lemma calendarMonth_03_2024 : calendarMonth "03/2024".
Proof.
  split; [exists "03", "2024"; repeat split | vm_compute; split; discriminate].
Qed.

Lemma minusMonths_steps_back_witness :
  calendarMonth (minusMonths "03/2024" 5)
  /\ monthIndex (minusMonths "03/2024" 5) = (monthIndex "03/2024" - 5)%Z.
Proof.
  apply (minusMonths_steps_back "03/2024" 5).
  - exact calendarMonth_03_2024.
  - lia.
  - vm_compute. discriminate.
Defined.

Lemma sub_self_not_positive (x : number) :
  JsNum.ltb (Num 0) (JsNum.sub x x) = false.
Proof.
  destruct x as [q| | |]; try reflexivity.
  rewrite sub_self. reflexivity.
Qed.

Lemma compareMonthKey_self (a : string) :
  JsNum.ltb (Num 0) (compareMonthKey a a) = false.
Proof.
  unfold compareMonthKey. cbv zeta.
  destruct (strictNe _ _); apply sub_self_not_positive.
Qed.

(** X6. The effect that orders the selection leaves a start month that
    does not follow the end month: once both months are set, the
    comparison of the new start month with the end month is not
    positive, and the new start month is the old one or the end month. *)
Theorem orderMonths_not_after (s e : string) :
  Str.isEmpty s = false -> Str.isEmpty e = false ->
  exists s',
    orderMonths (Some s) (Some e) = Some s'
    /\ (s' = s \/ s' = e)
    /\ JsNum.ltb (Num 0) (compareMonthKey s' e) = false.
Proof.
  intros Hs He. unfold orderMonths. rewrite Hs, He. cbn [orb].
  destruct (JsNum.ltb (Num 0) (compareMonthKey s e)) eqn:E.
  - exists e. split; [reflexivity|]. split; [right; reflexivity|].
    apply compareMonthKey_self.
  - exists s. split; [reflexivity|]. split; [left; reflexivity | exact E].
Qed.

Lemma orderMonths_not_after_witness :
  exists s',
    orderMonths (Some "05/2024") (Some "02/2024") = Some s'
    /\ (s' = "05/2024" \/ s' = "02/2024")
    /\ JsNum.ltb (Num 0) (compareMonthKey s' "02/2024") = false.
Proof. apply (orderMonths_not_after "05/2024" "02/2024"); reflexivity. Defined.

Lemma lookup_selected (monthOptions : list string) (i : nat) (x : string) :
  monthOptions !! i = Some x -> selectedFrom monthOptions (Some x).
Proof.
  intros H. exists x. split; [reflexivity|].
  apply list_elem_of_In. eapply list_elem_of_lookup_2, H.
Qed.

Lemma orElse_selected (monthOptions : list string) (a b : option string) :
  (truthy a = true -> selectedFrom monthOptions a) ->
  selectedFrom monthOptions b -> selectedFrom monthOptions (orElse a b).
Proof. intros Ha Hb. unfold orElse. destruct (truthy a); auto. Qed.

Lemma keepOrDefault_selected (monthOptions : list string) (fallback prev : option string) :
  monthOptions <> [] ->
  selectedFrom monthOptions fallback ->
  selectedFrom monthOptions (keepOrDefault monthOptions fallback prev).
Proof.
  intros Hne Hf. unfold keepOrDefault.
  destruct prev as [p|]; [|exact Hf].
  destruct (Str.isEmpty p); [exact Hf|].
  eexists. split; [reflexivity|]. apply clampMonthKeyToOptions_In, Hne.
Qed.

Lemma defaultStartMonth_selected (monthOptions : list string) :
  truthy (defaultStartMonth monthOptions) = true ->
  selectedFrom monthOptions (defaultStartMonth monthOptions).
Proof.
  unfold defaultStartMonth, latestMonth.
  destruct monthOptions as [|o rest] eqn:E; [discriminate|]. rewrite <- E.
  replace (length monthOptions =? 0)%nat with false by (subst; reflexivity).
  destruct (monthOptions !! _) as [l|]; [|discriminate].
  destruct (Str.isEmpty l); [discriminate|]. intros _.
  eexists. split; [reflexivity|]. apply clampMonthKeyToOptions_In. congruence.
Qed.

(** X7. The selected months never leave the options.  With at least one
    month option, the effect that follows a change of the options leaves
    a start and an end month that are both options; a month picker then
    either keeps the selection or replaces it by an option; and the
    ordering effect keeps a start month that is an option. *)
Theorem month_selection_in_options
    (monthOptions : list string) (s e : option string) (v : string) :
  monthOptions <> [] ->
  (selectedFrom monthOptions (fst (syncMonths monthOptions s e))
   /\ selectedFrom monthOptions (snd (syncMonths monthOptions s e)))
  /\ (selectedFrom monthOptions s ->
      selectedFrom monthOptions (pickMonth monthOptions s v))
  /\ (selectedFrom monthOptions s -> selectedFrom monthOptions e ->
      selectedFrom monthOptions (orderMonths s e)).
Proof.
  intros Hne. split; [|split].
  - unfold syncMonths.
    destruct monthOptions as [|o rest] eqn:E; [congruence|]. rewrite <- E in *.
    replace (length monthOptions =? 0)%nat with false by (subst; reflexivity).
    assert (H0 : selectedFrom monthOptions (monthOptions !! 0%nat))
      by (subst; apply (lookup_selected _ 0%nat); reflexivity).
    assert (Hi : forall i, (i < length monthOptions)%nat ->
                           selectedFrom monthOptions (monthOptions !! i)).
    { intros i Hi. destruct (lookup_lt_is_Some_2 monthOptions i Hi) as [x Hx].
      rewrite Hx. apply (lookup_selected _ i), Hx. }
    assert (Hl : (0 < length monthOptions)%nat) by (subst; cbn; lia).
    cbn [fst snd]. split; apply keepOrDefault_selected; try exact Hne.
    + apply orElse_selected; [|exact H0]. intros _.
      apply orElse_selected; [apply defaultStartMonth_selected|].
      apply Hi. lia.
    + apply orElse_selected; [|apply Hi; lia]. intros _.
      unfold latestMonth.
      replace (length monthOptions =? 0)%nat with false by (subst; reflexivity).
      apply Hi. lia.
  - intros Hs. unfold pickMonth.
    destruct (Str.isEmpty (inputValueToMonthKey v)); [exact Hs|].
    eexists. split; [reflexivity|]. apply clampMonthKeyToOptions_In, Hne.
  - intros Hs He. unfold orderMonths.
    destruct s as [s|]; [|exact Hs]. destruct e as [e|]; [|exact Hs].
    destruct (Str.isEmpty s || Str.isEmpty e); [exact Hs|].
    destruct (JsNum.ltb _ _); assumption.
Qed.

Lemma month_selection_in_options_witness :
  (selectedFrom ["01/2024"; "03/2024"]
     (fst (syncMonths ["01/2024"; "03/2024"] (Some "") (Some "12/2030")))
   /\ selectedFrom ["01/2024"; "03/2024"]
        (snd (syncMonths ["01/2024"; "03/2024"] (Some "") (Some "12/2030"))))
  /\ (selectedFrom ["01/2024"; "03/2024"] (Some "") ->
      selectedFrom ["01/2024"; "03/2024"]
        (pickMonth ["01/2024"; "03/2024"] (Some "") "2024-02"))
  /\ (selectedFrom ["01/2024"; "03/2024"] (Some "") ->
      selectedFrom ["01/2024"; "03/2024"] (Some "12/2030") ->
      selectedFrom ["01/2024"; "03/2024"] (orderMonths (Some "") (Some "12/2030"))).
Proof.
  apply (month_selection_in_options ["01/2024"; "03/2024"] (Some "") (Some "12/2030") "2024-02").
  discriminate.
Defined.

(** X8. The default start month is the month twelve months before the
    latest one when that month is an option: for a latest month [MM/YYYY]
    with a month from 01 to 12 and a year from 1001, and an option that
    lies twelve months earlier, [defaultStartMonth] is that option. *)
Theorem defaultStartMonth_year_before (monthOptions : list string) (l k : string) :
  latestMonth monthOptions = Some l ->
  calendarMonth l -> (12012 <= monthIndex l)%Z ->
  In k monthOptions -> calendarMonth k ->
  monthIndex k = (monthIndex l - 12)%Z ->
  defaultStartMonth monthOptions = Some k.
Proof.
  intros Hl Cl Yl Hk Ck Ek. unfold defaultStartMonth. rewrite Hl.
  destruct Cl as [Kl Bl].
  assert (Str.isEmpty l = false) as ->.
  { destruct Kl as (mm & yyyy & -> & Hm & _). apply (digits_nonempty 1 mm _ Hm). }
  f_equal.
  destruct (minusMonths_calendar l 12 (conj Kl Bl) ltac:(lia) ltac:(lia)) as [[K' B'] E'].
  assert (minusMonths l 12 = k) as ->.
  { destruct Ck as [Kk Bk]. apply calendarMonth_unique; try assumption. lia. }
  apply clampMonthKeyToOptions_fixed, Hk.
Qed.

Lemma defaultStartMonth_year_before_witness :
  defaultStartMonth ["03/2023"; "09/2023"; "03/2024"] = Some "03/2023".
Proof.
  apply (defaultStartMonth_year_before ["03/2023"; "09/2023"; "03/2024"] "03/2024" "03/2023").
  - reflexivity.
  - exact calendarMonth_03_2024.
  - vm_compute. discriminate.
  - left. reflexivity.
  - split; [exists "03", "2023"; repeat split | vm_compute; split; discriminate].
  - reflexivity.
Defined.

(** ** The stored daily map *)

Lemma csvParseDaily_finite (ov : dayOverflow) (text : string) (r : dailyRecord) :
  In r (fst (csvParseDaily ov text)) -> JsNum.isFinite (value r) = true.
Proof.
  rewrite csvParseDaily_spec. cbn [fst]. intros H.
  apply list_elem_of_In, list_elem_of_omap in H as (row & _ & Hr).
  unfold rowRecord in Hr.
  destruct row as [|dRaw [|vRaw rest]]; try discriminate.
  destruct (parseInputDate ov dRaw); [|discriminate].
  cbv zeta in Hr.
  destruct (JsNum.isFinite _) eqn:F; [|discriminate].
  injection Hr as <-. exact F.
Qed.

Lemma mergeRecords_finite (m : gmap string number) (incoming : list dailyRecord) :
  finiteMap m ->
  (forall r, In r incoming -> JsNum.isFinite (value r) = true) ->
  finiteMap (mergeRecords m incoming).
Proof.
  revert m. induction incoming as [|r l IH]; intros m Hm Hl; [exact Hm|].
  cbn [mergeRecords foldl]. apply IH.
  - apply map_Forall_insert_2; [apply Hl; left; reflexivity | exact Hm].
  - intros r' Hr'. apply Hl. right. exact Hr'.
Qed.

Lemma loadDaily_finite {V : Type} (toNumber : V -> number) (ov : dayOverflow)
    (entries : list (string * V)) :
  finiteMap (loadDaily toNumber ov entries).
Proof.
  unfold loadDaily.
  assert (G : forall m, finiteMap m ->
    finiteMap (foldl
      (fun (m : gmap string number) '(k, v) =>
         let d := parseISOKey ov k in
         let n := toNumber v in
         if negb (noDate d) && JsNum.isFinite n then <[default "" d := n]> m else m)
      m entries)).
  { induction entries as [|[k v] l IH]; intros m Hm; [exact Hm|].
    cbn [foldl]. apply IH. cbv zeta.
    destruct (negb _); [|exact Hm]. cbn [andb].
    destruct (JsNum.isFinite (toNumber v)) eqn:F; [|exact Hm].
    apply map_Forall_insert_2; assumption. }
  apply G, map_Forall_empty.
Qed.

(** X9. The daily map only ever holds finite numbers.  The map read
    from local storage holds finite numbers, whatever was stored; and a
    manual entry, a CSV import, the removal of a day and the clearing of
    the data all turn a map of finite numbers into a map of finite
    numbers. *)
Theorem daily_map_stays_finite {V : Type} (toNumber : V -> number)
    (ov : dayOverflow) (entries : list (string * V))
    (prev : gmap string number) (dateText valueText csvText isoDate : string)
    (confirmed : bool) :
  finiteMap prev ->
  finiteMap (loadDaily toNumber ov entries)
  /\ finiteMap (fst (upsertDaily ov dateText valueText prev))
  /\ finiteMap (fst (importDailyCSV ov prev csvText))
  /\ finiteMap (removeDaily isoDate prev)
  /\ finiteMap (clearDaily confirmed prev).
Proof.
  intros Hp. split; [apply loadDaily_finite|]. split; [|split; [|split]].
  - unfold upsertDaily.
    destruct (noDate _); [exact Hp|]. cbv zeta.
    destruct (JsNum.isFinite _) eqn:F; [|exact Hp].
    cbn [negb fst]. apply map_Forall_insert_2; assumption.
  - unfold importDailyCSV.
    pose proof (csvParseDaily_finite ov csvText) as Hf.
    destruct (csvParseDaily ov csvText) as [parsed errors]. cbn [fst] in Hf.
    cbv zeta. destruct (length parsed =? 0)%nat; [exact Hp|].
    cbn [fst]. apply mergeRecords_finite; assumption.
  - apply map_Forall_delete, Hp.
  - unfold clearDaily. destruct (negb confirmed); [exact Hp | apply map_Forall_empty].
Qed.

Lemma daily_map_stays_finite_witness :
  finiteMap (loadDaily ToNumber RollOver [("2024-01-01", VStr "x"); ("2024-01-02", VNum (Num 5))])
  /\ finiteMap (fst (upsertDaily RollOver "01-02-2024" "1,234.5" ∅))
  /\ finiteMap (fst (importDailyCSV RollOver ∅ "01/02/2024,7"))
  /\ finiteMap (removeDaily "2024-02-01" ∅)
  /\ finiteMap (clearDaily true ∅).
Proof.
  apply (daily_map_stays_finite ToNumber RollOver
           [("2024-01-01", VStr "x"); ("2024-01-02", VNum (Num 5))]
           ∅ "01-02-2024" "1,234.5" "01/02/2024,7" "2024-02-01" true).
  apply map_Forall_empty.
Defined.

Example upsert_saves :
  upsertDaily RollOver "01-02-2024" "1,234.5" ∅ = ({["2024-02-01" := Num (2469 # 2)]}, []).
Proof. vm_compute. reflexivity. Qed.

Example upsert_bad_date :
  upsertDaily RollOver "31-02-2024" "5" ∅
  = (∅, ["Please enter a valid date (DD-MM-YYYY or DD/MM/YYYY)."]).
Proof. vm_compute. reflexivity. Qed.

Example upsert_bad_value :
  upsertDaily RollOver "01-02-2024" "12abc" ∅ = (∅, ["Please enter a valid number."]).
Proof. vm_compute. reflexivity. Qed.

(** An empty value field is read as zero. *)
Example upsert_empty_value :
  upsertDaily RollOver "01-02-2024" "" ∅ = ({["2024-02-01" := Num 0]}, []).
Proof. vm_compute. reflexivity. Qed.

Lemma div_not_NaN (n : number) (q : Q) :
  n <> NaN -> ~ (q == 0)%Q -> JsNum.div n (Num q) <> NaN.
Proof.
  intros Hn Hq. destruct n as [x| | |]; [|congruence| |]; cbn [JsNum.div].
  - destruct (JsNum.Qsign q) eqn:E; [|apply round64_not_NaN|apply round64_not_NaN].
    apply Qsign_Eq in E. contradiction.
  - destruct (JsNum.Qsign q); discriminate.
  - destruct (JsNum.Qsign q); discriminate.
Qed.

Lemma mul_not_NaN (n : number) (q : Q) :
  n <> NaN -> ~ (q == 0)%Q -> JsNum.mul n (Num q) <> NaN.
Proof.
  intros Hn Hq. destruct n as [x| | |]; [|congruence| |]; cbn [JsNum.mul].
  - apply round64_not_NaN.
  - unfold JsNum.scaleInf. destruct (JsNum.Qsign q) eqn:E; try discriminate.
    apply Qsign_Eq in E. contradiction.
  - unfold JsNum.scaleInf. destruct (JsNum.Qsign q) eqn:E; try discriminate.
    apply Qsign_Eq in E. contradiction.
Qed.

Lemma growthPct_not_NaN (c q : Q) (y : number) :
  growthPct (Num c) (Num q) = Some y -> y <> NaN.
Proof.
  intros H. destruct (JsNum.eqb (Num q) (Num 0)) eqn:E.
  - rewrite growthPct_zero in H by exact E. discriminate.
  - assert (Hq : ~ (q == 0)%Q).
    { intros Hq. apply eqb_Num in Hq. congruence. }
    rewrite growthPct_nonzero in H by exact E. injection H as <-.
    apply mul_not_NaN; [|discriminate].
    apply div_not_NaN; [|exact Hq].
    cbn [JsNum.sub]. apply round64_not_NaN.
Qed.

(** X10. A point of the daily chart built from a map of finite numbers
    never carries NaN: its value and its previous-year value are finite,
    its label is the formatted date, and its year-over-year percentage
    is absent exactly when the previous-year value is absent or zero and
    is a number other than NaN when present. *)
Theorem chart_point_never_NaN (dailyLookup : gmap string number) (cur : string)
    (p : chartPoint) :
  finiteMap dailyLookup ->
  chartPointAt dailyLookup cur = Some p ->
  label p = formatDDMMYYYY cur
  /\ JsNum.isFinite (units p) = true
  /\ (forall v, prev_year_units p = Some v -> JsNum.isFinite v = true)
  /\ (yoy_pct p = None <->
      prev_year_units p = None
      \/ exists v, prev_year_units p = Some v /\ JsNum.eqb v (Num 0) = true)
  /\ (forall y, yoy_pct p = Some y -> y <> NaN).
Proof.
  intros Hm H. unfold chartPointAt in H.
  destruct (dailyLookup !! cur) as [v|] eqn:Ev; [|discriminate].
  injection H as <-. cbn [label units prev_year_units yoy_pct].
  pose proof (Hm _ _ Ev) as Fv. cbn beta in Fv.
  apply isFinite_Num in Fv as [c ->].
  split; [reflexivity|]. split; [reflexivity|].
  destruct (dailyLookup !! prevYearKey cur) as [w|] eqn:Ew.
  - pose proof (Hm _ _ Ew) as Fw. cbn beta in Fw.
    apply isFinite_Num in Fw as [q ->].
    split; [intros ? [= <-]; reflexivity|]. split.
    + destruct (JsNum.eqb (Num q) (Num 0)) eqn:E.
      * rewrite growthPct_zero by exact E. split; [|reflexivity].
        intros _. right. exists (Num q). split; [reflexivity | exact E].
      * rewrite growthPct_nonzero by exact E. split; [discriminate|].
        intros [?|(v & [= <-] & Hv)]; congruence.
    + intros y Hy. eapply growthPct_not_NaN, Hy.
  - split; [discriminate|]. split; [|discriminate].
    split; [left|]; reflexivity.
Qed.

Lemma chart_point_never_NaN_witness :
  let m : gmap string number :=
    <["2024-03-01" := Num 110]> {["2023-03-01" := Num 100]} in
  let p := {| label := "01-03-2024"; units := Num 110;
              prev_year_units := Some (Num 100); yoy_pct := Some (Num 10) |} in
  label p = formatDDMMYYYY "2024-03-01"
  /\ JsNum.isFinite (units p) = true
  /\ (forall v, prev_year_units p = Some v -> JsNum.isFinite v = true)
  /\ (yoy_pct p = None <->
      prev_year_units p = None
      \/ exists v, prev_year_units p = Some v /\ JsNum.eqb v (Num 0) = true)
  /\ (forall y, yoy_pct p = Some y -> y <> NaN).
Proof.
  intros m p. apply (chart_point_never_NaN m "2024-03-01" p).
  - unfold m. apply map_Forall_insert_2; [reflexivity|].
    apply map_Forall_insert_2; [reflexivity | apply map_Forall_empty].
  - vm_compute. reflexivity.
Defined.

(** X11. A manual entry touches one day at most.  When [upsertDaily]
    reports an error the map is unchanged; when it reports none, the
    date text was accepted and the map holds a finite number under the
    parsed date; in both cases every other key keeps what it had. *)
Theorem upsertDaily_frame (ov : dayOverflow) (dateText valueText : string)
    (prev : gmap string number) (k : string) :
  parseInputDate ov dateText <> Some k ->
  fst (upsertDaily ov dateText valueText prev) !! k = prev !! k
  /\ (snd (upsertDaily ov dateText valueText prev) <> [] ->
      fst (upsertDaily ov dateText valueText prev) = prev)
  /\ (snd (upsertDaily ov dateText valueText prev) = [] ->
      exists iso n,
        parseInputDate ov dateText = Some iso
        /\ fst (upsertDaily ov dateText valueText prev) !! iso = Some n
        /\ JsNum.isFinite n = true).
Proof.
  intros Hk. unfold upsertDaily.
  destruct (parseInputDate ov dateText) as [iso|] eqn:Ed; cbn [noDate].
  2:{ cbn [fst snd]. split; [reflexivity|]. split; [reflexivity | discriminate]. }
  assert (Str.isEmpty iso = false) as ->.
  { destruct iso; [|reflexivity].
    exfalso. eapply parseInputDate_nonempty; [exact Ed | reflexivity]. }
  cbv zeta. change (default "" (Some iso)) with iso.
  destruct (JsNum.isFinite _) eqn:F; cbn [negb fst snd].
  - split; [apply lookup_insert_ne; intros E; apply Hk; rewrite E; reflexivity|].
    split; [intros N; exfalso; apply N; reflexivity|]. intros _. eexists iso, _.
    split; [reflexivity|]. split; [apply lookup_insert_eq | exact F].
  - split; [reflexivity|]. split; [reflexivity | discriminate].
Qed.

Lemma upsertDaily_frame_witness :
  let prev : gmap string number := {["2024-01-01" := Num 1]} in
  fst (upsertDaily RollOver "01-02-2024" "5" prev) !! "2024-01-01" = prev !! "2024-01-01"
  /\ (snd (upsertDaily RollOver "01-02-2024" "5" prev) <> [] ->
      fst (upsertDaily RollOver "01-02-2024" "5" prev) = prev)
  /\ (snd (upsertDaily RollOver "01-02-2024" "5" prev) = [] ->
      exists iso n,
        parseInputDate RollOver "01-02-2024" = Some iso
        /\ fst (upsertDaily RollOver "01-02-2024" "5" prev) !! iso = Some n
        /\ JsNum.isFinite n = true).
Proof.
  intros prev. apply (upsertDaily_frame RollOver "01-02-2024" "5" prev "2024-01-01").
  vm_compute. discriminate.
Defined.

Lemma importDailyFile_readable (ov : dayOverflow) (prev : gmap string number)
    (text : string) :
  let out := importDailyFile ov prev (Readable text) in
  (length (dailyErrors out) <= 12)%nat
  /\ (forall e, In e (dailyErrors out) ->
        e = "No valid rows found in CSV." \/ In e (snd (csvParseDaily ov text)))
  /\ (fst (csvParseDaily ov text) = [] ->
        dailyMapAfter out = prev /\ dailyErrors out <> [] /\ dailyMsg out = None)
  /\ (fst (csvParseDaily ov text) <> [] ->
        dailyMapAfter out = mergeRecords prev (fst (csvParseDaily ov text))
        /\ dailyErrors out = take 12 (snd (csvParseDaily ov text))
        /\ dailyMsg out
           = Some (importedMessage (length (fst (csvParseDaily ov text)))
                                   (length (snd (csvParseDaily ov text))))).
Proof.
  unfold importDailyFile, importDailyCSV.
  destruct (csvParseDaily ov text) as [parsed errors]. cbv zeta.
  cbn [fst snd dailyMapAfter dailyErrors dailyMsg].
  assert (L : (length (take 12 errors) <= 12)%nat) by (rewrite length_take; lia).
  assert (I : forall e, In e (take 12 errors) -> In e errors).
  { intros e He. apply list_elem_of_In. apply list_elem_of_In in He.
    eapply (subseteq_take 12 errors), He. }
  destruct parsed as [|r parsed]; cbn [length Nat.eqb fst snd].
  - destruct (length (take 12 errors) =? 0)%nat eqn:Es.
    + split; [cbn; lia|]. split; [intros e [<-|[]]; left; reflexivity|].
      split; [|congruence]. intros _. split; [reflexivity|]. split; [discriminate|reflexivity].
    + split; [exact L|]. split; [intros e He; right; apply I, He|].
      split; [|congruence]. intros _. split; [reflexivity|]. split; [|reflexivity].
      intros E. rewrite E in Es. discriminate.
  - split; [exact L|]. split; [intros e He; right; apply I, He|].
    split; [discriminate|]. intros _. split; [reflexivity|]. split; reflexivity.
Qed.

(** X12. A CSV import is never silent about a failure and never floods
    the error list.  It shows twelve errors at most, each of them an
    error of [csvParseDaily], the notice that no valid row was found, or
    the notice that the file could not be read.  Without a file the map
    stays as it was and nothing is shown.  When the file cannot be read,
    or when no row was parsed from its text, the map stays as it was, at
    least one error is shown and no success message.  When rows were
    parsed they are merged into the map and the success message is
    shown. *)
Theorem importDailyCSV_reports (ov : dayOverflow) (prev : gmap string number)
    (file : csvFile) :
  let out := importDailyFile ov prev file in
  (length (dailyErrors out) <= 12)%nat
  /\ (forall e, In e (dailyErrors out) ->
        (file = Unreadable /\ e = "Could not read CSV.")
        \/ exists text, file = Readable text
                        /\ (e = "No valid rows found in CSV."
                            \/ In e (snd (csvParseDaily ov text))))
  /\ (file = NoFile ->
        dailyMapAfter out = prev /\ dailyErrors out = [] /\ dailyMsg out = None)
  /\ (file = Unreadable ->
        dailyMapAfter out = prev /\ dailyErrors out = ["Could not read CSV."]
        /\ dailyMsg out = None)
  /\ (forall text, file = Readable text -> fst (csvParseDaily ov text) = [] ->
        dailyMapAfter out = prev /\ dailyErrors out <> [] /\ dailyMsg out = None)
  /\ (forall text, file = Readable text -> fst (csvParseDaily ov text) <> [] ->
        dailyMapAfter out = mergeRecords prev (fst (csvParseDaily ov text))
        /\ dailyErrors out = take 12 (snd (csvParseDaily ov text))
        /\ dailyMsg out
           = Some (importedMessage (length (fst (csvParseDaily ov text)))
                                   (length (snd (csvParseDaily ov text))))).
Proof.
  intros out. subst out. destruct file as [| |text].
  - cbn. split; [lia|]. split; [intros e []|]. split; [auto|].
    split; [discriminate|]. split; intros ? [=].
  - cbn. split; [lia|]. split; [intros e [<-|[]]; left; auto|].
    split; [discriminate|]. split; [auto|]. split; intros ? [=].
  - destruct (importDailyFile_readable ov prev text) as (L & I & E0 & E1).
    split; [exact L|]. split; [intros e He; right; exists text; auto|].
    split; [discriminate|]. split; [discriminate|].
    split; intros text' [= <-]; assumption.
Qed.

Lemma importDailyCSV_reports_witness :
  let out := importDailyFile RollOver ∅ (Readable sampleText) in
  dailyMapAfter out = {["2025-12-18" := Num (6543 # 25)]}
  /\ dailyErrors out
     = ["Row 2: invalid date 'bad' (expected DD/MM/YYYY)";
        "Row 3: invalid date '20/13/2025' (expected DD/MM/YYYY)"]
  /\ dailyMsg out = Some "Imported 1 rows (with 2 issues).".
Proof.
  intros out.
  destruct (importDailyCSV_reports RollOver ∅ (Readable sampleText))
    as (_ & _ & _ & _ & _ & H).
  destruct (H _ eq_refl) as (Hm & He & Hs); [vm_compute; discriminate|].
  subst out. rewrite Hm, He, Hs. vm_compute. repeat split; reflexivity.
Defined.

Example import_unreadable :
  importDailyFile RollOver {["2025-12-18" := Num 1]} Unreadable
  = {| dailyMapAfter := {["2025-12-18" := Num 1]};
       dailyErrors := ["Could not read CSV."];
       dailyMsg := None |}.
Proof. reflexivity. Qed.

Example import_blank_text :
  importDailyCSV RollOver ∅ "" = (∅, ["No valid rows found in CSV."]).
Proof. vm_compute. reflexivity. Qed.

(** ** Day arithmetic on date keys *)

Example format_two_digit_year : formatDDMMYY "2024-03-01" = "01/03/24".
Proof. vm_compute. reflexivity. Qed.

Lemma matchDMY_other_sep (s1 s2 : ascii) (t dd mm yyyy : string) :
  s1 <> s2 -> shapeDMY s2 t dd mm yyyy -> matchDMY s1 t = None.
Proof.
  intros Hne H. destruct (matchDMY s1 t) as [[[a b] c]|] eqn:E; [|reflexivity].
  apply matchDMY_iff in E. exfalso. apply Hne.
  apply (shapeDMY_sep s1 s2 t a b c dd mm yyyy); assumption.
Qed.

(** A date written day first, with either separator, is read as the key
    of that date when it is a real calendar date from the year 1000 on. *)
Lemma dayFirst_text_reads_back (ov : dayOverflow) (sep : ascii) (yyyy mm dd : string) :
  sep = "/"%char \/ sep = "-"%char ->
  digits 4 yyyy -> digits 2 mm -> digits 2 dd ->
  realDate (Conv.digitsValue 0 yyyy) (Conv.digitsValue 0 mm) (Conv.digitsValue 0 dd) ->
  (1000 <= Conv.digitsValue 0 yyyy)%Z ->
  parseInputDate ov (dd +:+ String sep (mm +:+ String sep yyyy))
  = Some (yyyy +:+ String "-" (mm +:+ String "-" dd)).
Proof.
  intros Hsep [Hdy Ly] [Hdm Lm] [Hdd Ld] Hreal Hy.
  set (t := dd +:+ String sep (mm +:+ String sep yyyy)).
  assert (Hnd : Str.isDigit sep = false) by (destruct Hsep as [-> | ->]; reflexivity).
  assert (Hshape : shapeDMY sep t dd mm yyyy) by (repeat split; assumption).
  assert (Etrim : Str.trim t = t).
  { unfold Str.trim, t.
    destruct dd as [|c dd']; [discriminate Ld|].
    cbn [Str.allDigits] in Hdd. apply Bool.andb_true_iff in Hdd as [Hc _].
    rewrite app_cons. cbn [Str.trimStart]. rewrite (digit_not_space c Hc).
    rewrite <- app_cons.
    replace (String c dd' +:+ String sep (mm +:+ String sep yyyy))
      with ((String c dd' +:+ String sep (mm +:+ String sep "")) +:+ yyyy).
    - apply trimEnd_app_kept; [apply trimEnd_digits; exact Hdy|].
      intros ->; discriminate Ly.
    - rewrite !app_assoc_str, !app_cons, app_assoc_str, app_cons, app_nil_l. reflexivity. }
  assert (Em : matchDMY sep t = Some (dd, mm, yyyy)) by (apply matchDMY_iff; exact Hshape).
  assert (Epar : parseInputDate ov t = parseDayFirst sep t).
  { unfold parseInputDate. rewrite Etrim. destruct Hsep as [-> | ->].
    - rewrite Em. reflexivity.
    - rewrite (matchDMY_other_sep "/" "-" t dd mm yyyy) by (discriminate || assumption).
      rewrite Em. reflexivity. }
  rewrite Epar.
  unfold parseDayFirst. rewrite (dayFirst_parts sep t dd mm yyyy Hnd Hshape).
  set (vd := Conv.digitsValue 0 dd) in *. set (vm := Conv.digitsValue 0 mm) in *.
  set (vy := Conv.digitsValue 0 yyyy) in *.
  pose proof (digitsValue_bounds yyyy 0 Hdy ltac:(lia)) as By. rewrite Ly in By.
  change (10 ^ Z.of_nat 4)%Z with 10000%Z in By. fold vy in By.
  rewrite sub_one by (apply digits2_pred; apply Hshape).
  unfold JsDate.UTC. rewrite !truncate_inject.
  replace ((0 <=? vy) && (vy <=? 99))%Z with false
    by (symmetry; apply Bool.andb_false_iff; right; apply Z.leb_gt; lia).
  rewrite TimeClip_in_range by (lia || exact Hreal).
  destruct (encoded_date_decodes vy vm vd Hreal) as (E1 & E2 & E3).
  cbn [isSome negb JsDate.getUTCFullYear JsDate.getUTCMonth JsDate.getUTCDate].
  rewrite E1, E2, E3. unfold JsNum.ofZ.
  assert (Hrefl : forall z, JsNum.eqb (Num (inject_Z z)) (Num (inject_Z z)) = true).
  { intros z. apply eqb_Num. reflexivity. }
  rewrite !Hrefl. cbn [negb orb].
  rewrite numberToString_small by lia.
  unfold vy. rewrite showZ_year by (first [split; assumption | exact Hy]).
  unfold vm, vd. rewrite !pad2_number by (split; assumption).
  rewrite !app_cons, !app_nil_l. reflexivity.
Qed.

Lemma formatDDMMYYYY_shape (k yyyy mm dd : string) :
  shapeISO k yyyy mm dd ->
  formatDDMMYYYY k = dd +:+ String "-" (mm +:+ String "-" yyyy).
Proof.
  intros Hk. pose proof Hk as (Ek & [Hdy Ly] & [Hdm Lm] & [Hdd Ld]).
  unfold formatDDMMYYYY.
  assert (Em : matchISO k = Some (yyyy, mm, dd)) by (apply matchISO_iff; exact Hk).
  rewrite Em. cbn [isSome negb].
  assert (Ene : Str.isEmpty k = false).
  { rewrite Ek. destruct yyyy; [discriminate Ly | reflexivity]. }
  rewrite Ene. cbn [orb]. rewrite Ek.
  rewrite split_digits_sep by (reflexivity || assumption).
  rewrite split_digits_sep by (reflexivity || assumption).
  rewrite split_digits by (reflexivity || assumption).
  cbn [map]. rewrite !app_cons, !app_nil_l. reflexivity.
Qed.

(** X13. A date shown by [formatDDMMYYYY] can be typed back: for the
    key of a real calendar date from the year 1000 on, [parseInputDate]
    reads the displayed text [DD-MM-YYYY] as that key again. *)
Theorem displayed_date_reads_back (ov : dayOverflow) (k : string) (y m d : Z) :
  isoDate k y m d -> (1000 <= y)%Z ->
  parseInputDate ov (formatDDMMYYYY k) = Some k.
Proof.
  intros (yyyy & mm & dd & Hk & <- & <- & <- & Hreal) Hy.
  rewrite (formatDDMMYYYY_shape _ _ _ _ Hk).
  destruct Hk as (-> & Dy & Dm & Dd).
  apply dayFirst_text_reads_back; auto.
Qed.

Lemma isoDate_2024_02_29 : isoDate "2024-02-29" 2024 2 29.
Proof.
  exists "2024", "02", "29". repeat split; vm_compute; discriminate.
Qed.

Lemma displayed_date_reads_back_witness :
  parseInputDate Reject (formatDDMMYYYY "2024-02-29") = Some "2024-02-29".
Proof.
  apply (displayed_date_reads_back Reject "2024-02-29" 2024 2 29).
  - exact isoDate_2024_02_29.
  - lia.
Defined.

Lemma fourPadded_range : forallb fourPadded (seqZ 0 10000) = true.
Proof. vm_compute. reflexivity. Qed.

Lemma pad4_year (z : Z) :
  (0 <= z <= 9999)%Z ->
  digits 4 (JsDate.pad 4 z) /\ Conv.digitsValue 0 (JsDate.pad 4 z) = z.
Proof.
  intros Hz. pose proof fourPadded_range as H. rewrite forallb_forall in H.
  specialize (H z). unfold fourPadded in H.
  rewrite !Bool.andb_true_iff, Nat.eqb_eq, Z.eqb_eq in H.
  unfold digits. apply H.
  apply list_elem_of_In. apply elem_of_seqZ. lia.
Qed.

Lemma pad2_field (z : Z) :
  (0 <= z <= 99)%Z ->
  digits 2 (JsDate.pad 2 z) /\ Conv.digitsValue 0 (JsDate.pad 2 z) = z.
Proof.
  intros Hz. destruct (pad2_small z Hz) as (_ & D & E).
  unfold JsDate.pad. unfold Conv.showZ in D, E.
  replace (z <? 0)%Z with false in * by (symmetry; apply Z.ltb_ge; lia).
  split; assumption.
Qed.

Lemma daysInMonth_le_31 (y m : Z) : (daysInMonth y m <= 31)%Z.
Proof.
  unfold daysInMonth. destruct (leapYear y);
    (destruct m as [|p|p]; [lia| |lia]);
    do 5 (try (destruct p as [p|p|]; try lia)).
Qed.

(** The time value of the key of a real calendar date. *)
Lemma parseDateTime_isoDate (ov : dayOverflow) (k : string) (y m d : Z) :
  isoDate k y m d ->
  JsDate.parseDateTime ov (k +:+ "T00:00:00Z")
  = Some (JsDate.MakeDay y (m - 1) d * JsDate.msPerDay)%Z
  /\ (0 <= y <= 9999)%Z.
Proof.
  intros (yyyy & mm & dd & Hk & <- & <- & <- & Hreal).
  rewrite (parseDateTime_shape ov _ _ _ _ Hk). cbv zeta.
  destruct Hk as (_ & [Hy Ly] & _).
  pose proof (digitsValue_bounds yyyy 0 Hy ltac:(lia)) as By. rewrite Ly in By.
  change (10 ^ Z.of_nat 4)%Z with 10000%Z in By.
  set (vy := Conv.digitsValue 0 yyyy) in *.
  set (vm := Conv.digitsValue 0 mm) in *.
  set (vd := Conv.digitsValue 0 dd) in *.
  pose proof Hreal as [Bm Bd].
  pose proof (daysInMonth_le_31 vy vm) as Hdim.
  rewrite (makeDay_month_length vy vm Bm).
  replace ((1 <=? vm) && (vm <=? 12) && (1 <=? vd) && (vd <=? 31))%Z with true
    by (symmetry; rewrite !Bool.andb_true_iff, !Z.leb_le; lia).
  replace (vd <=? daysInMonth vy vm)%Z with true by (symmetry; apply Z.leb_le; lia).
  rewrite TimeClip_in_range by (lia || exact Hreal).
  split; [destruct ov; reflexivity | lia].
Qed.

(** Decoding a time value and encoding it again gives back its day. *)
Lemma MakeDay_decoded (t n : Z) :
  JsDate.MakeDay (JsDate.YearFromTime t) (JsDate.MonthFromTime t)
                 (JsDate.DateFromTime t + n)
  = (JsDate.Day t + n)%Z.
Proof.
  pose proof (decoded_date_real t) as [Bm _].
  unfold JsDate.MakeDay. cbv zeta.
  rewrite (Z.div_small (JsDate.MonthFromTime t) 12) by lia.
  rewrite (Z.mod_small (JsDate.MonthFromTime t) 12) by lia.
  rewrite Z.add_0_r. unfold JsDate.DateFromTime, JsDate.DayWithinYear. lia.
Qed.

Lemma year_of_day_range (x : Z) :
  (JsDate.DayFromYear 0 <= x < JsDate.DayFromYear 10000)%Z ->
  (0 <= JsDate.YearFromDay x <= 9999)%Z.
Proof.
  intros Hx. pose proof (YearFromDay_spec x) as Hs.
  set (Y := JsDate.YearFromDay x) in *.
  split.
  - destruct (Z_lt_le_dec Y 0) as [Hlt|]; [|assumption].
    pose proof (DayFromYear_mono (Y + 1) 0 ltac:(lia)). lia.
  - destruct (Z_lt_le_dec 9999 Y) as [Hlt|]; [|assumption].
    pose proof (DayFromYear_mono 10000 Y ltac:(lia)). lia.
Qed.

(** The first ten characters of [toISOString] at midnight of a day in
    the years 0 to 9999 are the key of that day. *)
Lemma toISOString_key (x : Z) :
  (JsDate.DayFromYear 0 <= x < JsDate.DayFromYear 10000)%Z ->
  let t := (x * JsDate.msPerDay)%Z in
  isoDate (Str.take 10 (JsDate.toISOString t))
          (JsDate.YearFromTime t) (JsDate.MonthFromTime t + 1) (JsDate.DateFromTime t).
Proof.
  intros Hx t. pose proof (decoded_date_real t) as Hreal.
  assert (HY : (0 <= JsDate.YearFromTime t <= 9999)%Z).
  { unfold JsDate.YearFromTime, t. rewrite Day_of_days. apply year_of_day_range, Hx. }
  unfold JsDate.toISOString. cbv zeta.
  set (Y := JsDate.YearFromTime t) in *.
  set (M := JsDate.MonthFromTime t) in *.
  set (D := JsDate.DateFromTime t) in *.
  replace ((0 <=? Y) && (Y <=? 9999))%Z with true
    by (symmetry; rewrite Bool.andb_true_iff, !Z.leb_le; lia).
  destruct (pad4_year Y HY) as [[Ay Ly] Vy].
  pose proof (daysInMonth_le_31 Y (M + 1)) as Hdim.
  destruct Hreal as [Bm Bd].
  destruct (pad2_field (M + 1) ltac:(lia)) as [[Am Lm] Vm].
  destruct (pad2_field D ltac:(lia)) as [[Ad Ld] Vd].
  set (ys := JsDate.pad 4 Y) in *. set (ms := JsDate.pad 2 (M + 1)) in *.
  set (ds := JsDate.pad 2 D) in *.
  match goal with
  | |- isoDate (Str.take 10 (ys +:+ "-" +:+ ms +:+ "-" +:+ ds +:+ ?rest)) _ _ _ =>
      replace (ys +:+ "-" +:+ ms +:+ "-" +:+ ds +:+ rest)
        with ((ys +:+ String "-" (ms +:+ String "-" ds)) +:+ rest)
        by (repeat first [rewrite app_assoc_str | rewrite app_cons | rewrite app_nil_l];
            reflexivity)
  end.
  replace 10%nat with (String.length (ys +:+ String "-" (ms +:+ String "-" ds))).
  2:{ rewrite length_app_str. cbn [String.length]. rewrite length_app_str.
      cbn [String.length]. lia. }
  rewrite take_app_str.
  exists ys, ms, ds. split; [unfold shapeISO, digits; auto 10|].
  split; [exact Vy|]. split; [exact Vm|]. split; [exact Vd|]. split; assumption.
Qed.

(** Shifting the key of a real date by whole days, inside the years 0
    to 9999: the result is the key of the date that many days away. *)
Lemma isoShiftDays_spec (ov : dayOverflow) (k : string) (y m d n : Z) :
  isoDate k y m d ->
  (JsDate.DayFromYear 0 <= JsDate.MakeDay y (m - 1) d + n < JsDate.DayFromYear 10000)%Z ->
  exists k' y' m' d',
    isoShiftDays ov k n = Some k'
    /\ isoDate k' y' m' d'
    /\ JsDate.MakeDay y' (m' - 1) d' = (JsDate.MakeDay y (m - 1) d + n)%Z.
Proof.
  intros Hk Hx. destruct (parseDateTime_isoDate ov k y m d Hk) as [Ep By].
  unfold isoShiftDays. rewrite Ep.
  set (x := JsDate.MakeDay y (m - 1) d) in *.
  unfold JsDate.setUTCDate. rewrite MakeDay_decoded, Day_of_days.
  rewrite Z.mod_mul by (unfold JsDate.msPerDay; lia). rewrite Z.add_0_r.
  assert (Ec : JsDate.TimeClip ((x + n) * JsDate.msPerDay)
               = Some ((x + n) * JsDate.msPerDay)%Z).
  { unfold JsDate.TimeClip.
    change (JsDate.DayFromYear 0) with (-719528)%Z in Hx.
    change (JsDate.DayFromYear 10000) with 2932897%Z in Hx.
    replace (Z.abs ((x + n) * JsDate.msPerDay) <=? 8640000000000000)%Z with true;
      [reflexivity|].
    symmetry. apply Z.leb_le. unfold JsDate.msPerDay. lia. }
  rewrite Ec.
  pose proof (toISOString_key (x + n) Hx) as Hiso. cbv zeta in Hiso.
  eexists _, _, _, _. split; [reflexivity|]. split; [exact Hiso|].
  replace (JsDate.MonthFromTime ((x + n) * JsDate.msPerDay) + 1 - 1)%Z
    with (JsDate.MonthFromTime ((x + n) * JsDate.msPerDay)) by lia.
  rewrite <- (Z.add_0_r (JsDate.DateFromTime _)).
  rewrite MakeDay_decoded, Day_of_days. lia.
Qed.

(** Two keys of real dates with the same day number are the same key. *)
Lemma isoDate_day_inj (a b : string) (y m d y' m' d' : Z) :
  isoDate a y m d -> isoDate b y' m' d' ->
  JsDate.MakeDay y (m - 1) d = JsDate.MakeDay y' (m' - 1) d' ->
  a = b /\ y = y' /\ m = m' /\ d = d'.
Proof.
  intros (ya & ma & da & Ha & Ey & Em & Ed & Ra) (yb & mb & db & Hb & Ey' & Em' & Ed' & Rb) E.
  destruct (encoded_date_decodes y m d Ra) as (A1 & A2 & A3).
  destruct (encoded_date_decodes y' m' d' Rb) as (B1 & B2 & B3).
  cbv zeta in *. rewrite E in A1, A2, A3.
  assert (y = y') by congruence. assert (m = m') by lia. assert (d = d') by congruence.
  split; [|auto].
  destruct Ha as (-> & [Hya Lya] & [Hma Lma] & [Hda Lda]).
  destruct Hb as (-> & [Hyb Lyb] & [Hmb Lmb] & [Hdb Ldb]).
  assert (ya = yb) as -> by (apply digitsValue_inj; congruence).
  assert (ma = mb) as -> by (apply digitsValue_inj; congruence).
  assert (da = db) as -> by (apply digitsValue_inj; congruence).
  reflexivity.
Qed.

Lemma daysInMonth_ge_28 (y m : Z) : (1 <= m <= 12)%Z -> (28 <= daysInMonth y m)%Z.
Proof.
  intros Hm. unfold daysInMonth. destruct (leapYear y);
    (destruct m as [|p|p]; [lia| |lia]);
    do 5 (try (destruct p as [p|p|]; try lia)).
Qed.

Lemma MakeDay_date (y m d e : Z) :
  JsDate.MakeDay y m (d + e) = (JsDate.MakeDay y m d + e)%Z.
Proof. unfold JsDate.MakeDay. cbv zeta. lia. Qed.

Lemma MakeDay_next_year (y : Z) : JsDate.MakeDay y 12 1 = JsDate.MakeDay (y + 1) 0 1.
Proof.
  unfold JsDate.MakeDay. cbv zeta.
  change (12 `div` 12)%Z with 1%Z. change (12 `mod` 12)%Z with 0%Z.
  change (0 `div` 12)%Z with 0%Z. change (0 `mod` 12)%Z with 0%Z.
  replace (y + 1 + 0)%Z with (y + 1)%Z by lia. reflexivity.
Qed.

Lemma nextDate_spec (y m d : Z) :
  realDate y m d ->
  match nextDate y m d with
  | (y', m', d') =>
      realDate y' m' d'
      /\ JsDate.MakeDay y' (m' - 1) d' = (JsDate.MakeDay y (m - 1) d + 1)%Z
  end.
Proof.
  intros [Bm Bd]. unfold nextDate.
  pose proof (makeDay_month_length y m Bm) as Hl.
  pose proof (MakeDay_date y (m - 1) 1 (d - 1)) as Hd.
  replace (1 + (d - 1))%Z with d in Hd by lia.
  destruct (Z.ltb_spec d (daysInMonth y m)) as [Hlt|Hge].
  - split; [split; lia|]. apply MakeDay_date.
  - destruct (Z.ltb_spec m 12) as [Hm|Hm].
    + pose proof (daysInMonth_ge_28 y (m + 1) ltac:(lia)).
      split; [split; lia|].
      replace (m + 1 - 1)%Z with m by lia. lia.
    + assert (m = 12%Z) as -> by lia.
      pose proof (daysInMonth_ge_28 (y + 1) 1 ltac:(lia)).
      split; [split; lia|].
      change (1 - 1)%Z with 0%Z. rewrite <- MakeDay_next_year. lia.
Qed.

Lemma MakeDay_year_bounds (y m d : Z) :
  realDate y m d ->
  (JsDate.DayFromYear y <= JsDate.MakeDay y (m - 1) d < JsDate.DayFromYear (y + 1))%Z.
Proof.
  intros H. pose proof (monthStart_range y m d H) as Hr.
  destruct H as [Bm _].
  unfold JsDate.MakeDay. cbv zeta.
  rewrite (Z.div_small (m - 1) 12) by lia.
  rewrite (Z.mod_small (m - 1) 12) by lia.
  rewrite Z.add_0_r, DayFromYear_succ. lia.
Qed.

(** X14. [isoPlusDays(iso, 1)] is the next calendar day: for the key of
    a real date before the year 9999 it answers the key of the following
    day, passing month ends, leap days and year ends. *)
Theorem isoPlusDays_next_day (ov : dayOverflow) (k : string) (y m d : Z) :
  isoDate k y m d -> (y <= 9998)%Z ->
  exists k',
    isoPlusDays ov k 1 = Some k'
    /\ isoDate k' (fst (fst (nextDate y m d))) (snd (fst (nextDate y m d)))
                  (snd (nextDate y m d)).
Proof.
  intros Hk Hy. pose proof Hk as (_ & _ & _ & _ & _ & _ & _ & Hreal).
  destruct (parseDateTime_isoDate ov k y m d Hk) as [_ By].
  pose proof (nextDate_spec y m d Hreal) as Hn.
  destruct (nextDate y m d) as [[y1 m1] d1]. destruct Hn as [R1 E1].
  cbn [fst snd].
  pose proof (MakeDay_year_bounds y m d Hreal) as Hb.
  pose proof (DayFromYear_mono 0 y ltac:(lia)).
  pose proof (DayFromYear_mono (y + 1) 9999 ltac:(lia)).
  pose proof (DayFromYear_succ 9999) as H9. change (9999 + 1)%Z with 10000%Z in H9.
  change (JsDate.InLeapYear 9999) with 0%Z in H9.
  destruct (isoShiftDays_spec ov k y m d 1 Hk ltac:(lia)) as (k' & y' & m' & d' & Es & Hk' & E').
  exists k'. split; [exact Es|].
  pose proof Hk' as (_ & _ & _ & _ & _ & _ & _ & R').
  destruct (encoded_date_decodes y' m' d' R') as (A1 & A2 & A3).
  destruct (encoded_date_decodes y1 m1 d1 R1) as (B1 & B2 & B3).
  cbv zeta in *. rewrite E', <- E1 in A1, A2, A3.
  assert (y' = y1) as <- by congruence.
  assert (m' = m1) as <- by lia.
  assert (d' = d1) as <- by congruence.
  exact Hk'.
Qed.

Lemma isoPlusDays_next_day_witness :
  exists k',
    isoPlusDays Reject "2024-02-29" 1 = Some k'
    /\ isoDate k' (fst (fst (nextDate 2024 2 29))) (snd (fst (nextDate 2024 2 29)))
                  (snd (nextDate 2024 2 29)).
Proof.
  apply (isoPlusDays_next_day Reject "2024-02-29" 2024 2 29).
  - exact isoDate_2024_02_29.
  - lia.
Defined.

Example next_day_leap : isoPlusDays Reject "2024-02-28" 1 = Some "2024-02-29".
Proof. vm_compute. reflexivity. Qed.

Example next_day_year_end : isoPlusDays Reject "2023-12-31" 1 = Some "2024-01-01".
Proof. vm_compute. reflexivity. Qed.

Lemma ten_years_of_days (y : Z) :
  (JsDate.DayFromYear (y - 10) + 3650 <= JsDate.DayFromYear y)%Z
  /\ (JsDate.DayFromYear (y + 1) + 3650 <= JsDate.DayFromYear (y + 11))%Z.
Proof. unfold JsDate.DayFromYear. split; Z.div_mod_to_equations; lia. Qed.

(** X15. [isoMinusDays] and [isoPlusDays] undo each other.  For the key
    of a real date in the years 10 to 9988 and a whole number of days
    from 0 to 3650 (the range the chart window is clamped to), going
    back that many days gives the key of a real date from which going
    forward as many days leads to the first key again, and the other way
    round. *)
Theorem isoMinusDays_isoPlusDays (ov : dayOverflow) (k : string) (y m d n : Z) :
  isoDate k y m d -> (10 <= y <= 9988)%Z -> (0 <= n <= 3650)%Z ->
  (exists k' y' m' d',
     isoMinusDays ov k n = Some k' /\ isoDate k' y' m' d'
     /\ isoPlusDays ov k' n = Some k)
  /\ (exists k' y' m' d',
     isoPlusDays ov k n = Some k' /\ isoDate k' y' m' d'
     /\ isoMinusDays ov k' n = Some k).
Proof.
  intros Hk Hy Hn. pose proof Hk as (_ & _ & _ & _ & _ & _ & _ & Hreal).
  pose proof (MakeDay_year_bounds y m d Hreal) as Hb.
  pose proof (ten_years_of_days y) as [T1 T2].
  pose proof (DayFromYear_mono 0 (y - 10) ltac:(lia)).
  pose proof (DayFromYear_mono (y + 11) 9999 ltac:(lia)).
  pose proof (DayFromYear_mono 9999 10000 ltac:(lia)).
  assert (G : forall e, (- 3650 <= e <= 3650)%Z ->
            exists k' y' m' d',
              isoShiftDays ov k e = Some k' /\ isoDate k' y' m' d'
              /\ isoShiftDays ov k' (- e) = Some k).
  { intros e He.
    destruct (isoShiftDays_spec ov k y m d e Hk ltac:(lia))
      as (k' & y' & m' & d' & Es & Hk' & E').
    exists k', y', m', d'. split; [exact Es|]. split; [exact Hk'|].
    destruct (isoShiftDays_spec ov k' y' m' d' (- e) Hk' ltac:(lia))
      as (k2 & y2 & m2 & d2 & Es2 & Hk2 & E2).
    rewrite Es2. f_equal.
    apply (isoDate_day_inj k2 k y2 m2 d2 y m d Hk2 Hk). lia. }
  split.
  - destruct (G (- n)%Z ltac:(lia)) as (k' & y' & m' & d' & E1 & Hk' & E2).
    exists k', y', m', d'. unfold isoMinusDays, isoPlusDays.
    rewrite Z.opp_involutive in E2. auto.
  - destruct (G n ltac:(lia)) as (k' & y' & m' & d' & E1 & Hk' & E2).
    exists k', y', m', d'. unfold isoMinusDays, isoPlusDays. auto.
Qed.

Lemma isoMinusDays_isoPlusDays_witness :
  (exists k' y' m' d',
     isoMinusDays RollOver "2024-02-29" 730 = Some k' /\ isoDate k' y' m' d'
     /\ isoPlusDays RollOver k' 730 = Some "2024-02-29")
  /\ (exists k' y' m' d',
     isoPlusDays RollOver "2024-02-29" 730 = Some k' /\ isoDate k' y' m' d'
     /\ isoMinusDays RollOver k' 730 = Some "2024-02-29").
Proof.
  apply (isoMinusDays_isoPlusDays RollOver "2024-02-29" 2024 2 29 730).
  - exact isoDate_2024_02_29.
  - lia.
  - lia.
Defined.

(** X16. Day shifts add up: for the key of a real date in the years 10
    to 9988 and two whole day counts between -1825 and 1825, shifting by
    the first and then by the second is shifting by their sum. *)
Theorem isoPlusDays_adds (ov : dayOverflow) (k : string) (y m d a b : Z) :
  isoDate k y m d -> (10 <= y <= 9988)%Z ->
  (- 1825 <= a <= 1825)%Z -> (- 1825 <= b <= 1825)%Z ->
  exists k1,
    isoPlusDays ov k a = Some k1
    /\ isoPlusDays ov k1 b = isoPlusDays ov k (a + b).
Proof.
  intros Hk Hy Ha Hb. pose proof Hk as (_ & _ & _ & _ & _ & _ & _ & Hreal).
  pose proof (MakeDay_year_bounds y m d Hreal) as Hd.
  pose proof (ten_years_of_days y) as [T1 T2].
  pose proof (DayFromYear_mono 0 (y - 10) ltac:(lia)).
  pose proof (DayFromYear_mono (y + 11) 9999 ltac:(lia)).
  pose proof (DayFromYear_mono 9999 10000 ltac:(lia)).
  unfold isoPlusDays.
  destruct (isoShiftDays_spec ov k y m d a Hk ltac:(lia))
    as (k1 & y1 & m1 & d1 & E1 & Hk1 & D1).
  destruct (isoShiftDays_spec ov k1 y1 m1 d1 b Hk1 ltac:(lia))
    as (k2 & y2 & m2 & d2 & E2 & Hk2 & D2).
  destruct (isoShiftDays_spec ov k y m d (a + b) Hk ltac:(lia))
    as (k3 & y3 & m3 & d3 & E3 & Hk3 & D3).
  exists k1. split; [exact E1|]. rewrite E2, E3. f_equal.
  apply (isoDate_day_inj k2 k3 y2 m2 d2 y3 m3 d3 Hk2 Hk3). lia.
Qed.

Lemma isoPlusDays_adds_witness :
  exists k1,
    isoPlusDays RollOver "2024-02-29" 1 = Some k1
    /\ isoPlusDays RollOver k1 365 = isoPlusDays RollOver "2024-02-29" (1 + 365).
Proof.
  apply (isoPlusDays_adds RollOver "2024-02-29" 2024 2 29 1 365).
  - exact isoDate_2024_02_29.
  - lia.
  - lia.
  - lia.
Defined.

(** ** The order of date keys and the daily chart *)

Lemma digit_compare (c d : ascii) :
  Str.isDigit c = true -> Str.isDigit d = true ->
  (c ?= d)%char = (Conv.digitVal c ?= Conv.digitVal d)%Z.
Proof.
  intros Hc Hd.
  apply isDigit_cases in Hc. apply isDigit_cases in Hd.
  cbn [In] in Hc, Hd.
  repeat (destruct Hc as [<-|Hc]; [repeat (destruct Hd as [<-|Hd]; [reflexivity|]); destruct Hd|]).
  destruct Hc.
Qed.

(** Digit strings of the same length compare as their values. *)
Lemma digits_compare (a : string) :
  forall b, Str.allDigits a = true -> Str.allDigits b = true ->
  String.length a = String.length b ->
  (a ?= b)%string = (Conv.digitsValue 0 a ?= Conv.digitsValue 0 b)%Z.
Proof.
  induction a as [|c a IH]; intros [|d b] Ha Hb L; try discriminate L; [reflexivity|].
  cbn [Str.allDigits] in Ha, Hb.
  apply Bool.andb_true_iff in Ha as [Hc Ha]. apply Bool.andb_true_iff in Hb as [Hd Hb].
  injection L as L.
  cbn [String.compare Conv.digitsValue].
  rewrite (digitsValue_acc a), (digitsValue_acc b), <- L.
  rewrite (digit_compare c d Hc Hd).
  pose proof (digitsValue_bounds a 0 Ha ltac:(lia)) as Ba.
  pose proof (digitsValue_bounds b 0 Hb ltac:(lia)) as Bb. rewrite <- L in Bb.
  pose proof (digitVal_range c Hc) as Rc. pose proof (digitVal_range d Hd) as Rd.
  set (P := (10 ^ Z.of_nat (String.length a))%Z) in *.
  specialize (IH b Ha Hb L).
  destruct (Z.compare_spec (Conv.digitVal c) (Conv.digitVal d)) as [E|E|E].
  - rewrite IH, E. symmetry.
    destruct (Z.compare_spec (Conv.digitsValue 0 a) (Conv.digitsValue 0 b)) as [F|F|F].
    + apply Z.compare_eq_iff. lia.
    + apply Z.compare_lt_iff. lia.
    + apply Z.compare_gt_iff. lia.
  - symmetry. apply Z.compare_lt_iff. nia.
  - symmetry. apply Z.compare_gt_iff. nia.
Qed.

Lemma compare_app (p : string) :
  forall q x y, String.length p = String.length q ->
  ((p +:+ x) ?= (q +:+ y))%string
  = match (p ?= q)%string with Eq => (x ?= y)%string | o => o end.
Proof.
  induction p as [|c p IH]; intros [|d q] x y L; try discriminate L.
  - rewrite !app_nil_l. reflexivity.
  - injection L as L. rewrite !app_cons. cbn [String.compare].
    destruct (c ?= d)%char; [apply IH, L | reflexivity | reflexivity].
Qed.

Lemma string_compare_refl (s : string) : (s ?= s)%string = Eq.
Proof.
  induction s as [|c s IH]; [reflexivity|]. cbn [String.compare].
  replace (c ?= c)%char with Eq; [exact IH|].
  symmetry. unfold Ascii.compare. apply N.compare_refl.
Qed.

Lemma compare_sep (c : ascii) (x y : string) :
  (String c x ?= String c y)%string = (x ?= y)%string.
Proof.
  cbn [String.compare].
  replace (c ?= c)%char with Eq; [reflexivity|].
  symmetry. unfold Ascii.compare. apply N.compare_refl.
Qed.

(** Keys of the shape [YYYY-MM-DD] compare as their three numbers do, the
    year first. *)
Lemma shapeISO_compare (a b ya ma da yb mb db : string) :
  shapeISO a ya ma da -> shapeISO b yb mb db ->
  (a ?= b)%string
  = match (Conv.digitsValue 0 ya ?= Conv.digitsValue 0 yb)%Z with
    | Eq => match (Conv.digitsValue 0 ma ?= Conv.digitsValue 0 mb)%Z with
            | Eq => (Conv.digitsValue 0 da ?= Conv.digitsValue 0 db)%Z
            | o => o
            end
    | o => o
    end.
Proof.
  intros (-> & [Hya Lya] & [Hma Lma] & [Hda Lda]) (-> & [Hyb Lyb] & [Hmb Lmb] & [Hdb Ldb]).
  rewrite compare_app by congruence.
  rewrite (digits_compare ya yb) by congruence.
  destruct (_ ?= _)%Z; try reflexivity.
  rewrite compare_sep, compare_app by congruence.
  rewrite (digits_compare ma mb) by congruence.
  destruct (_ ?= _)%Z; try reflexivity.
  rewrite compare_sep. apply digits_compare; congruence.
Qed.

Lemma isoDate_compare (a b : string) (y m d y' m' d' : Z) :
  isoDate a y m d -> isoDate b y' m' d' ->
  (a ?= b)%string
  = match (y ?= y')%Z with
    | Eq => match (m ?= m')%Z with Eq => (d ?= d')%Z | o => o end
    | o => o
    end.
Proof.
  intros (ya & ma & da & Ha & <- & <- & <- & _) (yb & mb & db & Hb & <- & <- & <- & _).
  apply shapeISO_compare; assumption.
Qed.

(** X17. The string order that [sortISO] uses is the order of the
    calendar: for the keys of two real dates, [sortISO] answers -1
    exactly when the first date is the earlier one, 1 exactly when it is
    the later one, and 0 exactly when the keys are equal. *)
Theorem sortISO_chronological (a b : string) (y m d y' m' d' : Z) :
  isoDate a y m d -> isoDate b y' m' d' ->
  (sortISO a b = Num (-1) <-> dateBefore y m d y' m' d')
  /\ (sortISO a b = Num 1 <-> dateBefore y' m' d' y m d)
  /\ (sortISO a b = Num 0 <-> a = b).
Proof.
  intros Ha Hb.
  pose proof (isoDate_compare a b y m d y' m' d' Ha Hb) as Eab.
  pose proof (isoDate_compare b a y' m' d' y m d Hb Ha) as Eba.
  assert (Eq_iff : (a ?= b)%string = Eq <-> a = b).
  { split; [apply String.compare_eq_iff|]. intros ->. apply string_compare_refl. }
  rewrite Eab in Eq_iff. unfold sortISO, String.ltb, dateBefore.
  rewrite Eab, Eba.
  rewrite (Z.compare_antisym y y'), (Z.compare_antisym m m'), (Z.compare_antisym d d').
  destruct (Z.compare_spec y y') as [Ey|Ey|Ey];
    destruct (Z.compare_spec m m') as [Em|Em|Em];
    destruct (Z.compare_spec d d') as [Ed|Ed|Ed];
    cbn [CompOpp] in *;
    (split; [|split]); split; intros H;
    first [ reflexivity | discriminate H | lia | (exfalso; lia)
          | (apply Eq_iff; reflexivity) | (apply Eq_iff in H; discriminate H) ].
Qed.

Lemma isoDate_2023_12_31 : isoDate "2023-12-31" 2023 12 31.
Proof.
  exists "2023", "12", "31". repeat split; vm_compute; discriminate.
Qed.

Lemma sortISO_chronological_witness :
  (sortISO "2023-12-31" "2024-02-29" = Num (-1) <-> dateBefore 2023 12 31 2024 2 29)
  /\ (sortISO "2023-12-31" "2024-02-29" = Num 1 <-> dateBefore 2024 2 29 2023 12 31)
  /\ (sortISO "2023-12-31" "2024-02-29" = Num 0 <-> "2023-12-31" = "2024-02-29").
Proof.
  apply (sortISO_chronological "2023-12-31" "2024-02-29" 2023 12 31 2024 2 29).
  - exact isoDate_2023_12_31.
  - exact isoDate_2024_02_29.
Defined.

Lemma ascii_compare_refl (c : ascii) : (c ?= c)%char = Eq.
Proof. unfold Ascii.compare. apply N.compare_refl. Qed.

Lemma string_compare_lt_trans (a : string) :
  forall b c, (a ?= b)%string = Lt -> (b ?= c)%string = Lt -> (a ?= c)%string = Lt.
Proof.
  induction a as [|x a IH]; intros [|y b] [|z c]; cbn [String.compare];
    try discriminate; try reflexivity.
  destruct (x ?= y)%char eqn:Exy; try discriminate;
    destruct (y ?= z)%char eqn:Eyz; try discriminate.
  - apply Ascii.compare_eq_iff in Exy as ->. apply Ascii.compare_eq_iff in Eyz as ->.
    rewrite ascii_compare_refl. apply IH.
  - apply Ascii.compare_eq_iff in Exy as ->. rewrite Eyz. reflexivity.
  - apply Ascii.compare_eq_iff in Eyz as <-. rewrite Exy. reflexivity.
  - intros _ _. unfold Ascii.compare in *.
    rewrite N.compare_lt_iff in *.
    replace (_ ?= _)%N with Lt; [reflexivity|].
    symmetry. apply N.compare_lt_iff. lia.
Qed.

Lemma string_leb_cases (a b : string) :
  (a <=? b)%string = true <-> a = b \/ (a ?= b)%string = Lt.
Proof.
  unfold String.leb. split.
  - destruct (a ?= b)%string eqn:E; try discriminate; intros _.
    + left. apply String.compare_eq_iff, E.
    + right. reflexivity.
  - intros [-> | ->]; [rewrite string_compare_refl|]; reflexivity.
Qed.

Lemma string_leb_trans (a b c : string) :
  (a <=? b)%string = true -> (b <=? c)%string = true -> (a <=? c)%string = true.
Proof.
  rewrite !string_leb_cases. intros [-> | H1] [-> | H2]; auto.
  right. eapply string_compare_lt_trans; eassumption.
Qed.

Section SortByOrder.
Context {A : Type}.
Variable comparefn : A -> A -> number.
Variable le : A -> A -> Prop.
Hypothesis le_trans : forall x y z, le x y -> le y z -> le x z.
Hypothesis before_le : forall x y, JsArray.before comparefn x y = true -> le x y.
Hypothesis not_before_le : forall x y, JsArray.before comparefn x y = false -> le y x.

Lemma insert_ordered (x : A) (l : list A) :
  StronglySorted le l -> StronglySorted le (JsArray.insert comparefn x l).
Proof.
  intros Hs. induction Hs as [|y l Hs IH Hy].
  - cbn. constructor; constructor.
  - cbn [JsArray.insert].
    destruct (JsArray.before comparefn x y) eqn:E.
    + constructor; [constructor; assumption|].
      constructor; [apply before_le, E|].
      eapply List.Forall_impl; [|exact Hy]. intros z Hz.
      eapply le_trans; [apply before_le, E | exact Hz].
    + constructor; [exact IH|].
      eapply Permutation_Forall; [symmetry; apply insert_perm|].
      constructor; [apply not_before_le, E | exact Hy].
Qed.

Lemma sort_ordered_acc (l acc : list A) :
  StronglySorted le acc ->
  StronglySorted le (foldl (fun acc x => JsArray.insert comparefn x acc) acc l).
Proof.
  revert acc. induction l as [|x l IH]; intros acc Hs; [exact Hs|].
  cbn [foldl]. apply IH, insert_ordered, Hs.
Qed.

Lemma sort_ordered (l : list A) : StronglySorted le (JsArray.sort comparefn l).
Proof. apply sort_ordered_acc. constructor. Qed.
End SortByOrder.

Lemma before_sortISO (a b : dailyRecord) :
  JsArray.before (fun a b => sortISO (date a) (date b)) a b = (date a <? date b)%string.
Proof.
  unfold JsArray.before, sortISO.
  destruct (date a <? date b)%string; [reflexivity|].
  destruct (date b <? date a)%string; reflexivity.
Qed.

Lemma dailySorted_leb (m : gmap string number) :
  StronglySorted (fun a b => (date a <=? date b)%string = true) (dailySorted m).
Proof.
  unfold dailySorted. apply sort_ordered.
  - intros x y z. apply string_leb_trans.
  - intros x y. rewrite before_sortISO. unfold String.ltb, String.leb.
    destruct (_ ?= _)%string; (discriminate || reflexivity).
  - intros x y. rewrite before_sortISO. unfold String.ltb, String.leb.
    rewrite (String.compare_antisym (date x) (date y)).
    destruct (date y ?= date x)%string; cbn [CompOpp]; (discriminate || reflexivity).
Qed.

Lemma dailySorted_perm (m : gmap string number) :
  Permutation (dailySorted m)
    (map (fun '(k, v) => {| date := k; value := v |}) (map_to_list m)).
Proof. unfold dailySorted. apply sort_perm. Qed.

Lemma dailySorted_dates (m : gmap string number) :
  Permutation (map date (dailySorted m)) (map fst (map_to_list m)).
Proof.
  rewrite dailySorted_perm, List.map_map.
  apply Permutation_refl'. apply List.map_ext. intros [k v]. reflexivity.
Qed.

Lemma dailySorted_In (m : gmap string number) (k : string) (v : number) :
  In {| date := k; value := v |} (dailySorted m) <-> m !! k = Some v.
Proof.
  rewrite <- elem_of_map_to_list. split.
  - intros H. apply (Permutation_in _ (dailySorted_perm m)) in H.
    apply List.in_map_iff in H as ([k' v'] & E & Hin).
    injection E as -> ->. apply list_elem_of_In, Hin.
  - intros H. apply (Permutation_in _ (Permutation_sym (dailySorted_perm m))).
    apply List.in_map_iff. exists (k, v). split; [reflexivity|].
    apply list_elem_of_In, H.
Qed.

Lemma strict_of_NoDup (l : list dailyRecord) :
  StronglySorted (fun a b => (date a <=? date b)%string = true) l ->
  List.NoDup (map date l) ->
  StronglySorted (fun a b => (date a <? date b)%string = true) l.
Proof.
  intros Hs. induction Hs as [|x l Hs IH Hx]; intros Hn; [constructor|].
  cbn [map] in Hn. inversion Hn as [|? ? Hnotin Hn']; subst.
  constructor; [apply IH, Hn'|].
  rewrite List.Forall_forall in *. intros y Hy.
  specialize (Hx y Hy). apply string_leb_cases in Hx as [E|E].
  - exfalso. apply Hnotin. rewrite E. apply List.in_map, Hy.
  - unfold String.ltb. rewrite E. reflexivity.
Qed.

(** X18. [dailySorted] lists the stored days once each, earliest key
    first: a record is in the list exactly when the map holds its value
    under its date, the list is as long as the map is large, and the
    dates are strictly ascending in the order of strings. *)
Theorem dailySorted_ascending (m : gmap string number) :
  (forall k v, In {| date := k; value := v |} (dailySorted m) <-> m !! k = Some v)
  /\ length (dailySorted m) = size m
  /\ StronglySorted (fun a b => (date a <? date b)%string = true) (dailySorted m).
Proof.
  split; [intros k v; apply dailySorted_In|]. split.
  - rewrite (Permutation_length (dailySorted_perm m)), length_map.
    apply length_map_to_list.
  - apply strict_of_NoDup; [apply dailySorted_leb|].
    eapply Permutation_NoDup; [symmetry; apply dailySorted_dates|].
    apply NoDup_ListNoDup, NoDup_fst_map_to_list.
Qed.

Lemma MakeDay_first_mono (y : Z) (k : nat) :
  forall m, (0 <= m)%Z -> (m + Z.of_nat k <= 12)%Z ->
  (JsDate.MakeDay y m 1 <= JsDate.MakeDay y (m + Z.of_nat k) 1)%Z.
Proof.
  induction k as [|k IH]; intros m Hm Hk.
  - rewrite Z.add_0_r. lia.
  - specialize (IH m Hm ltac:(lia)).
    pose proof (makeDay_month_length y (m + Z.of_nat (S k)) ltac:(lia)) as Hl.
    pose proof (daysInMonth_ge_28 y (m + Z.of_nat (S k)) ltac:(lia)).
    replace (m + Z.of_nat (S k) - 1)%Z with (m + Z.of_nat k)%Z in Hl by lia.
    lia.
Qed.

Lemma MakeDay_before (y m d y' m' d' : Z) :
  realDate y m d -> realDate y' m' d' -> dateBefore y m d y' m' d' ->
  (JsDate.MakeDay y (m - 1) d < JsDate.MakeDay y' (m' - 1) d')%Z.
Proof.
  intros R R' [Hy | [-> [Hm | [-> Hd]]]].
  - pose proof (MakeDay_year_bounds y m d R).
    pose proof (MakeDay_year_bounds y' m' d' R').
    pose proof (DayFromYear_mono (y + 1) y' ltac:(lia)). lia.
  - destruct R as [Bm Bd], R' as [Bm' Bd'].
    pose proof (makeDay_month_length y' m Bm) as Hl.
    pose proof (MakeDay_date y' (m - 1) 1 (d - 1)) as E1.
    pose proof (MakeDay_date y' (m' - 1) 1 (d' - 1)) as E2.
    replace (1 + (d - 1))%Z with d in E1 by lia.
    replace (1 + (d' - 1))%Z with d' in E2 by lia.
    pose proof (MakeDay_first_mono y' (Z.to_nat (m' - 1 - m)) m ltac:(lia) ltac:(lia)) as Hmono.
    replace (m + Z.of_nat (Z.to_nat (m' - 1 - m)))%Z with (m' - 1)%Z in Hmono by lia.
    lia.
  - pose proof (MakeDay_date y' (m' - 1) d (d' - d)) as E.
    replace (d + (d' - d))%Z with d' in E by lia. lia.
Qed.

(** Keys of real dates are ordered as strings the way their days are. *)
Lemma isoDate_leb_days (a b : string) (y m d y' m' d' : Z) :
  isoDate a y m d -> isoDate b y' m' d' ->
  (a <=? b)%string = (JsDate.MakeDay y (m - 1) d <=? JsDate.MakeDay y' (m' - 1) d')%Z.
Proof.
  intros Ha Hb.
  pose proof Ha as (_ & _ & _ & _ & _ & _ & _ & Ra).
  pose proof Hb as (_ & _ & _ & _ & _ & _ & _ & Rb).
  assert (T : dateBefore y m d y' m' d' \/ (y = y' /\ m = m' /\ d = d')
              \/ dateBefore y' m' d' y m d) by (unfold dateBefore; lia).
  unfold String.leb. destruct T as [T | [(-> & -> & ->) | T]].
  - pose proof (MakeDay_before _ _ _ _ _ _ Ra Rb T).
    rewrite (isoDate_compare a b y m d y' m' d' Ha Hb).
    replace (_ <=? _)%Z with true by (symmetry; apply Z.leb_le; lia).
    destruct T as [Hy | [-> [Hm | [-> Hd]]]].
    + rewrite (proj2 (Z.compare_lt_iff _ _) Hy). reflexivity.
    + rewrite Z.compare_refl, (proj2 (Z.compare_lt_iff _ _) Hm). reflexivity.
    + rewrite !Z.compare_refl, (proj2 (Z.compare_lt_iff _ _) Hd). reflexivity.
  - rewrite (isoDate_compare a b y' m' d' y' m' d' Ha Hb), !Z.compare_refl.
    symmetry. apply Z.leb_le. lia.
  - pose proof (MakeDay_before _ _ _ _ _ _ Rb Ra T).
    rewrite (isoDate_compare a b y m d y' m' d' Ha Hb).
    replace (_ <=? _)%Z with false by (symmetry; apply Z.leb_gt; lia).
    destruct T as [Hy | [-> [Hm | [-> Hd]]]].
    + rewrite (proj2 (Z.compare_gt_iff _ _) Hy). reflexivity.
    + rewrite Z.compare_refl, (proj2 (Z.compare_gt_iff _ _) Hm). reflexivity.
    + rewrite !Z.compare_refl, (proj2 (Z.compare_gt_iff _ _) Hd). reflexivity.
Qed.

Lemma isoShiftDays_zero (ov : dayOverflow) (k : string) (y m d : Z) :
  isoDate k y m d -> isoShiftDays ov k 0 = Some k.
Proof.
  intros Hk. pose proof Hk as (_ & _ & _ & _ & _ & _ & _ & R).
  destruct (parseDateTime_isoDate ov k y m d Hk) as [_ By].
  pose proof (MakeDay_year_bounds y m d R).
  pose proof (DayFromYear_mono 0 y ltac:(lia)).
  pose proof (DayFromYear_mono (y + 1) 10000 ltac:(lia)).
  destruct (isoShiftDays_spec ov k y m d 0 Hk ltac:(lia)) as (k' & y' & m' & d' & E & Hk' & D).
  rewrite E. f_equal. apply (isoDate_day_inj k' k y' m' d' y m d Hk' Hk). lia.
Qed.

Lemma daysFrom_succ (ov : dayOverflow) (cur next : string) (y m d : Z) (r : nat) :
  isoDate cur y m d ->
  (JsDate.MakeDay y (m - 1) d + Z.of_nat r < JsDate.DayFromYear 10000)%Z ->
  isoPlusDays ov cur 1 = Some next ->
  daysFrom ov cur (S r) = cur :: daysFrom ov next r.
Proof.
  intros Hk Hr En. unfold daysFrom. cbn [seq omap list_omap].
  change (Z.of_nat 0) with 0%Z. unfold isoPlusDays at 1.
  rewrite (isoShiftDays_zero ov cur y m d Hk). f_equal.
  pose proof Hk as (_ & _ & _ & _ & _ & _ & _ & R).
  destruct (parseDateTime_isoDate ov cur y m d Hk) as [_ By].
  pose proof (MakeDay_year_bounds y m d R).
  pose proof (DayFromYear_mono 0 y ltac:(lia)).
  rewrite <- seq_shift.
  assert (G : forall i, In i (seq 0 r) ->
                isoPlusDays ov cur (Z.of_nat (S i)) = isoPlusDays ov next (Z.of_nat i)).
  { intros i Hi. apply in_seq in Hi. unfold isoPlusDays in *.
    destruct r as [|r']; [lia|].
    destruct (isoShiftDays_spec ov cur y m d 1 Hk ltac:(lia))
      as (k1 & y1 & m1 & d1 & E1 & Hk1 & D1).
    rewrite E1 in En. injection En as <-.
    destruct (isoShiftDays_spec ov k1 y1 m1 d1 (Z.of_nat i) Hk1 ltac:(lia))
      as (k2 & y2 & m2 & d2 & E2 & Hk2 & D2).
    destruct (isoShiftDays_spec ov cur y m d (Z.of_nat (S i)) Hk ltac:(lia))
      as (k3 & y3 & m3 & d3 & E3 & Hk3 & D3).
    rewrite E2, E3. f_equal.
    apply (isoDate_day_inj k3 k2 y3 m3 d3 y2 m2 d2 Hk3 Hk2). lia. }
  revert G. generalize (seq 0 r). intros l G. induction l as [|i l IH]; [reflexivity|].
  cbn [map omap list_omap]. rewrite (G i) by (left; reflexivity).
  rewrite IH by (intros j Hj; apply G; right; exact Hj). reflexivity.
Qed.

Lemma dailyChartLoop_spec (ov : dayOverflow) (dailyLookup : gmap string number)
    (t : string) (yt mt dt : Z) :
  isoDate t yt mt dt ->
  (JsDate.MakeDay yt (mt - 1) dt + 1 < JsDate.DayFromYear 10000)%Z ->
  forall (r : nat) (cur : string) (yc mc dc : Z) (out : list chartPoint) (fuel : nat),
    isoDate cur yc mc dc ->
    (JsDate.MakeDay yt (mt - 1) dt + 1 - JsDate.MakeDay yc (mc - 1) dc = Z.of_nat r)%Z ->
    (r < fuel)%nat -> (length out + r <= 5000)%nat ->
    dailyChartLoop ov dailyLookup t fuel cur out
    = Some (out ++ omap (chartPointAt dailyLookup) (daysFrom ov cur r)).
Proof.
  intros Ht Hmax. induction r as [|r IH]; intros cur yc mc dc out fuel Hc Hr Hf Hl.
  - destruct fuel as [|fuel]; [lia|]. cbn [dailyChartLoop].
    rewrite (isoDate_leb_days cur t yc mc dc yt mt dt Hc Ht).
    replace (_ <=? _)%Z with false by (symmetry; apply Z.leb_gt; lia).
    unfold daysFrom. cbn. rewrite app_nil_r. reflexivity.
  - destruct fuel as [|fuel]; [lia|]. cbn [dailyChartLoop].
    rewrite (isoDate_leb_days cur t yc mc dc yt mt dt Hc Ht).
    replace (_ <=? _)%Z with true by (symmetry; apply Z.leb_le; lia).
    pose proof Hc as (_ & _ & _ & _ & _ & _ & _ & R).
    destruct (parseDateTime_isoDate ov cur yc mc dc Hc) as [_ By].
    pose proof (MakeDay_year_bounds yc mc dc R).
    pose proof (DayFromYear_mono 0 yc ltac:(lia)).
    destruct (isoShiftDays_spec ov cur yc mc dc 1 Hc ltac:(lia))
      as (next & y1 & m1 & d1 & E1 & Hk1 & D1).
    change (isoPlusDays ov cur 1) with (isoShiftDays ov cur 1). rewrite E1.
    rewrite (daysFrom_succ ov cur next yc mc dc r Hc ltac:(lia) E1).
    cbv zeta. cbn [omap list_omap].
    destruct (chartPointAt dailyLookup cur) as [p|].
    + replace (5000 <? length (out ++ [p]))%nat with false
        by (symmetry; apply Nat.ltb_ge; rewrite length_app; cbn; lia).
      rewrite (IH next y1 m1 d1 (out ++ [p]) fuel Hk1 ltac:(lia) ltac:(lia)
                 ltac:(rewrite length_app; cbn; lia)).
      rewrite <- app_assoc. reflexivity.
    + replace (5000 <? length out)%nat with false by (symmetry; apply Nat.ltb_ge; lia).
      rewrite (IH next y1 m1 d1 out fuel Hk1 ltac:(lia) ltac:(lia) ltac:(lia)).
      reflexivity.
Qed.

(** The loop of the daily chart over a window of days. *)
Lemma dailyChartLoop_days (ov : dayOverflow) (dailyLookup : gmap string number)
    (f t : string) (y m d : Z) (n fuel : nat) :
  isoDate f y m d -> (y <= 9980)%Z ->
  isoPlusDays ov f (Z.of_nat n) = Some t ->
  (n < 5000)%nat -> (n + 1 < fuel)%nat ->
  dailyChartLoop ov dailyLookup t fuel f []
  = Some (omap (chartPointAt dailyLookup) (daysFrom ov f (S n))).
Proof.
  intros Hf Hy Et Hn Hfuel.
  pose proof Hf as (_ & _ & _ & _ & _ & _ & _ & R).
  destruct (parseDateTime_isoDate ov f y m d Hf) as [_ By].
  pose proof (MakeDay_year_bounds y m d R).
  pose proof (DayFromYear_mono 0 y ltac:(lia)).
  pose proof (DayFromYear_mono (y + 1) 9981 ltac:(lia)).
  assert (H9 : (JsDate.DayFromYear 9981 + 5001 < JsDate.DayFromYear 10000)%Z)
    by (vm_compute; reflexivity).
  destruct (isoShiftDays_spec ov f y m d (Z.of_nat n) Hf ltac:(lia))
    as (t' & yt & mt & dt & E & Ht & D).
  unfold isoPlusDays in Et. rewrite E in Et. injection Et as ->.
  apply (dailyChartLoop_spec ov dailyLookup t yt mt dt Ht ltac:(lia)
           (S n) f y m d [] fuel Hf); [lia | lia | cbn; lia].
Qed.

(** X19. The loop of the daily chart ends and yields one point for
    every stored day of the window, in the order of the days.  For the
    key [f] of a real date up to the year 9980 and the key [t] of the
    day [n] days later, with [n] below 5000, the loop from [f] to [t]
    stops within [n + 2] turns, and its result is the list of the chart
    points of the days [f], [f] plus one day, up to [t], the days without
    an entry left out. *)
Theorem dailyChartLoop_window (ov : dayOverflow) (dailyLookup : gmap string number)
    (f t : string) (y m d : Z) (n fuel : nat) :
  isoDate f y m d -> (y <= 9980)%Z ->
  isoPlusDays ov f (Z.of_nat n) = Some t ->
  (n < 5000)%nat -> (n + 1 < fuel)%nat ->
  dailyChartLoop ov dailyLookup t fuel f []
  = Some (omap (chartPointAt dailyLookup) (daysFrom ov f (S n))).
Proof. apply dailyChartLoop_days. Qed.

Lemma dailyChartLoop_window_witness :
  dailyChartLoop Reject {["2024-03-01" := Num 5]} "2024-03-01" 4 "2024-02-28" []
  = Some (omap (chartPointAt {["2024-03-01" := Num 5]}) (daysFrom Reject "2024-02-28" 3)).
Proof.
  apply (dailyChartLoop_window Reject {["2024-03-01" := Num 5]}
           "2024-02-28" "2024-03-01" 2024 2 28 2 4).
  - exists "2024", "02", "28". repeat split; vm_compute; discriminate.
  - lia.
  - vm_compute. reflexivity.
  - lia.
  - lia.
Defined.

Example window_days : daysFrom Reject "2024-02-28" 3 = ["2024-02-28"; "2024-02-29"; "2024-03-01"].
Proof. vm_compute. reflexivity. Qed.

(** ** The chart window *)

(** X20. [clamp] keeps a number within its bounds: for finite numbers
    with [min <= max] the result lies between the bounds, it is the
    argument when the argument lies between them, the lower bound when
    the argument is below and the upper bound when it is above; a NaN
    argument is not clamped but handed on. *)
Theorem clamp_within (n lo hi : Q) :
  (lo <= hi)%Q ->
  (exists r,
     clamp (Num n) (Num lo) (Num hi) = Num r
     /\ (lo <= r <= hi)%Q
     /\ ((lo <= n <= hi)%Q -> r == n)
     /\ ((n <= lo)%Q -> r == lo)
     /\ ((hi <= n)%Q -> r == hi))
  /\ clamp NaN (Num lo) (Num hi) = NaN.
Proof.
  intros Hb. split; [|reflexivity]. unfold clamp.
  destruct (max_Num lo n) as (a & -> & Ha1 & Ha2 & Ha3).
  destruct (min_Num hi a) as (r & -> & Hr1 & Hr2 & Hr3).
  exists r. split; [reflexivity|].
  destruct Ha3 as [-> | ->], Hr3 as [-> | ->];
    (split; [split; lra|]); (split; [|split]); intros; lra.
Qed.

Lemma clamp_within_witness :
  (exists r,
     clamp (Num 5) (Num 7) (Num 3650) = Num r
     /\ (7 <= r <= 3650)%Q
     /\ ((7 <= 5 <= 3650)%Q -> r == 5)
     /\ ((5 <= 7)%Q -> r == 7)
     /\ ((3650 <= 5)%Q -> r == 3650))
  /\ clamp NaN (Num 7) (Num 3650) = NaN.
Proof. apply (clamp_within 5 7 3650). discriminate. Defined.

Lemma clampDays_spec (rangeDays : Z) :
  clampDays rangeDays = Z.min 3650 (Z.max 7 rangeDays).
Proof.
  unfold clampDays, clamp.
  change (Num 7) with (Num (inject_Z 7)).
  change (Num 3650) with (Num (inject_Z 3650)).
  destruct (max_Num (inject_Z 7) (inject_Z rangeDays)) as (a & -> & Ha1 & Ha2 & Ha3).
  destruct (min_Num (inject_Z 3650) a) as (b & -> & Hb1 & Hb2 & Hb3).
  destruct Ha3 as [-> | ->], Hb3 as [-> | ->]; rewrite truncate_inject;
    repeat match goal with
           | H : (inject_Z _ <= inject_Z _)%Q |- _ => rewrite <- Zle_Qle in H
           end; lia.
Qed.

Lemma last_of_sorted (m : gmap string number) (r : dailyRecord) :
  dailySorted m !! (length (dailySorted m) - 1)%nat = Some r ->
  m !! date r = Some (value r).
Proof.
  intros H. apply dailySorted_In. destruct r as [k v]. cbn [date value].
  apply list_elem_of_In. eapply list_elem_of_lookup_2, H.
Qed.

(** X21. With both ends of the range left empty the daily chart shows
    the window that ends at the latest stored day.  When the last record
    of [dailySorted] has the key of a real date in the years 10 to 9980,
    [dailyChart] ends within [clamp(rangeDays, 7, 3650) + 2] turns of its
    loop, and its points are those of the stored days from
    [clamp(rangeDays, 7, 3650)] days before that date up to it, the
    latest record among them. *)
Theorem dailyChart_default_window (ov : dayOverflow) (dailyMap : gmap string number)
    (lastRecord : dailyRecord) (y m d rangeDays : Z) (fuel : nat) :
  dailySorted dailyMap !! (length (dailySorted dailyMap) - 1)%nat = Some lastRecord ->
  isoDate (date lastRecord) y m d -> (10 <= y <= 9980)%Z ->
  (Z.to_nat (clampDays rangeDays) + 1 < fuel)%nat ->
  (7 <= clampDays rangeDays <= 3650)%Z
  /\ exists from,
       isoMinusDays ov (date lastRecord) (clampDays rangeDays) = Some from
       /\ dailyChart ov dailyMap "" "" rangeDays fuel
          = Some (omap (chartPointAt dailyMap)
                       (daysFrom ov from (S (Z.to_nat (clampDays rangeDays)))))
       /\ chartPointAt dailyMap (date lastRecord)
          = last (omap (chartPointAt dailyMap)
                       (daysFrom ov from (S (Z.to_nat (clampDays rangeDays))))).
Proof.
  intros Hlast Hiso Hy Hfuel.
  pose proof (clampDays_spec rangeDays) as Ec.
  set (c := clampDays rangeDays) in *.
  assert (Hc : (7 <= c <= 3650)%Z) by lia.
  split; [exact Hc|].
  pose proof Hiso as (_ & _ & _ & _ & _ & _ & _ & R).
  pose proof (MakeDay_year_bounds y m d R) as Hb.
  pose proof (ten_years_of_days y) as [T1 T2].
  pose proof (DayFromYear_mono 0 (y - 10) ltac:(lia)).
  pose proof (DayFromYear_mono (y + 1) 9999 ltac:(lia)).
  pose proof (DayFromYear_mono 9999 10000 ltac:(lia)).
  destruct (isoShiftDays_spec ov (date lastRecord) y m d (- c) Hiso ltac:(lia))
    as (from & yf & mf & df & Ef & Hf & Df).
  exists from. split; [exact Ef|].
  assert (Eback : isoPlusDays ov from (Z.of_nat (Z.to_nat c)) = Some (date lastRecord)).
  { rewrite Z2Nat.id by lia. unfold isoPlusDays.
    destruct (isoShiftDays_spec ov from yf mf df c Hf ltac:(lia))
      as (k2 & y2 & m2 & d2 & E2 & Hk2 & D2).
    rewrite E2. f_equal.
    apply (isoDate_day_inj k2 (date lastRecord) y2 m2 d2 y m d Hk2 Hiso). lia. }
  assert (Hyf : (yf <= 9980)%Z).
  { pose proof Hf as (_ & _ & _ & _ & _ & _ & _ & Rf).
    pose proof (MakeDay_year_bounds yf mf df Rf) as Hbf.
    destruct (Z_lt_le_dec y yf) as [Hlt|]; [|lia].
    pose proof (DayFromYear_mono (y + 1) yf ltac:(lia)). lia. }
  split.
  - unfold dailyChart. cbv zeta. rewrite Hlast. cbn [Str.isEmpty].
    fold c. unfold isoMinusDays in Ef |- *. rewrite Ef.
    rewrite (isoDate_leb_days from (date lastRecord) yf mf df y m d Hf Hiso).
    replace (_ <=? _)%Z with true by (symmetry; apply Z.leb_le; lia).
    apply (dailyChartLoop_days ov dailyMap from (date lastRecord) yf mf df
             (Z.to_nat c) fuel Hf Hyf Eback); lia.
  - assert (Es : daysFrom ov from (S (Z.to_nat c))
                 = daysFrom ov from (Z.to_nat c) ++ [date lastRecord]).
    { unfold daysFrom. rewrite seq_S, omap_app. cbn [omap list_omap Nat.add].
      rewrite Eback. reflexivity. }
    rewrite Es, omap_app. cbn [omap list_omap].
    pose proof (last_of_sorted dailyMap lastRecord Hlast) as Hv.
    unfold chartPointAt at 1 3. rewrite Hv. rewrite last_snoc. reflexivity.
Qed.

Lemma dailyChart_default_window_witness :
  let dailyMap : gmap string number := {["2024-02-29" := Num 5]} in
  (7 <= clampDays 3 <= 3650)%Z
  /\ exists from,
       isoMinusDays Reject "2024-02-29" (clampDays 3) = Some from
       /\ dailyChart Reject dailyMap "" "" 3 10
          = Some (omap (chartPointAt dailyMap)
                       (daysFrom Reject from (S (Z.to_nat (clampDays 3)))))
       /\ chartPointAt dailyMap "2024-02-29"
          = last (omap (chartPointAt dailyMap)
                       (daysFrom Reject from (S (Z.to_nat (clampDays 3))))).
Proof.
  intros dailyMap.
  apply (dailyChart_default_window Reject dailyMap
           {| date := "2024-02-29"; value := Num 5 |} 2024 2 29 3 10).
  - vm_compute. reflexivity.
  - exact isoDate_2024_02_29.
  - lia.
  - vm_compute. lia.
Defined.

Example chart_default_window :
  dailyChart Reject {["2024-02-29" := Num 5]} "" "" 3 10
  = Some [{| label := "29-02-2024"; units := Num 5;
             prev_year_units := None; yoy_pct := None |}].
Proof. vm_compute. reflexivity. Qed.

(** With no stored day the chart is empty. *)
Example chart_of_nothing : dailyChart Reject ∅ "" "" 730 0 = Some [].
Proof. vm_compute. reflexivity. Qed.

(** ** The lines of the capacity CSV *)

Example parse_quoted_line :
  parseLine (quoted "a,b" +:+ ", x ," +:+ quoted ("say " +:+ String DQ "hi" +:+ String DQ ""))
  = ["a,b"; "x"; "say " +:+ String DQ "hi" +:+ String DQ ""].
Proof. vm_compute. reflexivity. Qed.

Example parse_csv_blank : parseCSVSimple (String Str.LF "  " +:+ String Str.LF "") = ([], []).
Proof. vm_compute. reflexivity. Qed.

Lemma app_snoc_str (cur : string) (c : ascii) (r : string) :
  (cur +:+ String c "") +:+ r = cur +:+ String c r.
Proof. rewrite app_assoc_str, app_cons, app_nil_l. reflexivity. Qed.

Lemma split_nonempty (sep : ascii) (s : string) : Str.split sep s <> [].
Proof.
  destruct s as [|c r]; [discriminate|]. cbn [Str.split].
  destruct (c =? sep)%char; [discriminate|].
  destruct (Str.split sep r); discriminate.
Qed.

(** Outside quotes a line without quotes is cut at its commas. *)
Lemma parseLineFrom_plain (line : string) :
  forall cur out first others,
    hasChar DQ line = false ->
    Str.split "," line = first :: others ->
    parseLineFrom line cur false out
    = out ++ Str.trim (cur +:+ first) :: map Str.trim others.
Proof.
  induction line as [|ch rest IH]; intros cur out first others Hq Hs.
  - cbn in Hs. injection Hs as <- <-. cbn. rewrite string_app_empty. reflexivity.
  - cbn [hasChar] in Hq. apply Bool.orb_false_iff in Hq as [Hch Hrest].
    assert (Step : parseLineFrom (String ch rest) cur false out
                   = if (ch =? ",")%char
                     then parseLineFrom rest "" false (out ++ [Str.trim cur])
                     else parseLineFrom rest (cur +:+ String ch "") false out).
    { cbn [parseLineFrom]. rewrite Hch. cbn [andb negb].
      rewrite Bool.andb_true_r. destruct rest; reflexivity. }
    rewrite Step. cbn [Str.split] in Hs.
    destruct (Str.split "," rest) as [|f o] eqn:E; [exfalso; exact (split_nonempty _ _ E)|].
    destruct (ch =? ",")%char.
    + injection Hs as <- <-.
      rewrite (IH "" _ f o Hrest eq_refl). rewrite <- app_assoc. cbn [app map].
      rewrite string_app_empty, app_nil_l. reflexivity.
    + cbn [Str.consHead] in Hs. injection Hs as <- <-.
      rewrite (IH _ _ f o Hrest eq_refl). rewrite app_snoc_str. reflexivity.
Qed.

(** X22. On a line without double quotes [parseLine] is the plain
    split: it cuts the line at every comma and trims each piece, as
    [csvParseDaily] does with its lines. *)
Theorem parseLine_plain (line : string) :
  hasChar DQ line = false -> parseLine line = csvCells line.
Proof.
  intros H. unfold parseLine, csvCells.
  destruct (Str.split "," line) as [|f o] eqn:E; [exfalso; exact (split_nonempty _ _ E)|].
  rewrite (parseLineFrom_plain line "" [] f o H E). rewrite app_nil_l. reflexivity.
Qed.

Lemma parseLine_plain_witness :
  parseLine "Month, Coal ,Hydro" = csvCells "Month, Coal ,Hydro".
Proof. apply (parseLine_plain "Month, Coal ,Hydro"). reflexivity. Defined.

Lemma parseLineFrom_quote_open (rest cur : string) (out : list string) :
  parseLineFrom (String DQ rest) cur false out = parseLineFrom rest cur true out.
Proof. cbn [parseLineFrom]. destruct rest; reflexivity. Qed.

Lemma parseLineFrom_comma (rest cur : string) (out : list string) :
  parseLineFrom (String "," rest) cur false out
  = parseLineFrom rest "" false (out ++ [Str.trim cur]).
Proof. cbn [parseLineFrom]. destruct rest; reflexivity. Qed.

Lemma parseLineFrom_inside (c : ascii) (rest cur : string) (out : list string) :
  (c =? DQ)%char = false ->
  parseLineFrom (String c rest) cur true out
  = parseLineFrom rest (cur +:+ String c "") true out.
Proof.
  intros Ec. destruct rest; cbn [parseLineFrom]; rewrite Ec; cbn [andb negb];
    rewrite ?Bool.andb_false_r; reflexivity.
Qed.

(** Inside quotes: the cell is read up to its closing quote, doubled
    quotes giving one quote each. *)
Lemma parseLineFrom_quoted (s : string) :
  forall rest cur out,
    (rest = "" \/ exists c r, rest = String c r /\ (c =? DQ)%char = false) ->
    parseLineFrom (doubleQuotes s +:+ String DQ rest) cur true out
    = parseLineFrom rest (cur +:+ s) false out.
Proof.
  induction s as [|c s IH]; intros rest cur out Hrest.
  - cbn [doubleQuotes]. rewrite app_nil_l, string_app_empty.
    destruct Hrest as [-> | (c & r & -> & Hc)]; cbn [parseLineFrom].
    + reflexivity.
    + rewrite Hc. rewrite Bool.andb_false_r. reflexivity.
  - cbn [doubleQuotes]. destruct (c =? DQ)%char eqn:Ec.
    + apply Ascii.eqb_eq in Ec as ->. rewrite !app_cons.
      cbn [parseLineFrom]. change (DQ =? DQ)%char with true. cbn [andb].
      rewrite (IH rest _ out Hrest). rewrite app_snoc_str. reflexivity.
    + rewrite app_cons, (parseLineFrom_inside c _ _ _ Ec).
      rewrite (IH rest _ out Hrest), app_snoc_str. reflexivity.
Qed.

Lemma parseLineFrom_cells (cells : list string) :
  forall out, cells <> [] ->
  parseLineFrom (joinCells (map quoted cells)) "" false out
  = out ++ map Str.trim cells.
Proof.
  induction cells as [|c rest IH]; intros out Hne; [congruence|].
  destruct rest as [|c2 rest].
  - cbn [map joinCells]. unfold quoted.
    rewrite parseLineFrom_quote_open.
    rewrite (parseLineFrom_quoted c "" "" out) by (left; reflexivity).
    rewrite app_nil_l. reflexivity.
  - change (joinCells (map quoted (c :: c2 :: rest)))
      with (quoted c +:+ String "," (joinCells (map quoted (c2 :: rest)))).
    unfold quoted at 1. rewrite app_cons, parseLineFrom_quote_open.
    rewrite app_assoc_str, app_cons, app_nil_l.
    rewrite (parseLineFrom_quoted c _ "" out)
      by (right; eexists _, _; split; reflexivity).
    rewrite app_nil_l, parseLineFrom_comma.
    rewrite IH by discriminate. rewrite <- app_assoc. reflexivity.
Qed.

(** X23. Quoting protects a cell.  When every cell of a line is written
    between double quotes, with the double quotes inside it doubled,
    [parseLine] gives back the cells, trimmed, whatever commas and quotes
    they contain. *)
Theorem parseLine_quoted (cells : list string) :
  cells <> [] ->
  parseLine (joinCells (map quoted cells)) = map Str.trim cells.
Proof. intros H. unfold parseLine. apply (parseLineFrom_cells cells [] H). Qed.

Lemma parseLine_quoted_witness :
  parseLine (joinCells (map quoted ["12,5"; String DQ "x"; ""]))
  = map Str.trim ["12,5"; String DQ "x"; ""].
Proof. apply (parseLine_quoted ["12,5"; String DQ "x"; ""]). discriminate. Defined.

(** ** The capacity history *)

Example normalize_header : normalizeHeader "  Small  -  Hydro " = "small - hydro".
Proof. vm_compute. reflexivity. Qed.

Example load_history_months :
  map month (fst (loadHistory capacityText)) = ["01/2024"; "02/2024"; "03/2024"].
Proof. vm_compute. reflexivity. Qed.

Example load_history_values :
  map (fun r => (values r !! "Solar", values r !! "Wind", values r !! "Hydro"))
      (fst (loadHistory capacityText))
  = [(Some (Num 0), Some (Num 44), Some (Num 0));
     (Some (Num 75), Some (Num 0), Some (Num 0));
     (Some (Num 80), Some (Num 45), Some (Num 0))].
Proof. vm_compute. reflexivity. Qed.

Example load_history_no_month_column :
  loadHistory (Str.joinLines ["Date,Coal"; "03/2024,5"]) = ([], NotLoaded).
Proof. vm_compute. reflexivity. Qed.

Example load_history_no_valid_month :
  loadHistory (Str.joinLines ["Month,Coal"; "soon,5"]) = ([], NoValidMonths).
Proof. vm_compute. reflexivity. Qed.

Lemma normalizeMonth_isMonthKey (raw r : string) :
  normalizeMonth raw = Some r -> isMonthKey r.
Proof.
  unfold normalizeMonth. cbv zeta.
  destruct (Str.isEmpty (Str.trim raw)); [discriminate|].
  destruct (matchMonthYear _) as [[g1 g2]|] eqn:E1.
  { intros [= <-]. apply matchMonthYear_iff in E1 as (_ & Hm & Hy).
    destruct (pad_month g1 Hm) as [-> Hp].
    exists (Str.padStart0 2 g1), g2. split; [|split; assumption].
    rewrite app_cons, app_nil_l. reflexivity. }
  destruct (matchDMY "/" _) as [[[dd mm] yyyy]|] eqn:E2.
  { intros [= <-]. apply matchDMY_iff in E2 as (_ & _ & Hm & Hy).
    exists mm, yyyy. split; [|split; assumption].
    rewrite app_cons, app_nil_l. reflexivity. }
  destruct (matchDMY "-" _) as [[[dd mm] yyyy]|] eqn:E3.
  { intros [= <-]. apply matchDMY_iff in E3 as (_ & _ & Hm & Hy).
    exists mm, yyyy. split; [|split; assumption].
    rewrite app_cons, app_nil_l. reflexivity. }
  destruct (matchISO _) as [[[yyyy mm] dd]|] eqn:E4; [|discriminate].
  intros [= <-]. apply matchISO_iff in E4 as (_ & Hy & Hm & _).
  exists mm, yyyy. split; [|split; assumption].
  rewrite app_cons, app_nil_l. reflexivity.
Qed.

Lemma rowValues_lookup (sourceIdx : string -> option nat) (row : list string) (s : string) :
  In s SOURCES ->
  exists q, rowValues sourceIdx row !! s = Some (Num q).
Proof.
  intros Hs. unfold rowValues.
  rewrite (foldl_insert_lookup
             (fun s => match sourceIdx s with
                       | Some idx => safeNum (cellAt row idx)
                       | None => Num 0
                       end) SOURCES ∅ s Hs).
  destruct (sourceIdx s) as [idx|]; [|eexists; reflexivity].
  pose proof (safeNum_finite (cellAt row idx)) as F.
  apply isFinite_Num in F as [q ->]. exists q. reflexivity.
Qed.

Lemma rowValues_finite (sourceIdx : string -> option nat) (row : list string) :
  finiteMap (rowValues sourceIdx row).
Proof.
  unfold rowValues. generalize SOURCES. intros l.
  assert (G : forall m : gmap string number, finiteMap m ->
    finiteMap (foldl
      (fun (vals : gmap string number) (s : string) =>
         <[s := match sourceIdx s with
                | Some idx => safeNum (cellAt row idx)
                | None => Num 0
                end]> vals) m l)).
  { induction l as [|s l IH]; intros m Hm; [exact Hm|].
    cbn [foldl]. apply IH. apply map_Forall_insert_2; [|exact Hm].
    destruct (sourceIdx s); [apply safeNum_finite | reflexivity]. }
  apply G, map_Forall_empty.
Qed.

Lemma historyRows_In (monthIdx : nat) (sourceIdx : string -> option nat)
    (rows : list (list string)) (r : monthRow) :
  In r (historyRows monthIdx sourceIdx rows) ->
  isMonthKey (month r) /\ exists row, values r = rowValues sourceIdx row.
Proof.
  intros H. apply list_elem_of_In, list_elem_of_omap in H as (row & _ & Hr).
  destruct (normalizeMonth _) as [mk|] eqn:E; [|discriminate].
  destruct (Str.isEmpty mk); [discriminate|]. injection Hr as <-.
  cbn [month values]. split; [eapply normalizeMonth_isMonthKey, E | exists row; reflexivity].
Qed.

(** What holds of every history that [loadHistory] leaves. *)
Lemma loadHistory_rows (text : string) :
  Forall (fun r => isMonthKey (month r)
                   /\ exists idx row, values r = rowValues idx row)
         (fst (loadHistory text))
  /\ StronglySorted (rankLe (fun r => monthRank (month r))) (fst (loadHistory text))
  /\ (snd (loadHistory text) = NoError <-> fst (loadHistory text) <> []).
Proof.
  unfold loadHistory.
  destruct (parseCSVSimple text) as [header rows].
  assert (E0 : Forall (fun r : monthRow => isMonthKey (month r)
                   /\ exists idx row, values r = rowValues idx row) []
               /\ StronglySorted (rankLe (fun r => monthRank (month r))) []
               /\ (NotLoaded = NoError <-> @nil monthRow <> [])).
  { split; [constructor|]. split; [constructor|]. split; [discriminate | congruence]. }
  destruct (_ || _); [exact E0|]. cbv zeta.
  destruct (findIndex _ _) as [monthIdx|]; [|exact E0].
  set (sourceIdx := fun s : string => findIndex _ _).
  set (parsed := historyRows monthIdx sourceIdx rows).
  set (cmp := fun a b : monthRow => compareMonthKey (month a) (month b)).
  cbn [fst snd].
  assert (Hdom : Forall (fun r => isMonthKey (month r)) parsed).
  { apply List.Forall_forall. intros r Hr.
    apply (historyRows_In monthIdx sourceIdx rows r Hr). }
  split; [|split].
  - eapply Permutation_Forall; [symmetry; apply (sort_perm cmp parsed)|].
    apply List.Forall_forall. intros r Hr.
    destruct (historyRows_In monthIdx sourceIdx rows r Hr) as [Hk (row & Hv)].
    split; [exact Hk | exists sourceIdx, row; exact Hv].
  - apply (sort_sorted cmp (fun r => monthRank (month r))
                       (fun r => isMonthKey (month r))); [|exact Hdom].
    intros x y Hx Hy. apply before_monthRank; assumption.
  - destruct (JsArray.sort cmp parsed) as [|r l]; cbn [length Nat.eqb].
    + split; [discriminate | congruence].
    + split; [discriminate | reflexivity].
Qed.

(** X24. A loaded capacity history is clean and ordered.  Whatever the
    text of the file, every row that [loadHistory] keeps has a month key
    [MM/YYYY] and a finite value for each of the eight sources, the rows
    are in ascending order of year and month, and the error is cleared
    exactly when at least one row was kept. *)
Theorem loadHistory_sorted_months (text : string) :
  Forall (fun r => isMonthKey (month r)
                   /\ forall s, In s SOURCES -> exists q, values r !! s = Some (Num q))
         (fst (loadHistory text))
  /\ StronglySorted (rankLe (fun r => monthRank (month r))) (fst (loadHistory text))
  /\ (snd (loadHistory text) = NoError <-> fst (loadHistory text) <> []).
Proof.
  destruct (loadHistory_rows text) as (H1 & H2 & H3).
  split; [|split; assumption].
  eapply List.Forall_impl; [|exact H1].
  intros r [Hk (idx & row & ->)]. split; [exact Hk|].
  intros s Hs. apply rowValues_lookup, Hs.
Qed.

Lemma insert_at_end {A : Type} (comparefn : A -> A -> number) (rank : A -> Z)
    (dom : A -> Prop) (x : A) (acc : list A) :
  (forall a b, dom a -> dom b -> JsArray.before comparefn a b = (rank a <? rank b)%Z) ->
  dom x -> Forall (fun y => dom y /\ (rank y <= rank x)%Z) acc ->
  JsArray.insert comparefn x acc = acc ++ [x].
Proof.
  intros Hb Hx Hacc. induction Hacc as [|y acc [Hy Hle] _ IH]; [reflexivity|].
  cbn [JsArray.insert]. rewrite (Hb x y Hx Hy).
  replace (rank x <? rank y)%Z with false by (symmetry; apply Z.ltb_ge; lia).
  rewrite IH. reflexivity.
Qed.

(** Sorting a list that is in ascending order leaves it as it is. *)
Lemma sort_of_sorted {A : Type} (comparefn : A -> A -> number) (rank : A -> Z)
    (dom : A -> Prop) (l : list A) :
  (forall a b, dom a -> dom b -> JsArray.before comparefn a b = (rank a <? rank b)%Z) ->
  Forall dom l -> StronglySorted (rankLe rank) l ->
  JsArray.sort comparefn l = l.
Proof.
  intros Hb Hdom Hs. unfold JsArray.sort.
  assert (G : forall l acc,
             Forall dom l -> Forall dom acc -> StronglySorted (rankLe rank) (acc ++ l) ->
             foldl (fun acc x => JsArray.insert comparefn x acc) acc l = acc ++ l).
  { clear l Hdom Hs. induction l as [|x l IH]; intros acc Hl Hacc Hs.
    - rewrite app_nil_r. reflexivity.
    - inversion Hl as [|? ? Hx Hl']; subst. cbn [foldl].
      rewrite (insert_at_end comparefn rank dom x acc Hb Hx).
      + rewrite (cons_middle x acc l), app_assoc in Hs |- *.
        apply IH; [exact Hl' | | exact Hs].
        apply Forall_app. split; [exact Hacc | constructor; [exact Hx | constructor]].
      + apply List.Forall_forall. intros y Hy. split.
        * rewrite List.Forall_forall in Hacc. apply Hacc, Hy.
        * clear IH Hacc. induction acc as [|a acc IHa]; [destruct Hy|].
          cbn [app] in Hs. apply StronglySorted_inv in Hs as [Hs Ha].
          destruct Hy as [<- | Hy].
          -- rewrite List.Forall_forall in Ha. apply Ha.
             apply List.in_or_app. right. left. reflexivity.
          -- apply IHa; assumption. }
  apply (G l []); [exact Hdom | constructor | exact Hs].
Qed.

Lemma isMonthKey_nonempty (s : string) : isMonthKey s -> Str.isEmpty s = false.
Proof. intros (mm & yyyy & -> & Hm & _). apply (digits_nonempty 1 mm _ Hm). Qed.

(** X25. The month options are the months of the loaded rows, in the
    order of the rows: month keys in ascending order of year and month,
    a month that the file gives twice listed twice. *)
Theorem monthOptions_of_loaded_history (text : string) :
  monthOptions (fst (loadHistory text)) = map month (fst (loadHistory text))
  /\ Forall isMonthKey (monthOptions (fst (loadHistory text)))
  /\ StronglySorted (rankLe monthRank) (monthOptions (fst (loadHistory text))).
Proof.
  destruct (loadHistory_rows text) as (H1 & H2 & _).
  set (history := fst (loadHistory text)) in *.
  assert (Hk : Forall isMonthKey (map month history)).
  { apply List.Forall_forall. intros s Hs.
    apply List.in_map_iff in Hs as (r & <- & Hr).
    rewrite List.Forall_forall in H1. apply (H1 r Hr). }
  assert (Hs : StronglySorted (rankLe monthRank) (map month history)).
  { clear H1 Hk. induction H2 as [|r l Hl IH Hr]; [constructor|].
    cbn [map]. constructor; [exact IH|].
    apply List.Forall_forall. intros s Hs.
    apply List.in_map_iff in Hs as (r' & <- & Hr').
    rewrite List.Forall_forall in Hr. apply (Hr r' Hr'). }
  assert (E : monthOptions history = map month history).
  { unfold monthOptions.
    assert (F : List.filter (fun s => negb (Str.isEmpty s)) (map month history)
                = map month history).
    { clear Hs. induction Hk as [|s l Hsk _ IH]; [reflexivity|].
      cbn [List.filter]. rewrite (isMonthKey_nonempty s Hsk), IH. reflexivity. }
    rewrite F.
    apply (sort_of_sorted compareMonthKey monthRank isMonthKey); try assumption.
    intros a b. apply before_monthRank. }
  rewrite E. auto.
Qed.

Example month_options_loaded :
  monthOptions (fst (loadHistory capacityText)) = ["01/2024"; "02/2024"; "03/2024"].
Proof. vm_compute. reflexivity. Qed.

(** ** Net additions *)

Lemma round2_zero : round2 (Num 0) = Num 0.
Proof. vm_compute. reflexivity. Qed.

(** The sum of the sources is a number or, after an overflow, an
    infinity. *)
Lemma sumSources_not_NaN (obj : gmap string number) (keys : list string) :
  sumSources obj keys <> NaN.
Proof.
  unfold sumSources.
  assert (H : forall acc, acc <> NaN ->
            foldl (fun acc k => JsNum.add acc (safeNum (prop obj k))) acc keys <> NaN).
  { induction keys as [|k keys IH]; intros acc Hacc; [exact Hacc|].
    cbn [foldl]. apply IH.
    pose proof (safeNum_finite (prop obj k)) as F.
    apply isFinite_Num in F as [q ->].
    destruct acc as [x| | |]; [apply round64_not_NaN | congruence | discriminate | discriminate]. }
  apply H. discriminate.
Qed.

Lemma sub_self_total (x : number) :
  x <> NaN ->
  round2 (JsNum.sub x x) = if JsNum.isFinite x then Num 0 else NaN.
Proof.
  intros Hx. destruct x as [q| | |]; [|congruence|reflexivity|reflexivity].
  rewrite sub_self. apply round2_zero.
Qed.

Lemma netAdditions_per (startTotals endTotals : option (gmap string number * number))
    (s : string) :
  In s SOURCES ->
  fst (netAdditions startTotals endTotals) !! s
  = Some match startTotals ≫= (fun t => fst t !! s),
               endTotals ≫= (fun t => fst t !! s) with
         | Some a', Some b' => round2 (JsNum.sub b' a')
         | _, _ => Num 0
         end.
Proof.
  intros Hs. unfold netAdditions. cbn [fst].
  apply (foldl_insert_lookup
           (fun s => match startTotals ≫= (fun t => fst t !! s),
                           endTotals ≫= (fun t => fst t !! s) with
                     | Some a', Some b' => round2 (JsNum.sub b' a')
                     | _, _ => Num 0
                     end) SOURCES ∅ s Hs).
Qed.

(** X26. The net additions when there is nothing to compare.  For a
    history of finite values, when the start month and the end month are
    the same, or when one of them has no row in the history, the net
    addition of every source is zero.  The total is zero as well, unless
    both months select a row whose sum over the sources has overflowed
    to an infinity: then the total is NaN. *)
Theorem netAdditions_zero (history : list monthRow) (startMonth endMonth : string) :
  Forall (fun r => finiteMap (values r)) history ->
  startMonth = endMonth
  \/ selectedRow history startMonth = None
  \/ selectedRow history endMonth = None ->
  let net := netAdditions (totalsOf (selectedRow history startMonth))
                          (totalsOf (selectedRow history endMonth)) in
  (forall s, In s SOURCES -> fst net !! s = Some (Num 0))
  /\ snd net
     = match selectedRow history startMonth, selectedRow history endMonth with
       | Some r, Some _ =>
           if JsNum.isFinite (sumSources (values r) SOURCES) then Num 0 else NaN
       | _, _ => Num 0
       end.
Proof.
  intros Hfin Hcase net. subst net.
  assert (Same : forall o : option monthRow,
            (forall r, o = Some r -> finiteMap (values r)) ->
            (forall s, In s SOURCES ->
               fst (netAdditions (totalsOf o) (totalsOf o)) !! s = Some (Num 0))
            /\ snd (netAdditions (totalsOf o) (totalsOf o))
               = match o, o with
                 | Some r, Some _ =>
                     if JsNum.isFinite (sumSources (values r) SOURCES) then Num 0 else NaN
                 | _, _ => Num 0
                 end).
  { intros [r|] Hr.
    - split.
      + intros s Hs. rewrite (netAdditions_per _ _ s Hs). cbn [totalsOf mbind option_bind fst].
        destruct (values r !! s) as [v|] eqn:Ev; [|reflexivity].
        pose proof (Hr r eq_refl s v Ev) as F. cbn beta in F.
        apply isFinite_Num in F as [q ->].
        rewrite sub_self, round2_zero. reflexivity.
      + cbn [netAdditions totalsOf snd].
        apply sub_self_total, sumSources_not_NaN.
    - split; [|reflexivity]. intros s Hs. rewrite (netAdditions_per _ _ s Hs). reflexivity. }
  destruct Hcase as [-> | [E | E]].
  - assert (Hrow : forall r, selectedRow history endMonth = Some r -> finiteMap (values r)).
    { intros r Hr. unfold selectedRow in Hr.
      destruct (Str.isEmpty endMonth); [discriminate|].
      apply List.find_some in Hr as [Hin _].
      rewrite List.Forall_forall in Hfin. apply Hfin, Hin. }
    destruct (selectedRow history endMonth) as [r|]; apply Same; exact Hrow.
  - rewrite E. split; [|reflexivity].
    intros s Hs. rewrite (netAdditions_per _ _ s Hs). reflexivity.
  - rewrite E. split.
    + intros s Hs. rewrite (netAdditions_per _ _ s Hs). cbn [totalsOf mbind option_bind].
      destruct (totalsOf _ ≫= _); reflexivity.
    + cbn [netAdditions totalsOf snd].
      destruct (selectedRow history startMonth); reflexivity.
Qed.

Lemma netAdditions_zero_witness :
  let history := fst (loadHistory capacityText) in
  let net := netAdditions (totalsOf (selectedRow history "02/2024"))
                          (totalsOf (selectedRow history "02/2024")) in
  (forall s, In s SOURCES -> fst net !! s = Some (Num 0))
  /\ snd net = Num 0.
Proof.
  intros history.
  pose proof (netAdditions_zero history "02/2024" "02/2024") as H.
  cbv zeta in *.
  destruct H as [Hper Htot].
  - destruct (loadHistory_rows capacityText) as (H & _).
    eapply List.Forall_impl; [|exact H].
    intros r [_ (idx & row & ->)]. apply rowValues_finite.
  - left. reflexivity.
  - split; [exact Hper|]. rewrite Htot. vm_compute. reflexivity.
Defined.

(** Two sources of 1e308 in the one row: the sum is +Infinity and the
    total of the net additions from the month to itself is NaN. *)
Example net_additions_overflow :
  let row := {| month := "01/2024";
                values := <["Coal" := JsNum.lit (inject_Z (10 ^ 308))]>
                            {["Oil & Gas" := JsNum.lit (inject_Z (10 ^ 308))]} |} in
  sumSources (values row) SOURCES = PInf
  /\ snd (netAdditions (totalsOf (selectedRow [row] "01/2024"))
                       (totalsOf (selectedRow [row] "01/2024"))) = NaN.
Proof. split; vm_compute; reflexivity. Qed.

Example net_additions_example :
  let history := fst (loadHistory capacityText) in
  let net := netAdditions (totalsOf (selectedRow history "01/2024"))
                          (totalsOf (selectedRow history "03/2024")) in
  (fst net !! "Coal", fst net !! "Solar", snd net)
  = (Some (Num (11 # 2)), Some (Num 80), Num (173 # 2)).
Proof. vm_compute. reflexivity. Qed.

(** ** Blank values and the one-row capacity file *)

Example capacity_row :
  (fun m => (m !! "Coal", m !! "Solar", m !! "Wind", m !! "Other"))
    <$> loadCapacitySingleRow (Str.joinLines ["Coal,solar,Wind"; "210.5,80,x"; "1,2,3"])
          {["Solar" := Num 7; "Other" := Num 1]}
  = Some (Some (Num (421 # 2)), Some (Num 0), Some (Num 0), Some (Num 1)).
Proof. vm_compute. reflexivity. Qed.

Lemma trimStart_blank (s : string) :
  blankValue s = true -> Str.trimStart (Str.removeAll "," s) = "".
Proof.
  induction s as [|c r IH]; intros H; [reflexivity|].
  cbn [blankValue] in H. apply Bool.andb_true_iff in H as [Hc Hr].
  cbn [Str.removeAll]. destruct (c =? ",")%char eqn:E; [apply IH, Hr|].
  rewrite Bool.orb_false_r in Hc. cbn [Str.trimStart]. rewrite Hc. apply IH, Hr.
Qed.

Lemma StringToNumber_blank (s : string) :
  blankValue s = true -> Conv.StringToNumber (Str.removeAll "," s) = Num 0.
Proof.
  intros H. unfold Conv.StringToNumber, Str.trim. cbv zeta.
  rewrite (trimStart_blank s H). reflexivity.
Qed.

(** X27. An empty value is saved as zero.  When the date field holds
    an accepted date and the value field holds nothing, or nothing but
    white space and commas, [upsertDaily] reports no error and stores the
    value 0 under the date. *)
Theorem upsertDaily_blank_value (ov : dayOverflow) (dateText valueText iso : string)
    (prev : gmap string number) :
  parseInputDate ov dateText = Some iso ->
  blankValue valueText = true ->
  upsertDaily ov dateText valueText prev = (<[iso := Num 0]> prev, []).
Proof.
  intros Hd Hv. unfold upsertDaily. rewrite Hd. cbn [noDate].
  assert (Str.isEmpty iso = false) as ->.
  { destruct iso; [|reflexivity].
    exfalso. eapply parseInputDate_nonempty; [exact Hd | reflexivity]. }
  cbv zeta. rewrite (StringToNumber_blank valueText Hv). reflexivity.
Qed.

Lemma upsertDaily_blank_value_witness :
  upsertDaily RollOver "01-02-2024" " , " {["2024-02-01" := Num 5]}
  = (<["2024-02-01" := Num 0]> {["2024-02-01" := Num 5]}, []).
Proof.
  apply (upsertDaily_blank_value RollOver "01-02-2024" " , " "2024-02-01").
  - vm_compute. reflexivity.
  - reflexivity.
Defined.

Lemma parseLineFrom_nonempty (n : nat) :
  forall line cur q out,
    (String.length line <= n)%nat -> parseLineFrom line cur q out <> [].
Proof.
  induction n as [|n IH]; intros line cur q out Hn.
  - destruct line; [|cbn in Hn; lia]. cbn. destruct out; discriminate.
  - destruct line as [|ch rest]; [cbn; destruct out; discriminate|].
    cbn [String.length] in Hn.
    destruct rest as [|next rest'].
    + cbn [parseLineFrom].
      destruct (ch =? DQ)%char; [destruct out; discriminate|].
      destruct (_ && _); [destruct (out ++ _) eqn:E; [destruct out|]; discriminate|].
      destruct out; discriminate.
    + cbn [String.length] in Hn.
      assert (H1 : forall cur q out, parseLineFrom (String next rest') cur q out <> [])
        by (intros; apply IH; cbn [String.length]; lia).
      assert (H2 : forall cur q out, parseLineFrom rest' cur q out <> [])
        by (intros; apply IH; lia).
      change (parseLineFrom (String ch (String next rest')) cur q out)
        with (if (ch =? DQ)%char && q && (next =? DQ)%char
              then parseLineFrom rest' (cur +:+ String DQ "") q out
              else if (ch =? DQ)%char then parseLineFrom (String next rest') cur (negb q) out
              else if (ch =? ",")%char && negb q
                   then parseLineFrom (String next rest') "" q (out ++ [Str.trim cur])
                   else parseLineFrom (String next rest') (cur +:+ String ch "") q out).
      destruct (_ && _ && _); [apply H2|].
      destruct (ch =? DQ)%char; [apply H1|].
      destruct (_ && _); apply H1.
Qed.

Lemma parseLine_nonempty (line : string) : parseLine line <> [].
Proof. apply (parseLineFrom_nonempty (String.length line)). lia. Qed.

Lemma capacity_fold (cells : gmap string string) (l : list string) :
  forall (m : gmap string number) (b : bool),
    foldl
      (fun '(next, any) (s : string) =>
         let v := safeNum (match cells !! s with
                           | Some x => VStr x
                           | None => Undefined
                           end) in
         if JsNum.isFinite v then (<[s := v]> next, true) else (next, any))
      (m, b) l
    = (foldl (fun (out : gmap string number) (s : string) =>
                <[s := safeNum (match cells !! s with
                                | Some x => VStr x
                                | None => Undefined
                                end)]> out) m l,
       b || negb (length l =? 0)%nat).
Proof.
  induction l as [|s l IH]; intros m b; [rewrite Bool.orb_false_r; reflexivity|].
  cbn [foldl]. cbv zeta. rewrite safeNum_finite. rewrite IH.
  cbn [length Nat.eqb negb orb]. rewrite Bool.orb_true_r. reflexivity.
Qed.

Lemma capacityCells_absent (header row : list string) (s : string) :
  ~ In s header -> capacityCells header row !! s = None.
Proof.
  unfold capacityCells. intros Hs.
  assert (G : forall (l : list (nat * string)) (m : gmap string string),
            (forall i h, In (i, h) l -> h <> s) -> m !! s = None ->
            foldl (fun (m : gmap string string) '(i, h) =>
                     <[h := default "" (row !! i)]> m) m l !! s = None).
  { induction l as [|[i h] l IH]; intros m Hl Hm; [exact Hm|].
    cbn [foldl]. apply IH.
    - intros i' h' Hin. apply (Hl i' h'). right. exact Hin.
    - rewrite lookup_insert_ne; [exact Hm|]. apply (Hl i h). left. reflexivity. }
  apply G; [|reflexivity].
  intros i h Hin Eh. apply Hs. subst h.
  apply list_elem_of_In in Hin. apply elem_of_lookup_imap in Hin as (j & y & E & Hj).
  injection E as -> ->. apply list_elem_of_In. eapply list_elem_of_lookup_2, Hj.
Qed.

(** X28. Loading the one-row capacity file.  [loadCapacitySingleRow]
    throws exactly when the text has fewer than two non-blank lines.
    Otherwise it leaves installed capacities where every source has a
    finite value, a source that is not a cell of the header line has the
    value 0 whatever it had before, and the keys that are not sources
    are untouched. *)
Theorem loadCapacitySingleRow_sources (text : string) (installed : gmap string number) :
  (loadCapacitySingleRow text installed = None <-> (length (csvLines text) < 2)%nat)
  /\ forall next, loadCapacitySingleRow text installed = Some next ->
       (forall s, In s SOURCES -> exists q, next !! s = Some (Num q))
       /\ (forall s, In s SOURCES -> ~ In s (fst (parseCSVSimple text)) ->
             next !! s = Some (Num 0))
       /\ (forall k, ~ In k SOURCES -> next !! k = installed !! k).
Proof.
  unfold loadCapacitySingleRow, parseCSVSimple.
  destruct (csvLines text) as [|l0 ls] eqn:El.
  { cbn. split; [split; [lia | reflexivity] | discriminate]. }
  pose proof (parseLine_nonempty l0) as Hh.
  destruct (parseLine l0) as [|h0 hs] eqn:Eh; [congruence|].
  rewrite <- Eh in *. clear Hh.
  replace (length (parseLine l0) =? 0)%nat with false by (rewrite Eh; reflexivity).
  destruct ls as [|l1 ls].
  { cbn. split; [split; [lia | reflexivity] | discriminate]. }
  cbn [map length Nat.eqb orb fst].
  rewrite capacity_fold.
  change (false || negb (length SOURCES =? 0)%nat) with true. cbv iota.
  set (cells := capacityCells _ _).
  pose (f := fun s : string => safeNum match cells !! s with
                                       | Some x => VStr x
                                       | None => Undefined
                                       end).
  set (result := foldl _ installed SOURCES).
  assert (Er : result = foldl (fun (out : gmap string number) (s : string) =>
                                 <[s := f s]> out) installed SOURCES) by reflexivity.
  clearbody result.
  split; [split; [discriminate | cbn; lia]|].
  intros next Hn. assert (next = result) as -> by congruence. rewrite Er.
  split; [|split].
  - intros s Hs. rewrite (foldl_insert_lookup f SOURCES installed s Hs).
    pose proof (safeNum_finite (match cells !! s with
                                | Some x => VStr x
                                | None => Undefined
                                end)) as F.
    apply isFinite_Num in F as [q Hq]. exists q. unfold f. rewrite Hq. reflexivity.
  - intros s Hs Hno. rewrite (foldl_insert_lookup f SOURCES installed s Hs).
    unfold f, cells. rewrite (capacityCells_absent _ _ s Hno). reflexivity.
  - intros k Hk. apply (foldl_insert_other f SOURCES installed k Hk).
Qed.

(** ** The axis domains *)

Lemma leb_below (a : number) (d q : Q) :
  JsNum.leb a (Num d) = true -> (d <= q)%Q -> JsNum.leb a (Num q) = true.
Proof.
  intros Ha Hd. destruct a as [x| | |]; try discriminate Ha; [|reflexivity].
  apply leb_Num in Ha. apply leb_Num. lra.
Qed.

Lemma leb_above (b : number) (d q : Q) :
  JsNum.leb (Num d) b = true -> (q <= d)%Q -> JsNum.leb (Num q) b = true.
Proof.
  intros Hb Hd. destruct b as [y| | |]; try discriminate Hb; [|reflexivity].
  apply leb_Num in Hb. apply leb_Num. lra.
Qed.

(** The padding of [computeDomain] is a number, not below [minAbsPad],
    or +Infinity. *)
Lemma computeDomain_pad (mn mx c m : Q) (same : bool) :
  (mn <= mx)%Q -> (0 < c)%Q ->
  let pad := JsNum.max (Num m)
               (if same then JsNum.mul (JsNum.abs (Num mn)) (Num c)
                else JsNum.mul (JsNum.sub (Num mx) (Num mn)) (Num c)) in
  pad = PInf \/ exists p, pad = Num p /\ (m <= p)%Q.
Proof.
  intros Hle Hc pad. subst pad.
  assert (Ht : forall t, t = PInf \/ (exists r, t = Num r) ->
             JsNum.max (Num m) t = PInf
             \/ exists p, JsNum.max (Num m) t = Num p /\ (m <= p)%Q).
  { intros t Ht. destruct (max_pad m t Ht) as [E|(p & E & Hp & _)]; eauto. }
  apply Ht. destruct same.
  - cbn [JsNum.abs JsNum.mul]. apply round64_finite_or_PInf.
    rewrite Qred_correct. pose proof (Qabs_nonneg mn). nra.
  - cbn [JsNum.sub].
    destruct (round64_finite_or_PInf (mx - mn) ltac:(lra)) as [E|[r E]]; rewrite E.
    + left. cbn [JsNum.mul]. unfold JsNum.scaleInf.
      apply Qsign_Gt in Hc. rewrite Hc. reflexivity.
    + cbn [JsNum.mul]. apply round64_finite_or_PInf.
      assert (Hr : (0 <= r)%Q).
      { pose proof (round64_ge (mx - mn) 0 eq_refl ltac:(lra)) as Hl.
        apply (leb_Num_inv 0 _ r Hl E). }
      nra.
Qed.

(** No binary64 value of the list lies outside the domain. *)
Lemma computeDomain_encloses (values : list (option number)) (padPct minAbsPad : Q)
    (lo hi : number) :
  (forall q, In (Some (Num q)) values -> binary64 q) ->
  (0 <= minAbsPad)%Q -> (0 < padPct)%Q ->
  computeDomain values (Num padPct) (Num minAbsPad) = Some (lo, hi) ->
  forall q, In (Some (Num q)) values ->
    JsNum.leb lo (Num q) = true /\ JsNum.leb (Num q) hi = true.
Proof.
  intros Hb Hm Hc. unfold computeDomain.
  destruct (finiteValues values) as [|n nums] eqn:Enums; [discriminate|].
  cbn [length Nat.eqb].
  assert (Hfin : allFinite (n :: nums)).
  { rewrite <- Enums. apply finiteValues_allFinite. }
  destruct (minOf_spec (n :: nums) Hfin ltac:(discriminate)) as (mn & Hmn & Imn & Hmin).
  destruct (maxOf_spec (n :: nums) Hfin ltac:(discriminate)) as (mx & Hmx & Imx & Hmax).
  rewrite Hmn, Hmx.
  assert (Hin : forall q, In (Some (Num q)) values -> (mn <= q <= mx)%Q).
  { intros q Hq.
    assert (In (Num q) (n :: nums)).
    { rewrite <- Enums. apply finiteValues_In. split; [exact Hq | reflexivity]. }
    split; [apply Hmin | apply Hmax]; assumption. }
  assert (Bmn : binary64 mn).
  { apply Hb. rewrite <- Enums in Imn. apply finiteValues_In in Imn. tauto. }
  assert (Bmx : binary64 mx).
  { apply Hb. rewrite <- Enums in Imx. apply finiteValues_In in Imx. tauto. }
  assert (Hle : (mn <= mx)%Q) by (apply Hmin; exact Imx).
  pose proof (computeDomain_pad mn mx padPct minAbsPad (JsNum.eqb (Num mn) (Num mx)) Hle Hc)
    as Hpad. cbv zeta in Hpad.
  intros H q Hq. specialize (Hin q Hq).
  set (pad := JsNum.max (Num minAbsPad)
                (if JsNum.eqb (Num mn) (Num mx)
                 then JsNum.mul (JsNum.abs (Num mn)) (Num padPct)
                 else JsNum.mul (JsNum.sub (Num mx) (Num mn)) (Num padPct))) in *.
  assert (E : lo = JsNum.sub (Num mn) pad /\ hi = JsNum.add (Num mx) pad).
  { subst pad. destruct (JsNum.eqb (Num mn) (Num mx)); injection H as <- <-;
      split; reflexivity. }
  destruct E as [-> ->]. clearbody pad.
  destruct Hpad as [-> | (p & -> & Hp)]; [split; reflexivity|].
  destruct (padded_outwards mn mx p Bmn Bmx ltac:(lra)) as [Hlo Hhi].
  split; [apply (leb_below _ mn) | apply (leb_above _ mx)]; tauto.
Qed.

(** X29. No plotted value lies outside the axis domains.  For chart
    points that hold binary64 values: when the left axis has a domain,
    every finite value and previous-year value of the chart points lies
    between its ends; when the right axis has a domain, every finite
    year-over-year percentage lies between its ends. *)
Theorem axis_domains_enclose (dailyChart : list chartPoint) (p : chartPoint) :
  Forall binary64Point dailyChart ->
  In p dailyChart ->
  (forall lo hi, leftAxisDomain dailyChart = Some (lo, hi) ->
     (forall q, units p = Num q ->
        JsNum.leb lo (Num q) = true /\ JsNum.leb (Num q) hi = true)
     /\ (forall q, prev_year_units p = Some (Num q) ->
           JsNum.leb lo (Num q) = true /\ JsNum.leb (Num q) hi = true))
  /\ (forall lo hi, rightAxisDomain dailyChart = Some (lo, hi) ->
        forall q, yoy_pct p = Some (Num q) ->
          JsNum.leb lo (Num q) = true /\ JsNum.leb (Num q) hi = true).
Proof.
  intros Hall Hp. rewrite List.Forall_forall in Hall.
  pose proof lit_twentieth as Hpct.
  split.
  - intros lo hi H. unfold leftAxisDomain in H. rewrite Hpct in H.
    assert (Hb : forall q,
              In (Some (Num q))
                 (flat_map (fun p => [Some (units p); prev_year_units p]) dailyChart) ->
              binary64 q).
    { intros q Hq. apply List.in_flat_map in Hq as (p' & Hp' & Hq).
      destruct (Hall p' Hp') as (Bu & Bp & _).
      destruct Hq as [Hq|[Hq|[]]].
      - injection Hq as Hq. rewrite Hq in Bu. exact Bu.
      - apply (Bp (Num q)). exact Hq. }
    assert (Henc := fun Hm Hc => computeDomain_encloses _ _ _ lo hi Hb Hm Hc H).
    specialize (Henc ltac:(discriminate) ltac:(reflexivity)).
    split.
    + intros q Hq. apply Henc. apply List.in_flat_map. exists p.
      split; [exact Hp|]. left. rewrite Hq. reflexivity.
    + intros q Hq. apply Henc. apply List.in_flat_map. exists p.
      split; [exact Hp|]. right. left. exact Hq.
  - intros lo hi H. unfold rightAxisDomain in H. rewrite Hpct in H.
    assert (Hb : forall q, In (Some (Num q)) (map yoy_pct dailyChart) -> binary64 q).
    { intros q Hq. apply List.in_map_iff in Hq as (p' & Hq & Hp').
      destruct (Hall p' Hp') as (_ & _ & By). apply (By (Num q)). exact Hq. }
    assert (Henc := fun Hm Hc => computeDomain_encloses _ _ _ lo hi Hb Hm Hc H).
    specialize (Henc ltac:(discriminate) ltac:(reflexivity)).
    intros q Hq. apply Henc. rewrite <- Hq. apply List.in_map, Hp.
Qed.

Lemma axis_domains_enclose_witness :
  let p := {| label := "01-03-2024"; units := Num 110;
              prev_year_units := Some (Num 100); yoy_pct := Some (Num 10) |} in
  (forall lo hi, leftAxisDomain [p] = Some (lo, hi) ->
     (forall q, units p = Num q ->
        JsNum.leb lo (Num q) = true /\ JsNum.leb (Num q) hi = true)
     /\ (forall q, prev_year_units p = Some (Num q) ->
           JsNum.leb lo (Num q) = true /\ JsNum.leb (Num q) hi = true))
  /\ (forall lo hi, rightAxisDomain [p] = Some (lo, hi) ->
        forall q, yoy_pct p = Some (Num q) ->
          JsNum.leb lo (Num q) = true /\ JsNum.leb (Num q) hi = true).
Proof.
  intros p. apply (axis_domains_enclose [p] p); [|left; reflexivity].
  constructor; [|constructor].
  split; [vm_compute; reflexivity|].
  split; intros v [= <-]; vm_compute; reflexivity.
Defined.

Example axis_domains :
  let p := {| label := "01-03-2024"; units := Num 110;
              prev_year_units := Some (Num 100); yoy_pct := Some (Num 10) |} in
  leftAxisDomain [p] = Some (Num (199 # 2), Num (221 # 2))
  /\ rightAxisDomain [p] = Some (Num 9, Num 11).
Proof. vm_compute. split; reflexivity. Qed.

(** The margin can round away: with the values 1e16 and 1e16 + 2 the
    padding is 0.5 and the lower end of the left axis is 1e16 itself. *)
Example axis_domain_edge :
  let p := {| label := "01-03-2024"; units := Num (inject_Z (10 ^ 16 + 2));
              prev_year_units := Some (Num (inject_Z (10 ^ 16))); yoy_pct := None |} in
  leftAxisDomain [p] = Some (Num (inject_Z (10 ^ 16)), Num (inject_Z (10 ^ 16 + 2))).
Proof. vm_compute. reflexivity. Qed.
